(* ===== verification/_CoqProject ===== *)
-Q . S2P
Prelude.v
GoStrings.v
Net.v
Regex.v
Query.v
Chain.v
Cache.v
Events.v
Contract.v
Authority.v
RateLimit.v
Encoding.v
Pki.v
Zk.v
Pay.v
Handle.v
Udp.v
Torrent.v
Seed.v
ContentType.v
Web.v
Cli.v
Flags.v
Lookup.v
Fetch.v
Config.v
Boot.v
Showcase.v
System.v
Owner.v
Ddns.v
Server.v
Load.v
Deployment.v
Coherence.v
ZkGen.v
Incentives.v
Channels.v
Abi.v
NamespaceDAppBinding.v
RecordSchemaRegistryBinding.v
ResolverIncentivesBinding.v
ResolverRegistryBinding.v
Bindings.v
Registry.v
Node.v
Watcher.v
Discovery.v
Clients.v
