(* ===== verification/Prelude.v ===== *)
(** * A verification of the decentralized DNS resolver

    The repository holds a resolver for a name space kept in an Ethereum contract.
    Owners write records (name, type, selector, fields, TTL) to the contract and
    sign them; the resolver (src/resolver/cmd/resolver, internal/) reads them,
    checks the owner's signature, attaches a Groth16 proof of the record's
    commitment, caches the answer and serves it signed, over HTTP and UDP; clients
    (cmd/ddns-lookup, cmd/ddns-fetch) check everything again; owners use cmd/ddns.
    The development models the Go code under src/resolver, file by file, and the
    four contracts it works with, and proves what makes each part correct and what their
    compositions promise.

    ** The files and the code they model

    - [Prelude] (this file): outcomes of Go functions (value, error, panic), the index
      and slice expressions of Go, which panic out of range, bytes, big-endian
      integers, shared lemmas and tactics. [GoStrings], [Net]: the parts
      of Go's strings, strconv, unicode/utf8, sort and net packages the code calls.
      [Regex]: regular expressions with a derivative matcher. [Encoding]:
      hexadecimal, the [Hexutil] interface and length-prefixed strings.
    - [Query]: internal/query. Grammars of names, types and selectors; the canonical
      selector for every iteration order of the Go map; the grammars of the contracts.
    - [Chain]: internal/chain/types.go, client.go. Records and answers, the retry
      loop as a function on a world, the [ChainReader] interface of server/handle.go
      and its instance, the client.
    - [Cache]: internal/cache. The LRU is the class [LruOps] with laws [LruLaws];
      [ListLru] is an instance. Cache operations are atomic (one mutex); an abstract
      map ([spec_run]) is simulated by every trace.
    - [Events]: internal/chain/events.go and the generated log iterator of
      bindings/namespace_dapp.go, with the choices of its select statements.
    - [RateLimit]: server/ratelimit.go over the interface [RateOps] of a token bucket.
    - [Pki]: internal/pki. Record messages, owner signatures (class [EthCrypto]),
      resource manifests, envelopes and the identity (class [Ed25519]).
    - [Zk]: internal/zk and cmd/record-commit; gnark is the class [Groth16], its hash
      the class [Mimc]. [Pay]: internal/pay, payment vouchers, with the digest of
      ResolverIncentives.sol.
    - [Contract]: contracts/NamespaceDApp.sol and RecordSchemaRegistry.sol, every
      transaction and view over their storage; value sent to a function that is not
      payable reverts. [Authority]: what they guarantee over every sequence of
      transactions, and between any two moments.
    - [Handle]: server/handle.go and the response building of server/rest.go, over
      histories of queries, events and flushes ([told]: what the chain answered to
      which query, with nothing about it since).
    - [System]: the same query split at the points where goroutines interleave,
      next to the event watcher started by Run (server.go) and the invalidations of
      the showcase: a labelled transition relation and an executable scheduler.
    - [Udp]: server/udp.go. [Torrent], [Seed]: internal/torrent, autoSeedUploads of
      server.go. [ContentType]: internal/contenttype. [Web]: server/rest.go,
      resource.go, web.go, admin.go and the health check. [Showcase]:
      server/showcase.go. [Config]: internal/config. [Boot]: New of server.go, Dial.
    - [Server]: the assembled server: the route table of registerRoutes under the
      matching rules of net/http, both front ends over one cache and one limiter,
      Run of server.go and cmd/resolver.
    - [Load]: serveUDP with its handlers as goroutines of [System], under the limiter
      and the semaphore; an executable scheduler.
    - [Cli], [Lookup], [Fetch], [Owner]: cmd/ddns-lookup, cmd/ddns-fetch, cmd/ddns,
      from the parsed flags on; a command is a program on the contracts whose
      transactions are recorded. [Flags]: reorder and package flag; [Ddns]: main of
      cmd/ddns, the flags of its commands, what publish-resource and seed do after.
      [ZkGen]: cmd/zkgen, over the files of a disk.
    - [Deployment]: the contracts as the world that the resolver's client reads and
      the owner's tool writes: instances of [ChainReader] and [ChainWriter].
      [Coherence]: the resolver of [System] over these contracts: transactions, time,
      the steps of the goroutines and event deliveries in any order.
    - [Incentives]: contracts/ResolverIncentives.sol, the payment channels.
      [Channels]: the channel commands of cmd/ddns over it.
    - [Registry]: contracts/ResolverRegistry.sol, the directory of resolvers, and what
      an operator's transactions of a history amount to ([standing]).
    - [Abi]: the interface between the generated bindings and go-ethereum's bound
      contracts (classes [Bound], [BoundLaws]; Go types that mirror ABI types as
      [gotype]), and the subscriptions of WatchX as a state machine.
      [NamespaceDAppBinding], [RecordSchemaRegistryBinding],
      [ResolverIncentivesBinding], [ResolverRegistryBinding]:
      internal/chain/bindings, a definition per method of the callers, transactors
      and filterers. [Bindings]: what they promise over any bound contract.
    - [Node]: a node that runs the four contracts, as an instance of [Bound]; the
      chain client and the transactions of cmd/ddns over the bindings on it.
      [Watcher]: collectEvents of internal/chain/events.go over the generated
      filters. [Discovery]: announce-resolver, resolvers and --discover over it.
      [Clients]: main of cmd/ddns-lookup and cmd/ddns-fetch from the command line on,
      ddns-lookup reading the node through the bindings.

    ** What the theorems show

    - End to end: a lookup that exits with success printed what the contract holds
      ([lookup_fails_closed]) and an honest resolver's answer is accepted
      ([lookup_accepts_honest]); from the command line to the contracts' storage, a
      discovering lookup is anchored to both contracts it reads
      ([discovering_lookup_anchored]); served bytes are those of the record the chain
      told the server for that query, signed by the owner the chain named
      ([served_bytes_are_genuine]), and downloaded ones are the owner's
      ([fetch_writes_verified], [fetch_gets_resource], [resource_response_verifies]).
    - The contracts: their storage stays well typed ([storage_typed]), the key list
      of a name is exactly its live records ([listRecords_exact]), an answer changes
      only with an event that drops it from the caches or with the expiry of its name
      ([changes_announced]), a
      handover leaves nothing of the former owner within reach ([handover_revokes]),
      a registration reveals a commitment of the right age ([register_reveals]) and
      no transaction trips a checked operation ([exec_never_panics]).
    - The system over the contracts: what "ddns set" publishes is what the resolver
      answers, verified ([set_then_resolve]); "ddns register" succeeds for a free
      name that others leave alone ([cmdRegister_succeeds]); an answer about an active
      name, for a key with no event on its way and not raced by its last one, is the
      contract's current one, in every interleaving ([cache_coherent]). These
      discharge for the contract what the lookup client assumes of records
      ([chain_answers_bounded]).
    - The assembled server: the invariant of its answers over all three inputs
      ([front_ends_vetted]), the limiter in front of every route and of UDP
      ([refused_client_costs_nothing]), the one route whose handler can panic
      ([only_web_panics]).
    - The running resolver, in every interleaving ([System]): where a cached answer
      comes from, when push invalidation is effective, that every positive answer
      was vetted; the UDP front end under load ([udp_under_load]) sheds what exceeds
      its slots, answers every datagram once, with its query's answer or an error
      status, and never loses a handler; a query alone
      is [HandleQuery]. [HandleQuery_read_through] and
      [answer_proofs_verify] give its function.
    - The cache: indexes and bounds as an invariant of every trace, exactness of
      invalidation. The watcher: no event is skipped, whatever fails, and a quiet
      tick reaches the head. The limiter refines one bucket per client.
    - The formats: messages and commitments are injective or binding under stated
      collision hypotheses, and one signature verifies one record
      ([VerifyOwnerSig_no_replay]); packets, selectors, proofs, vouchers and amounts
      are read back from what was written; the decoders index and slice within the
      packet ([decoders_total]).
    - The owner's side: commands anchor records that verify; registration commits
      before it reveals; publishing seeds a file that downloads verify against;
      flags may stand anywhere on the command line ([flags_anywhere]); after a
      set-up the resolver proves and accepts with the keys it wrote ([setup_serves]).
    - Payments: channels conserve money and never lock it ([channels_conserve]); the
      claims of a history collect no more than the submitted vouchers of the client
      that opened the channel allow ([never_overpaid]); the
      voucher "ddns voucher" prints is redeemed once by "ddns channel-claim"
      ([voucher_redeems]).
    - The bindings: reads never panic ([reads_never_panic]) and watch subscriptions
      forward every event once ([watch_forwards]), over any bound contract. Over the
      node they are faithful: the models that take contract calls as operations
      ([Deployment], [Channels]) are what the generated code computes
      ([bindings_refine]), and a window of blocks is collected completely
      ([window_collected]).
    - Discovery: the directory lists exactly the operators whose last word in the
      history is an announcement, with its key and endpoint ([directory_exact]), and
      an announced resolver is found
      ([announced_resolver_found]).
    - Errors: the configuration is accepted exactly when in range; every UDP packet
      gets a reply that fits (an error body past 65535 bytes is left out,
      [Udp.long_error_dropped]); the boot never fails for its cache.

    ** Parameters and hypotheses

    Code outside the repository is a class or a variable: elliptic curves, hashes,
    gnark, the LRU, token buckets, anacrolix/torrent, JSON encoders, RPC calls,
    clocks (a reading is an argument of the operation that takes it). What a proof
    needs of it is a law of the class or a named hypothesis: signatures verify what
    they sign, keccak256 separates the names in use and the channels opened, the MiMC hash has no collision
    on the messages compared, a signature recovers one key from one digest only (modulo
    the order of the curve's group), token buckets refill within 59 seconds of idling.
    No hypothesis restricts what the holder of a key signs.
    Each property with a hypothesis has a witness at concrete instances, toy ones
    where the library is cryptographic.

    ** Bounds and fuel

    Loops with fuel: the packet decoders (the packet's length: each round consumes
    three bytes at least), the catch-up loop of the watcher ([catch_up_fuel]: each
    round advances a block), the iterator's drain (the logs left). That the fuel is
    enough is proved with the function's theorem. Machine integers are Z with the
    wrap-around written out where the code can reach it: uint64 block arithmetic,
    cache counters, durations, length prefixes, the contract's casts; its checked
    arithmetic panics. Theorems over a contract's history bound its length by 2^38 or
    2^64 transactions, so that generations and renewed expiries cannot wrap, and a
    block's time by 2^62 seconds.

    ** What modelling showed

    The stale entry of [System.invalidation_race], served by [Coherence.raced_answer_served],
    the error bodies lost in [Udp.long_error_dropped], the nil dereference of
    [Web.handleWeb_panics_on_bad_name] and [Lookup.lookup_crashes_without_record],
    the lost torrent of [Torrent.reader_can_lose_torrent], the evicted seed of
    [Torrent.seeded_can_be_dropped], the capital digits of
    [Fetch.fetch_rejects_capitals], the unclosed connection of
    [Boot.New_leaks_connection], the registration anyone can hold up of
    [Authority.recommit_blocks_register], the expired names that are served of
    [Coherence.expired_name_served], the cut selector and TTL of
    [Ddns.sync_cuts_selector] and [Ddns.ttl_wraps], and comments that promise more
    than the code does.

    ** Not modelled

    The session, raw and deployment functions of the generated bindings, which
    nothing in the repository uses, and the byte-level ABI encoding, which is
    go-ethereum's ([Abi] stops at typed values); logging and printed texts, the HTML of the admin page and the showcase's static
    assets; redirects of net/http for paths that are not clean; the
    generated ZKVerifier; re-entrant calls from a refund or a payment (the
    storage is settled before the call); the browser
    extension and scripts.

    ** Plan

    Left for later: transactions of other accounts between the steps of [Node] (as
    [Coherence] has them for the name contracts), and the HTTP handlers other than
    /resolve as goroutines of [System]. *)
From stdpp Require Export base decidable list gmap sorting numbers countable strings.
From Stdlib Require Export ZArith Lia.
From Stdlib Require Export Strings.Byte.

#[global] Set Default Goal Selector "!".

(** * Outcomes of Go functions

    A Go function that returns [(v, error)] and that may also panic (an index
    out of range) ends in one of three ways. *)
Inductive go (E A : Type) : Type :=
| Ret (a : A)
| Err (e : E)
| Panic.
Arguments Ret {E A} a.
Arguments Err {E A} e.
Arguments Panic {E A}.

#[export] Instance go_ret {E} : MRet (go E) := fun A a => Ret a.
#[export] Instance go_bind {E} : MBind (go E) := fun A B f m =>
  match m with
  | Ret a => f a
  | Err e => Err e
  | Panic => Panic
  end.
#[export] Instance go_eq_dec {E A} `{EqDecision E, EqDecision A} : EqDecision (go E A).
Proof. solve_decision. Defined.

(** [if err := m; err != nil { return wrap(err) }] *)
Definition map_err {E F A} (f : E -> F) (m : go E A) : go F A :=
  match m with
  | Ret a => Ret a
  | Err e => Err (f e)
  | Panic => Panic
  end.

(** The result of an index expression: Go panics when it is out of range. *)
Definition or_panic {E A} (o : option A) : go E A :=
  match o with Some a => Ret a | None => Panic end.

(** The result of a call that does not panic, which is proved at the call. *)
Definition no_panic {E A} (m : go E A) : m <> Panic -> A + E :=
  match m with
  | Ret a => fun _ => inl a
  | Err e => fun _ => inr e
  | Panic => fun H => False_rect _ (H eq_refl)
  end.

Lemma no_panic_spec {E A} (m : go E A) (H : m <> Panic) : m = match no_panic m H with inl a => Ret a | inr e => Err e end.
Proof. by destruct m. Qed.

Lemma bind_not_panic {E A B} (m : go E A) (f : A -> go E B) :
  m <> Panic -> (forall a, m = Ret a -> f a <> Panic) -> m ≫= f <> Panic.
Proof. destruct m; cbn; auto. Qed.

Definition is_ret {E A} (m : go E A) : bool :=
  match m with Ret _ => true | _ => false end.

Lemma is_ret_ex {E A} (m : go E A) : is_ret m = true -> exists a, m = Ret a.
Proof. destruct m; naive_solver. Qed.

(** A closed equation between values, by evaluation in the kernel's machine: the
    values are compared there and not read back into terms. *)
Ltac vm_refl := match goal with |- @eq ?A _ ?b => vm_cast_no_check (@eq_refl A b) end.

Lemma go_bind_ret {E A B} (m : go E A) (f : A -> go E B) b :
  m ≫= f = Ret b <-> exists a, m = Ret a /\ f a = Ret b.
Proof. destruct m; naive_solver. Qed.

(** * Bytes

    Go's [string] and [[]byte] are both byte sequences; both are [list byte]
    here, and the conversions between them are the identity. *)
Abbreviation bytes := (list byte).

(** Byte-string literals. *)
Definition str (s : String.string) : bytes := String.list_byte_of_string s.
Arguments str s%_string.

#[export] Instance byte_eq_dec : EqDecision byte := Byte.byte_eq_dec.

Definition b2z (b : byte) : Z := Z.of_N (Byte.to_N b).
Definition z2b (z : Z) : byte :=
  match Byte.of_N (Z.to_N (z mod 256)) with Some b => b | None => x00 end.

Lemma b2z_range b : (0 <= b2z b < 256)%Z.
Proof. unfold b2z. pose proof (Byte.to_N_bounded b). lia. Qed.

Lemma b2z_z2b z : b2z (z2b z) = (z mod 256)%Z.
Proof.
  unfold b2z, z2b.
  pose proof (Z.mod_pos_bound z 256 ltac:(lia)).
  destruct (Byte.of_N (Z.to_N (z mod 256))) as [b|] eqn:E.
  - apply Byte.to_of_N in E. rewrite E. lia.
  - apply Byte.of_N_None_iff in E. lia.
Qed.

Lemma z2b_b2z b : z2b (b2z b) = b.
Proof. by destruct b. Qed.

Lemma b2z_inj b c : b2z b = b2z c -> b = c.
Proof. intros H. by rewrite <- (z2b_b2z b), H, z2b_b2z. Qed.

#[export] Instance b2z_Inj : Inj (=) (=) b2z.
Proof. exact b2z_inj. Qed.

#[export] Program Instance byte_countable : Countable byte :=
  inj_countable' b2z z2b z2b_b2z.

(** Bytes are decided by their 256 cases. *)
Ltac by_bytes := repeat match goal with b : byte |- _ => destruct b; revert b end.

(** * Big-endian encodings

    [binary.BigEndian.PutUint16/32/64] write [uintN(z)], that is [z] modulo
    [256^n]; [big.Int.SetBytes] and [binary.BigEndian.UintN] read it back. *)
Fixpoint be_bytes (n : nat) (z : Z) : bytes :=
  match n with
  | O => []
  | S n => z2b (z / 256 ^ Z.of_nat n) :: be_bytes n z
  end.

Definition be_Z (l : bytes) : Z :=
  fold_left (fun acc b => acc * 256 + b2z b)%Z l 0%Z.

Lemma be_bytes_length n z : length (be_bytes n z) = n.
Proof. induction n; simpl; congruence. Qed.

Lemma be_Z_acc l acc :
  fold_left (fun acc b => acc * 256 + b2z b)%Z l acc
  = (acc * 256 ^ Z.of_nat (length l) + be_Z l)%Z.
Proof.
  unfold be_Z. revert acc. induction l as [|b l IH]; intros acc; cbn [fold_left length].
  - lia.
  - rewrite IH, (IH (0 * 256 + b2z b)%Z), Nat2Z.inj_succ, Z.pow_succ_r by lia. lia.
Qed.

Lemma be_Z_cons b l : be_Z (b :: l) = (b2z b * 256 ^ Z.of_nat (length l) + be_Z l)%Z.
Proof. unfold be_Z at 1. cbn [fold_left]. rewrite be_Z_acc. lia. Qed.

Lemma be_Z_app l l' : be_Z (l ++ l') = (be_Z l * 256 ^ Z.of_nat (length l') + be_Z l')%Z.
Proof. unfold be_Z at 1. rewrite fold_left_app, be_Z_acc. done. Qed.

Lemma be_Z_range l : (0 <= be_Z l < 256 ^ Z.of_nat (length l))%Z.
Proof.
  induction l as [|b l IH]; [done|].
  rewrite be_Z_cons. cbn [length]. rewrite Nat2Z.inj_succ, Z.pow_succ_r by lia.
  pose proof (b2z_range b). nia.
Qed.

Lemma be_Z_be_bytes n z : be_Z (be_bytes n z) = (z mod 256 ^ Z.of_nat n)%Z.
Proof.
  induction n as [|n IH]; [by rewrite Z.mod_1_r|].
  cbn [be_bytes]. rewrite be_Z_cons, be_bytes_length, IH, b2z_z2b.
  rewrite Nat2Z.inj_succ, Z.pow_succ_r by lia.
  rewrite (Z.mul_comm 256), Z.rem_mul_r by lia. lia.
Qed.

Lemma be_Z_small n z : (0 <= z < 256 ^ Z.of_nat n)%Z -> be_Z (be_bytes n z) = z.
Proof. intros. rewrite be_Z_be_bytes. by apply Z.mod_small. Qed.

(** Go's index and slice expressions on a byte slice: a panic out of range. A slice
    past the length but within the capacity, which Go allows, is a panic here too:
    no expression of the code relies on it. *)
Definition go_index {E} (b : bytes) (i : Z) : go E byte := if (0 <=? i)%Z then or_panic (b !! Z.to_nat i) else Panic.
Definition go_slice {E} (b : bytes) (lo hi : Z) : go E bytes :=
  if ((0 <=? lo) && (lo <=? hi) && (hi <=? Z.of_nat (length b)))%Z
  then Ret (take (Z.to_nat (hi - lo)) (drop (Z.to_nat lo) b)) else Panic.

Lemma go_index_app {E} pre x post i : i = Z.of_nat (length pre) -> go_index (E := E) (pre ++ x :: post) i = Ret x.
Proof.
  intros ->. unfold go_index. rewrite (proj2 (Z.leb_le _ _)) by lia. rewrite Nat2Z.id.
  by rewrite lookup_app_r, Nat.sub_diag by lia.
Qed.

Lemma go_slice_app {E} pre mid post lo hi :
  lo = Z.of_nat (length pre) -> hi = (lo + Z.of_nat (length mid))%Z -> go_slice (E := E) (pre ++ mid ++ post) lo hi = Ret mid.
Proof.
  intros -> ->. unfold go_slice. rewrite !length_app, !(proj2 (Z.leb_le _ _)) by lia. cbn [andb].
  rewrite Nat2Z.id, drop_app_length. replace (Z.to_nat _) with (length mid) by lia. by rewrite take_app_length.
Qed.

Lemma go_index_in {E} (b : bytes) i : (0 <= i < Z.of_nat (length b))%Z -> exists x, go_index (E := E) b i = Ret x.
Proof.
  intros [H0 H]. unfold go_index. rewrite (proj2 (Z.leb_le _ _)) by lia.
  destruct (lookup_lt_is_Some_2 b (Z.to_nat i) ltac:(lia)) as [x ->]. by exists x.
Qed.

Lemma go_slice_in {E} (b : bytes) lo hi :
  (0 <= lo <= hi)%Z -> (hi <= Z.of_nat (length b))%Z ->
  exists v, go_slice (E := E) b lo hi = Ret v /\ Z.of_nat (length v) = (hi - lo)%Z.
Proof.
  intros H H'. unfold go_slice. rewrite !(proj2 (Z.leb_le _ _)) by lia. cbn [andb].
  eexists. split; [reflexivity|]. rewrite length_take, length_drop. lia.
Qed.

Lemma be_Z_inj l1 l2 : length l1 = length l2 -> be_Z l1 = be_Z l2 -> l1 = l2.
Proof.
  revert l2. induction l1 as [|b1 l1 IH]; intros [|b2 l2]; try done.
  intros [= Hlen]. rewrite !be_Z_cons, Hlen. intros Heq.
  pose proof (be_Z_range l1) as R1. pose proof (be_Z_range l2) as R2.
  rewrite Hlen in R1.
  assert (b2z b1 = b2z b2) as Hb by nia.
  apply b2z_inj in Hb as ->. f_equal. apply IH; [done|lia].
Qed.

Lemma be_bytes_inj n z1 z2 :
  be_bytes n z1 = be_bytes n z2 -> (z1 mod 256 ^ Z.of_nat n = z2 mod 256 ^ Z.of_nat n)%Z.
Proof. intros H. by rewrite <- !be_Z_be_bytes, H. Qed.

(** * Lists *)

Lemma app_inj_length {A} (a b c d : list A) :
  length a = length c -> a ++ b = c ++ d -> a = c /\ b = d.
Proof. apply app_inj_1. Qed.

Lemma forallb_True_eq {A} (f : A -> bool) l :
  forallb f l = true <-> Forall (fun x => f x = true) l.
Proof. rewrite forallb_forall, List.Forall_forall. done. Qed.

Lemma map_fst_pair {A B} (f : A -> B) (l : list A) : (map (fun a => (a, f a)) l).*1 = l.
Proof. induction l as [|a l IH]; simpl; [done|]. f_equal. exact IH. Qed.

(** * Hints and tactics of the development *)
Create HintDb ddns.
Create Rewrite HintDb ddns.
#[export] Hint Resolve b2z_range be_Z_range be_bytes_length : ddns.
#[export] Hint Rewrite @length_app be_bytes_length b2z_z2b : ddns.

(** Split every boolean or option test in the goal, keeping its equation. *)
Ltac split_match :=
  match goal with
  | |- context [match ?x with _ => _ end] =>
      lazymatch x with
      | context [match _ with _ => _ end] => fail
      | _ => let E := fresh "E" in destruct x eqn:E
      end
  end.
