(* ===== verification/GoStrings.v ===== *)
(** The parts of Go's [unicode/utf8], [strings], [strconv] and [sort] packages
    that the repository calls, on byte sequences: UTF-8 decoding with its
    replacement of invalid bytes, [TrimSpace], [ToLower]/[ToUpper], [Split],
    [Cut], [Join], [Atoi]/[Itoa] and the byte-wise string order. *)
From S2P Require Import Prelude.

Local Open Scope Z_scope.

(** * UTF-8 *)

(** utf8.RuneError *)
Definition rune_error : Z := 65533.

Definition in_range (lo hi x : Z) : bool := (lo <=? x) && (x <=? hi).
Definition is_cont (b : byte) : bool := in_range 128 191 (b2z b).

(** The low six bits of a continuation byte. *)
Definition cont_bits (b : byte) : Z := b2z b - 128.

(** utf8.DecodeRune on a non-empty input: the rune and its width. An invalid
    sequence is [rune_error] of width 1. *)
Definition decode_rune (b0 : byte) (rest : bytes) : Z * nat :=
  let c0 := b2z b0 in
  let bad := (rune_error, 1%nat) in
  if c0 <? 128 then (c0, 1%nat)
  else if in_range 194 223 c0 then
    match rest with
    | b1 :: _ => if is_cont b1 then ((c0 - 192) * 64 + cont_bits b1, 2%nat) else bad
    | _ => bad
    end
  else if in_range 224 239 c0 then
    match rest with
    | b1 :: b2 :: _ =>
        let lo := if c0 =? 224 then 160 else 128 in
        let hi := if c0 =? 237 then 159 else 191 in
        if in_range lo hi (b2z b1) && is_cont b2
        then ((c0 - 224) * 4096 + cont_bits b1 * 64 + cont_bits b2, 3%nat) else bad
    | _ => bad
    end
  else if in_range 240 244 c0 then
    match rest with
    | b1 :: b2 :: b3 :: _ =>
        let lo := if c0 =? 240 then 144 else 128 in
        let hi := if c0 =? 244 then 143 else 191 in
        if in_range lo hi (b2z b1) && is_cont b2 && is_cont b3
        then ((c0 - 240) * 262144 + cont_bits b1 * 4096 + cont_bits b2 * 64 + cont_bits b3, 4%nat)
        else bad
    | _ => bad
    end
  else bad.

(** [for _, r := range s]: the runes of [s]; [skip] counts the bytes of the
    rune already read. *)
Fixpoint runes_skip (skip : nat) (s : bytes) : list Z :=
  match s with
  | [] => []
  | b :: s' =>
      match skip with
      | S k => runes_skip k s'
      | O => let '(r, w) := decode_rune b s' in r :: runes_skip (pred w) s'
      end
  end.
Definition runes (s : bytes) : list Z := runes_skip 0 s.

(** strings.Builder.WriteRune / utf8.AppendRune. *)
Definition encode_rune (r : Z) : bytes :=
  let r := if (r <? 0) || (1114111 <? r) || in_range 55296 57343 r then rune_error else r in
  if r <? 128 then [z2b r]
  else if r <? 2048 then [z2b (192 + r / 64); z2b (128 + r mod 64)]
  else if r <? 65536 then
    [z2b (224 + r / 4096); z2b (128 + (r / 64) mod 64); z2b (128 + r mod 64)]
  else
    [z2b (240 + r / 262144); z2b (128 + (r / 4096) mod 64);
     z2b (128 + (r / 64) mod 64); z2b (128 + r mod 64)].

(** * Case mapping

    On ASCII the mapping is written out; on the other runes it is Go's Unicode
    case table, a parameter here: every theorem holds for any table. *)
Class UnicodeCase := {
  uni_lower : Z -> Z;
  uni_upper : Z -> Z;
}.

Definition lower_rune `{UnicodeCase} (r : Z) : Z :=
  if r <? 128 then (if in_range 65 90 r then r + 32 else r) else uni_lower r.
Definition upper_rune `{UnicodeCase} (r : Z) : Z :=
  if r <? 128 then (if in_range 97 122 r then r - 32 else r) else uni_upper r.

(** strings.ToLower, strings.ToUpper: map the runes; an invalid byte becomes
    the encoding of [rune_error]. *)
Definition ToLower `{UnicodeCase} (s : bytes) : bytes :=
  flat_map (fun r => encode_rune (lower_rune r)) (runes s).
Definition ToUpper `{UnicodeCase} (s : bytes) : bytes :=
  flat_map (fun r => encode_rune (upper_rune r)) (runes s).

(** * TrimSpace *)

(** The runes of unicode.IsSpace. *)
Definition space_runes : list Z :=
  [9; 10; 11; 12; 13; 32; 133; 160; 5760; 8192; 8193; 8194; 8195; 8196; 8197;
   8198; 8199; 8200; 8201; 8202; 8232; 8233; 8239; 8287; 12288].

Definition space_encs : list bytes := Eval vm_compute in map encode_rune space_runes.
Definition space_encs_rev : list bytes := Eval vm_compute in map (@rev byte) space_encs.

Fixpoint drop_prefix (p s : bytes) : option bytes :=
  match p, s with
  | [], _ => Some s
  | b :: p', c :: s' => if Byte.eqb b c then drop_prefix p' s' else None
  | _ :: _, [] => None
  end.

(** Drop one of the prefixes [ps], if [s] starts with one. *)
Fixpoint strip_one (ps : list bytes) (s : bytes) : option bytes :=
  match ps with
  | [] => None
  | p :: ps' => match drop_prefix p s with Some s' => Some s' | None => strip_one ps' s end
  end.

Fixpoint strip_all (fuel : nat) (ps : list bytes) (s : bytes) : bytes :=
  match fuel with
  | O => s
  | S n => match strip_one ps s with Some s' => strip_all n ps s' | None => s end
  end.

(** strings.TrimSpace. [DecodeRune] reads a space rune exactly when the input
    starts with its encoding, and [DecodeLastRune] exactly when it ends with
    it, so both ends are trimmed by prefix; each step drops at least one byte,
    so the length is enough fuel ([strip_all_stops]). *)
Definition TrimSpace (s : bytes) : bytes :=
  let l := strip_all (length s) space_encs s in
  rev (strip_all (length l) space_encs_rev (rev l)).

(** * Split, Cut, Join *)

(** strings.Split with a one-byte separator: never empty. *)
Fixpoint Split (s : bytes) (sep : byte) : list bytes :=
  match s with
  | [] => [[]]
  | b :: s' =>
      if Byte.eqb b sep then [] :: Split s' sep
      else match Split s' sep with
           | [] => [[b]]
           | p :: ps => (b :: p) :: ps
           end
  end.

(** strings.Cut with a one-byte separator. *)
Fixpoint Cut (s : bytes) (sep : byte) : option (bytes * bytes) :=
  match s with
  | [] => None
  | b :: s' =>
      if Byte.eqb b sep then Some ([], s')
      else match Cut s' sep with
           | Some (before, after) => Some (b :: before, after)
           | None => None
           end
  end.

(** strings.Join *)
Fixpoint Join (parts : list bytes) (sep : bytes) : bytes :=
  match parts with
  | [] => []
  | [p] => p
  | p :: ps => p ++ sep ++ Join ps sep
  end.

(** * strconv *)

Definition digit (d : Z) : byte := z2b (48 + d).
Definition is_digit (b : byte) : bool := in_range 48 57 (b2z b).

Definition parse_digits (s : bytes) : Z :=
  fold_left (fun acc b => acc * 10 + (b2z b - 48)) s 0.

Definition max_int : Z := 2 ^ 63 - 1.
Definition min_int : Z := - 2 ^ 63.

(** strconv.Atoi: an optional sign, at least one digit, and a value in the
    range of [int] (64 bits). [None] is an error. *)
Definition Atoi (s : bytes) : option Z :=
  let '(neg, ds) :=
    match s with
    | b :: s' => if Byte.eqb b "-" then (true, s')
                 else if Byte.eqb b "+" then (false, s') else (false, s)
    | [] => (false, [])
    end in
  if negb (bool_decide (ds = [])) && forallb is_digit ds then
    let n := if neg : bool then - parse_digits ds else parse_digits ds in
    if (min_int <=? n) && (n <=? max_int) then Some n else None
  else None.

(** Decimal digits, most significant first; [fuel] bounds their number. *)
Fixpoint dec_digits (fuel : nat) (n : Z) : bytes :=
  match fuel with
  | O => []
  | S f => if n <? 10 then [digit n] else dec_digits f (n / 10) ++ [digit (n mod 10)]
  end.

(** strconv.Itoa; an [int] has at most 19 decimal digits. *)
Definition Itoa (n : Z) : bytes :=
  if n <? 0 then "-"%byte :: dec_digits 19 (- n) else dec_digits 19 n.

(** * The order of Go strings: byte-wise lexicographic *)
Fixpoint bytes_leb (s t : bytes) : bool :=
  match s, t with
  | [], _ => true
  | _ :: _, [] => false
  | b :: s', c :: t' =>
      if b2z b <? b2z c then true
      else if b2z c <? b2z b then false else bytes_leb s' t'
  end.
Definition bytes_le (s t : bytes) : Prop := bytes_leb s t = true.
#[export] Instance bytes_le_dec : RelDecision bytes_le.
Proof. intros s t. unfold bytes_le. apply _. Defined.

(** sort.Strings; any sort gives this list, since [bytes_le] is total and
    antisymmetric. *)
Definition sort_strings (l : list bytes) : list bytes := merge_sort bytes_le l.

(** * Lemmas: UTF-8 and case mapping *)

Definition ascii_byte (b : byte) : Prop := b2z b < 128.

Lemma decode_rune_ascii b s : ascii_byte b -> decode_rune b s = (b2z b, 1%nat).
Proof. unfold ascii_byte, decode_rune. intros H. by rewrite (proj2 (Z.ltb_lt _ _) H). Qed.

Lemma decode_rune_high b s : ~ ascii_byte b -> 128 <= fst (decode_rune b s).
Proof.
  unfold ascii_byte, decode_rune, in_range, is_cont, cont_bits, rune_error. intros H.
  replace (b2z b <? 128) with false by (symmetry; apply Z.ltb_ge; lia).
  repeat split_match; simpl;
    rewrite ?andb_true_iff, ?Z.leb_le, ?Z.eqb_eq in *;
    repeat match goal with
    | E : in_range _ _ _ = true |- _ => unfold in_range in E; rewrite andb_true_iff, !Z.leb_le in E
    | b : byte |- _ => pose proof (b2z_range b); clear b
    end; unfold in_range in *; rewrite ?andb_true_iff, ?Z.leb_le in *; lia.
Qed.

Lemma runes_ascii s : Forall ascii_byte s -> runes s = map b2z s.
Proof.
  unfold runes. induction 1 as [|b s Hb _ IH]; [done|].
  cbn [runes_skip map]. rewrite decode_rune_ascii by done. cbn [pred]. by rewrite IH.
Qed.

(** A string all of whose runes are ASCII is a string of ASCII bytes. *)
Lemma runes_ascii_inv s : Forall (fun r => r < 128) (runes s) -> Forall ascii_byte s.
Proof.
  unfold runes. induction s as [|b s IH]; [constructor|].
  cbn [runes_skip]. destruct (decode_rune b s) as [r w] eqn:E. inversion 1 as [|? ? Hr Hs]; subst.
  destruct (decide (ascii_byte b)) as [Hb|Hb].
  - rewrite decode_rune_ascii in E by done. injection E as <- <-.
    constructor; [done|]. by apply IH.
  - pose proof (decode_rune_high b s Hb) as Hge. rewrite E in Hge. simpl in Hge. lia.
Qed.

(** The bytes a rune takes after its first one are not ASCII. *)
Lemma decode_rune_tail b s :
  Forall (fun c => ~ ascii_byte c) (take (pred (snd (decode_rune b s))) s).
Proof.
  unfold decode_rune, in_range, is_cont. unfold ascii_byte.
  repeat split_match; simpl; repeat constructor;
    unfold in_range in *; rewrite ?andb_true_iff, ?Z.leb_le in *; lia.
Qed.

(** An ASCII byte of a string is one of its runes. *)
Lemma runes_skip_in n s b :
  Forall (fun c => ~ ascii_byte c) (take n s) -> b ∈ s -> ascii_byte b -> b2z b ∈ runes_skip n s.
Proof.
  revert n. induction s as [|c s IH]; intros n Hn Hb Ha; [by apply elem_of_nil in Hb|].
  destruct n as [|n]; cbn [runes_skip].
  - destruct (decode_rune c s) as [r w] eqn:E.
    pose proof (decode_rune_tail c s) as Ht. rewrite E in Ht. simpl in Ht.
    apply elem_of_cons in Hb as [->|Hb].
    + rewrite decode_rune_ascii in E by done. injection E as <- <-. set_solver.
    + apply elem_of_cons. right. by apply IH.
  - simpl in Hn. apply Forall_cons in Hn as [Hc Hn].
    apply elem_of_cons in Hb as [->|Hb]; [done|]. by apply IH.
Qed.

Lemma runes_in s b : b ∈ s -> ascii_byte b -> b2z b ∈ runes s.
Proof. apply runes_skip_in. rewrite take_0. constructor. Qed.

Lemma encode_rune_ascii b : ascii_byte b -> encode_rune (b2z b) = [b].
Proof. unfold ascii_byte. by destruct b; vm_compute. Qed.

Section CaseLemmas.
Context `{UnicodeCase}.

(** [ToLower] and [ToUpper] fix an ASCII string with no letter to map. *)
Lemma ToLower_fix s :
  Forall (fun b => ascii_byte b /\ in_range 65 90 (b2z b) = false) s -> ToLower s = s.
Proof.
  intros Hs. unfold ToLower. rewrite runes_ascii by (eapply Forall_impl; [done|naive_solver]).
  induction Hs as [|b s [Hb Hu] _ IH]; [done|].
  cbn [map flat_map]. rewrite IH. unfold lower_rune.
  rewrite (proj2 (Z.ltb_lt _ _) Hb), Hu. by rewrite encode_rune_ascii.
Qed.

Lemma ToUpper_fix s :
  Forall (fun b => ascii_byte b /\ in_range 97 122 (b2z b) = false) s -> ToUpper s = s.
Proof.
  intros Hs. unfold ToUpper. rewrite runes_ascii by (eapply Forall_impl; [done|naive_solver]).
  induction Hs as [|b s [Hb Hu] _ IH]; [done|].
  cbn [map flat_map]. rewrite IH. unfold upper_rune.
  rewrite (proj2 (Z.ltb_lt _ _) Hb), Hu. by rewrite encode_rune_ascii.
Qed.
End CaseLemmas.

(** * Lemmas: TrimSpace *)

Lemma byte_eqb_true b c : Byte.eqb b c = true <-> b = c.
Proof.
  split.
  - apply Byte.byte_dec_bl.
  - apply Byte.byte_dec_lb.
Qed.

Lemma byte_eqb_false b c : Byte.eqb b c = false <-> b <> c.
Proof. rewrite <- not_true_iff_false, byte_eqb_true. done. Qed.

Lemma byte_eqb_refl b : Byte.eqb b b = true.
Proof. by apply byte_eqb_true. Qed.

Lemma drop_prefix_Some p s s' : drop_prefix p s = Some s' <-> s = p ++ s'.
Proof.
  revert s. induction p as [|b p IH]; intros s; simpl; [naive_solver|].
  destruct s as [|c s]; [naive_solver|].
  destruct (Byte.eqb b c) eqn:E.
  - apply byte_eqb_true in E as ->. rewrite IH. naive_solver.
  - apply byte_eqb_false in E. naive_solver.
Qed.

Lemma strip_one_Some ps s s' :
  strip_one ps s = Some s' -> exists p, p ∈ ps /\ s = p ++ s'.
Proof.
  induction ps as [|p ps IH]; simpl; [done|].
  destruct (drop_prefix p s) eqn:E.
  - intros [= <-]. apply drop_prefix_Some in E. set_solver.
  - intros H'. apply IH in H'. set_solver.
Qed.

Lemma strip_one_None ps s :
  strip_one ps s = None <-> forall p s', p ∈ ps -> s <> p ++ s'.
Proof.
  induction ps as [|p ps IH]; simpl.
  - split; [|done]. intros _ p s' Hp. by apply elem_of_nil in Hp.
  - destruct (drop_prefix p s) as [s1|] eqn:E.
    + apply drop_prefix_Some in E. split; [done|]. intros Hn.
      exfalso. apply (Hn p s1); [set_solver|done].
    + rewrite IH. split.
      * intros Hn q s' Hq. apply elem_of_cons in Hq as [->|Hq]; [|by apply Hn].
        intros Hs. apply drop_prefix_Some in Hs. congruence.
      * intros Hn q s' Hq. apply Hn. set_solver.
Qed.

(** With non-empty prefixes the length is enough fuel. *)
Lemma strip_all_stops ps n s :
  Forall (fun p => p <> []) ps -> (length s <= n)%nat -> strip_one ps (strip_all n ps s) = None.
Proof.
  intros Hps. revert s. induction n as [|n IH]; intros s Hn; simpl.
  - apply strip_one_None. intros p s' Hp ->.
    rewrite Forall_forall in Hps. apply (Hps p Hp). destruct p; [done|simpl in Hn; lia].
  - destruct (strip_one ps s) as [s'|] eqn:E; [|done].
    apply IH. apply strip_one_Some in E as (p & Hp & ->).
    rewrite Forall_forall in Hps. pose proof (Hps p Hp).
    rewrite length_app in Hn. destruct p; [done|simpl in Hn; lia].
Qed.

Lemma strip_all_fix ps n s : strip_one ps s = None -> strip_all n ps s = s.
Proof. destruct n; simpl; [done|]. by intros ->. Qed.

Lemma strip_all_suffix ps n s : exists p, s = p ++ strip_all n ps s.
Proof.
  revert s. induction n as [|n IH]; intros s; simpl; [by exists []|].
  destruct (strip_one ps s) as [s'|] eqn:E; [|by exists []].
  apply strip_one_Some in E as (p & _ & ->). destruct (IH s') as [q Hq].
  exists (p ++ q). rewrite <- app_assoc. by rewrite <- Hq.
Qed.

Lemma space_encs_nonempty : Forall (fun p => p <> []) space_encs.
Proof. repeat constructor; discriminate. Qed.
Lemma space_encs_rev_nonempty : Forall (fun p => p <> []) space_encs_rev.
Proof. repeat constructor; discriminate. Qed.

(** What is left neither starts nor ends with a space. *)
Definition trimmed (s : bytes) : Prop :=
  strip_one space_encs s = None /\ strip_one space_encs_rev (rev s) = None.

Lemma TrimSpace_fix s : trimmed s -> TrimSpace s = s.
Proof.
  intros [Hl Hr]. unfold TrimSpace. rewrite !(strip_all_fix space_encs) by done.
  rewrite strip_all_fix by done. apply rev_involutive.
Qed.

Lemma TrimSpace_trimmed s : trimmed (TrimSpace s).
Proof.
  unfold TrimSpace, trimmed.
  set (l := strip_all (length s) space_encs s).
  set (r := strip_all (length l) space_encs_rev (rev l)).
  rewrite rev_involutive. split.
  - assert (strip_one space_encs l = None) as Hl
      by (apply strip_all_stops; [apply space_encs_nonempty|done]).
    destruct (strip_all_suffix space_encs_rev (length l) (rev l)) as [u Hu]. fold r in Hu.
    apply (f_equal (@rev byte)) in Hu. rewrite rev_involutive, rev_app_distr in Hu.
    rewrite strip_one_None in Hl |- *. intros p s' Hp Hs.
    apply (Hl p (s' ++ rev u) Hp). by rewrite Hu, Hs, <- app_assoc.
  - apply strip_all_stops; [apply space_encs_rev_nonempty|by rewrite length_rev].
Qed.

Lemma TrimSpace_idemp s : TrimSpace (TrimSpace s) = TrimSpace s.
Proof. apply TrimSpace_fix, TrimSpace_trimmed. Qed.

(** No space encoding starts, or ends, with such a byte. *)
Definition solid (b : byte) : bool :=
  (b2z b <? 128) && negb (in_range 9 13 (b2z b)) && negb (b2z b =? 32).

Lemma solid_strip b s : solid b = true -> strip_one space_encs (b :: s) = None.
Proof. destruct b; try discriminate; reflexivity. Qed.

Lemma solid_strip_rev b s : solid b = true -> strip_one space_encs_rev (b :: s) = None.
Proof. destruct b; try discriminate; reflexivity. Qed.

Lemma trimmed_solid b s c t :
  solid b = true -> solid c = true -> b :: s = t ++ [c] -> trimmed (b :: s).
Proof.
  intros Hb Hc E. split; [exact (solid_strip b s Hb)|].
  rewrite E, rev_app_distr. exact (solid_strip_rev c (rev t) Hc).
Qed.

Lemma trimmed_all_solid s : Forall (fun b => solid b = true) s -> trimmed s.
Proof.
  intros Hs. destruct s as [|b s]; [by split|].
  destruct (exists_last (l := b :: s)) as (t & c & E); [done|].
  eapply (trimmed_solid b s c t); [by inversion Hs| |done].
  rewrite E in Hs. apply Forall_app in Hs as [_ Hc]. by inversion Hc.
Qed.

(** No reversed space encoding ends with a solid byte. *)
Lemma space_encs_rev_solid q b : solid b = true -> (q ++ [b]) ∉ space_encs_rev.
Proof.
  intros Hb Hp. unfold space_encs_rev in Hp.
  repeat (apply elem_of_cons in Hp as [Hp|Hp];
    [destruct q as [|? [|? [|? [|? ?]]]]; simplify_list_eq; done|]).
  by apply elem_of_nil in Hp.
Qed.

Lemma strip_all_rev_solid b n l : solid b = true -> strip_all n space_encs_rev (l ++ [b]) <> [].
Proof.
  intros Hb. revert l. induction n as [|n IH]; intros l; cbn [strip_all]; [by destruct l|].
  destruct (strip_one space_encs_rev (l ++ [b])) as [l'|] eqn:E; [|by destruct l].
  apply strip_one_Some in E as (p & Hp & Happ).
  destruct l' as [|x l' _] using rev_ind.
  - rewrite app_nil_r in Happ. subst p. by apply space_encs_rev_solid in Hp.
  - rewrite app_assoc in Happ. apply app_inj_tail in Happ as [_ <-]. apply IH.
Qed.

Lemma TrimSpace_solid_head b s : solid b = true -> TrimSpace (b :: s) <> [].
Proof.
  intros Hb E. unfold TrimSpace in E.
  rewrite (strip_all_fix space_encs) in E by (exact (solid_strip b s Hb)).
  apply (f_equal (@rev byte)) in E. rewrite rev_involutive in E. cbn [rev] in E.
  by apply strip_all_rev_solid in E.
Qed.

Lemma TrimSpace_newline s : s <> [] -> Forall (fun b => solid b = true) s -> TrimSpace (s ++ [x0a]) = s.
Proof.
  intros Hne Hs. pose proof (trimmed_all_solid s Hs) as [_ Hr]. unfold TrimSpace.
  rewrite (strip_all_fix space_encs).
  2: { destruct s as [|b s]; [done|]. apply Forall_cons in Hs as [Hb _]. exact (solid_strip b (s ++ [x0a]) Hb). }
  rewrite length_app, rev_app_distr, Nat.add_comm. cbn [length Nat.add rev app strip_all].
  change (strip_one space_encs_rev (x0a :: rev s)) with (Some (rev s)). cbv iota beta.
  rewrite strip_all_fix by done. apply rev_involutive.
Qed.

(** * Lemmas: Split, Cut, Join *)

Lemma Split_nonempty s sep : Split s sep <> [].
Proof. destruct s as [|b s]; simpl; [done|]. destruct (Byte.eqb b sep); [done|]. by destruct (Split s sep). Qed.

Lemma Split_app p s sep : sep ∉ p -> Split (p ++ sep :: s) sep = p :: Split s sep.
Proof.
  induction p as [|b p IH]; simpl; intros Hp.
  - by rewrite byte_eqb_refl.
  - rewrite (proj2 (byte_eqb_false b sep)) by set_solver. by rewrite IH by set_solver.
Qed.

Lemma Split_none p sep : sep ∉ p -> Split p sep = [p].
Proof.
  induction p as [|b p IH]; simpl; intros Hp; [done|].
  rewrite (proj2 (byte_eqb_false b sep)) by set_solver. by rewrite IH by set_solver.
Qed.

(** Splitting a joined list gives the list back. *)
Lemma Split_Join parts sep :
  parts <> [] -> Forall (fun p => sep ∉ p) parts -> Split (Join parts [sep]) sep = parts.
Proof.
  intros Hne Hf. induction Hf as [|p ps Hp Hps IH]; [done|].
  destruct ps as [|q ps].
  - simpl. by apply Split_none.
  - change (Join (p :: q :: ps) [sep]) with (p ++ sep :: Join (q :: ps) [sep]).
    rewrite Split_app by done. by rewrite IH.
Qed.

Lemma Cut_app k v sep : sep ∉ k -> Cut (k ++ sep :: v) sep = Some (k, v).
Proof.
  induction k as [|b k IH]; simpl; intros Hk.
  - by rewrite byte_eqb_refl.
  - rewrite (proj2 (byte_eqb_false b sep)) by set_solver. by rewrite IH by set_solver.
Qed.

Lemma Cut_Some s sep k v : Cut s sep = Some (k, v) -> s = k ++ sep :: v /\ sep ∉ k.
Proof.
  revert k. induction s as [|b s IH]; intros k; simpl; [done|].
  destruct (Byte.eqb b sep) eqn:E.
  - apply byte_eqb_true in E as ->. intros [= <- <-]. set_solver.
  - apply byte_eqb_false in E. destruct (Cut s sep) as [[k' v']|]; [|done].
    intros [= <- <-]. destruct (IH k') as [-> ?]; [done|]. set_solver.
Qed.

(** * Lemmas: Atoi and Itoa *)

Lemma digit_b2z d : 0 <= d < 10 -> b2z (digit d) = 48 + d.
Proof. intros. unfold digit. rewrite b2z_z2b. apply Z.mod_small. lia. Qed.

Lemma digit_is_digit d : 0 <= d < 10 -> is_digit (digit d) = true.
Proof. intros. unfold is_digit, in_range. rewrite digit_b2z by done. apply andb_true_iff. lia. Qed.

Lemma dec_digits_ok fuel n :
  0 <= n < 10 ^ Z.of_nat fuel -> (0 < fuel)%nat ->
  dec_digits fuel n <> [] /\ forallb is_digit (dec_digits fuel n) = true
  /\ parse_digits (dec_digits fuel n) = n.
Proof.
  revert n. induction fuel as [|f IH]; intros n Hn Hf; [lia|].
  cbn [dec_digits]. rewrite Nat2Z.inj_succ, Z.pow_succ_r in Hn by lia.
  destruct (n <? 10) eqn:E.
  - apply Z.ltb_lt in E. split; [done|]. cbn [forallb].
    rewrite digit_is_digit by lia. unfold parse_digits. cbn [fold_left].
    rewrite digit_b2z by lia. split; [done|lia].
  - apply Z.ltb_ge in E. pose proof (Z.mod_pos_bound n 10 ltac:(lia)) as Hm.
    destruct (IH (n / 10)) as (_ & Hd & Hp).
    { split; [apply Z.div_pos; lia|apply Z.div_lt_upper_bound; lia]. }
    { destruct f; [simpl in Hn; lia|lia]. }
    split; [by destruct (dec_digits f (n / 10))|].
    rewrite forallb_app, Hd. cbn [forallb]. rewrite digit_is_digit by lia. split; [done|].
    unfold parse_digits in *. rewrite fold_left_app, Hp. cbn [fold_left].
    rewrite digit_b2z by lia. pose proof (Z.div_mod n 10). lia.
Qed.

Lemma dec_digits_head fuel n b s :
  0 <= n -> dec_digits fuel n = b :: s -> is_digit b = true.
Proof.
  revert n b s. induction fuel as [|f IH]; intros n b s Hn; cbn [dec_digits]; [done|].
  destruct (n <? 10) eqn:E.
  - apply Z.ltb_lt in E. intros [= <- <-]. by apply digit_is_digit.
  - pose proof (Z.mod_pos_bound n 10 ltac:(lia)).
    destruct (dec_digits f (n / 10)) as [|c t] eqn:E2.
    + intros [= <- <-]. by apply digit_is_digit.
    + intros [= <- <-]. eapply IH; [|done]. by apply Z.div_pos.
Qed.

Lemma Atoi_Itoa n : 0 <= n <= max_int -> Atoi (Itoa n) = Some n.
Proof.
  unfold max_int. intros Hn. unfold Itoa. replace (n <? 0) with false by (symmetry; apply Z.ltb_ge; lia).
  destruct (dec_digits_ok 19 n) as (Hne & Hd & Hp); [change (10 ^ Z.of_nat 19) with 10000000000000000000; lia|lia|].
  unfold Atoi. destruct (dec_digits 19 n) as [|b s] eqn:E; [done|].
  pose proof (dec_digits_head 19 n b s ltac:(lia) E) as Hb.
  replace (Byte.eqb b "-") with false by (by destruct b).
  replace (Byte.eqb b "+") with false by (by destruct b).
  rewrite bool_decide_eq_false_2, Hd, Hp by done. cbn [negb andb].
  unfold min_int, max_int. rewrite (proj2 (Z.leb_le _ n)), (proj2 (Z.leb_le n _)) by lia. done.
Qed.

(** * Lemmas: the string order *)

#[export] Instance bytes_le_refl : Reflexive bytes_le.
Proof.
  intros s. unfold bytes_le. induction s as [|b s IH]; simpl; [done|].
  by rewrite Z.ltb_irrefl.
Qed.

#[export] Instance bytes_le_trans : Transitive bytes_le.
Proof.
  unfold bytes_le. intros s. induction s as [|a s IH]; intros [|b t] [|c u]; simpl; try done.
  destruct (Z.ltb_spec (b2z a) (b2z b)), (Z.ltb_spec (b2z b) (b2z a)),
    (Z.ltb_spec (b2z b) (b2z c)), (Z.ltb_spec (b2z c) (b2z b)),
    (Z.ltb_spec (b2z a) (b2z c)), (Z.ltb_spec (b2z c) (b2z a)); try done; try lia. apply IH.
Qed.

#[export] Instance bytes_le_total : Total bytes_le.
Proof.
  unfold bytes_le. intros s. induction s as [|a s IH]; intros [|b t]; simpl; auto.
  destruct (Z.ltb_spec (b2z a) (b2z b)), (Z.ltb_spec (b2z b) (b2z a)); auto.
Qed.

#[export] Instance bytes_le_antisymm : AntiSymm (=) bytes_le.
Proof.
  unfold bytes_le. intros s. induction s as [|a s IH]; intros [|b t]; simpl; try done.
  destruct (Z.ltb_spec (b2z a) (b2z b)), (Z.ltb_spec (b2z b) (b2z a)); try done; try lia.
  intros. f_equal; [apply b2z_inj; lia|by apply IH].
Qed.

Lemma sort_strings_perm l : sort_strings l ≡ₚ l.
Proof. apply merge_sort_Permutation. Qed.

Lemma sort_strings_sorted l : StronglySorted bytes_le (sort_strings l).
Proof. apply Sorted_StronglySorted; [apply _|]. apply Sorted_merge_sort. apply _. Qed.

(** Sorting forgets the order of its input. *)
Lemma sort_strings_unique l1 l2 : l1 ≡ₚ l2 -> sort_strings l1 = sort_strings l2.
Proof.
  intros Hp. apply (StronglySorted_unique bytes_le); [apply sort_strings_sorted..|].
  by rewrite !sort_strings_perm.
Qed.

Lemma sort_strings_fix l : StronglySorted bytes_le l -> sort_strings l = l.
Proof.
  intros Hs. apply (StronglySorted_unique bytes_le); [apply sort_strings_sorted|done|].
  apply sort_strings_perm.
Qed.
