(* ===== verification/Net.v ===== *)
(** The pieces of Go's [net] and [strings] packages the HTTP front end relies on
    to recognise clients and peers: net.SplitHostPort, strings.EqualFold and
    strings.Contains. *)
From S2P Require Import Prelude GoStrings.

Local Open Scope Z_scope.

Module Net.

(** The index of the first, and of the last, occurrence of a byte. *)
Fixpoint IndexByte (s : bytes) (c : byte) : option nat :=
  match s with
  | [] => None
  | b :: s => if Byte.eqb b c then Some 0%nat else S <$> IndexByte s c
  end.
Fixpoint LastIndexByte (s : bytes) (c : byte) : option nat :=
  match s with
  | [] => None
  | b :: s =>
      match LastIndexByte s c with
      | Some i => Some (S i)
      | None => if Byte.eqb b c then Some 0%nat else None
      end
  end.

Definition has_byte (s : bytes) (c : byte) : bool := match IndexByte s c with Some _ => true | None => false end.

(** The checks SplitHostPort ends with: no '[' from [j] on, no ']' from [k] on. *)
Definition split_tail (hostport host : bytes) (i j k : nat) : option (bytes * bytes) :=
  if has_byte (drop j hostport) "[" then None
  else if has_byte (drop k hostport) "]" then None
  else Some (host, drop (S i) hostport).

(** net.SplitHostPort; its error is [None]. *)
Definition SplitHostPort (hostport : bytes) : option (bytes * bytes) :=
  match LastIndexByte hostport ":" with
  | None => None
  | Some i =>
      match hostport with
      | b :: _ =>
          if Byte.eqb b "[" then
            match IndexByte hostport "]" with
            | None => None
            | Some e =>
                if Nat.eqb (S e) i then split_tail hostport (drop 1 (take e hostport)) i 1 (S e) else None
            end
          else
            let host := take i hostport in
            if has_byte host ":" then None else split_tail hostport host i 0 0
      | [] => None
      end
  end.

(** strings.EqualFold(s, pat) for a pattern of ASCII characters without capitals:
    letters match in either case, 's' also U+017F and 'k' also U+212A. *)
Definition is_lower (b : byte) : bool := in_range 97 122 (b2z b).
Fixpoint EqualFold (s pat : bytes) {struct pat} : bool :=
  match pat, s with
  | [], [] => true
  | p :: pat, b :: s' =>
      if Byte.eqb b p || (is_lower p && (b2z b =? b2z p - 32)) then EqualFold s' pat
      else match p, b, s' with
           | "s"%byte, xc5, xbf :: s'' => EqualFold s'' pat
           | "k"%byte, xe2, x84 :: xaa :: s'' => EqualFold s'' pat
           | _, _, _ => false
           end
  | _, _ => false
  end.
Definition EqualFold_localhost (s : bytes) : bool := EqualFold s (str "localhost").

Lemma EqualFold_refl s : EqualFold s s = true.
Proof. induction s as [|b s IH]; [done|]. cbn [EqualFold]. by rewrite byte_eqb_refl. Qed.

Fixpoint HasPrefix (s p : bytes) : bool :=
  match p, s with
  | [], _ => true
  | a :: p, b :: s => Byte.eqb b a && HasPrefix s p
  | _, _ => false
  end.

(** strings.Contains *)
Fixpoint Contains (s sub : bytes) : bool :=
  HasPrefix s sub || match s with [] => false | _ :: s => Contains s sub end.

Lemma HasPrefix_spec s p : HasPrefix s p = true <-> exists t, s = p ++ t.
Proof.
  revert s. induction p as [|a p IH]; intros s; [split; [by exists s|by destruct s]|].
  destruct s as [|b s]; cbn.
  - split; [done|by intros (t & [=])].
  - rewrite andb_true_iff, byte_eqb_true, IH. split.
    + intros [-> (t & ->)]. by exists t.
    + intros (t & [= -> ->]). split; [done|by exists t].
Qed.

Lemma Contains_spec s sub : Contains s sub = true <-> exists p t, s = p ++ sub ++ t.
Proof.
  induction s as [|b s IH]; cbn [Contains].
  - rewrite orb_false_r, HasPrefix_spec. split; [intros (t & H); by exists [], t|].
    intros (p & t & H). symmetry in H. apply app_eq_nil in H as [-> H]. by exists t.
  - rewrite orb_true_iff, HasPrefix_spec, IH. split.
    + intros [(t & H)|(p & t & ->)]; [by exists [], t|by exists (b :: p), t].
    + intros ([|b' p] & t & H); [left; by exists t|]. injection H as -> ->. right. by exists p, t.
Qed.

Lemma IndexByte_None s c : IndexByte s c = None <-> c ∉ s.
Proof.
  induction s as [|b s IH]; cbn [IndexByte]; [set_solver|]. destruct (Byte.eqb b c) eqn:E.
  - apply byte_eqb_true in E as ->. set_solver.
  - apply byte_eqb_false in E. destruct (IndexByte s c); cbn; set_solver.
Qed.

Lemma has_byte_spec s c : has_byte s c = false <-> c ∉ s.
Proof. unfold has_byte. rewrite <- IndexByte_None. by destruct (IndexByte s c). Qed.

Lemma LastIndexByte_last s t c : c ∉ t -> LastIndexByte (s ++ c :: t) c = Some (length s).
Proof.
  intros Ht. induction s as [|b s IH]; cbn [app LastIndexByte length].
  - assert (LastIndexByte t c = None) as ->; [|by rewrite byte_eqb_refl].
    induction t as [|x t IH]; [done|]. cbn. rewrite IH by set_solver.
    destruct (Byte.eqb x c) eqn:E; [|done]. apply byte_eqb_true in E as ->. set_solver.
  - by rewrite IH.
Qed.

(** A host name or IPv4 address joined with a port splits again. *)
Lemma SplitHostPort_join h p :
  ":"%byte ∉ h ++ p -> "["%byte ∉ h ++ p -> "]"%byte ∉ h ++ p -> h <> [] ->
  SplitHostPort (h ++ str ":" ++ p) = Some (h, p).
Proof.
  intros Hc Ho Hcl Hne. unfold SplitHostPort. change (str ":" ++ p) with (":"%byte :: p).
  rewrite LastIndexByte_last by set_solver. destruct h as [|b h]; [done|]. cbn [app].
  assert (Byte.eqb b "[" = false) as -> by (apply byte_eqb_false; set_solver). cbv zeta.
  change (b :: h ++ ":"%byte :: p) with ((b :: h) ++ ":"%byte :: p). rewrite take_app_length.
  rewrite (proj2 (has_byte_spec _ _)) by set_solver. unfold split_tail. rewrite !drop_0.
  rewrite !(proj2 (has_byte_spec _ _)) by set_solver.
  change (S (length (b :: h))) with (1 + length (b :: h))%nat.
  rewrite Nat.add_comm, <- drop_drop, drop_app_length. done.
Qed.

Example split_v6 : SplitHostPort (str "[::1]:53") = Some (str "::1", str "53").
Proof. reflexivity. Qed.
Example split_bare_v6 : SplitHostPort (str "::1") = None.
Proof. reflexivity. Qed.
Example fold_localhost : EqualFold_localhost (str "LocalHost") = true.
Proof. reflexivity. Qed.

End Net.
