(* ===== verification/Regex.v ===== *)
(** The fragment of Go's [regexp] that the repository's patterns use, on runes:
    character classes, bounded and unbounded repetition of a class, sequence
    and optional groups. Every pattern is anchored with [^] and [$] (without
    the multi-line flag), so [MatchString] is a match of the whole string. The
    matcher works by derivatives and is proved to decide the language of the
    expression. *)
From S2P Require Import Prelude GoStrings.

Local Open Scope Z_scope.

Inductive re :=
| RNone
| REps
| RCls (c : Z -> bool)
| RMany (c : Z -> bool) (lo : nat) (hi : option nat)  (* c{lo,hi}; c{lo,} for None *)
| RSeq (r1 r2 : re)
| ROpt (r : re).

(** The language of an expression. *)
Inductive matches : re -> list Z -> Prop :=
| m_eps : matches REps []
| m_cls c x : c x = true -> matches (RCls c) [x]
| m_many c lo hi s :
    Forall (fun x => c x = true) s -> (lo <= length s)%nat ->
    (forall n, hi = Some n -> (length s <= n)%nat) -> matches (RMany c lo hi) s
| m_seq r1 r2 s1 s2 : matches r1 s1 -> matches r2 s2 -> matches (RSeq r1 r2) (s1 ++ s2)
| m_opt_none r : matches (ROpt r) []
| m_opt_some r s : matches r s -> matches (ROpt r) s.

Fixpoint nullable (r : re) : bool :=
  match r with
  | RNone | RCls _ => false
  | REps | ROpt _ => true
  | RMany _ lo _ => Nat.eqb lo 0
  | RSeq r1 r2 => nullable r1 && nullable r2
  end.

(** Union is only needed for the derivative of a sequence whose first part can
    be empty: the matcher keeps a list of alternatives. *)
Fixpoint deriv (x : Z) (r : re) : list re :=
  match r with
  | RNone | REps => []
  | RCls c => if c x then [REps] else []
  | RMany c lo hi =>
      match hi with
      | Some O => []
      | Some (S n) => if c x then [RMany c (pred lo) (Some n)] else []
      | None => if c x then [RMany c (pred lo) None] else []
      end
  | RSeq r1 r2 =>
      map (fun r => RSeq r r2) (deriv x r1) ++ (if nullable r1 then deriv x r2 else [])
  | ROpt r => deriv x r
  end.

Fixpoint match_any (rs : list re) (s : list Z) : bool :=
  match s with
  | [] => existsb nullable rs
  | x :: s' => match_any (flat_map (deriv x) rs) s'
  end.

(** (re).MatchString for an anchored pattern. *)
Definition MatchString (r : re) (s : bytes) : bool := match_any [r] (runes s).

(** * Correctness of the matcher *)

Lemma nullable_ok r : nullable r = true <-> matches r [].
Proof.
  induction r as [| |c|c lo hi|r1 IH1 r2 IH2|r IH]; simpl.
  - split; [done|inversion 1].
  - split; [constructor|done].
  - split; [done|inversion 1].
  - rewrite Nat.eqb_eq. split.
    + intros ->. constructor; [constructor|done|simpl; lia].
    + inversion 1; subst. simpl in *. lia.
  - rewrite andb_true_iff, IH1, IH2. split.
    + intros [H1 H2]. exact (m_seq r1 r2 [] [] H1 H2).
    + inversion 1 as [| | |? ? s1 s2 H1 H2 Hr Hs| |]; subst.
      apply app_nil in Hs as [-> ->]. done.
  - split; [constructor|done].
Qed.

Lemma matches_many_cons c lo hi x s :
  matches (RMany c lo hi) (x :: s) <->
  c x = true /\ hi <> Some O /\ matches (RMany c (pred lo) (pred <$> hi)) s.
Proof.
  split.
  - inversion 1 as [| |? ? ? ? Hf Hlo Hhi| | |]; subst. apply Forall_cons in Hf as [Hx Hf].
    simpl in *. repeat split; [done|..].
    + intros ->. specialize (Hhi O eq_refl). lia.
    + constructor; [done|lia|]. intros n. destruct hi as [m|]; [|done].
      intros [= <-]. specialize (Hhi m eq_refl). lia.
  - intros (Hx & Hhi & Hm). inversion Hm as [| |? ? ? ? Hf Hlo Hb| | |]; subst.
    constructor; [by constructor|simpl; lia|].
    intros n ->. specialize (Hb (pred n) eq_refl). destruct n; [done|simpl in *; lia].
Qed.

Lemma deriv_ok r x s : matches r (x :: s) <-> exists r', In r' (deriv x r) /\ matches r' s.
Proof.
  revert s. induction r as [| |c|c lo hi|r1 IH1 r2 IH2|r IH]; intros s; simpl.
  - split; [inversion 1|naive_solver].
  - split; [inversion 1|naive_solver].
  - destruct (c x) eqn:E; simpl.
    + split; [inversion 1; subst; eexists; split; [by left|constructor]|].
      intros (r' & [<-|[]] & Hm). inversion Hm; subst. by constructor.
    + split; [inversion 1; congruence|naive_solver].
  - rewrite matches_many_cons. destruct hi as [[|n]|], (c x) eqn:E; simpl; naive_solver.
  - split.
    + inversion 1 as [| | |? ? s1 s2 H1 H2 Hr Hs| |]; subst.
      destruct s1 as [|y s1]; simpl in Hs.
      * subst. apply nullable_ok in H1. rewrite H1.
        apply IH2 in H2 as (r' & Hin & Hm). exists r'. rewrite in_app_iff. auto.
      * injection Hs as -> <-. apply IH1 in H1 as (r' & Hin & Hm).
        exists (RSeq r' r2). rewrite in_app_iff, in_map_iff. split; [left; eauto|by constructor].
    + intros (r' & Hin & Hm). rewrite in_app_iff, in_map_iff in Hin.
      destruct Hin as [(q & <- & Hq)|Hin].
      * inversion Hm as [| | |? ? s1 s2 H1 H2| |]; subst.
        apply (m_seq r1 r2 (x :: s1) s2); [|done]. apply IH1. eauto.
      * destruct (nullable r1) eqn:E; [|done]. apply nullable_ok in E.
        apply (m_seq r1 r2 [] (x :: s)); [done|]. apply IH2. eauto.
  - rewrite <- IH. split; [by inversion 1|by apply m_opt_some].
Qed.

Lemma match_any_ok s rs : match_any rs s = true <-> exists r, In r rs /\ matches r s.
Proof.
  revert rs. induction s as [|x s IH]; intros rs; simpl.
  - rewrite existsb_exists. setoid_rewrite nullable_ok. done.
  - rewrite IH. setoid_rewrite in_flat_map. setoid_rewrite deriv_ok. naive_solver.
Qed.

Lemma MatchString_ok r s : MatchString r s = true <-> matches r (runes s).
Proof. unfold MatchString. rewrite match_any_ok. simpl. naive_solver. Qed.

(** * Languages of the shapes the patterns have *)

Lemma matches_many c lo hi s :
  matches (RMany c lo (Some hi)) s <->
  Forall (fun x => c x = true) s /\ (lo <= length s <= hi)%nat.
Proof.
  split.
  - inversion 1 as [| |? ? ? ? Hf Hlo Hhi| | |]; subst. specialize (Hhi hi eq_refl). split; [done|lia].
  - intros (Hf & Hl). constructor; [done|lia|]. intros n [= <-]. lia.
Qed.

(** A class of ASCII characters matches a string byte by byte. *)
Lemma MatchString_many_ascii c lo hi s :
  (forall x, c x = true -> x < 128) ->
  MatchString (RMany c lo (Some hi)) s = true <->
  Forall (fun b => c (b2z b) = true) s /\ (lo <= length s <= hi)%nat.
Proof.
  intros Hc. rewrite MatchString_ok, matches_many. split.
  - intros [Hf Hl]. assert (Forall ascii_byte s) as Ha.
    { apply runes_ascii_inv. eapply Forall_impl; [exact Hf|]. simpl. auto. }
    rewrite (runes_ascii s Ha), length_map in *. by rewrite Forall_map in Hf.
  - intros [Hf Hl]. assert (Forall ascii_byte s) as Ha.
    { eapply Forall_impl; [exact Hf|]. intros b Hb. by apply Hc. }
    rewrite (runes_ascii s Ha), length_map. by rewrite Forall_map.
Qed.
