(* ===== verification/Query.v ===== *)
(** Package [query] (src/resolver/internal/query/query.go): the normalized query
    of every front end, the name and type grammars, and the canonical form of
    selectors, with the two on-chain grammars they mirror. *)
From S2P Require Import Prelude GoStrings Regex.

Local Open Scope Z_scope.

Module Query.

(** type Query struct *)
Record Query := mkQuery {
  Name : bytes;
  Type_ : bytes;
  Selector : bytes;
}.
#[export] Instance Query_eq_dec : EqDecision Query.
Proof. solve_decision. Defined.

(** The errors of the package, one constructor per [fmt.Errorf]. *)
Inductive error :=
| InvalidName (name : bytes)
| InvalidType (t : bytes)
| InvalidKey (k : bytes)
| InvalidPort (v : bytes)
| InvalidTransport (v : bytes)
| InvalidService (v : bytes)
| InvalidValue (v k : bytes)
| DuplicateKey (k : bytes)
| InvalidFragment (part : bytes).
#[export] Instance error_eq_dec : EqDecision error.
Proof. solve_decision. Defined.

(** * The patterns *)

Definition lower_c (x : Z) : bool := in_range 97 122 x.
Definition upper_c (x : Z) : bool := in_range 65 90 x.
Definition digit_c (x : Z) : bool := in_range 48 57 x.
Definition alnum_c (x : Z) : bool := lower_c x || digit_c x.
Definition name_c (x : Z) : bool := lower_c x || digit_c x || (x =? 45).
Definition type_c (x : Z) : bool := upper_c x || lower_c x || digit_c x || (x =? 95) || (x =? 45).
Definition key_c (x : Z) : bool := lower_c x || digit_c x || (x =? 95).
(** [[^&=\s]], where [\s] is [[\t\n\f\r ]]. *)
Definition val_c (x : Z) : bool :=
  negb ((x =? 38) || (x =? 61) || (x =? 9) || (x =? 10) || (x =? 12) || (x =? 13) || (x =? 32)).

(** [^[a-z0-9]([a-z0-9-]{0,61}[a-z0-9])?$] *)
Definition nameRe : re :=
  RSeq (RCls alnum_c) (ROpt (RSeq (RMany name_c 0 (Some 61%nat)) (RCls alnum_c))).
(** [^[A-Za-z0-9_-]{1,32}$] *)
Definition typeRe : re := RMany type_c 1 (Some 32%nat).
(** [^[a-z0-9_]{1,32}$] *)
Definition selKey : re := RMany key_c 1 (Some 32%nat).
(** [^[^&=\s]{1,64}$] *)
Definition selVal : re := RMany val_c 1 (Some 64%nat).

Definition knownTransports (v : bytes) : bool :=
  bool_decide (v = str "UDP") || bool_decide (v = str "TCP") || bool_decide (v = str "QUIC").
Definition knownServices (v : bytes) : bool :=
  bool_decide (v = str "HTTP") || bool_decide (v = str "SMTP").

Definition ValidateName (name : bytes) : go error () :=
  if MatchString nameRe name then Ret () else Err (InvalidName name).

Definition ValidateType (t : bytes) : go error () :=
  if MatchString typeRe t then Ret () else Err (InvalidType t).

(** * Canonical selectors *)
Section Canonical.
Context `{UnicodeCase}.

(** The switch on the key: the canonical value of a pair. *)
Definition canonical_value (k v : bytes) : go error bytes :=
  if bool_decide (k = str "port") then
    match Atoi v with
    | Some n => if (n <? 1) || (65535 <? n) then Err (InvalidPort v) else Ret (Itoa n)
    | None => Err (InvalidPort v)
    end
  else if bool_decide (k = str "transport") then
    let v := ToUpper v in
    if knownTransports v then Ret v else Err (InvalidTransport v)
  else if bool_decide (k = str "service") then
    let v := ToUpper v in
    if knownServices v then Ret v else Err (InvalidService v)
  else if MatchString selVal v then Ret v else Err (InvalidValue v k).

(** One iteration up to the duplicate test: the normalized pair. *)
Definition canonical_pair (kv : bytes * bytes) : go error (bytes * bytes) :=
  let k := ToLower (TrimSpace kv.1) in
  let v := TrimSpace kv.2 in
  if MatchString selKey k then v' ← canonical_value k v; Ret (k, v')
  else Err (InvalidKey k).

(** [for k, v := range pairs]: [order] is the order in which the map is
    iterated, which Go leaves open. *)
Fixpoint canonical_loop (order : list (bytes * bytes)) (canon : gmap bytes bytes)
    (keys : list bytes) : go error (gmap bytes bytes * list bytes) :=
  match order with
  | [] => Ret (canon, keys)
  | kv :: rest =>
      kv' ← canonical_pair kv;
      match canon !! kv'.1 with
      | Some _ => Err (DuplicateKey kv'.1)
      | None => canonical_loop rest (<[kv'.1 := kv'.2]> canon) (keys ++ [kv'.1])
      end
  end.

(** [parts[i] = k + "=" + canon[k]]; a missing key reads as "". *)
Definition canonical_part (canon : gmap bytes bytes) (k : bytes) : bytes :=
  k ++ str "=" ++ default [] (canon !! k).

Definition CanonicalSelector_order (order : list (bytes * bytes)) : go error bytes :=
  if bool_decide (order = []) then Ret []
  else
    ck ← canonical_loop order ∅ [];
    Ret (Join (map (canonical_part ck.1) (sort_strings ck.2)) (str "&")).

(** CanonicalSelector, with the iteration order of [map_to_list]; the order
    does not matter ([CanonicalSelector_order_irrelevant]). *)
Definition CanonicalSelector (pairs : gmap bytes bytes) : go error bytes :=
  CanonicalSelector_order (map_to_list pairs).

(** The loop of ParsePairs over the fragments. *)
Fixpoint parse_fragments (parts : list bytes) (pairs : gmap bytes bytes) :
    go error (gmap bytes bytes) :=
  match parts with
  | [] => Ret pairs
  | part :: rest =>
      match Cut part "=" with
      | None => Err (InvalidFragment part)
      | Some (k, v) =>
          match pairs !! ToLower k with
          | Some _ => Err (DuplicateKey k)
          | None => parse_fragments rest (<[ToLower k := v]> pairs)
          end
      end
  end.

Definition ParsePairs (raw : bytes) : go error (gmap bytes bytes) :=
  if bool_decide (TrimSpace raw = []) then Ret ∅
  else parse_fragments (Split raw "&") ∅.

Definition ParseSelectorString (raw : bytes) : go error bytes :=
  pairs ← ParsePairs raw; CanonicalSelector pairs.

(** New *)
Definition New (name recordType : bytes) (selectorPairs : gmap bytes bytes) : go error Query :=
  _ ← ValidateName name;
  _ ← ValidateType recordType;
  sel ← CanonicalSelector selectorPairs;
  Ret (mkQuery name recordType sel).

End Canonical.

(** * The on-chain grammars (contracts/contracts) *)

(** NamespaceDApp._validateName: [true] when it does not revert. *)
Definition sol_validateName (b : bytes) : bool :=
  let len := length b in
  if Nat.eqb len 0 || Nat.ltb 63 len then false
  else if bool_decide (b !! 0%nat = Some "-"%byte) || bool_decide (b !! (len - 1)%nat = Some "-"%byte)
  then false
  else forallb (fun c => in_range 97 122 (b2z c) || in_range 48 57 (b2z c) || Byte.eqb c "-") b.

(** RecordSchemaRegistry._validateTypeName *)
Definition sol_validateTypeName (b : bytes) : bool :=
  if Nat.eqb (length b) 0 || Nat.ltb 32 (length b) then false
  else forallb (fun c => in_range 65 90 (b2z c) || in_range 97 122 (b2z c)
                         || in_range 48 57 (b2z c) || Byte.eqb c "_" || Byte.eqb c "-") b.

(** * Grammars *)

Lemma name_c_ascii x : name_c x = true -> x < 128.
Proof.
  unfold name_c, lower_c, digit_c, in_range.
  rewrite !orb_true_iff, !andb_true_iff, !Z.leb_le, Z.eqb_eq. lia.
Qed.

Lemma alnum_name x : alnum_c x = true <-> name_c x = true /\ x <> 45.
Proof.
  unfold alnum_c, name_c, lower_c, digit_c, in_range.
  rewrite !orb_true_iff, !andb_true_iff, !Z.leb_le, Z.eqb_eq. lia.
Qed.

(** The language of the name pattern, on runes. *)
Lemma nameRe_language s :
  matches nameRe s <->
  Forall (fun x => name_c x = true) s /\ (1 <= length s <= 63)%nat
  /\ hd 45 s <> 45 /\ List.last s 45 <> 45.
Proof.
  unfold nameRe. split.
  - inversion 1 as [| | |? ? s1 s2 H1 H2| |]; subst.
    inversion H1 as [|? x Hx| | | |]; subst. apply alnum_name in Hx as [Hx Hx'].
    inversion H2 as [| | | | |? ? H3]; subst; [simpl; repeat split; [by constructor|lia..]|].
    inversion H3 as [| | |? ? s3 s4 H4 H5| |]; subst.
    inversion H5 as [|? y Hy| | | |]; subst. apply alnum_name in Hy as [Hy Hy'].
    apply matches_many in H4 as [Hf Hl].
    change ([x] ++ s3 ++ [y]) with ((x :: s3) ++ [y]). rewrite List.last_last, length_app. simpl. repeat split; [|lia..|done|done].
    constructor; [done|]. apply Forall_app. split; [done|by constructor].
  - intros (Hf & Hl & Hh & Ht). destruct s as [|x s]; [simpl in Hl; lia|].
    apply Forall_cons in Hf as [Hx Hf]. simpl in Hh.
    apply (m_seq _ _ [x] s); [constructor; by apply alnum_name|].
    destruct s as [|y s _] using rev_ind; [constructor|]. apply m_opt_some.
    apply Forall_app in Hf as [Hf Hy]. apply Forall_cons in Hy as [Hy _].
    change (x :: s ++ [y]) with ((x :: s) ++ [y]) in Ht, Hl. rewrite List.last_last in Ht.
    rewrite length_app in Hl. simpl in Hl.
    constructor; [apply matches_many; split; [done|lia]|constructor; by apply alnum_name].
Qed.

Lemma last_map_b2z (s : bytes) d : List.last (map b2z s) (b2z d) = b2z (List.last s d).
Proof. induction s as [|b [|c s] IH]; simpl in *; done. Qed.

Lemma MatchString_nameRe s :
  MatchString nameRe s = true <->
  Forall (fun b => name_c (b2z b) = true) s /\ (1 <= length s <= 63)%nat
  /\ s !! 0%nat <> Some "-"%byte /\ s !! (length s - 1)%nat <> Some "-"%byte.
Proof.
  rewrite MatchString_ok, nameRe_language.
  assert (Forall ascii_byte s -> runes s = map b2z s) as Hr by apply runes_ascii.
  assert (forall l, (1 <= length l)%nat ->
    (hd 45 (map b2z l) <> 45 <-> l !! 0%nat <> Some "-"%byte) /\
    (List.last (map b2z l) 45 <> 45 <-> l !! (length l - 1)%nat <> Some "-"%byte)) as Hedge.
  { intros l Hl. change 45 with (b2z "-"). split.
    - destruct l as [|b l]; [simpl in Hl; lia|]. simpl. rewrite (inj_iff b2z). naive_solver.
    - rewrite last_map_b2z. destruct l as [|b l _] using rev_ind; [simpl in Hl; lia|].
      rewrite List.last_last, length_app. simpl.
      replace (length l + 1 - 1)%nat with (length l) by lia.
      rewrite list_lookup_middle by done. rewrite (inj_iff b2z). naive_solver. }
  split.
  - intros (Hf & Hl & Hh & Ht). assert (Forall ascii_byte s) as Ha.
    { apply runes_ascii_inv. eapply Forall_impl; [exact Hf|]. apply name_c_ascii. }
    rewrite Hr, length_map, Forall_map in * by done.
    destruct (Hedge s) as [E1 E2]; [lia|]. naive_solver.
  - intros (Hf & Hl & Hh & Ht). assert (Forall ascii_byte s) as Ha.
    { eapply Forall_impl; [exact Hf|]. intros b. apply name_c_ascii. }
    rewrite Hr, length_map, Forall_map by done.
    destruct (Hedge s) as [E1 E2]; [lia|]. naive_solver.
Qed.

Lemma name_c_byte b :
  name_c (b2z b) = in_range 97 122 (b2z b) || in_range 48 57 (b2z b) || Byte.eqb b "-".
Proof. by destruct b. Qed.

Lemma sol_validateName_spec s :
  sol_validateName s = true <->
  Forall (fun b => name_c (b2z b) = true) s /\ (1 <= length s <= 63)%nat
  /\ s !! 0%nat <> Some "-"%byte /\ s !! (length s - 1)%nat <> Some "-"%byte.
Proof.
  unfold sol_validateName.
  destruct (Nat.eqb_spec (length s) 0); simpl; [split; [done|lia]|].
  destruct (Nat.ltb_spec 63 (length s)); simpl; [split; [done|lia]|].
  destruct (bool_decide_reflect (s !! 0%nat = Some "-"%byte)); simpl; [naive_solver|].
  destruct (bool_decide_reflect (s !! (length s - 1)%nat = Some "-"%byte)); simpl; [naive_solver|].
  rewrite forallb_True_eq. setoid_rewrite <- name_c_byte.
  split; [|naive_solver]. intros Hf. repeat split; [done|lia..|done|done].
Qed.

(** * The loop of CanonicalSelector *)
Section CanonicalLemmas.
Context `{UnicodeCase}.

Lemma canonical_loop_Ret order canon keys canon' keys' :
  canonical_loop order canon keys = Ret (canon', keys') <->
  exists kvs, Forall2 (fun kv kv' => canonical_pair kv = Ret kv') order kvs
    /\ NoDup kvs.*1 /\ (forall k, k ∈ kvs.*1 -> canon !! k = None)
    /\ canon' = list_to_map kvs ∪ canon /\ keys' = keys ++ kvs.*1.
Proof.
  revert canon keys. induction order as [|kv order IH]; intros canon keys; cbn [canonical_loop].
  - split.
    + intros [= <- <-]. exists []. rewrite app_nil_r. cbn. rewrite (left_id_L ∅ (∪)).
      repeat split; [constructor|constructor|set_solver].
    + intros (kvs & Hf & _ & _ & -> & ->). inversion Hf; subst. cbn.
      by rewrite app_nil_r, (left_id_L ∅ (∪)).
  - destruct (canonical_pair kv) as [[k v]|e|] eqn:E; cbn [mbind go_bind].
    2,3: split; [done|]; intros (kvs & Hf & _); inversion Hf; congruence.
    cbn [fst snd]. destruct (canon !! k) as [w|] eqn:Ek.
    { split; [done|]. intros (kvs & Hf & _ & Hd & _).
      inversion Hf as [|? [k' v'] ? kvs' Hkv _]; subst. rewrite E in Hkv. injection Hkv as <- <-.
      specialize (Hd k). cbn in Hd. rewrite Hd in Ek; [done|set_solver]. }
    rewrite IH. split.
    + intros (kvs & Hf & Hnd & Hd & -> & ->). exists ((k, v) :: kvs). cbn.
      assert (k ∉ kvs.*1) as Hk by (intros Hk; apply Hd in Hk; by rewrite lookup_insert_eq in Hk).
      repeat split.
      * by constructor.
      * by constructor.
      * intros k' [->|Hk']%elem_of_cons; [done|]. specialize (Hd k' Hk').
        by apply lookup_insert_None in Hd as [? _].
      * rewrite <- insert_union_r; [by rewrite <- insert_union_l|]. by apply not_elem_of_list_to_map.
      * by rewrite <- app_assoc.
    + intros (kvs0 & Hf & Hnd & Hd & -> & ->).
      inversion Hf as [|? [k' v'] ? kvs Hkv Hf']; subst. rewrite E in Hkv. injection Hkv as <- <-.
      cbn in *. apply NoDup_cons in Hnd as [Hk Hnd]. exists kvs. repeat split; [done|done|..].
      * intros k' Hk'. rewrite lookup_insert_ne; [apply Hd; set_solver|]. intros ->. done.
      * rewrite <- insert_union_r; [by rewrite <- insert_union_l|]. by apply not_elem_of_list_to_map.
      * by rewrite <- app_assoc.
Qed.

(** The text of a list of normalized pairs. *)
Definition render (kvs : list (bytes * bytes)) : bytes :=
  Join (map (canonical_part (list_to_map kvs)) (sort_strings kvs.*1)) (str "&").

Lemma CanonicalSelector_order_Ret order s :
  CanonicalSelector_order order = Ret s <->
  exists kvs, Forall2 (fun kv kv' => canonical_pair kv = Ret kv') order kvs
    /\ NoDup kvs.*1 /\ s = render kvs.
Proof.
  unfold CanonicalSelector_order. case_bool_decide as Ho.
  - subst. split.
    + intros [= <-]. exists []. repeat split; constructor.
    + intros (kvs & Hf & _ & ->). by inversion Hf.
  - destruct (canonical_loop order ∅ []) as [[canon keys]|e|] eqn:E; cbn [mbind go_bind].
    + apply canonical_loop_Ret in E as (kvs & Hf & Hnd & _ & -> & ->).
      rewrite (right_id_L ∅ (∪)). cbn [fst snd app]. split; [intros [= <-]; by exists kvs|].
      intros (kvs' & Hf' & _ & ->). assert (kvs' = kvs) as ->; [|done].
      revert Hf Hf'. clear. intros Hf. revert kvs'.
      induction Hf as [|kv kv' l l' Hk _ IH]; intros kvs' Hf'; inversion Hf'; subst; [done|].
      f_equal; [congruence|by apply IH].
    + split; [done|]. intros (kvs & Hf & Hnd & _).
      assert (canonical_loop order ∅ [] = Ret (list_to_map kvs ∪ ∅, [] ++ kvs.*1)) as E';
        [|congruence]. apply canonical_loop_Ret. exists kvs. repeat split; done.
    + split; [done|]. intros (kvs & Hf & Hnd & _).
      assert (canonical_loop order ∅ [] = Ret (list_to_map kvs ∪ ∅, [] ++ kvs.*1)) as E';
        [|congruence]. apply canonical_loop_Ret. exists kvs. repeat split; done.
Qed.

Lemma render_perm kvs1 kvs2 : NoDup kvs1.*1 -> kvs1 ≡ₚ kvs2 -> render kvs1 = render kvs2.
Proof.
  intros Hnd Hp. unfold render. rewrite (list_to_map_proper kvs1 kvs2) by done.
  by rewrite (sort_strings_unique kvs1.*1 kvs2.*1) by (by rewrite Hp).
Qed.

Lemma CanonicalSelector_order_perm o1 o2 s :
  o1 ≡ₚ o2 -> CanonicalSelector_order o1 = Ret s -> CanonicalSelector_order o2 = Ret s.
Proof.
  rewrite !CanonicalSelector_order_Ret. intros Hp (kvs & Hf & Hnd & ->).
  apply (Permutation_Forall2 Hp) in Hf as (kvs' & Hp' & Hf').
  exists kvs'. repeat split; [done|by rewrite <- Hp'|by apply render_perm].
Qed.

Lemma canonical_pair_no_panic kv : canonical_pair kv <> Panic.
Proof. unfold canonical_pair, canonical_value. repeat split_match; done. Qed.

Lemma CanonicalSelector_order_no_panic o : CanonicalSelector_order o <> Panic.
Proof.
  unfold CanonicalSelector_order. case_bool_decide; [done|].
  assert (forall canon keys, canonical_loop o canon keys <> Panic) as Hl.
  { clear. induction o as [|kv o IH]; intros canon keys; cbn [canonical_loop]; [done|].
    pose proof (canonical_pair_no_panic kv). destruct (canonical_pair kv); cbn; [|done|done].
    split_match; [done|]. apply IH. }
  specialize (Hl ∅ []). by destruct (canonical_loop o ∅ []).
Qed.

(** * Canonical pairs are fixed points *)

Lemma key_c_byte b : key_c (b2z b) = true ->
  solid b = true /\ ascii_byte b /\ in_range 65 90 (b2z b) = false /\ b <> "="%byte /\ b <> "&"%byte.
Proof. destruct b; try discriminate; intros _; repeat split; done. Qed.

Lemma selKey_ok k : MatchString selKey k = true ->
  TrimSpace k = k /\ ToLower k = k /\ "="%byte ∉ k /\ "&"%byte ∉ k
  /\ exists b k', k = b :: k' /\ solid b = true.
Proof.
  intros Hm. apply MatchString_many_ascii in Hm as [Hf Hl].
  2: { intros x. unfold key_c, lower_c, digit_c, in_range.
       rewrite !orb_true_iff, !andb_true_iff, !Z.leb_le, Z.eqb_eq. lia. }
  assert (Forall (fun b => solid b = true /\ ascii_byte b /\ in_range 65 90 (b2z b) = false
    /\ b <> "="%byte /\ b <> "&"%byte) k) as Hk by (eapply Forall_impl; [exact Hf|apply key_c_byte]).
  repeat split.
  - apply TrimSpace_fix, trimmed_all_solid. eapply Forall_impl; [exact Hk|naive_solver].
  - apply ToLower_fix. eapply Forall_impl; [exact Hk|naive_solver].
  - rewrite Forall_forall in Hk. intros Hin. apply Hk in Hin. naive_solver.
  - rewrite Forall_forall in Hk. intros Hin. apply Hk in Hin. naive_solver.
  - destruct k as [|b k]; [simpl in Hl; lia|]. apply Forall_cons in Hk as [? _]. naive_solver.
Qed.

Lemma selVal_ok v : MatchString selVal v = true -> "="%byte ∉ v /\ "&"%byte ∉ v.
Proof.
  intros Hm. apply MatchString_ok, matches_many in Hm as [Hf _].
  rewrite Forall_forall in Hf. split; intros Hin.
  - by specialize (Hf _ (runes_in v _ Hin ltac:(done))).
  - by specialize (Hf _ (runes_in v _ Hin ltac:(done))).
Qed.

Lemma digits_ok s : forallb is_digit s = true ->
  trimmed s /\ "="%byte ∉ s /\ "&"%byte ∉ s.
Proof.
  intros Hd. apply forallb_True_eq in Hd. split.
  - apply trimmed_all_solid. eapply Forall_impl; [exact Hd|]. by intros [].
  - rewrite Forall_forall in Hd. split; intros Hin; by apply Hd in Hin.
Qed.

Lemma Itoa_port n : 1 <= n <= 65535 -> trimmed (Itoa n) /\ "="%byte ∉ Itoa n /\ "&"%byte ∉ Itoa n.
Proof.
  intros Hn. apply digits_ok. unfold Itoa. replace (n <? 0) with false by (symmetry; apply Z.ltb_ge; lia).
  apply dec_digits_ok; [change (10 ^ Z.of_nat 19) with 10000000000000000000; lia|lia].
Qed.

(** A known transport or service name is a fixed point of the normalization. *)
Lemma upper_word w v :
  v = w -> forallb (fun b => solid b && upper_c (b2z b)) w = true ->
  trimmed v /\ ToUpper v = v /\ "="%byte ∉ v /\ "&"%byte ∉ v.
Proof.
  intros ->. rewrite forallb_True_eq. intros Hf.
  assert (Forall (fun b => solid b = true /\ (ascii_byte b /\ in_range 97 122 (b2z b) = false)
    /\ b <> "="%byte /\ b <> "&"%byte) w) as Hw.
  { eapply Forall_impl; [exact Hf|]. intros b Hb. destruct b; try discriminate; repeat split; done. }
  repeat split.
  - apply trimmed_all_solid. eapply Forall_impl; [exact Hw|naive_solver].
  - apply trimmed_all_solid. eapply Forall_impl; [exact Hw|naive_solver].
  - apply ToUpper_fix. eapply Forall_impl; [exact Hw|naive_solver].
  - rewrite Forall_forall in Hw. intros Hin. apply Hw in Hin. naive_solver.
  - rewrite Forall_forall in Hw. intros Hin. apply Hw in Hin. naive_solver.
Qed.

Lemma knownTransports_ok v : knownTransports v = true ->
  trimmed v /\ ToUpper v = v /\ "="%byte ∉ v /\ "&"%byte ∉ v.
Proof.
  unfold knownTransports. rewrite !orb_true_iff, !bool_decide_eq_true.
  intros [[Hv|Hv]|Hv]; by eapply upper_word.
Qed.

Lemma knownServices_ok v : knownServices v = true ->
  trimmed v /\ ToUpper v = v /\ "="%byte ∉ v /\ "&"%byte ∉ v.
Proof.
  unfold knownServices. rewrite !orb_true_iff, !bool_decide_eq_true.
  intros [Hv|Hv]; by eapply upper_word.
Qed.

Lemma canonical_value_ok k v v' :
  trimmed v -> canonical_value k v = Ret v' ->
  trimmed v' /\ canonical_value k v' = Ret v' /\ "="%byte ∉ v' /\ "&"%byte ∉ v'.
Proof.
  intros Htr. unfold canonical_value. repeat case_bool_decide; simplify_eq.
  - destruct (Atoi v) as [n|] eqn:E; [|done].
    destruct ((n <? 1) || (65535 <? n)) eqn:Eb; [done|]. intros [= <-].
    pose proof Eb as Eb'. apply orb_false_iff in Eb' as [E1 E2]. rewrite Z.ltb_ge in E1, E2.
    rewrite Atoi_Itoa by (unfold max_int; lia). rewrite Eb.
    destruct (Itoa_port n) as (? & ? & ?); [lia|done].
  - destruct (knownTransports (ToUpper v)) eqn:E; [|done]. intros [= <-].
    destruct (knownTransports_ok _ E) as (? & Hu & ? & ?). by rewrite Hu, E.
  - destruct (knownServices (ToUpper v)) eqn:E; [|done]. intros [= <-].
    destruct (knownServices_ok _ E) as (? & Hu & ? & ?). by rewrite Hu, E.
  - destruct (MatchString selVal v) eqn:E; [|done]. intros [= <-].
    rewrite E. destruct (selVal_ok v E). done.
Qed.

(** What holds of each normalized pair. *)
Definition canonical (kv : bytes * bytes) : Prop :=
  canonical_pair kv = Ret kv /\ "="%byte ∉ kv.1 /\ "&"%byte ∉ kv.1 /\ "="%byte ∉ kv.2
  /\ "&"%byte ∉ kv.2 /\ ToLower kv.1 = kv.1 /\ exists b k', kv.1 = b :: k' /\ solid b = true.

Lemma canonical_pair_canonical kv kv' : canonical_pair kv = Ret kv' -> canonical kv'.
Proof.
  unfold canonical_pair. destruct (MatchString selKey _) eqn:E; [|done].
  destruct (selKey_ok _ E) as (Ht & Hl & Heq & Hamp & Hhd).
  destruct (canonical_value _ _) as [v'| |] eqn:Ev; cbn [mbind go_bind]; [|done|done].
  intros [= <-]. destruct (canonical_value_ok _ _ _ (TrimSpace_trimmed _) Ev) as (Htr & Hfix & ? & ?).
  unfold canonical. cbn [fst snd]. repeat split; try done.
  unfold canonical_pair. cbn [fst snd]. rewrite Ht, Hl, E, (TrimSpace_fix v' Htr), Hfix. done.
Qed.

(** Reading back the text of normalized pairs gives the pairs. *)
Lemma parse_fragments_parts keys canon acc :
  NoDup keys -> Forall (fun k => exists v, canon !! k = Some v /\ canonical (k, v)) keys ->
  (forall k, k ∈ keys -> acc !! k = None) ->
  parse_fragments (map (canonical_part canon) keys) acc
  = Ret (list_to_map (map (fun k => (k, default [] (canon !! k))) keys) ∪ acc).
Proof.
  intros Hnd Hf. revert acc. induction Hf as [|k keys (v & Hv & Hc) Hf IH]; intros acc Hacc.
  - cbn. by rewrite (left_id_L ∅ (∪)).
  - apply NoDup_cons in Hnd as [Hk Hnd]. cbn [map parse_fragments].
    unfold canonical_part at 1. rewrite Hv. cbn [default from_option id].
    destruct Hc as (_ & Heq & _ & _ & _ & Hlow & _). cbn [fst snd] in *.
    change (str "=" ++ v) with ("="%byte :: v). rewrite Cut_app by done.
    rewrite Hlow, Hacc by set_solver. rewrite IH; [|done|].
    + cbn [list_to_map foldr fst snd]. rewrite <- insert_union_r; [by rewrite <- insert_union_l|].
      apply not_elem_of_list_to_map. rewrite map_fst_pair. done.
    + intros k' Hk'. rewrite lookup_insert_ne; [apply Hacc; set_solver|]. intros ->. done.
Qed.

Lemma render_parse kvs :
  kvs <> [] -> NoDup kvs.*1 -> Forall canonical kvs ->
  ParsePairs (render kvs) = Ret (list_to_map kvs).
Proof.
  intros Hne Hnd Hc. set (keys := sort_strings kvs.*1).
  assert (keys ≡ₚ kvs.*1) as Hperm by apply sort_strings_perm.
  assert (Forall (fun k => exists v, (list_to_map kvs : gmap bytes bytes) !! k = Some v
    /\ canonical (k, v)) keys) as Hk.
  { rewrite Hperm, Forall_fmap. rewrite Forall_forall in Hc |- *. intros [k v] Hin. exists v.
    split; [by apply elem_of_list_to_map|by apply Hc]. }
  unfold render. fold keys. set (parts := map _ keys).
  assert (parts <> []) as Hparts.
  { unfold parts. destruct keys as [|k keys'] eqn:E; [|done].
    symmetry in Hperm. apply Permutation_nil_r, fmap_nil_inv in Hperm. done. }
  assert (Forall (fun p => ("&"%byte ∉ p) /\ exists b p', p = b :: p' /\ solid b = true) parts) as Hp.
  { unfold parts. rewrite Forall_map. eapply Forall_impl; [exact Hk|]. intros k (v & Hv & Hkv).
    unfold canonical_part. rewrite Hv. destruct Hkv as (_ & _ & Ha & _ & Hb & _ & b & k' & Hk' & Hs).
    cbn [fst snd] in *. subst k. split; [|eauto]. cbn [default from_option id].
    intros [Hin|[Hin|Hin]%elem_of_app]%elem_of_app; [done|by repeat (inversion Hin; subst; clear Hin; rename select (_ ∈ _) into Hin)|done]. }
  unfold ParsePairs. rewrite bool_decide_eq_false_2.
  2: { destruct parts as [|p ps]; [done|]. apply Forall_cons in Hp as [(_ & b & p' & -> & Hs) _].
       assert (exists t, Join ((b :: p') :: ps) (str "&") = b :: t) as [t ->] by (destruct ps; eauto).
       by apply TrimSpace_solid_head. }
  change (str "&") with ["&"%byte]. rewrite Split_Join; [|done|eapply Forall_impl; [exact Hp|naive_solver]].
  unfold parts. rewrite parse_fragments_parts; [|by rewrite Hperm|done|intros k _; apply lookup_empty].
  f_equal. rewrite (right_id_L ∅ (∪)). apply map_eq. intros k.
  destruct ((list_to_map kvs : gmap bytes bytes) !! k) as [v|] eqn:E.
  - apply elem_of_list_to_map; [by rewrite map_fst_pair, Hperm|].
    apply list_elem_of_fmap. exists k. rewrite E. split; [done|]. rewrite Hperm.
    apply elem_of_list_to_map in E; [|done]. apply list_elem_of_fmap. by exists (k, v).
  - apply not_elem_of_list_to_map. rewrite map_fst_pair, Hperm. by apply not_elem_of_list_to_map.
Qed.

Lemma CanonicalSelector_parse pairs sel :
  CanonicalSelector pairs = Ret sel ->
  exists pairs', ParsePairs sel = Ret pairs' /\ CanonicalSelector pairs' = Ret sel.
Proof.
  unfold CanonicalSelector. intros Hc. apply CanonicalSelector_order_Ret in Hc as (kvs & Hf & Hnd & ->).
  destruct (decide (kvs = [])) as [->|Hne]; [by exists ∅|].
  assert (Forall canonical kvs) as Hcan.
  { clear Hnd Hne. induction Hf; constructor; eauto using canonical_pair_canonical. }
  exists (list_to_map kvs). split; [by apply render_parse|].
  apply (CanonicalSelector_order_perm kvs); [by rewrite map_to_list_to_map|].
  apply CanonicalSelector_order_Ret. exists kvs. repeat split; [|done].
  clear Hf Hnd Hne. induction Hcan as [|kv kvs [Hkv _] _ IH]; by constructor.
Qed.

End CanonicalLemmas.

(** * Properties *)
Section Properties.
Context `{UnicodeCase}.

(** The resolver accepts exactly the domain names that the contract accepts:
    the regular expression of [ValidateName] and the loop of
    [NamespaceDApp._validateName] decide the same set of byte strings, invalid
    UTF-8 included. *)
Theorem ValidateName_mirrors_contract name :
  ValidateName name = Ret () <-> sol_validateName name = true.
Proof.
  rewrite sol_validateName_spec, <- MatchString_nameRe. unfold ValidateName.
  by destruct (MatchString nameRe name).
Qed.

Lemma MatchString_typeRe t :
  MatchString typeRe t = true <-> Forall (fun b => type_c (b2z b) = true) t /\ (1 <= length t <= 32)%nat.
Proof.
  apply MatchString_many_ascii. intros x. unfold type_c, upper_c, lower_c, digit_c, in_range.
  rewrite !orb_true_iff, !andb_true_iff, !Z.leb_le, !Z.eqb_eq. lia.
Qed.

(** The resolver accepts exactly the record types that the schema registry
    accepts. *)
Theorem ValidateType_mirrors_registry t :
  ValidateType t = Ret () <-> sol_validateTypeName t = true.
Proof.
  unfold ValidateType, sol_validateTypeName.
  pose proof (MatchString_typeRe t) as Hm.
  assert (forallb (fun c => in_range 65 90 (b2z c) || in_range 97 122 (b2z c)
    || in_range 48 57 (b2z c) || Byte.eqb c "_" || Byte.eqb c "-") t = true
    <-> Forall (fun b => type_c (b2z b) = true) t) as Hb.
  { rewrite forallb_True_eq. apply Forall_iff. by intros []. }
  destruct (Nat.eqb_spec (length t) 0), (Nat.ltb_spec 32 (length t)); cbn [orb];
    rewrite ?Hb; destruct (MatchString typeRe t); intuition (lia || congruence).
Qed.

(** The canonical selector does not depend on the order in which Go iterates
    the map of pairs: for any two orders of the same pairs, one run succeeds
    exactly when the other does, and with the same text. *)
Theorem CanonicalSelector_order_irrelevant (o1 o2 : list (bytes * bytes)) s :
  o1 ≡ₚ o2 -> CanonicalSelector_order o1 = Ret s <-> CanonicalSelector_order o2 = Ret s.
Proof. intros Hp. split; apply CanonicalSelector_order_perm; by rewrite Hp. Qed.

(** Canonical selectors are fixed points: parsing and canonicalizing the
    output of [CanonicalSelector] gives the same text back, so the owner CLI,
    the cache keys and the chain agree on one spelling. *)
Theorem ParseSelectorString_canonical (pairs : gmap bytes bytes) sel :
  CanonicalSelector pairs = Ret sel -> ParseSelectorString sel = Ret sel.
Proof.
  intros Hc. destruct (CanonicalSelector_parse pairs sel Hc) as (pairs' & Hp & Hc').
  unfold ParseSelectorString. by rewrite Hp.
Qed.

Lemma ValidateName_length name : ValidateName name = Ret () -> Z.of_nat (length name) <= 63.
Proof.
  rewrite ValidateName_mirrors_contract. unfold sol_validateName. destruct (_ || _) eqn:E; [done|]. intros _.
  apply orb_false_iff in E as [_ E%Nat.ltb_ge]. lia.
Qed.

Lemma New_Ret name t pairs q :
  New name t pairs = Ret q <->
  ValidateName name = Ret () /\ ValidateType t = Ret ()
  /\ exists sel, CanonicalSelector pairs = Ret sel /\ q = mkQuery name t sel.
Proof.
  unfold New. destruct (ValidateName name) as [[]| |], (ValidateType t) as [[]| |],
    (CanonicalSelector pairs); cbn; naive_solver.
Qed.

(** A query that [New] returned is returned again from its own parts. *)
Lemma New_reparse name t pairs q :
  New name t pairs = Ret q ->
  exists pairs', ParsePairs (Selector q) = Ret pairs' /\ New (Name q) (Type_ q) pairs' = Ret q.
Proof.
  rewrite New_Ret. intros (Hn & Ht & sel & Hc & ->). cbn.
  destruct (CanonicalSelector_parse pairs sel Hc) as (pairs' & Hp & Hc').
  exists pairs'. split; [done|]. apply New_Ret. eauto.
Qed.

Lemma New_lengths name t pairs q :
  New name t pairs = Ret q -> (1 <= length (Name q) <= 63)%nat /\ (1 <= length (Type_ q) <= 32)%nat.
Proof.
  rewrite New_Ret. unfold ValidateName, ValidateType. intros (Hn & Ht & sel & _ & ->). cbn.
  destruct (MatchString nameRe name) eqn:En; [|done]. destruct (MatchString typeRe t) eqn:Et; [|done].
  apply MatchString_nameRe in En as (_ & ? & _). by apply MatchString_typeRe in Et as [_ ?].
Qed.

Lemma New_no_panic name t pairs : New name t pairs <> Panic.
Proof.
  unfold New, ValidateName, ValidateType. pose proof (CanonicalSelector_order_no_panic (map_to_list pairs)).
  unfold CanonicalSelector. repeat split_match; cbn; try done.
  by destruct (CanonicalSelector_order (map_to_list pairs)).
Qed.

Lemma ParsePairs_no_panic raw : ParsePairs raw <> Panic.
Proof.
  unfold ParsePairs. case_bool_decide; [done|]. generalize (∅ : gmap bytes bytes).
  induction (Split raw "&") as [|p ps IH]; intros m; cbn [parse_fragments]; [done|].
  repeat split_match; try done.
Qed.

End Properties.

(** A case table that maps no rune outside ASCII, for concrete evaluations. *)
Definition ascii_case : UnicodeCase := {| uni_lower := fun r => r; uni_upper := fun r => r |}.

Example test_canonical :
  @CanonicalSelector ascii_case
    (list_to_map [(str "transport", str "tcp"); (str "PORT", str " 025"); (str "service", str "smtp")])
  = Ret (str "port=25&service=SMTP&transport=TCP").
Proof. vm_compute. reflexivity. Qed.

Example test_parse :
  @ParseSelectorString ascii_case (str "service=HTTP&port=443&transport=quic")
  = Ret (str "port=443&service=HTTP&transport=QUIC").
Proof. vm_compute. reflexivity. Qed.

(** The pairs of the tests, in two orders. *)
Definition demo_pairs : list (bytes * bytes) :=
  [(str "transport", str "tcp"); (str "PORT", str " 025"); (str "service", str "smtp")].

Lemma CanonicalSelector_order_irrelevant_witness :
  @CanonicalSelector_order ascii_case (rev demo_pairs) = Ret (str "port=25&service=SMTP&transport=TCP").
Proof.
  apply (@CanonicalSelector_order_irrelevant ascii_case demo_pairs (rev demo_pairs)).
  - apply Permutation_rev.
  - vm_compute. reflexivity.
Defined.

Lemma ParseSelectorString_canonical_witness :
  @ParseSelectorString ascii_case (str "port=25&service=SMTP&transport=TCP")
  = Ret (str "port=25&service=SMTP&transport=TCP").
Proof.
  apply (@ParseSelectorString_canonical ascii_case (list_to_map demo_pairs)).
  vm_compute. reflexivity.
Defined.

End Query.
