(* ===== verification/Chain.v ===== *)
(** Package [chain] (src/resolver/internal/chain): the resolver's view of on-chain
    data (types.go) and the RPC retry loop (client.go). The RPC endpoint, the
    timers and the context are a world [W] with the operations the code uses. *)
From S2P Require Import Prelude.

Local Open Scope Z_scope.

Module Chain.

(** common.Address is a [[20]byte]; a commitment and a hash are [[32]byte]. *)
Abbreviation address := bytes (only parsing).
Definition zero_address : address := replicate 20 x00.
Definition zero_hash : bytes := replicate 32 x00.

(** bindings.NamespaceDAppRecord *)
Record NamespaceDAppRecord := mkBinding {
  b_RecordType : bytes;
  b_Selector : bytes;
  b_FieldNames : list bytes;
  b_FieldValues : list bytes;
  b_Ttl : Z;
  b_Generation : Z;
  b_OwnerSig : bytes;
  b_Commitment : bytes;
  b_Exists : bool;
}.

#[export] Instance NamespaceDAppRecord_eq_dec : EqDecision NamespaceDAppRecord.
Proof. solve_decision. Defined.

(** type Record struct *)
Record Record := mkRecord {
  Type_ : bytes;
  Selector : bytes;
  FieldNames : list bytes;
  FieldVals : list bytes;
  TTL : Z;           (* uint32 *)
  Generation : Z;    (* uint64 *)
  OwnerSig : bytes;
  Commitment : bytes;
  Exists : bool;
}.
#[export] Instance Record_eq_dec : EqDecision Record.
Proof. solve_decision. Defined.

(** The zero value [Record{}]. *)
Definition zero_record : Record := mkRecord [] [] [] [] 0 0 [] zero_hash false.

(** The widths of the struct's fields. *)
Definition record_wf (r : Record) : Prop :=
  0 <= TTL r < 2 ^ 32 /\ 0 <= Generation r < 2 ^ 64 /\ length (Commitment r) = 32%nat.

(** (r *Record) Field: the value at the first index whose name matches; [None]
    is the pair ("", false). *)
Fixpoint field_at (names vals : list bytes) (name : bytes) (i : nat) : option bytes :=
  match names with
  | [] => None
  | n :: rest =>
      if bool_decide (n = name) then vals !! i else field_at rest vals name (S i)
  end.
Definition Field (r : Record) (name : bytes) : option bytes :=
  field_at (FieldNames r) (FieldVals r) name 0.

(** type ResolveResult struct *)
Record ResolveResult := mkResolveResult {
  RR_Record : Record;
  Owner : address;
  PubKey : bytes;
  OwnerSigValid : bool;
  ZKProof : bytes;
}.
#[export] Instance ResolveResult_eq_dec : EqDecision ResolveResult.
Proof. solve_decision. Defined.

(** type Domain struct *)
Record Domain := mkDomain {
  D_Owner : address;
  D_PubKey : bytes;
  D_Expiry : Z;
  D_Generation : Z;
}.

(** type EventKind string, with its four constants *)
Inductive EventKind := EventRecordSet | EventRecordRemoved | EventTransferred | EventRegistered.
#[export] Instance EventKind_eq_dec : EqDecision EventKind.
Proof. solve_decision. Defined.

(** type RecordEvent struct *)
Record RecordEvent := mkRecordEvent {
  Kind : EventKind;
  EvName : bytes;
  NameHash : bytes;
  RecordType : bytes;
  EvSelector : bytes;
  Block : Z;
}.
#[export] Instance RecordEvent_eq_dec : EqDecision RecordEvent.
Proof. solve_decision. Defined.

Definition fromBinding (r : NamespaceDAppRecord) : Record :=
  {| Type_ := b_RecordType r; Selector := b_Selector r;
     FieldNames := b_FieldNames r; FieldVals := b_FieldValues r;
     TTL := b_Ttl r; Generation := b_Generation r;
     OwnerSig := b_OwnerSig r; Commitment := b_Commitment r; Exists := b_Exists r |}.

(** * retry *)

Definition retryAttempts : nat := 3.
Definition retryBaseWait : Z := 150.  (* milliseconds *)

Inductive retry_error (E C : Type) :=
| CtxErr (c : option C)                  (* return zero, ctx.Err() *)
| Exhausted (attempts : nat) (last : option E).  (* "%s failed after %d attempts: %w" *)
Arguments CtxErr {E C} c.
Arguments Exhausted {E C} attempts last.

(** The environment of an RPC: [fn] is one call; [select_wait d] is the select
    between [time.After(d)] (true) and [ctx.Done()] (false). *)
Section Retry.
Context {W A E C : Type}.
Variable fn : W -> (A + E) * W.
Variable select_wait : Z -> W -> bool * W.
Variable ctx_err : W -> option C.

(** The loop body at [attempt], with [n] attempts left. *)
Fixpoint retry_loop (n : nat) (attempt : Z) (lastErr : option E) (w : W) :
    (A + retry_error E C) * W :=
  match n with
  | O => (inr (Exhausted retryAttempts lastErr), w)
  | S n' =>
      let '(proceed, w) :=
        if 0 <? attempt then select_wait (Z.shiftl retryBaseWait (attempt - 1)) w else (true, w) in
      if negb proceed then (inr (CtxErr (ctx_err w)), w)
      else
        let '(out, w) := fn w in
        match out with
        | inl a => (inl a, w)
        | inr e =>
            match ctx_err w with
            | Some c => (inr (CtxErr (Some c)), w)
            | None => retry_loop n' (attempt + 1) (Some e) w
            end
        end
  end.

Definition retry (w : W) : (A + retry_error E C) * W := retry_loop retryAttempts 0 None w.

(** What each kind of result says about the last thing that happened. *)
Definition retry_outcome_ok (res : (A + retry_error E C) * W) : Prop :=
  match res with
  | (inl a, w') => exists w0, fn w0 = (inl a, w')
  | (inr (CtxErr (Some c)), w') => ctx_err w' = Some c
  | (inr (CtxErr None), w') => exists d w0, select_wait d w0 = (false, w')
  | (inr (Exhausted n last), w') =>
      n = retryAttempts /\ ctx_err w' = None /\ exists w0 e, last = Some e /\ fn w0 = (inr e, w')
  end.

Lemma retry_loop_outcome n attempt le w :
  retry_outcome_ok (inr (Exhausted retryAttempts le), w) \/ (0 < n)%nat ->
  retry_outcome_ok (retry_loop n attempt le w).
Proof.
  revert attempt le w. induction n as [|n IH]; intros attempt le w Hn; cbn [retry_loop].
  { destruct Hn; [done|lia]. }
  destruct (if 0 <? attempt then _ else _) as [p w1] eqn:E1. destruct p; cbn [negb].
  2: { destruct (0 <? attempt); [|done]. cbn. destruct (ctx_err w1) eqn:E2; [done|eauto]. }
  destruct (fn w1) as [[b|e] w2] eqn:E2; [cbn; eauto|].
  destruct (ctx_err w2) eqn:E3; [done|]. apply IH. left. cbn. naive_solver.
Qed.

(** [retry] returns a value only if its last call returned it, gives up only
    after its last call failed with the context alive and reports that call's
    error, and otherwise reports the context's error. *)
Theorem retry_outcome w : retry_outcome_ok (retry w).
Proof. apply retry_loop_outcome. right. unfold retryAttempts. lia. Qed.

(** [retry] makes at most three calls and waits at most 150 + 300 ms between
    them, whatever the calls answer; [calls] and [waited] are any measures of
    the world that one call and one wait advance accordingly. *)
Theorem retry_bounded (calls : W -> nat) (waited : W -> Z) w :
  (forall v, calls (fn v).2 = S (calls v) /\ waited (fn v).2 = waited v) ->
  (forall d v, calls (select_wait d v).2 = calls v /\ waited (select_wait d v).2 <= waited v + d) ->
  (calls (retry w).2 <= calls w + 3)%nat /\ waited (retry w).2 <= waited w + 450.
Proof.
  intros Hfn Hsw. unfold retry, retryAttempts. cbn [retry_loop].
  change (0 + 1) with 1. change (1 + 1) with 2. change (0 <? 0) with false.
  change (0 <? 1) with true. change (0 <? 2) with true.
  change (Z.shiftl retryBaseWait (1 - 1)) with 150. change (Z.shiftl retryBaseWait (2 - 1)) with 300.
  repeat match goal with
  | |- context [fn ?v] =>
      let H := fresh "H" in pose proof (Hfn v) as H; destruct (fn v) as [[?|?] ?]; cbn in H |- *
  | |- context [select_wait ?d ?v] =>
      let H := fresh "H" in pose proof (Hsw d v) as H; destruct (select_wait d v) as [[] ?]; cbn in H |- *
  | |- context [ctx_err ?v] => destruct (ctx_err v); cbn
  end; lia.
Qed.
End Retry.

(** * The client's reads

    The interface the query path depends on (server/handle.go, ChainReader), and
    the client as an instance of it: every read is a [retry] of one contract call
    whose result is converted. *)
Class ChainReader (W Er : Type) := {
  cr_Resolve : bytes -> bytes -> bytes -> W -> (ResolveResult + Er) * W;   (* name, type, selector *)
  cr_GetDomain : bytes -> W -> (Domain + Er) * W;
  cr_ListRecords : bytes -> W -> (list Record + Er) * W;
  cr_ListTypes : W -> (list bytes + Er) * W;
  cr_ChainHead : W -> (Z + Er) * W;
}.

Section Client.
Context {W E C : Type}.
(** the contract calls of the bindings and eth_blockNumber *)
Variable dapp_Resolve : bytes -> bytes -> bytes -> W -> (NamespaceDAppRecord * address * bytes + E) * W.
Variable dapp_GetDomain : bytes -> W -> (address * bytes * Z * Z + E) * W.
Variable dapp_ListRecords : bytes -> W -> (list NamespaceDAppRecord + E) * W.
Variable registry_ListTypes : W -> (list bytes + E) * W.
Variable eth_BlockNumber : W -> (Z + E) * W.
Variable select_wait : Z -> W -> bool * W.
Variable ctx_err : W -> option C.

(** [if err != nil { return nil, err }; return f(out), nil] *)
Definition convert {A B F} (f : A -> B) (out : (A + F) * W) : (B + F) * W :=
  match out with (inl a, w) => (inl (f a), w) | (inr e, w) => (inr e, w) end.

Definition Client_ChainHead (w : W) : (Z + retry_error E C) * W := retry eth_BlockNumber select_wait ctx_err w.

Definition Client_Resolve (name recordType selector : bytes) (w : W) : (ResolveResult + retry_error E C) * W :=
  convert (fun '(rec, owner, pubKey) => mkResolveResult (fromBinding rec) owner pubKey false [])
    (retry (dapp_Resolve name recordType selector) select_wait ctx_err w).

Definition Client_GetDomain (name : bytes) (w : W) : (Domain + retry_error E C) * W :=
  convert (fun '(owner, pubKey, expiry, generation) => mkDomain owner pubKey expiry generation)
    (retry (dapp_GetDomain name) select_wait ctx_err w).

Definition Client_ListRecords (name : bytes) (w : W) : (list Record + retry_error E C) * W :=
  convert (map fromBinding) (retry (dapp_ListRecords name) select_wait ctx_err w).

Definition Client_ListTypes (w : W) : (list bytes + retry_error E C) * W :=
  retry registry_ListTypes select_wait ctx_err w.

#[local] Instance Client : ChainReader W (retry_error E C) := {
  cr_Resolve := Client_Resolve;
  cr_GetDomain := Client_GetDomain;
  cr_ListRecords := Client_ListRecords;
  cr_ListTypes := Client_ListTypes;
  cr_ChainHead := Client_ChainHead;
}.

(** What a read returns is what its last contract call returned; the result is
    not vetted yet. *)
Lemma Client_Resolve_fresh name t sel w res w' :
  Client_Resolve name t sel w = (inl res, w') ->
  OwnerSigValid res = false /\ ZKProof res = []
  /\ exists w0 b, dapp_Resolve name t sel w0 = (inl (b, Owner res, PubKey res), w') /\ RR_Record res = fromBinding b.
Proof.
  unfold Client_Resolve, convert. pose proof (retry_loop_outcome (dapp_Resolve name t sel) select_wait ctx_err
    retryAttempts 0 None w ltac:(right; unfold retryAttempts; lia)) as Ho. fold (retry (dapp_Resolve name t sel) select_wait ctx_err w) in Ho.
  destruct (retry (dapp_Resolve name t sel) select_wait ctx_err w) as [[[[b o] pk]|e] w1]; [|done].
  intros [= <- <-]. split; [done|]. split; [done|]. destruct Ho as [w0 Hw]. eauto.
Qed.
End Client.

(** * Field *)

Lemma field_at_spec names vals name i v :
  field_at names vals name i = Some v <->
  exists j, names !! j = Some name /\ vals !! (i + j)%nat = Some v
    /\ forall j', (j' < j)%nat -> names !! j' <> Some name.
Proof.
  revert i. induction names as [|n names IH]; intros i; cbn [field_at]; [naive_solver|].
  case_bool_decide as Hn.
  - subst. split.
    + intros Hv. exists O. rewrite Nat.add_0_r. split; [done|split; [done|lia]].
    + intros ([|j] & Hj & Hv & Hmin); [by rewrite Nat.add_0_r in Hv|].
      exfalso. by apply (Hmin O); [lia|].
  - rewrite IH. split.
    + intros (j & Hj & Hv & Hmin). exists (S j). rewrite Nat.add_succ_r. split; [done|]. split; [done|].
      intros [|j'] Hj'; [naive_solver|]. apply Hmin. lia.
    + intros ([|j] & Hj & Hv & Hmin); [naive_solver|]. exists j.
      rewrite Nat.add_succ_r in Hv. split; [done|]. split; [done|].
      intros j' Hj'. apply (Hmin (S j')). lia.
Qed.

(** A world that scripts the answers of an RPC: the remaining answers, the calls
    made, the time waited and the time at which the context is cancelled. *)
Record script_world := mkScript {
  answers : list (Z + Z);
  n_calls : nat;
  elapsed : Z;
  deadline : Z;
}.
Definition script_fn (w : script_world) : (Z + Z) * script_world :=
  match answers w with
  | a :: rest => (a, mkScript rest (S (n_calls w)) (elapsed w) (deadline w))
  | [] => (inr 0, mkScript [] (S (n_calls w)) (elapsed w) (deadline w))
  end.
Definition script_wait (d : Z) (w : script_world) : bool * script_world :=
  if elapsed w + d <? deadline w
  then (true, mkScript (answers w) (n_calls w) (elapsed w + d) (deadline w))
  else (false, mkScript (answers w) (n_calls w) (Z.min (elapsed w + d) (Z.max (elapsed w) (deadline w))) (deadline w)).
Definition script_ctx (w : script_world) : option () :=
  if elapsed w <? deadline w then None else Some ().

Example script_third_try :
  retry script_fn script_wait script_ctx (mkScript [inr 1; inr 2; inl 7] 0 0 1000)
  = (inl 7, mkScript [] 3 450 1000).
Proof. reflexivity. Qed.

Example script_cancelled :
  retry script_fn script_wait script_ctx (mkScript [inr 1; inr 2; inl 7] 0 0 200)
  = (inr (CtxErr (Some ())), mkScript [inl 7] 2 200 200).
Proof. reflexivity. Qed.

Lemma retry_bounded_witness :
  let w' := (retry script_fn script_wait script_ctx (mkScript [inr 1; inr 2; inr 3; inl 7] 0 0 1000)).2 in
  (n_calls w' <= 3)%nat /\ elapsed w' <= 450.
Proof.
  apply (retry_bounded script_fn script_wait script_ctx n_calls elapsed
    (mkScript [inr 1; inr 2; inr 3; inl 7] 0 0 1000)).
  - intros v. unfold script_fn. destruct (answers v); done.
  - intros d v. unfold script_wait. destruct (elapsed v + d <? deadline v); cbn; lia.
Defined.

End Chain.
