(* ===== verification/Cache.v ===== *)
(** Package [cache] (src/resolver/internal/cache): the bounded LRU with per-entry
    TTL, its two name indexes and the push invalidation by contract events.

    The LRU (github.com/hashicorp/golang-lru/v2) is an interface: the class
    [LruOps] lists the operations the cache calls, with the entries each one
    hands to the eviction callback, and [LruLaws] states what the cache relies
    on. [ListLru] is an instance, used to evaluate the cache on concrete
    traces. The mutex of the cache guards every operation, so an operation is
    one atomic step and a trace is a list of them. *)
From S2P Require Import Prelude Chain.
Import Chain.

Local Open Scope Z_scope.

(** * The LRU interface *)

Class LruOps (K V L : Type) := {
  lru_new : Z -> option L;                      (* NewWithEvict(size, onEvicted) *)
  lru_get : K -> L -> option V * L;             (* Get *)
  lru_add : K -> V -> L -> list (K * V) * L;    (* Add, with the entries evicted *)
  lru_remove : K -> L -> list (K * V) * L;      (* Remove *)
  lru_purge : L -> list (K * V) * L;            (* Purge *)
  lru_len : L -> nat;                           (* Len *)
}.

Class LruLaws (K V L : Type) `{Countable K} `{!LruOps K V L} := {
  (** the entries held and the size given to [lru_new] *)
  lru_entries : L -> gmap K V;
  lru_size : L -> Z;
  lru_wf : L -> Prop;
  lru_wf_bound l : lru_wf l -> Z.of_nat (size (lru_entries l)) <= lru_size l;
  lru_new_ok n : 0 < n ->
    exists l, lru_new n = Some l /\ lru_wf l /\ lru_entries l = ∅ /\ lru_size l = n;
  lru_new_bad n : n <= 0 -> lru_new n = None;
  lru_get_ok k l : lru_wf l ->
    (lru_get k l).1 = lru_entries l !! k
    /\ lru_entries (lru_get k l).2 = lru_entries l
    /\ lru_wf (lru_get k l).2 /\ lru_size (lru_get k l).2 = lru_size l;
  (** [Add] keeps the new entry and hands what it evicts to the callback *)
  lru_add_ok k v l : lru_wf l ->
    let '(ev, l') := lru_add k v l in
    lru_wf l' /\ lru_size l' = lru_size l
    /\ (forall k', k' ∈ ev.*1 -> k' <> k)
    /\ (forall k' v', (k', v') ∈ ev -> lru_entries l !! k' = Some v')
    /\ NoDup ev.*1
    /\ (forall k', lru_entries l' !! k' = if decide (k' ∈ ev.*1) then None else <[k := v]> (lru_entries l) !! k')
    /\ (is_Some (lru_entries l !! k) \/ Z.of_nat (size (lru_entries l)) < lru_size l -> ev = []);
  lru_remove_ok k l : lru_wf l ->
    let '(ev, l') := lru_remove k l in
    lru_wf l' /\ lru_size l' = lru_size l /\ lru_entries l' = delete k (lru_entries l)
    /\ ev = match lru_entries l !! k with Some v => [(k, v)] | None => [] end;
  lru_purge_ok l : lru_wf l ->
    let '(ev, l') := lru_purge l in
    lru_wf l' /\ lru_size l' = lru_size l /\ lru_entries l' = ∅;
  lru_len_ok l : lru_wf l -> lru_len l = size (lru_entries l);
}.

(** * An instance: a list of entries, the most recently used first *)
Section ListLru.
Context {K V : Type} `{Countable K}.

Record list_lru := mkListLru { ll_items : list (K * V); ll_cap : Z }.

Definition ll_without (k : K) (l : list (K * V)) : list (K * V) := filter (fun kv => kv.1 <> k) l.

Definition ll_get (k : K) (l : list_lru) : option V * list_lru :=
  match (list_to_map (ll_items l) : gmap K V) !! k with
  | Some v => (Some v, mkListLru ((k, v) :: ll_without k (ll_items l)) (ll_cap l))
  | None => (None, l)
  end.

Definition ll_add (k : K) (v : V) (l : list_lru) : list (K * V) * list_lru :=
  match (list_to_map (ll_items l) : gmap K V) !! k with
  | Some _ => ([], mkListLru ((k, v) :: ll_without k (ll_items l)) (ll_cap l))
  | None =>
      if Z.of_nat (length (ll_items l)) <? ll_cap l
      then ([], mkListLru ((k, v) :: ll_items l) (ll_cap l))
      else (drop (pred (length (ll_items l))) (ll_items l),
            mkListLru ((k, v) :: take (pred (length (ll_items l))) (ll_items l)) (ll_cap l))
  end.

Definition ll_remove (k : K) (l : list_lru) : list (K * V) * list_lru :=
  (match (list_to_map (ll_items l) : gmap K V) !! k with Some v => [(k, v)] | None => [] end,
   mkListLru (ll_without k (ll_items l)) (ll_cap l)).

#[export] Instance ListLru : LruOps K V list_lru := {
  lru_new n := if 0 <? n then Some (mkListLru [] n) else None;
  lru_get := ll_get;
  lru_add := ll_add;
  lru_remove := ll_remove;
  lru_purge l := (ll_items l, mkListLru [] (ll_cap l));
  lru_len l := length (ll_items l);
}.

Definition ll_wf (l : list_lru) : Prop :=
  NoDup (ll_items l).*1 /\ Z.of_nat (length (ll_items l)) <= ll_cap l /\ 0 < ll_cap l.

Lemma ll_without_nodup k l : NoDup l.*1 -> NoDup (ll_without k l).*1.
Proof.
  unfold ll_without. induction l as [|kv l IH]; [done|].
  rewrite filter_cons, fmap_cons. intros [Hx Hnd]%NoDup_cons.
  case_decide; rewrite ?fmap_cons; [|by apply IH]. constructor; [|by apply IH].
  intros (kv' & E & [_ Hin]%list_elem_of_filter)%list_elem_of_fmap. apply Hx.
  rewrite E. by apply list_elem_of_fmap_2.
Qed.

Lemma ll_without_cons k kv l :
  ll_without k (kv :: l) = if decide (kv.1 = k) then ll_without k l else kv :: ll_without k l.
Proof. unfold ll_without. rewrite filter_cons. by repeat case_decide. Qed.

Lemma ll_without_map k l :
  (list_to_map (ll_without k l) : gmap K V) = delete k (list_to_map l).
Proof.
  induction l as [|[k' v] l IH]; [cbn; by rewrite delete_empty|].
  rewrite ll_without_cons. cbn. case_decide as E; cbn; rewrite IH.
  - subst. by rewrite delete_insert_eq.
  - by rewrite delete_insert_ne.
Qed.

Lemma ll_without_length k l : (length (ll_without k l) <= length l)%nat.
Proof. apply length_filter. Qed.

Lemma ll_without_length_lt k (l : list (K * V)) v :
  (list_to_map l : gmap K V) !! k = Some v -> (length (ll_without k l) < length l)%nat.
Proof.
  induction l as [|[k' v'] l IH]; [done|]. rewrite ll_without_cons. cbn.
  pose proof (ll_without_length k l). case_decide as E; cbn; [lia|].
  rewrite lookup_insert_ne by done. intros Hl. apply IH in Hl. lia.
Qed.

Lemma ll_size l : NoDup l.*1 -> size (list_to_map l : gmap K V) = length l.
Proof.
  intros Hnd. rewrite <- (length_map_to_list (list_to_map l : gmap K V)).
  by rewrite map_to_list_to_map.
Qed.

Lemma ll_add_evict k v l front last :
  NoDup l.*1 -> l = front ++ [last] -> (list_to_map l : gmap K V) !! k = None ->
  NoDup ((k, v) :: front).*1
  /\ last.1 <> k /\ (list_to_map l : gmap K V) !! last.1 = Some last.2
  /\ forall k', (list_to_map ((k, v) :: front) : gmap K V) !! k'
       = if decide (k' = last.1) then None else <[k := v]> (list_to_map l : gmap K V) !! k'.
Proof.
  intros Hnd -> Hk. destruct last as [k0 v0]. cbn [fst snd].
  rewrite fmap_app in Hnd. apply NoDup_app in Hnd as (Hf & Hd & _).
  assert (k ∉ (front ++ [(k0, v0)]).*1) as Hk' by (by apply not_elem_of_list_to_map).
  rewrite fmap_app in Hk'. cbn in Hk'.
  assert (k0 ∉ front.*1) as H0 by (intros Hin; apply (Hd k0 Hin); set_solver).
  split; [constructor; [set_solver|done]|]. split; [set_solver|].
  rewrite !list_to_map_app. cbn. split.
  - rewrite lookup_union_r by (by apply not_elem_of_list_to_map). by rewrite insert_empty, lookup_singleton_eq.
  - intros k'. rewrite insert_empty, !lookup_insert. case_decide as E1; case_decide as E2; subst; try done.
    + set_solver.
    + by apply not_elem_of_list_to_map.
    + destruct ((list_to_map front : gmap K V) !! k') eqn:E3.
      * symmetry. by apply lookup_union_Some_l.
      * symmetry. apply lookup_union_None. split; [done|]. by rewrite lookup_singleton_ne.
Qed.

#[export] Program Instance ListLruLaws : LruLaws K V list_lru := {
  lru_entries l := list_to_map (ll_items l);
  lru_size := ll_cap;
  lru_wf := ll_wf;
}.
Next Obligation. intros l (Hnd & Hl & _). by rewrite ll_size. Qed.
Next Obligation.
  intros n Hn. cbn. rewrite (proj2 (Z.ltb_lt _ _) Hn). eexists. split; [done|].
  split; [|done]. split; [constructor|]. cbn. lia.
Qed.
Next Obligation. intros n Hn. cbn. by rewrite (proj2 (Z.ltb_ge _ _) Hn). Qed.
Next Obligation.
  intros k l (Hnd & Hl & Hc). cbn. unfold ll_get.
  destruct (list_to_map (ll_items l) !! k) as [v|] eqn:E; [|done]. cbn [fst snd ll_items ll_cap].
  split; [done|]. split; [cbn; rewrite ll_without_map, insert_delete_eq; by apply insert_id|].
  split; [|done]. split; [|cbn; apply ll_without_length_lt in E; lia]. cbn.
  constructor; [|by apply ll_without_nodup]. apply (not_elem_of_list_to_map (M := gmap K)).
  by rewrite ll_without_map, lookup_delete_eq.
Qed.
Next Obligation.
  intros k v l (Hnd & Hl & Hc). cbn. unfold ll_add.
  destruct (list_to_map (ll_items l) !! k) as [v0|] eqn:E.
  { cbn. split.
    { split; [|cbn; apply ll_without_length_lt in E; lia]. cbn.
      constructor; [|by apply ll_without_nodup]. apply (not_elem_of_list_to_map (M := gmap K)).
      by rewrite ll_without_map, lookup_delete_eq. }
    split; [done|]. split; [set_solver|]. split; [set_solver|]. split; [constructor|].
    split; [|done]. intros k'. by rewrite decide_False, ll_without_map, insert_delete_eq by set_solver. }
  destruct (Z.ltb_spec (Z.of_nat (length (ll_items l))) (ll_cap l)) as [Hlt|Hge].
  { cbn. split; [split; [|cbn; lia]; cbn; constructor; [by apply (not_elem_of_list_to_map (M := gmap K))|done]|].
    split; [done|]. split; [set_solver|]. split; [set_solver|]. split; [constructor|].
    split; [|done]. intros k'. by rewrite decide_False by set_solver. }
  destruct (ll_items l) as [|x t] eqn:El using rev_ind; [cbn in Hge; lia|]. clear IHt.
  rewrite length_app. cbn [length]. replace (pred (length t + 1)) with (length t) by lia.
  rewrite take_app_length, drop_app_length.
  destruct (ll_add_evict k v (t ++ [x]) t x Hnd eq_refl E) as (H1 & H2 & H3 & H4).
  cbn [ll_items ll_cap]. split; [split; [done|cbn; rewrite length_app in Hl; cbn in Hl; lia]|].
  split; [done|]. split; [set_solver|]. split.
  { intros k' v' Hin. apply list_elem_of_singleton in Hin as <-. done. }
  split; [apply NoDup_singleton|]. split.
  { intros k'. rewrite H4. cbn. repeat case_decide; set_solver. }
  intros [[? Hs]|Hs]; [congruence|]. rewrite ll_size in Hs by done. lia.
Qed.
Next Obligation.
  intros k l (Hnd & Hl & Hc). cbn. split; [|split; [done|split; [apply ll_without_map|done]]].
  split; [by apply ll_without_nodup|]. cbn. pose proof (ll_without_length k (ll_items l)). lia.
Qed.
Next Obligation. intros l (Hnd & Hl & Hc). cbn. split; [|done]. split; [constructor|cbn; lia]. Qed.
Next Obligation. intros l (Hnd & Hl & Hc). cbn. symmetry. by apply ll_size. Qed.
End ListLru.
Arguments list_lru K V : clear implicits.

Module Cache.

(** type Key struct *)
Record Key := mkKey { Name : bytes; KType : bytes; KSelector : bytes }.
#[export] Instance Key_eq_dec : EqDecision Key.
Proof. solve_decision. Defined.
#[export] Program Instance Key_countable : Countable Key :=
  inj_countable' (fun k => (Name k, KType k, KSelector k)) (fun '(a, b, c) => mkKey a b c) _.
Next Obligation. by intros []. Qed.

(** type entry struct; times are nanoseconds *)
Record entry (V : Type) := mkEntry { value : V; expiresAt : Z }.
Arguments mkEntry {V} value expiresAt.
Arguments value {V} e.
Arguments expiresAt {V} e.

(** type Stats struct *)
Record Stats_t := mkStats { s_Hits : Z; s_Misses : Z; s_Evictions : Z; s_Entries : Z; s_Capacity : Z }.

Definition u64 (z : Z) : Z := z mod 2 ^ 64.

Section Cache.
Context {V L : Type} `{LruOps Key (entry V) L}.
Variable nameHash : bytes -> bytes.  (* keccak256 *)

(** type TTLCache struct *)
Record TTLCache := mkCache {
  lru : L;
  capacity : Z;
  nameKeys : gmap bytes (gset Key);
  hashNames : gmap bytes bytes;
  hits : Z; misses : Z; evictions : Z;
}.

Definition with_lru (l : L) (c : TTLCache) : TTLCache :=
  mkCache l (capacity c) (nameKeys c) (hashNames c) (hits c) (misses c) (evictions c).
Definition with_index (nk : gmap bytes (gset Key)) (hn : gmap bytes bytes) (c : TTLCache) : TTLCache :=
  mkCache (lru c) (capacity c) nk hn (hits c) (misses c) (evictions c).
Definition add_hit (c : TTLCache) : TTLCache :=
  mkCache (lru c) (capacity c) (nameKeys c) (hashNames c) (u64 (hits c + 1)) (misses c) (evictions c).
Definition add_miss (c : TTLCache) : TTLCache :=
  mkCache (lru c) (capacity c) (nameKeys c) (hashNames c) (hits c) (u64 (misses c + 1)) (evictions c).
Definition add_eviction (c : TTLCache) : TTLCache :=
  mkCache (lru c) (capacity c) (nameKeys c) (hashNames c) (hits c) (misses c) (u64 (evictions c + 1)).

(** New; the error of [NewWithEvict] is [None]. *)
Definition New (cap : Z) : option TTLCache :=
  match lru_new cap with
  | Some l => Some (mkCache l cap ∅ ∅ 0 0 0)
  | None => None
  end.

Definition dropFromIndex (k : Key) (c : TTLCache) : TTLCache :=
  match nameKeys c !! Name k with
  | Some keys =>
      let keys := keys ∖ {[k]} in
      if bool_decide (keys = ∅)
      then with_index (delete (Name k) (nameKeys c)) (delete (nameHash (Name k)) (hashNames c)) c
      else with_index (<[Name k := keys]> (nameKeys c)) (hashNames c) c
  | None => c
  end.

(** The eviction callback installed by [New], over the entries evicted. *)
Definition on_evict (c : TTLCache) (kv : Key * entry V) : TTLCache :=
  dropFromIndex kv.1 (add_eviction c).
Definition run_evict (ev : list (Key * entry V)) (c : TTLCache) : TTLCache := fold_left on_evict ev c.

Definition lru_Remove (k : Key) (c : TTLCache) : TTLCache :=
  let '(ev, l) := lru_remove k (lru c) in run_evict ev (with_lru l c).

(** Get; [now] is what [c.now()] returns. *)
Definition Get (k : Key) (now : Z) (c : TTLCache) : option V * TTLCache :=
  let '(e, l) := lru_get k (lru c) in
  let c := with_lru l c in
  match e with
  | None => (None, add_miss c)
  | Some e =>
      if expiresAt e <? now then (None, add_miss (lru_Remove k c))
      else (Some (value e), add_hit c)
  end.

(** The index registration of Set: a name seen for the first time gets an empty
    key set and its hash entry, then the key is added to the name's set. *)
Definition register (k : Key) (c : TTLCache) : TTLCache :=
  let '(keys, c) :=
    match nameKeys c !! Name k with
    | Some keys => (keys, c)
    | None => (∅, with_index (nameKeys c) (<[nameHash (Name k) := Name k]> (hashNames c)) c)
    end in
  with_index (<[Name k := {[k]} ∪ keys]> (nameKeys c)) (hashNames c) c.

(** Set *)
Definition Set_ (k : Key) (v : V) (ttl now : Z) (c : TTLCache) : TTLCache :=
  let c := register k c in
  let '(ev, l) := lru_add k (mkEntry v (now + ttl)) (lru c) in
  run_evict ev (with_lru l c).

(** [for _, k := range keys { c.lru.Remove(k) }] *)
Definition remove_keys (keys : list Key) (c : TTLCache) : TTLCache :=
  fold_left (fun c k => lru_Remove k c) keys c.

(** The keys are copied out of the index before the first removal. *)
Definition invalidateNameLocked (name : bytes) (c : TTLCache) : TTLCache :=
  remove_keys (elements (default ∅ (nameKeys c !! name))) c.

Definition InvalidateName (name : bytes) (c : TTLCache) : TTLCache := invalidateNameLocked name c.

Definition InvalidateNameHash (hash : bytes) (c : TTLCache) : TTLCache :=
  match hashNames c !! hash with
  | Some name => invalidateNameLocked name c
  | None => c
  end.

Definition Flush (c : TTLCache) : TTLCache :=
  let '(ev, l) := lru_purge (lru c) in
  with_index ∅ ∅ (run_evict ev (with_lru l c)).

Definition HandleEvent (ev : RecordEvent) (c : TTLCache) : TTLCache :=
  match Kind ev with
  | EventTransferred => InvalidateNameHash (NameHash ev) c
  | _ => InvalidateName (EvName ev) c
  end.

Definition Stats (c : TTLCache) : Stats_t :=
  mkStats (hits c) (misses c) (evictions c) (Z.of_nat (lru_len (lru c))) (capacity c).

(** * Traces of operations *)

Inductive op :=
| OGet (k : Key) (now : Z)
| OSet (k : Key) (v : V) (ttl now : Z)
| OInvalidate (name : bytes)
| OInvalidateHash (hash : bytes)
| OEvent (ev : RecordEvent)
| OFlush.

Definition step (o : op) (c : TTLCache) : TTLCache :=
  match o with
  | OGet k now => (Get k now c).2
  | OSet k v ttl now => Set_ k v ttl now c
  | OInvalidate name => InvalidateName name c
  | OInvalidateHash hash => InvalidateNameHash hash c
  | OEvent ev => HandleEvent ev c
  | OFlush => Flush c
  end.

Definition run (ops : list op) (c : TTLCache) : TTLCache := fold_left (fun c o => step o c) ops c.

End Cache.
Arguments TTLCache L : clear implicits.
Arguments op V : clear implicits.

(** * The indexes *)
Section Index.
Variable nameHash : bytes -> bytes.

(** The names the cache is used with; keccak256 has no collision among them. *)
Variable U : bytes -> Prop.
Hypothesis nameHash_inj : forall a b, U a -> U b -> nameHash a = nameHash b -> a = b.

(** [nk] and [hn] index exactly the keys of [X]. *)
Record index_ok (X : gset Key) (nk : gmap bytes (gset Key)) (hn : gmap bytes bytes) : Prop := {
  ix_keys k : k ∈ X <-> exists ks, nk !! Name k = Some ks /\ k ∈ ks;
  ix_shape n ks : nk !! n = Some ks -> ks <> ∅ /\ (forall k, k ∈ ks -> Name k = n);
  ix_univ n ks : nk !! n = Some ks -> U n;
  ix_hash h n : hn !! h = Some n <-> h = nameHash n /\ is_Some (nk !! n);
}.

Lemma index_ok_empty : index_ok ∅ ∅ ∅.
Proof using Type. clear nameHash_inj. split; intros *; rewrite ?lookup_empty; set_solver. Qed.

Lemma index_register X nk hn k :
  U (Name k) -> index_ok X nk hn ->
  index_ok ({[k]} ∪ X) (<[Name k := {[k]} ∪ default ∅ (nk !! Name k)]> nk)
    (match nk !! Name k with Some _ => hn | None => <[nameHash (Name k) := Name k]> hn end).
Proof.
  intros HU [Hk Hs Hu Hh]. split.
  - intros k'. rewrite elem_of_union, elem_of_singleton, Hk, lookup_insert. case_decide as E.
    + rewrite <- E. destruct (nk !! Name k) as [ks|]; cbn.
      * split; [intros [->|(ks' & [= <-] & Hin)]; eexists; (split; [done|]); set_solver|].
        intros (ks' & [= <-] & [Hin|Hin]%elem_of_union); [left; set_solver|right; eauto].
      * split; [intros [->|(ks' & [=] & _)]; eexists; (split; [done|]); set_solver|].
        intros (ks' & [= <-] & Hin). left. set_solver.
    + split; [|naive_solver]. intros [->|?]; [done|done].
  - intros n ks. rewrite lookup_insert. case_decide as E; [|by apply Hs]. intros [= <-].
    split; [set_solver|]. subst n. destruct (nk !! Name k) as [ks|] eqn:En; cbn.
    + apply Hs in En as [_ En]. set_solver.
    + set_solver.
  - intros n ks. rewrite lookup_insert. case_decide as E; [by subst|by apply Hu].
  - intros h n. destruct (nk !! Name k) as [ks|] eqn:En.
    + rewrite Hh, lookup_insert. case_decide as E; [|done]. subst n. rewrite En. naive_solver.
    + rewrite !lookup_insert. case_decide as E1.
      * subst h. case_decide as E2; [subst n; naive_solver|]. split; [naive_solver|].
        intros [E3 [ks Hn]]. exfalso. apply E2, nameHash_inj; eauto.
      * rewrite Hh. case_decide as E2; [|done]. subst n. rewrite En.
        split; [intros [_ [? [=]]]|naive_solver].
Qed.

Lemma index_drop X nk hn k :
  index_ok X nk hn ->
  let '(nk', hn') :=
    match nk !! Name k with
    | Some keys =>
        if bool_decide (keys ∖ {[k]} = ∅)
        then (delete (Name k) nk, delete (nameHash (Name k)) hn)
        else (<[Name k := keys ∖ {[k]}]> nk, hn)
    | None => (nk, hn)
    end in
  index_ok (X ∖ {[k]}) nk' hn'.
Proof.
  intros Hix. pose proof Hix as [Hk Hs Hu Hh].
  destruct (nk !! Name k) as [ks|] eqn:En.
  2: { assert (k ∉ X) by (rewrite Hk, En; naive_solver).
       replace (X ∖ {[k]}) with X by set_solver. done. }
  case_bool_decide as Ee.
  - split.
    + intros k'. rewrite elem_of_difference, elem_of_singleton, Hk, lookup_delete.
      case_decide as E; [rewrite <- E, En|]; [|naive_solver].
      split; [|naive_solver]. intros [(ks' & [= <-] & Hin) Hne].
      exfalso. assert (k' ∈ ks ∖ {[k]}) by set_solver. set_solver.
    + intros n ks'. rewrite lookup_delete. case_decide; [done|]. apply Hs.
    + intros n ks'. rewrite lookup_delete. case_decide; [done|]. apply Hu.
    + intros h n. rewrite !lookup_delete. case_decide as E1; case_decide as E2.
      * split; [done|]. intros [_ [? [=]]].
      * split; [done|]. intros [-> [ks' Hn]]. exfalso. apply E2, nameHash_inj; eauto.
      * subst n. rewrite Hh. split; [|intros [_ [? [=]]]]. intros [-> _]. done.
      * apply Hh.
  - split.
    + intros k'. rewrite elem_of_difference, elem_of_singleton, Hk, lookup_insert.
      case_decide as E; [rewrite <- E, En|].
      * split; [intros [(ks' & [= <-] & Hin) Hne]; eexists; (split; [done|]); set_solver|].
        intros (ks' & [= <-] & [Hin Hne]%elem_of_difference). split; [eauto|set_solver].
      * split; [naive_solver|]. intros (ks' & Hn & Hin). split; [eauto|]. by intros ->.
    + intros n ks'. rewrite lookup_insert. case_decide as E; [|apply Hs]. intros [= <-]. subst n.
      apply Hs in En as [_ En]. set_solver.
    + intros n ks'. rewrite lookup_insert. case_decide as E; [subst; eauto|apply Hu].
    + intros h n. rewrite Hh, lookup_insert. case_decide as E; [|done]. subst n. rewrite En. naive_solver.
Qed.

(** The keys indexed under a name are the keys of that name. *)
Lemma index_name X nk hn k name :
  index_ok X nk hn -> k ∈ default ∅ (nk !! name) <-> k ∈ X /\ Name k = name.
Proof using Type.
  clear nameHash_inj. intros [Hk Hs _ _]. rewrite Hk. destruct (nk !! name) as [ks|] eqn:En; cbn.
  - split; [|naive_solver]. intros Hin. pose proof (Hs _ _ En) as [_ Hn].
    rewrite (Hn k Hin). eauto.
  - split; [set_solver|]. intros [(ks & Hks & _) <-]. congruence.
Qed.
End Index.

(** * The invariant of the cache *)
Section Invariant.
Context {V L : Type} `{!LruOps Key (entry V) L} `{!LruLaws Key (entry V) L}.
Variable nameHash : bytes -> bytes.
Variable U : bytes -> Prop.
Hypothesis nameHash_inj : forall a b, U a -> U b -> nameHash a = nameHash b -> a = b.

Definition entries (c : TTLCache L) : gmap Key (entry V) := lru_entries (lru c).

(** The LRU is well formed and the two indexes describe exactly its keys. *)
Record cache_inv (c : TTLCache L) : Prop := {
  ci_wf : lru_wf (lru c);
  ci_cap : lru_size (lru c) = capacity c;
  ci_index : index_ok nameHash U (dom (entries c)) (nameKeys c) (hashNames c);
}.

Lemma on_evict_index X (c : TTLCache L) (kv : Key * entry V) :
  index_ok nameHash U X (nameKeys c) (hashNames c) ->
  index_ok nameHash U (X ∖ {[kv.1]}) (nameKeys (on_evict nameHash c kv)) (hashNames (on_evict nameHash c kv))
  /\ lru (on_evict nameHash c kv) = lru c /\ capacity (on_evict nameHash c kv) = capacity c.
Proof.
  intros Hix. apply (index_drop nameHash U nameHash_inj _ _ _ kv.1) in Hix.
  unfold on_evict, dropFromIndex. cbn.
  destruct (nameKeys c !! Name kv.1); [|done]. by case_bool_decide.
Qed.

Lemma run_evict_index (ev : list (Key * entry V)) X (c : TTLCache L) :
  index_ok nameHash U X (nameKeys c) (hashNames c) ->
  index_ok nameHash U (X ∖ list_to_set ev.*1)
    (nameKeys (run_evict nameHash ev c)) (hashNames (run_evict nameHash ev c))
  /\ lru (run_evict nameHash ev c) = lru c /\ capacity (run_evict nameHash ev c) = capacity c.
Proof.
  unfold run_evict. revert X c. induction ev as [|kv ev IH]; intros X c Hix; cbn [fold_left].
  - replace (X ∖ list_to_set (@nil (Key * entry V)).*1) with X by set_solver. done.
  - destruct (on_evict_index X c kv Hix) as (H1 & H2 & H3).
    destruct (IH _ _ H1) as (H4 & H5 & H6). rewrite H5, H6, H2, H3. split; [|done].
    replace (X ∖ list_to_set (kv :: ev).*1) with (X ∖ {[kv.1]} ∖ list_to_set ev.*1) by set_solver. done.
Qed.

(** The index after the eviction callbacks of an LRU operation. *)
Lemma run_evict_inv (ev : list (Key * entry V)) (l : L) (c : TTLCache L) :
  lru_wf l -> lru_size l = capacity c ->
  index_ok nameHash U (dom (lru_entries l) ∪ list_to_set ev.*1) (nameKeys c) (hashNames c) ->
  (forall k, k ∈ ev.*1 -> lru_entries l !! k = None) ->
  let c' := run_evict nameHash ev (with_lru l c) in
  cache_inv c' /\ entries c' = lru_entries l /\ capacity c' = capacity c.
Proof.
  intros Hwf Hsz Hix Hev. cbv zeta.
  destruct (run_evict_index ev _ (with_lru l c) Hix) as (H1 & H2 & H3).
  cbn in H2, H3. unfold entries. rewrite H2, H3. split; [|done].
  split; rewrite ?H2, ?H3; [done|done|]. unfold entries. rewrite H2.
  replace (dom (lru_entries l))
    with ((dom (lru_entries l) ∪ list_to_set ev.*1) ∖ (list_to_set ev.*1 : gset Key)); [done|].
  apply set_eq. intros k. rewrite elem_of_difference, elem_of_union, elem_of_list_to_set, elem_of_dom.
  split; [tauto|]. intros Hk. split; [tauto|]. intros Hin. apply Hev in Hin.
  rewrite Hin in Hk. by destruct Hk.
Qed.

Lemma lru_Remove_inv k c :
  cache_inv c ->
  cache_inv (lru_Remove nameHash k c) /\ entries (lru_Remove nameHash k c) = delete k (entries c)
  /\ capacity (lru_Remove nameHash k c) = capacity c.
Proof.
  intros [Hwf Hcap Hix]. unfold lru_Remove.
  pose proof (lru_remove_ok k (lru c) Hwf) as Hr.
  destruct (lru_remove k (lru c)) as [ev l]. destruct Hr as (Hwf' & Hsz & He & ->).
  unfold entries at 2. rewrite <- He. apply run_evict_inv; [done|congruence| |].
  - rewrite He, dom_delete_L. unfold entries in Hix.
    destruct (lru_entries (lru c) !! k) as [e|] eqn:E; cbn.
    + replace (dom (lru_entries (lru c)) ∖ {[k]} ∪ ({[k]} ∪ ∅)) with (dom (lru_entries (lru c))); [done|].
      apply elem_of_dom_2 in E. apply set_eq. intros k'. destruct (decide (k' = k)); set_solver.
    + replace (dom (lru_entries (lru c)) ∖ {[k]} ∪ ∅) with (dom (lru_entries (lru c))); [done|].
      apply not_elem_of_dom in E. set_solver.
  - intros k' Hk'. rewrite He. destruct (lru_entries (lru c) !! k); cbn in Hk'; [|set_solver].
    apply list_elem_of_singleton in Hk' as ->. apply lookup_delete_eq.
Qed.

Lemma remove_keys_inv keys c :
  cache_inv c ->
  cache_inv (remove_keys nameHash keys c) /\ capacity (remove_keys nameHash keys c) = capacity c
  /\ forall k, entries (remove_keys nameHash keys c) !! k = if decide (k ∈ keys) then None else entries c !! k.
Proof.
  unfold remove_keys. revert c. induction keys as [|k0 keys IH]; intros c Hc; cbn [fold_left].
  - split; [done|]. split; [done|]. intros k. case_decide; [set_solver|done].
  - destruct (lru_Remove_inv k0 c Hc) as (H1 & H2 & H3).
    destruct (IH _ H1) as (H4 & H5 & H6). split; [done|]. split; [congruence|].
    intros k. rewrite H6, H2, lookup_delete. repeat case_decide; set_solver.
Qed.

Lemma InvalidateName_inv name c :
  cache_inv c ->
  cache_inv (InvalidateName nameHash name c) /\ capacity (InvalidateName nameHash name c) = capacity c
  /\ forall k, entries (InvalidateName nameHash name c) !! k
     = if decide (Name k = name) then None else entries c !! k.
Proof.
  intros Hc. unfold InvalidateName, invalidateNameLocked.
  destruct (remove_keys_inv (elements (default ∅ (nameKeys c !! name))) c Hc) as (H1 & H2 & H3).
  split; [done|]. split; [done|]. intros k. rewrite H3.
  pose proof (index_name nameHash U _ _ _ k name (ci_index c Hc)) as Hn.
  rewrite <- elem_of_elements in Hn.
  case_decide as Hin; case_decide as E; try done.
  - exfalso. apply E. by apply Hn.
  - destruct (entries c !! k) eqn:Ek; [|done]. exfalso. apply Hin, Hn. split; [|done].
    by apply elem_of_dom_2 in Ek.
Qed.

Lemma InvalidateNameHash_inv h c :
  cache_inv c ->
  cache_inv (InvalidateNameHash nameHash h c) /\ capacity (InvalidateNameHash nameHash h c) = capacity c
  /\ forall k, entries (InvalidateNameHash nameHash h c) !! k
     = if decide (nameHash (Name k) = h) then None else entries c !! k.
Proof.
  intros Hc. pose proof (ci_index c Hc) as [Hk Hs Hu Hh]. unfold InvalidateNameHash.
  destruct (hashNames c !! h) as [name|] eqn:E.
  - apply Hh in E as [-> [ks Hks]].
    destruct (InvalidateName_inv name c Hc) as (H1 & H2 & H3). split; [done|]. split; [done|].
    intros k. unfold InvalidateName in H3. rewrite H3. repeat case_decide; try done; [congruence|].
    destruct (entries c !! k) eqn:Ek; [|done]. exfalso.
    apply elem_of_dom_2, Hk in Ek as (ks' & Hks' & _). eauto.
  - split; [done|]. split; [done|]. intros k. case_decide as Eh; [|done].
    destruct (entries c !! k) eqn:Ek; [|done]. exfalso.
    apply elem_of_dom_2, Hk in Ek as (ks' & Hks' & _).
    assert (hashNames c !! h = Some (Name k)) by (apply Hh; eauto). congruence.
Qed.

Lemma Flush_inv c :
  cache_inv c ->
  cache_inv (Flush nameHash c) /\ entries (Flush nameHash c) = ∅ /\ capacity (Flush nameHash c) = capacity c.
Proof.
  intros [Hwf Hcap Hix]. unfold Flush. pose proof (lru_purge_ok (lru c) Hwf) as Hp.
  destruct (lru_purge (lru c)) as [ev l]. destruct Hp as (Hwf' & Hsz & He).
  assert (lru (run_evict nameHash ev (with_lru l c)) = l
    /\ capacity (run_evict nameHash ev (with_lru l c)) = capacity c) as [H1 H2].
  { destruct (run_evict_index ev _ (with_lru l c) Hix) as (_ & H1 & H2). done. }
  unfold entries. cbn. rewrite H1. split; [|done].
  split; cbn; rewrite ?H1, ?H2; [done|congruence|]. unfold entries. cbn. rewrite H1, He.
  rewrite dom_empty_L. apply index_ok_empty.
Qed.

Lemma Get_inv k now c :
  cache_inv c ->
  cache_inv (Get nameHash k now c).2 /\ capacity (Get nameHash k now c).2 = capacity c
  /\ (Get nameHash k now c).1
     = match entries c !! k with Some e => if expiresAt e <? now then None else Some (value e) | None => None end
  /\ entries (Get nameHash k now c).2
     = match entries c !! k with
       | Some e => if expiresAt e <? now then delete k (entries c) else entries c
       | None => entries c end.
Proof.
  intros [Hwf Hcap Hix]. unfold Get.
  destruct (lru_get_ok k (lru c) Hwf) as (H1 & H2 & H3 & H4).
  destruct (lru_get k (lru c)) as [e l]. cbn [fst snd] in *.
  change (lru_entries (lru c)) with (entries c) in *. subst e.
  assert (cache_inv (with_lru l c)) as Hc1.
  { split; cbn; [done|congruence|]. unfold entries. cbn. by rewrite H2. }
  assert (entries (with_lru l c) = entries c) as He1 by done.
  destruct (entries c !! k) as [e|] eqn:E; [destruct (expiresAt e <? now)|]; cbn [fst snd].
  - destruct (lru_Remove_inv k _ Hc1) as ([Hw' Hc' Hi'] & H6 & H7). rewrite He1 in H6.
    split; [by split|]. split_and!; done.
  - split; [by destruct Hc1; split|]. split_and!; done.
  - split; [by destruct Hc1; split|]. split_and!; done.
Qed.

(** [Set] keeps its entry; what it evicts is not the new key. *)
Lemma Set_inv k v ttl now c :
  U (Name k) -> cache_inv c ->
  cache_inv (Set_ nameHash k v ttl now c) /\ capacity (Set_ nameHash k v ttl now c) = capacity c
  /\ entries (Set_ nameHash k v ttl now c) !! k = Some (mkEntry v (now + ttl))
  /\ entries (Set_ nameHash k v ttl now c) ⊆ <[k := mkEntry v (now + ttl)]> (entries c)
  /\ (is_Some (entries c !! k) \/ Z.of_nat (size (entries c)) < capacity c ->
     entries (Set_ nameHash k v ttl now c) = <[k := mkEntry v (now + ttl)]> (entries c)).
Proof.
  intros HU [Hwf Hcap Hix]. unfold Set_.
  pose proof (index_register nameHash U nameHash_inj _ _ _ k HU Hix) as Hreg.
  pose proof (lru_add_ok k (mkEntry v (now + ttl)) (lru c) Hwf) as Ha.
  set (e := mkEntry v (now + ttl)) in *.
  assert (lru (register nameHash k c) = lru c /\ capacity (register nameHash k c) = capacity c
    /\ index_ok nameHash U ({[k]} ∪ dom (entries c)) (nameKeys (register nameHash k c))
        (hashNames (register nameHash k c))) as (El & Ec & Hi1).
  { unfold register. destruct (nameKeys c !! Name k); done. }
  set (c1 := register nameHash k c) in *. clearbody c1. cbv zeta. rewrite El.
  destruct (lru_add k e (lru c)) as [ev l].
  destruct Ha as (Hwf' & Hsz & Hne & Hold & Hnd & Hent & Hroom).
  assert (forall k', k' ∈ ev.*1 -> lru_entries l !! k' = None) as Hgone.
  { intros k' Hk'. rewrite Hent. by rewrite decide_True. }
  destruct (run_evict_inv ev l c1) as (H1 & H2 & H3); [done|congruence| |done|].
  - replace (dom (lru_entries l) ∪ list_to_set ev.*1) with ({[k]} ∪ dom (entries c)); [done|].
    apply set_eq. intros k'. rewrite !elem_of_union, elem_of_singleton, elem_of_list_to_set, !elem_of_dom, Hent.
    destruct (decide (k' ∈ ev.*1)) as [Hin|Hin].
    + split; [auto|]. intros _. right. apply list_elem_of_fmap in Hin as ([k0 v0] & -> & Hin).
      apply Hold in Hin. by exists v0.
    + rewrite lookup_insert. case_decide as E.
      * subst. split; [left; eauto|auto].
      * unfold entries. split; [intros [->|?]; [done|auto]|]. intros [?|?]; [auto|done].
  - rewrite H2. split; [done|]. split; [congruence|]. split; [|split].
    + rewrite Hent, decide_False; [by rewrite lookup_insert_eq|]. intros Hin. by apply Hne in Hin.
    + apply map_subseteq_spec. intros k' e'. rewrite Hent. by case_decide.
    + unfold entries. rewrite <- Hcap. intros Hr. apply Hroom in Hr as ->.
      apply map_eq. intros k'. rewrite Hent. by case_decide; [set_solver|].
Qed.
End Invariant.

(** * The abstract cache

    What the cache promises: a map from keys to values with their expiry, from
    which entries may be lost but which never keeps an entry that was
    overwritten, invalidated or flushed. *)
Section Abstract.
Context {V : Type}.
Variable nameHash : bytes -> bytes.

(** The keys a contract event makes stale. *)
Definition event_hits (ev : RecordEvent) (k : Key) : bool :=
  match Kind ev with
  | EventTransferred => bool_decide (nameHash (Name k) = NameHash ev)
  | _ => bool_decide (Name k = EvName ev)
  end.

(** The keys whose entry an operation removes from the abstract map. *)
Definition op_drops (o : op V) (k : Key) : bool :=
  match o with
  | OGet _ _ | OSet _ _ _ _ => false
  | OInvalidate name => bool_decide (Name k = name)
  | OInvalidateHash hash => bool_decide (nameHash (Name k) = hash)
  | OEvent ev => event_hits ev k
  | OFlush => true
  end.

Definition spec_step (o : op V) (m : gmap Key (entry V)) : gmap Key (entry V) :=
  match o with
  | OSet k v ttl now => <[k := mkEntry v (now + ttl)]> m
  | _ => filter (fun kv => op_drops o kv.1 = false) m
  end.

Definition spec_run (ops : list (op V)) (m : gmap Key (entry V)) : gmap Key (entry V) :=
  fold_left (fun m o => spec_step o m) ops m.

(** An operation after which the value stored before it must not be served. *)
Definition supersedes (o : op V) (k : Key) : bool :=
  match o with OSet k' _ _ _ => bool_decide (k' = k) | _ => op_drops o k end.

Lemma spec_step_lookup o m k e :
  spec_step o m !! k = Some e ->
  (exists v ttl now, o = OSet k v ttl now /\ e = mkEntry v (now + ttl))
  \/ (supersedes o k = false /\ m !! k = Some e).
Proof.
  destruct o as [k' now|k' v ttl now|n|h|ev|]; cbn [spec_step supersedes].
  2: { rewrite lookup_insert. case_decide as E; [subst|].
       - intros [= <-]. left. eauto.
       - rewrite bool_decide_eq_false_2 by done. auto. }
  all: rewrite map_lookup_filter_Some; cbn; auto.
  all: naive_solver.
Qed.

(** An entry of the abstract map comes from the last operation that touched it. *)
Lemma spec_run_origin ops m k e :
  spec_run ops m !! k = Some e ->
  (exists pre v ttl now post, ops = pre ++ OSet k v ttl now :: post
     /\ e = mkEntry v (now + ttl) /\ Forall (fun o => supersedes o k = false) post)
  \/ (m !! k = Some e /\ Forall (fun o => supersedes o k = false) ops).
Proof.
  unfold spec_run. induction ops as [|o ops IH] using rev_ind; cbn [fold_left].
  - intros Hm. right. split; [done|constructor].
  - rewrite fold_left_app. cbn [fold_left]. intros [(v & ttl & now & -> & ->)|[Hs Hm]]%spec_step_lookup.
    + left. exists ops, v, ttl, now, []. auto.
    + destruct (IH Hm) as [(pre & v & ttl & now & post & -> & -> & Hf)|[Hm' Hf]].
      * left. exists pre, v, ttl, now, (post ++ [o]). rewrite <- app_assoc.
        split; [done|]. split; [done|]. apply Forall_app. auto.
      * right. split; [done|]. apply Forall_app. auto.
Qed.
End Abstract.

(** * Traces *)
Section Traces.
Context {V L : Type} `{!LruOps Key (entry V) L} `{!LruLaws Key (entry V) L}.
Variable nameHash : bytes -> bytes.
Variable U : bytes -> Prop.
Hypothesis nameHash_inj : forall a b, U a -> U b -> nameHash a = nameHash b -> a = b.

(** The names stored by a trace are among those without hash collisions. *)
Definition op_ok (o : op V) : Prop :=
  match o with OSet k _ _ _ => U (Name k) | _ => True end.

Lemma HandleEvent_inv ev (c : TTLCache L) :
  cache_inv nameHash U c ->
  cache_inv nameHash U (HandleEvent nameHash ev c)
  /\ capacity (HandleEvent nameHash ev c) = capacity c
  /\ forall k, entries (HandleEvent nameHash ev c) !! k
     = if event_hits nameHash ev k then None else entries c !! k.
Proof.
  intros Hc. unfold HandleEvent, event_hits.
  destruct (InvalidateName_inv nameHash U nameHash_inj (EvName ev) c Hc) as (N1 & N2 & N3).
  destruct (InvalidateNameHash_inv nameHash U nameHash_inj (NameHash ev) c Hc) as (H1 & H2 & H3).
  destruct (Kind ev); (split; [done|]; split; [done|]; intros k; rewrite ?N3, ?H3;
    case_decide; [by rewrite bool_decide_eq_true_2|by rewrite bool_decide_eq_false_2]).
Qed.

(** One step keeps the invariant and simulates the abstract map. *)
Lemma step_sim o (c : TTLCache L) m :
  op_ok o -> cache_inv nameHash U c -> entries c ⊆ m ->
  cache_inv nameHash U (step nameHash o c) /\ capacity (step nameHash o c) = capacity c
  /\ entries (step nameHash o c) ⊆ spec_step nameHash o m.
Proof.
  intros Ho Hc Hm. destruct o as [k now|k v ttl now|n|h|ev|]; cbn [step spec_step].
  - destruct (Get_inv nameHash U nameHash_inj k now c Hc) as (H1 & H2 & _ & H3). split; [done|]. split; [done|].
    assert (entries (Get nameHash k now c).2 ⊆ m) as Hs.
    { rewrite H3. destruct (entries c !! k) as [e|]; [|done]. destruct (expiresAt e <? now); [|done].
      etrans; [apply delete_subseteq|done]. }
    cbn [op_drops]. by rewrite map_filter_id by done.
  - destruct (Set_inv nameHash U nameHash_inj k v ttl now c Ho Hc) as (H1 & H2 & _ & H3 & _).
    split; [done|]. split; [done|]. etrans; [exact H3|]. by apply insert_mono.
  - destruct (InvalidateName_inv nameHash U nameHash_inj n c Hc) as (H1 & H2 & H3). split; [done|]. split; [done|].
    apply map_subseteq_spec. intros k e. rewrite H3, map_lookup_filter_Some. cbn [op_drops fst].
    case_decide; [done|]. intros He. rewrite bool_decide_eq_false_2 by done.
    split; [|done]. by eapply lookup_weaken.
  - destruct (InvalidateNameHash_inv nameHash U nameHash_inj h c Hc) as (H1 & H2 & H3). split; [done|]. split; [done|].
    apply map_subseteq_spec. intros k e. rewrite H3, map_lookup_filter_Some. cbn [op_drops fst].
    case_decide; [done|]. intros He. rewrite bool_decide_eq_false_2 by done.
    split; [|done]. by eapply lookup_weaken.
  - destruct (HandleEvent_inv ev c Hc) as (H1 & H2 & H3). split; [done|]. split; [done|].
    apply map_subseteq_spec. intros k e. rewrite H3, map_lookup_filter_Some. cbn [op_drops fst].
    destruct (event_hits nameHash ev k); [done|]. intros He. split; [|done]. by eapply lookup_weaken.
  - destruct (Flush_inv nameHash U nameHash_inj c Hc) as (H1 & H2 & H3). split; [done|]. split; [done|].
    rewrite H2. apply map_empty_subseteq.
Qed.

Lemma run_sim ops (c : TTLCache L) m :
  Forall op_ok ops -> cache_inv nameHash U c -> entries c ⊆ m ->
  cache_inv nameHash U (run nameHash ops c) /\ capacity (run nameHash ops c) = capacity c
  /\ entries (run nameHash ops c) ⊆ spec_run nameHash ops m.
Proof.
  unfold run, spec_run. intros Hops. revert c m.
  induction Hops as [|o ops Ho _ IH]; intros c m Hc Hm; cbn [fold_left]; [done|].
  destruct (step_sim o c m Ho Hc Hm) as (H1 & H2 & H3).
  destruct (IH _ _ H1 H3) as (H4 & H5 & H6). split; [done|]. split; [congruence|done].
Qed.

Lemma New_inv cap (c : TTLCache L) :
  New cap = Some c -> cache_inv nameHash U c /\ entries c = ∅ /\ capacity c = cap.
Proof.
  unfold New. intros Hn. destruct (decide (0 < cap)) as [Hc|Hc].
  - destruct (lru_new_ok cap Hc) as (l & Hl & Hwf & He & Hs). rewrite Hl in Hn. injection Hn as <-.
    unfold entries. cbn. split; [|done]. split; cbn; [done|done|].
    unfold entries. cbn. rewrite He, dom_empty_L. apply index_ok_empty.
  - by rewrite lru_new_bad in Hn by lia.
Qed.

(** The name indexes are never larger than the cache. *)
Lemma index_size X nk hn :
  index_ok nameHash U X nk hn -> (size nk <= size X)%nat /\ (size hn <= size X)%nat.
Proof.
  intros [Hk Hs Hu Hh].
  assert (Hl : forall (l : list bytes), (forall n, n ∈ l -> exists k, k ∈ X /\ Name k = n) -> NoDup l ->
    (length l <= size X)%nat).
  { intros l Hl Hnd. unfold size, set_size. cbn. rewrite <- (length_fmap Name (elements X)).
    apply submseteq_length, NoDup_submseteq; [done|]. intros n Hn.
    apply Hl in Hn as (k & Hin & <-). apply list_elem_of_fmap_2. by apply elem_of_elements. }
  assert (Hkey : forall n, is_Some (nk !! n) -> exists k, k ∈ X /\ Name k = n).
  { intros n [ks Hks]. destruct (Hs _ _ Hks) as [Hne Hin].
    apply set_choose_L in Hne as [k Hin']. exists k. rewrite Hk, (Hin _ Hin'). eauto. }
  split.
  - rewrite <- (size_dom nk). apply Hl; [|apply NoDup_elements].
    intros n Hn. apply Hkey. by apply elem_of_elements, elem_of_dom in Hn.
  - rewrite <- length_map_to_list, <- (length_fmap snd (map_to_list hn)). apply Hl.
    + intros n ([h n'] & -> & Hin%elem_of_map_to_list)%list_elem_of_fmap. cbn. apply Hkey. by apply Hh in Hin as [_ ?].
    + apply NoDup_fmap_2_strong; [|apply NoDup_map_to_list].
      intros [h1 n1] [h2 n2] H1%elem_of_map_to_list H2%elem_of_map_to_list. cbn. intros ->.
      apply Hh in H1 as [-> _]. by apply Hh in H2 as [-> _].
Qed.

Lemma run_New_sim cap (c : TTLCache L) ops :
  New cap = Some c -> Forall op_ok ops ->
  cache_inv nameHash U (run nameHash ops c) /\ capacity (run nameHash ops c) = cap
  /\ entries (run nameHash ops c) ⊆ spec_run nameHash ops ∅.
Proof.
  intros Hn Hops. apply New_inv in Hn as (H1 & H2 & H3). rewrite <- H3. apply run_sim; [done|done|].
  rewrite H2. apply map_empty_subseteq.
Qed.

(** * What the cache promises *)

(** C33. After any sequence of operations the two name indexes list exactly the
    live keys, and neither the LRU nor an index grows beyond the capacity. *)
Theorem cache_bounded_and_indexed cap (c : TTLCache L) ops :
  New cap = Some c -> Forall op_ok ops ->
  let c' := run nameHash ops c in
  index_ok nameHash U (dom (entries c')) (nameKeys c') (hashNames c')
  /\ s_Entries (Stats c') <= cap
  /\ Z.of_nat (size (nameKeys c')) <= cap /\ Z.of_nat (size (hashNames c')) <= cap.
Proof.
  intros Hn Hops. destruct (run_New_sim cap c ops Hn Hops) as ([Hwf Hcap Hix] & Hc & _). cbv zeta.
  split; [done|]. pose proof (index_size _ _ _ Hix) as [H1 H2]. rewrite size_dom in H1, H2.
  pose proof (lru_wf_bound _ Hwf) as Hb. cbn [Stats s_Entries]. rewrite lru_len_ok by done.
  unfold entries in *. lia.
Qed.

(** An answer the cache serves was stored under that key, has not outlived
    its TTL, and since it was stored no operation overwrote it, invalidated its
    name, delivered a contract event about its name or flushed the cache. *)
Theorem Get_never_stale cap (c : TTLCache L) ops k now v :
  New cap = Some c -> Forall op_ok ops ->
  (Get nameHash k now (run nameHash ops c)).1 = Some v ->
  exists pre ttl stored post, ops = pre ++ OSet k v ttl stored :: post
    /\ now <= stored + ttl /\ Forall (fun o => supersedes nameHash o k = false) post.
Proof.
  intros Hn Hops Hg. destruct (run_New_sim cap c ops Hn Hops) as (Hc & _ & Hsub).
  destruct (Get_inv nameHash U nameHash_inj k now _ Hc) as (_ & _ & Hv & _). rewrite Hv in Hg.
  destruct (entries (run nameHash ops c) !! k) as [e|] eqn:E; [|done].
  destruct (Z.ltb_spec (expiresAt e) now) as [|Hle]; [done|]. injection Hg as <-.
  eapply lookup_weaken in E; [|exact Hsub].
  apply spec_run_origin in E as [(pre & v & ttl & t & post & -> & -> & Hf)|[Hm _]].
  - exists pre, ttl, t, post. auto.
  - by rewrite lookup_empty in Hm.
Qed.

(** A contract event removes every entry of the domain it is about (found by
    name, or by name hash for a transfer) and no other entry. *)
Theorem HandleEvent_complete cap (c : TTLCache L) ops ev now :
  New cap = Some c -> Forall op_ok ops ->
  let c' := run nameHash ops c in
  forall k, (Get nameHash k now (HandleEvent nameHash ev c')).1
    = if event_hits nameHash ev k then None else (Get nameHash k now c').1.
Proof.
  intros Hn Hops c' k. destruct (run_New_sim cap c ops Hn Hops) as (Hc & _ & _). fold c' in Hc.
  destruct (HandleEvent_inv ev c' Hc) as (H1 & _ & H2).
  destruct (Get_inv nameHash U nameHash_inj k now _ Hc) as (_ & _ & -> & _).
  destruct (Get_inv nameHash U nameHash_inj k now _ H1) as (_ & _ & -> & _). rewrite H2.
  by destruct (event_hits nameHash ev k).
Qed.

(** An answer stored for [ttl] is served by the next lookup of its key up to
    and including the instant it expires, and not afterwards. *)
Theorem Get_after_Set cap (c : TTLCache L) ops k v ttl stored now :
  New cap = Some c -> Forall op_ok ops -> U (Name k) ->
  (Get nameHash k now (Set_ nameHash k v ttl stored (run nameHash ops c))).1
  = if now <=? stored + ttl then Some v else None.
Proof.
  intros Hn Hops HU. destruct (run_New_sim cap c ops Hn Hops) as (Hc & _ & _).
  destruct (Set_inv nameHash U nameHash_inj k v ttl stored _ HU Hc) as (H1 & _ & H2 & _).
  destruct (Get_inv nameHash U nameHash_inj k now _ H1) as (_ & _ & -> & _). rewrite H2. cbn.
  destruct (Z.ltb_spec (stored + ttl) now), (Z.leb_spec now (stored + ttl)); done || lia.
Qed.

(** * Counters *)

Definition lookups (c : TTLCache L) : Z := (hits c + misses c) mod 2 ^ 64.
Definition is_get (o : op V) : bool := match o with OGet _ _ => true | _ => false end.

Lemma dropFromIndex_lookups k (c : TTLCache L) : lookups (dropFromIndex nameHash k c) = lookups c.
Proof. unfold dropFromIndex. destruct (nameKeys c !! Name k); [case_bool_decide|]; done. Qed.

Lemma run_evict_lookups (ev : list (Key * entry V)) (c : TTLCache L) : lookups (run_evict nameHash ev c) = lookups c.
Proof.
  unfold run_evict. revert c. induction ev as [|kv ev IH]; intros c; cbn; [done|].
  rewrite IH. unfold on_evict. by rewrite dropFromIndex_lookups.
Qed.

Lemma lru_Remove_lookups k (c : TTLCache L) : lookups (lru_Remove nameHash k c) = lookups c.
Proof. unfold lru_Remove. destruct (lru_remove k (lru c)) as [ev l]. by rewrite run_evict_lookups. Qed.

Lemma invalidate_lookups n (c : TTLCache L) : lookups (invalidateNameLocked nameHash n c) = lookups c.
Proof.
  unfold invalidateNameLocked, remove_keys. generalize (elements (default ∅ (nameKeys c !! n))).
  intros l. revert c. induction l as [|k l IH]; intros c; cbn; [done|]. by rewrite IH, lru_Remove_lookups.
Qed.

Lemma Get_lookups k now (c : TTLCache L) : lookups (Get nameHash k now c).2 = (lookups c + 1) mod 2 ^ 64.
Proof.
  unfold Get. destruct (lru_get k (lru c)) as [[e|] l]; [destruct (expiresAt e <? now)|]; cbn [snd].
  1: change (lookups c) with (lookups (with_lru l c)); rewrite <- (lru_Remove_lookups k (with_lru l c)).
  all: unfold lookups, add_hit, add_miss, with_lru, u64; cbn [hits misses].
  all: rewrite ?Zplus_mod_idemp_l, ?Zplus_mod_idemp_r; f_equal; lia.
Qed.

Lemma step_lookups o (c : TTLCache L) :
  lookups (step nameHash o c) = (lookups c + (if is_get o then 1 else 0)) mod 2 ^ 64.
Proof.
  assert (lookups c mod 2 ^ 64 = lookups c) as Hm by apply Zmod_mod.
  destruct o as [k' now|k' v ttl now|n|h|ev|]; cbn [step is_get]; rewrite ?Z.add_0_r, ?Hm.
  - apply Get_lookups.
  - unfold Set_. destruct (lru_add _ _ _) as [ev l]. rewrite run_evict_lookups.
    unfold register. by destruct (nameKeys c !! Name k').
  - apply invalidate_lookups.
  - unfold InvalidateNameHash. destruct (hashNames c !! h); [apply invalidate_lookups|done].
  - unfold HandleEvent, InvalidateNameHash. destruct (Kind ev); try apply invalidate_lookups.
    destruct (hashNames c !! NameHash ev); [apply invalidate_lookups|done].
  - unfold Flush. destruct (lru_purge (lru c)) as [ev l]. by apply (run_evict_lookups ev (with_lru l c)).
Qed.

(** The hit and miss counters of the dashboard account for every lookup, up
    to the wrap-around of the 64-bit counters. *)
Theorem Stats_count_lookups cap (c : TTLCache L) ops :
  New cap = Some c ->
  (s_Hits (Stats (run nameHash ops c)) + s_Misses (Stats (run nameHash ops c))) mod 2 ^ 64
  = Z.of_nat (length (filter is_get ops)) mod 2 ^ 64.
Proof using Type.
  clear dependent U. intros Hn. cbn [Stats s_Hits s_Misses].
  assert (lookups c = 0) as H0.
  { unfold New in Hn. destruct (lru_new cap); [|done]. by injection Hn as <-. }
  change (lookups (run nameHash ops c) = Z.of_nat (length (filter is_get ops)) mod 2 ^ 64).
  induction ops as [|o ops IH] using rev_ind; [done|].
  unfold run in *. rewrite fold_left_app, filter_app, length_app. cbn [fold_left].
  rewrite step_lookups, IH, Zplus_mod_idemp_l. f_equal. rewrite filter_cons, filter_nil.
  case_decide as E; destruct (is_get o); cbn in E |- *; done || lia.
Qed.
End Traces.

(** * A concrete trace

    Three names in a cache of two entries; the name is its own hash. *)
Definition demo_hash (n : bytes) : bytes := n.
Definition demo_key (n : bytes) : Key := mkKey n (str "A") [].
Definition demo_transfer : RecordEvent :=
  mkRecordEvent EventTransferred [] (demo_hash (str "alice")) [] [] 7.
Definition demo_ops : list (op Z) :=
  [ OSet (demo_key (str "alice")) 1 60 0; OSet (demo_key (str "bob")) 2 60 10;
    OGet (demo_key (str "alice")) 20; OSet (demo_key (str "carol")) 3 60 30;
    OInvalidate (str "dave"); OGet (demo_key (str "bob")) 31 ].
Definition demo_cache : TTLCache (list_lru Key (entry Z)) := mkCache (mkListLru [] 2) 2 ∅ ∅ 0 0 0.

Lemma demo_new : New 2 = Some demo_cache.
Proof. reflexivity. Qed.

Lemma demo_ops_ok : Forall (op_ok (fun _ => True)) demo_ops.
Proof. repeat constructor. Qed.

(** bob, the least recently used, was evicted; alice and carol are served. *)
Example demo_served :
  ((fun n => (Get demo_hash (demo_key n) 60 (run demo_hash demo_ops demo_cache)).1)
    <$> [str "alice"; str "bob"; str "carol"]) = [Some 1; None; Some 3].
Proof. vm_compute. reflexivity. Qed.

Lemma cache_bounded_and_indexed_witness :
  New 2 = Some demo_cache
  /\ s_Entries (Stats (run demo_hash demo_ops demo_cache)) <= 2.
Proof.
  split; [exact demo_new|].
  destruct (cache_bounded_and_indexed demo_hash (fun _ => True) (fun _ _ _ _ e => e) 2 demo_cache demo_ops
    demo_new demo_ops_ok) as (_ & H & _). exact H.
Defined.

Lemma Get_never_stale_witness :
  exists pre ttl stored post, demo_ops = pre ++ OSet (demo_key (str "alice")) 1 ttl stored :: post
    /\ 60 <= stored + ttl
    /\ Forall (fun o => supersedes demo_hash o (demo_key (str "alice")) = false) post.
Proof.
  refine (Get_never_stale demo_hash (fun _ => True) (fun _ _ _ _ e => e) 2 demo_cache demo_ops _ 60 1
    demo_new demo_ops_ok _). vm_compute. reflexivity.
Defined.

Lemma HandleEvent_complete_witness :
  [ (Get demo_hash (demo_key (str "alice")) 60
      (HandleEvent demo_hash demo_transfer (run demo_hash demo_ops demo_cache))).1;
    (Get demo_hash (demo_key (str "carol")) 60
      (HandleEvent demo_hash demo_transfer (run demo_hash demo_ops demo_cache))).1 ] = [None; Some 3].
Proof.
  pose proof (HandleEvent_complete demo_hash (fun _ => True) (fun _ _ _ _ e => e) 2 demo_cache demo_ops
    demo_transfer 60 demo_new demo_ops_ok) as H.
  cbv zeta in H. rewrite !H.
  vm_compute. reflexivity.
Defined.

Lemma Get_after_Set_witness :
  (Get demo_hash (demo_key (str "erin")) 160
     (Set_ demo_hash (demo_key (str "erin")) 9 60 100 (run demo_hash demo_ops demo_cache))).1 = Some 9.
Proof.
  exact (Get_after_Set demo_hash (fun _ => True) (fun _ _ _ _ e => e) 2 demo_cache demo_ops
    (demo_key (str "erin")) 9 60 100 160 demo_new demo_ops_ok I).
Defined.

Lemma Stats_count_lookups_witness :
  (s_Hits (Stats (run demo_hash demo_ops demo_cache)) + s_Misses (Stats (run demo_hash demo_ops demo_cache)))
    mod 2 ^ 64 = 2.
Proof. exact (Stats_count_lookups demo_hash 2 demo_cache demo_ops demo_new). Defined.

End Cache.
