(* ===== verification/Events.v ===== *)
(** The event watcher of package [chain] (src/resolver/internal/chain/events.go)
    with the log iterators of the contract bindings it drains
    (src/resolver/internal/chain/bindings/namespace_dapp.go).

    The RPC endpoint is a world [W]: [FilterLogs] answers one eth_getLogs call,
    [unpack_*] decode a raw log, [pick] is the choice Go's select makes when a
    log and the end of the subscription are both ready. [handler] is the
    consumer's callback on its own state [S]. Block numbers are uint64. *)
From S2P Require Import Prelude Chain.
Import Chain.

Local Open Scope Z_scope.

Module Events.

(** The event structs of the bindings, with the fields the watcher reads. *)
Record NamespaceDAppRecordEvent := mkRecEv {
  re_NameHash : bytes; re_Name : bytes; re_RecordType : bytes; re_Selector : bytes }.
Record NamespaceDAppTransferred := mkXferEv { tr_NameHash : bytes; tr_OldOwner : address; tr_NewOwner : address }.
Record NamespaceDAppRegistered := mkRegEv { rg_NameHash : bytes; rg_Name : bytes; rg_Owner : address }.

Definition u64 (z : Z) : Z := z mod 2 ^ 64.
Definition maxBlockSpan : Z := 2000.

(** * The generated iterators

    One generic iterator: the generated ones differ only in the event type. *)
Section Iterator.
Context {Log E Ev : Type}.
Variable UnpackLog : Log -> Ev + E.

(** [it_logs] are the logs not yet received, [it_sub] what the subscription's
    error channel gives once they have all been sent ([None] is nil). *)
Record Iterator := mkIt {
  it_Event : option (Ev * Log);
  it_logs : list Log;
  it_sub : option E;
  it_done : bool;
  it_fail : option E;
}.

Definition receive (log : Log) (rest : list Log) (it : Iterator) : bool * Iterator :=
  match UnpackLog log with
  | inl ev => (true, mkIt (Some (ev, log)) rest (it_sub it) (it_done it) (it_fail it))
  | inr err => (false, mkIt None rest (it_sub it) (it_done it) (Some err))
  end.

(** The part of Next that runs once the subscription has completed. *)
Definition Next_done (it : Iterator) : bool * Iterator :=
  match it_fail it with
  | Some _ => (false, it)
  | None =>
      match it_logs it with
      | log :: rest => receive log rest it
      | [] => (false, it)
      end
  end.

(** Next; [err_first] is the select's choice. With no log left only the error
    channel is ready; with logs left the error channel is ready only when all of
    them are already in the channel's buffer, so they stay receivable. *)
Definition Next (err_first : bool) (it : Iterator) : bool * Iterator :=
  match it_fail it with
  | Some _ => (false, it)
  | None =>
      if it_done it then Next_done it
      else
        match it_logs it, err_first with
        | log :: rest, false => receive log rest it
        | _, _ => Next_done (mkIt (it_Event it) (it_logs it) (it_sub it) true (it_sub it))
        end
  end.

(** [for it.Next() { handler(mk(it.Event)) }]; the n-th call to Next takes the
    select choice [pick n]. *)
Context {S : Type}.
Variable deliver : Ev -> Log -> S -> S.

Fixpoint drain_loop (fuel : nat) (pick : nat -> bool) (it : Iterator) (s : S) : option (Iterator * S) :=
  match fuel with
  | O => None
  | Datatypes.S fuel =>
      let '(more, it) := Next (pick fuel) it in
      if more then
        match it_Event it with
        | Some (ev, log) => drain_loop fuel pick it (deliver ev log s)
        | None => None
        end
      else Some (it, s)
  end.

(** One call more than there are logs ends the loop. *)
Definition drain (pick : nat -> bool) (it : Iterator) (s : S) : option (Iterator * S) :=
  drain_loop (Datatypes.S (length (it_logs it))) pick it s.

(** The events the logs unpack to, up to the first that does not. *)
Fixpoint unpack_all (logs : list Log) : list (Ev * Log) * option E :=
  match logs with
  | [] => ([], None)
  | log :: rest =>
      match UnpackLog log with
      | inl ev => let '(evs, e) := unpack_all rest in ((ev, log) :: evs, e)
      | inr err => ([], Some err)
      end
  end.

Definition fresh_it (logs : list Log) (sub : option E) : Iterator := mkIt None logs sub false None.
Definition deliver_all (evs : list (Ev * Log)) (s : S) : S :=
  fold_left (fun s p => deliver p.1 p.2 s) evs s.

(** Whatever the select picks, a subscription that ends without an error has all
    its logs delivered in order, up to the first that does not unpack. *)
Lemma drain_ok pick logs s :
  exists it', drain pick (fresh_it logs None) s = Some (it', deliver_all (unpack_all logs).1 s)
    /\ it_fail it' = (unpack_all logs).2.
Proof.
  unfold drain, fresh_it. cbn [it_logs].
  assert (forall fuel ev done, fuel = Datatypes.S (length logs) ->
    exists it', drain_loop fuel pick (mkIt ev logs None done None) s
      = Some (it', deliver_all (unpack_all logs).1 s) /\ it_fail it' = (unpack_all logs).2) as H; [|by apply H].
  revert s. induction logs as [|log logs IH]; intros s fuel ev done ->; cbn [drain_loop length].
  - exists (mkIt ev [] None true None). unfold Next. destruct done; done.
  - cbn [unpack_all]. destruct (UnpackLog log) as [e|err] eqn:Eu.
    + assert (exists d, Next (pick (Datatypes.S (length logs))) (mkIt ev (log :: logs) None done None)
        = (true, mkIt (Some (e, log)) logs None d None)) as [d ->].
      { unfold Next, Next_done, receive. cbn.
        destruct done, (pick (Datatypes.S (length logs))); cbn; rewrite Eu; eauto. }
      cbn [it_Event]. destruct (IH (deliver e log s) _ (Some (e, log)) d eq_refl) as (it' & H1 & H2).
      destruct (unpack_all logs) as [evs o]. eauto.
    + assert (exists d, Next (pick (Datatypes.S (length logs))) (mkIt ev (log :: logs) None done None)
        = (false, mkIt None logs None d (Some err))) as [d ->].
      { unfold Next, Next_done, receive. cbn.
        destruct done, (pick (Datatypes.S (length logs))); cbn; rewrite Eu; eauto. }
      eexists. split; [done|done].
Qed.

(** A drained iterator without an error has delivered everything. *)
Lemma drain_success pick logs sub s it' s' :
  drain pick (fresh_it logs sub) s = Some (it', s') -> it_fail it' = None ->
  s' = deliver_all (unpack_all logs).1 s /\ (unpack_all logs).2 = None.
Proof.
  destruct sub as [e|].
  2: { destruct (drain_ok pick logs s) as (it0 & -> & Hf). intros [= <- <-] H0. by rewrite <- Hf. }
  unfold drain, fresh_it. cbn [it_logs].
  assert (forall fuel ev, fuel = Datatypes.S (length logs) ->
    drain_loop fuel pick (mkIt ev logs (Some e) false None) s = Some (it', s') ->
    it_fail it' = None -> False) as H; [|intros H1 H2; by destruct (H _ _ eq_refl H1 H2)].
  revert s. induction logs as [|log logs IH]; intros s [|fuel] ev Hf; try done; cbn [drain_loop].
  - unfold Next. cbn. by intros [= <- <-].
  - injection Hf as Hf. unfold Next. cbn [it_fail it_done it_logs].
    destruct (pick fuel); [by intros [= <- <-]|].
    unfold receive. cbn. destruct (UnpackLog log); cbn; [|by intros [= <- <-]].
    by apply IH.
Qed.

(** Whatever ends the loop, what was delivered is an initial part of the logs. *)
Lemma drain_loop_prefix fuel pick ev logs sub dn fail s it' s' :
  drain_loop fuel pick (mkIt ev logs sub dn fail) s = Some (it', s') ->
  exists n, s' = deliver_all (take n (unpack_all logs).1) s.
Proof.
  revert ev logs dn fail s. induction fuel as [|fuel IH]; intros ev logs dn fail s; [done|].
  cbn [drain_loop]. unfold Next, Next_done, receive. cbn.
  destruct fail as [e|]; [intros [= <- <-]; by exists O|].
  destruct logs as [|log logs].
  { intros Hd. exists O. destruct dn; [|destruct sub]; cbn in Hd; by injection Hd as <- <-. }
  destruct (UnpackLog log) as [f|] eqn:Eu.
  2: { intros Hd. exists O. destruct dn, (pick fuel), sub; cbn in Hd; by injection Hd as <- <-. }
  assert (forall d, drain_loop fuel pick (mkIt (Some (f, log)) logs sub d None) (deliver f log s) = Some (it', s') ->
    exists n, s' = deliver_all (take n (unpack_all (log :: logs)).1) s) as Hgo.
  { intros d Hd. destruct (IH _ _ _ _ _ Hd) as [n ->]. exists (Datatypes.S n). cbn.
    rewrite Eu. by destruct (unpack_all logs). }
  destruct dn, (pick fuel), sub; try exact (Hgo _); intros [= <- <-]; by exists O.
Qed.

(** Each call to Next that returns true consumes a log, so the loop ends. *)
Lemma drain_loop_total fuel pick it s :
  (length (it_logs it) < fuel)%nat -> exists it' s', drain_loop fuel pick it s = Some (it', s').
Proof.
  revert it s. induction fuel as [|fuel IH]; intros it s Hl; [lia|]. cbn [drain_loop].
  destruct (Next (pick fuel) it) as [more it1] eqn:En. destruct more; [|eauto].
  assert (Datatypes.S (length (it_logs it1)) = length (it_logs it) /\ is_Some (it_Event it1)) as [Hl' [[ev log] ->]].
  { unfold Next, Next_done, receive in En. repeat (case_match; simplify_eq/=); eauto. }
  apply IH. lia.
Qed.
End Iterator.
Arguments Iterator : clear implicits.
Arguments mkIt {Log E Ev}.
Arguments fresh_it {Log E Ev}.

(** * The watcher *)
Section Watch.
Context {W Log E C S : Type}.
(** one eth_getLogs over the inclusive block range; the logs found and what the
    subscription over them ends with *)
Variable FilterLogs : EventKind -> Z -> Z -> W -> (list Log * option E + E) * W.
Variable UnpackRecordSet UnpackRecordRemoved : Log -> NamespaceDAppRecordEvent + E.
Variable UnpackTransferred : Log -> NamespaceDAppTransferred + E.
Variable UnpackRegistered : Log -> NamespaceDAppRegistered + E.
Variable BlockNumber : Log -> Z.             (* Raw.BlockNumber *)
Variable pick : nat -> bool.
Variable handler : RecordEvent -> S -> S.

Definition set_event (e : NamespaceDAppRecordEvent) (l : Log) : RecordEvent :=
  mkRecordEvent EventRecordSet (re_Name e) (re_NameHash e) (re_RecordType e) (re_Selector e) (BlockNumber l).
Definition removed_event (e : NamespaceDAppRecordEvent) (l : Log) : RecordEvent :=
  mkRecordEvent EventRecordRemoved (re_Name e) (re_NameHash e) (re_RecordType e) (re_Selector e) (BlockNumber l).
Definition transferred_event (e : NamespaceDAppTransferred) (l : Log) : RecordEvent :=
  mkRecordEvent EventTransferred [] (tr_NameHash e) [] [] (BlockNumber l).
Definition registered_event (e : NamespaceDAppRegistered) (l : Log) : RecordEvent :=
  mkRecordEvent EventRegistered (rg_Name e) (rg_NameHash e) [] [] (BlockNumber l).

Inductive collect_error := 
| FilterFailed (k : EventKind) (e : E)
| IterateFailed (k : EventKind) (e : E)
| DrainUnfinished.                        (* unreachable: [drain_loop_total] *)

(** One of the four blocks of collectEvents: filter, drain, check the iterator's
    error. *)
Definition collect_kind {Ev} (k : EventKind) (unpack : Log -> Ev + E) (mk : Ev -> Log -> RecordEvent)
    (start stop : Z) (ws : W * S) : option collect_error * (W * S) :=
  let '(w, s) := ws in
  let '(res, w) := FilterLogs k start stop w in
  match res with
  | inr e => (Some (FilterFailed k e), (w, s))
  | inl (logs, sub) =>
      match drain unpack (fun ev l => handler (mk ev l)) pick (fresh_it logs sub) s with
      | Some (it, s) =>
          match it_fail it with
          | Some e => (Some (IterateFailed k e), (w, s))
          | None => (None, (w, s))
          end
      | None => (Some DrainUnfinished, (w, s))
      end
  end.

(** collectEvents: the four event types in order, stopping at the first error. *)
Definition collectEvents (start stop : Z) (ws : W * S) : option collect_error * (W * S) :=
  let '(e, ws) := collect_kind EventRecordSet UnpackRecordSet set_event start stop ws in
  match e with Some _ => (e, ws) | None =>
  let '(e, ws) := collect_kind EventRecordRemoved UnpackRecordRemoved removed_event start stop ws in
  match e with Some _ => (e, ws) | None =>
  let '(e, ws) := collect_kind EventTransferred UnpackTransferred transferred_event start stop ws in
  match e with Some _ => (e, ws) | None =>
  collect_kind EventRegistered UnpackRegistered registered_event start stop ws
  end end end.

(** The end of the next range to scan. *)
Definition window (head last : Z) : Z :=
  if maxBlockSpan <? u64 (head - last) then u64 (last + maxBlockSpan) else head.

(** The inner loop [for last < head]; the result is the new [last]. *)
Fixpoint catch_up (fuel : nat) (head last : Z) (ws : W * S) : option (Z * (W * S)) :=
  match fuel with
  | O => None
  | Datatypes.S fuel =>
      if last <? head then
        let stop := window head last in
        let '(e, ws) := collectEvents (u64 (last + 1)) stop ws in
        match e with
        | Some _ => Some (last, ws)           (* retried on the next tick *)
        | None => catch_up fuel head stop ws
        end
      else Some (last, ws)
  end.

(** Each round advances [last] by a block at least. *)
Definition catch_up_fuel (head last : Z) : nat := Datatypes.S (Z.to_nat (head - last)).

(** eth.BlockNumber, the timers of [retry], and the select between the ticker
    (true) and the context's end. *)
Variable eth_BlockNumber : W -> (Z + E) * W.
Variable select_wait : Z -> W -> bool * W.
Variable select_tick : W -> bool * W.
Variable ctx_err : W -> option C.

Definition ChainHead (w : W) : (Z + retry_error E C) * W :=
  Client_ChainHead eth_BlockNumber select_wait ctx_err w.

Inductive watch_state :=
| Watching (last : Z) (ws : W * S)
| Returned (e : option C) (ws : W * S).

(** One iteration of the outer loop. *)
Definition watch_tick (last : Z) (ws : W * S) : watch_state :=
  let '(w, s) := ws in
  let '(ticked, w) := select_tick w in
  if negb ticked then Returned (ctx_err w) (w, s)
  else
    let '(head, w) := ChainHead w in
    match head with
    | inr _ =>
        match ctx_err w with
        | Some c => Returned (Some c) (w, s)
        | None => Watching last (w, s)
        end
    | inl head =>
        match catch_up (catch_up_fuel head last) head last (w, s) with
        | Some (last, ws) => Watching last ws
        | None => Watching last (w, s)
        end
    end.

Fixpoint watch_loop (ticks : nat) (st : watch_state) : watch_state :=
  match ticks, st with
  | Datatypes.S n, Watching last ws => watch_loop n (watch_tick last ws)
  | _, _ => st
  end.

(** WatchRecordEvents, over its first [ticks] iterations. *)
Definition WatchRecordEvents (ticks : nat) (ws : W * S) : (watch_state + retry_error E C) * (W * S) :=
  let '(w, s) := ws in
  let '(last, w) := ChainHead w in
  match last with
  | inr e => (inr e, (w, s))
  | inl last => (inl (watch_loop ticks (Watching last (w, s))), (w, s))
  end.

(** * What the chain holds *)

(** The logs of each kind in each block. *)
Variable logs_at : EventKind -> Z -> list Log.
Definition range_logs (k : EventKind) (start stop : Z) : list Log :=
  concat (logs_at k <$> seqZ start (stop - start + 1)).

(** eth_getLogs answers with the logs of the range, in order, or fails. *)
Hypothesis FilterLogs_ok : forall k start stop w logs sub w',
  FilterLogs k start stop w = (inl (logs, sub), w') -> logs = range_logs k start stop.
(** block numbers are uint64 *)
Hypothesis BlockNumber_ok : forall w n w', eth_BlockNumber w = (inl n, w') -> 0 <= n < 2 ^ 64.

Definition kind_events {Ev} (unpack : Log -> Ev + E) (mk : Ev -> Log -> RecordEvent) (logs : list Log) :
    list RecordEvent := (fun p => mk p.1 p.2) <$> (unpack_all unpack logs).1.

(** The events of a block. *)
Definition block_events (b : Z) : list RecordEvent :=
  kind_events UnpackRecordSet set_event (logs_at EventRecordSet b)
  ++ kind_events UnpackRecordRemoved removed_event (logs_at EventRecordRemoved b)
  ++ kind_events UnpackTransferred transferred_event (logs_at EventTransferred b)
  ++ kind_events UnpackRegistered registered_event (logs_at EventRegistered b).

(** The handler calls that lead from [s] to [s']. *)
Definition delivers (evs : list RecordEvent) (s s' : S) : Prop := s' = fold_left (fun s e => handler e s) evs s.

Lemma delivers_app e1 e2 s1 s2 s3 : delivers e1 s1 s2 -> delivers e2 s2 s3 -> delivers (e1 ++ e2) s1 s3.
Proof. unfold delivers. intros -> ->. by rewrite fold_left_app. Qed.

Lemma deliver_all_delivers {Ev} (mk : Ev -> Log -> RecordEvent) evs s :
  delivers ((fun p => mk p.1 p.2) <$> evs) s (deliver_all (fun ev l => handler (mk ev l)) evs s).
Proof. unfold delivers, deliver_all. revert s. induction evs as [|p evs IH]; intros s; cbn; [done|apply IH]. Qed.

Lemma unpack_all_app {Ev} (unpack : Log -> Ev + E) l1 l2 :
  (unpack_all unpack (l1 ++ l2)).2 = None ->
  (unpack_all unpack l2).2 = None
  /\ (unpack_all unpack (l1 ++ l2)).1 = (unpack_all unpack l1).1 ++ (unpack_all unpack l2).1.
Proof.
  induction l1 as [|log l1 IH]; cbn; [done|]. destruct (unpack log); [|done].
  destruct (unpack_all unpack (l1 ++ l2)) as [evs o], (unpack_all unpack l1) as [evs1 o1]. cbn in *.
  intros H. destruct (IH H) as [H1 ->]. done.
Qed.

(** A range that unpacks has the events of each of its blocks. *)
Lemma kind_events_concat {Ev} (unpack : Log -> Ev + E) mk ls l :
  (unpack_all unpack (concat ls)).2 = None -> l ∈ ls ->
  kind_events unpack mk l ⊆ kind_events unpack mk (concat ls).
Proof.
  induction ls as [|l0 ls IH]; [set_solver|]. cbn [concat]. intros H Hin.
  destruct (unpack_all_app unpack l0 (concat ls) H) as [H1 H2].
  unfold kind_events at 2. rewrite H2, fmap_app.
  apply elem_of_cons in Hin as [->|Hin]; [unfold kind_events; set_solver|].
  specialize (IH H1 Hin). unfold kind_events at 2 in IH. set_solver.
Qed.

(** An initial part of the unpacked logs belongs to the blocks of the range. *)
Lemma kind_events_in {Ev} (unpack : Log -> Ev + E) mk ls e :
  e ∈ kind_events unpack mk (concat ls) -> exists l, l ∈ ls /\ e ∈ kind_events unpack mk l.
Proof.
  induction ls as [|l0 ls IH]; cbn [concat]; [set_solver|]. intros He.
  assert (e ∈ kind_events unpack mk l0 \/ e ∈ kind_events unpack mk (concat ls)) as [H|H].
  { revert He. unfold kind_events. clear. induction l0 as [|log l0 IH]; cbn; [auto|].
    destruct (unpack log); [|set_solver].
    destruct (unpack_all unpack (l0 ++ concat ls)), (unpack_all unpack l0). set_solver. }
  - exists l0. set_solver.
  - destruct (IH H) as (l & ? & ?). exists l. set_solver.
Qed.

Lemma collect_kind_spec {Ev} k (unpack : Log -> Ev + E) mk start stop ws err ws' :
  collect_kind k unpack mk start stop ws = (err, ws') ->
  exists evs, delivers evs ws.2 ws'.2
    /\ (forall e, e ∈ evs -> exists b, start <= b <= stop /\ e ∈ kind_events unpack mk (logs_at k b))
    /\ (err = None -> forall b, start <= b <= stop -> kind_events unpack mk (logs_at k b) ⊆ evs).
Proof.
  unfold collect_kind. destruct ws as [w s]. cbn [snd].
  destruct (FilterLogs k start stop w) as [[[logs sub]|e] w1] eqn:Ef.
  2: { intros [= <- <-]. exists []. split; [done|]. split; [set_solver|done]. }
  apply FilterLogs_ok in Ef.
  destruct (drain_loop_total unpack (fun ev l => handler (mk ev l)) (Datatypes.S (length logs)) pick
    (fresh_it logs sub) s) as (it & s1 & Hd); [cbn; lia|].
  unfold drain. cbn [it_logs fresh_it]. rewrite Hd. intros Hr.
  assert (ws' = (w1, s1) /\ err = match it_fail it with Some e => Some (IterateFailed k e) | None => None end) as [-> ->].
  { by destruct (it_fail it); simplify_eq. }
  cbn [snd]. destruct (it_fail it) as [e|] eqn:Efail.
  - pose proof Hd as Hp. unfold fresh_it in Hp. apply drain_loop_prefix in Hp as [n ->].
    eexists. split; [apply deliver_all_delivers|]. split; [|done]. intros e0 He.
    assert (e0 ∈ kind_events unpack mk (range_logs k start stop)) as Hin.
    { subst logs. unfold kind_events. rewrite <- (take_drop n (unpack_all unpack (range_logs k start stop)).1).
      rewrite fmap_app. set_solver. }
    apply kind_events_in in Hin as (l & Hl & Hin). apply list_elem_of_fmap in Hl as (b & -> & Hb).
    exists b. rewrite elem_of_seqZ in Hb. split; [lia|done].
  - destruct (drain_success unpack _ pick logs sub s it s1 Hd Efail) as [-> Hu]. subst logs.
    exists (kind_events unpack mk (range_logs k start stop)).
    split; [apply deliver_all_delivers|]. split.
    + intros e0 (l & Hl & Hin)%kind_events_in. apply list_elem_of_fmap in Hl as (b & -> & Hb).
      exists b. rewrite elem_of_seqZ in Hb. split; [lia|done].
    + intros _ b Hb. apply kind_events_concat; [done|]. apply list_elem_of_fmap_2. apply elem_of_seqZ. lia.
Qed.

(** [evs] covers the blocks of [(from, to]], and has no event from elsewhere. *)
Definition covers (evs : list RecordEvent) (from to : Z) : Prop :=
  forall b, from < b <= to -> block_events b ⊆ evs.
Definition within (evs : list RecordEvent) (from to : Z) : Prop :=
  forall e, e ∈ evs -> exists b, from < b <= to /\ e ∈ block_events b.

Lemma within_app e1 e2 from to : within e1 from to -> within e2 from to -> within (e1 ++ e2) from to.
Proof. intros H1 H2 e [He|He]%elem_of_app; auto. Qed.

Lemma within_mono evs a b a' b' : a' <= a -> b <= b' -> within evs a b -> within evs a' b'.
Proof. intros ?? H e He. destruct (H e He) as (n & ? & ?). exists n. split; [lia|done]. Qed.

(** Run the next block of collectEvents and keep what it delivered. *)
Ltac collect_block :=
  match goal with
  | |- context [collect_kind ?k ?u ?m ?a ?b ?ws] =>
      let E := fresh "E" in let err := fresh "err" in let ws' := fresh "ws" in
      destruct (collect_kind k u m a b ws) as [err ws'] eqn:E;
      apply collect_kind_spec in E as (? & ? & ? & ?); destruct err
  end.

Lemma collectEvents_spec start stop ws err ws' :
  collectEvents start stop ws = (err, ws') ->
  exists evs, delivers evs ws.2 ws'.2 /\ within evs (start - 1) stop
    /\ (err = None -> covers evs (start - 1) stop).
Proof.
  unfold collectEvents.
  assert (forall {Ev} k (u : Log -> Ev + E) m evs,
    (forall e, e ∈ evs -> exists b, start <= b <= stop /\ e ∈ kind_events u m (logs_at k b)) ->
    (forall b, kind_events u m (logs_at k b) ⊆ block_events b) -> within evs (start - 1) stop) as Hw.
  { intros Ev k u m evs H Hs e He. destruct (H e He) as (b & ? & Hb). exists b. split; [lia|]. by apply Hs. }
  assert (forall b, kind_events UnpackRecordSet set_event (logs_at EventRecordSet b) ⊆ block_events b
    /\ kind_events UnpackRecordRemoved removed_event (logs_at EventRecordRemoved b) ⊆ block_events b
    /\ kind_events UnpackTransferred transferred_event (logs_at EventTransferred b) ⊆ block_events b
    /\ kind_events UnpackRegistered registered_event (logs_at EventRegistered b) ⊆ block_events b) as Hb.
  { intros b. unfold block_events. set_solver. }
  repeat collect_block; intros [= <- <-]; eexists;
    (split; [repeat first [eassumption|eapply delivers_app; [eassumption|]]|]);
    (split; [repeat apply within_app; (eapply Hw; [eassumption|apply Hb])|]); try done.
  intros _ b Hr. unfold block_events.
  repeat match goal with H : None = None -> _ |- _ => specialize (H eq_refl b ltac:(lia)) end.
  set_solver.
Qed.

(** The arithmetic of a window does not wrap. *)
Lemma window_ok head last :
  0 <= last -> last < head -> head < 2 ^ 64 ->
  u64 (last + 1) = last + 1
  /\ last < window head last <= head /\ window head last - last <= 2000.
Proof.
  intros. unfold window, u64, maxBlockSpan.
  rewrite (Z.mod_small (head - last)), (Z.mod_small (last + 1)) by lia.
  destruct (Z.ltb_spec 2000 (head - last)); [|lia]. rewrite Z.mod_small; lia.
Qed.

Lemma catch_up_spec fuel head last ws :
  (Z.to_nat (head - last) < fuel)%nat -> 0 <= last -> head < 2 ^ 64 ->
  exists last' ws' evs, catch_up fuel head last ws = Some (last', ws')
    /\ last <= last' <= Z.max last head /\ delivers evs ws.2 ws'.2
    /\ within evs last (Z.max last head) /\ covers evs last last'.
Proof.
  revert last ws. induction fuel as [|fuel IH]; intros last ws Hf H0 Hh; [lia|]. cbn [catch_up].
  destruct (Z.ltb_spec last head) as [Hlt|Hge].
  2: { exists last, ws, []. split; [done|]. split; [lia|]. split; [done|].
       split; [intros e; set_solver|]. intros b Hb. lia. }
  pose proof (window_ok head last H0 Hlt ltac:(lia)) as [-> Hstop]. cbv zeta.
  generalize dependent (window head last). intros stop Hstop. destruct (collectEvents (last + 1) stop ws) as [err ws1] eqn:Ec.
  apply collectEvents_spec in Ec as (evs & Hd & Hw & Hc). replace (last + 1 - 1) with last in Hw, Hc by lia.
  destruct err as [e|].
  - exists last, ws1, evs. split; [done|]. split; [lia|]. split; [done|].
    split; [eapply within_mono; [..|exact Hw]; lia|]. intros b Hb. lia.
  - destruct (IH stop ws1) as (last' & ws' & evs' & H1 & H2 & H3 & H4 & H5); [lia..|].
    exists last', ws', (evs ++ evs'). split; [done|]. split; [lia|].
    split; [by eapply delivers_app|]. split.
    + apply within_app; [eapply within_mono; [..|exact Hw]; lia|].
      eapply within_mono; [..|exact H4]; lia.
    + intros b Hb. destruct (decide (b <= stop)).
      * specialize (Hc eq_refl b). set_solver by lia.
      * specialize (H5 b). set_solver by lia.
Qed.

Lemma ChainHead_range w head w' : ChainHead w = (inl head, w') -> 0 <= head < 2 ^ 64.
Proof.
  intros H. assert (retry_outcome_ok eth_BlockNumber select_wait ctx_err (ChainHead w)) as Ho.
  { apply retry_loop_outcome. right. unfold retryAttempts. lia. }
  rewrite H in Ho. destruct Ho as [w0 Hw]. by eapply BlockNumber_ok.
Qed.

(** A tick goes on from [last] without a gap. *)
Lemma watch_tick_spec last ws last' ws' :
  0 <= last -> watch_tick last ws = Watching last' ws' ->
  last <= last' /\ exists evs, delivers evs ws.2 ws'.2 /\ covers evs last last'
    /\ forall e, e ∈ evs -> exists b, last < b /\ e ∈ block_events b.
Proof.
  intros H0. unfold watch_tick. destruct ws as [w s]. destruct (select_tick w) as [[] w1]; cbn [negb]; [|done].
  destruct (ChainHead w1) as [[head|e] w2] eqn:Eh.
  - pose proof (ChainHead_range _ _ _ Eh) as Hr.
    destruct (catch_up_spec (catch_up_fuel head last) head last (w2, s))
      as (l & ws1 & evs & -> & H1 & H2 & H3 & H4); [unfold catch_up_fuel; lia|lia|lia|].
    intros [= <- <-]. split; [lia|]. exists evs. split; [done|]. split; [done|].
    intros e He. destruct (H3 e He) as (b & ? & ?). exists b. split; [lia|done].
  - destruct (ctx_err w2); [done|]. intros [= <- <-]. split; [lia|]. exists []. split; [done|].
    split; [intros b Hb; lia|set_solver].
Qed.

Lemma watch_loop_stops n c ws : watch_loop n (Returned c ws) = Returned c ws.
Proof. by destruct n. Qed.

Lemma watch_loop_spec ticks last ws last' ws' :
  0 <= last -> watch_loop ticks (Watching last ws) = Watching last' ws' ->
  last <= last' /\ exists evs, delivers evs ws.2 ws'.2 /\ covers evs last last'
    /\ forall e, e ∈ evs -> exists b, last < b /\ e ∈ block_events b.
Proof.
  revert last ws. induction ticks as [|n IH]; intros last ws H0; cbn [watch_loop].
  - intros [= <- <-]. split; [lia|]. exists []. split; [done|]. split; [intros b Hb; lia|set_solver].
  - destruct (watch_tick last ws) as [l1 ws1|c ws1] eqn:Et; [|by rewrite watch_loop_stops].
    apply watch_tick_spec in Et as (H1 & evs1 & H2 & H3 & H4); [|done]. intros Hl.
    apply IH in Hl as (H5 & evs2 & H6 & H7 & H8); [|lia]. split; [lia|].
    exists (evs1 ++ evs2). split; [by eapply delivers_app|]. split.
    + intros b Hb. destruct (decide (b <= l1)).
      * specialize (H3 b). set_solver by lia.
      * specialize (H7 b). set_solver by lia.
    + intros e [He|He]%elem_of_app; [by apply H4|]. destruct (H8 e He) as (b & ? & ?). exists b. split; [lia|done].
Qed.

(** C29. While the watcher runs, whatever RPC calls failed before: every event of
    every block after the one it started at and up to [last] has been handed to
    the handler (no block is skipped), [last] never moves back, and the handler
    only ever sees events of blocks after the start. *)
Theorem watch_never_skips ticks w s last0 w0 last ws :
  ChainHead w = (inl last0, w0) ->
  WatchRecordEvents ticks (w, s) = (inl (Watching last ws), (w0, s)) ->
  last0 <= last /\ exists evs, delivers evs s ws.2 /\ covers evs last0 last
    /\ forall e, e ∈ evs -> exists b, last0 < b /\ e ∈ block_events b.
Proof.
  intros Hh. unfold WatchRecordEvents. rewrite Hh. intros [= Hw].
  pose proof (ChainHead_range _ _ _ Hh). by apply watch_loop_spec in Hw; [|lia].
Qed.

Lemma unpack_all_concat {Ev} (unpack : Log -> Ev + E) ls :
  Forall (fun l => (unpack_all unpack l).2 = None) ls -> (unpack_all unpack (concat ls)).2 = None.
Proof.
  induction 1 as [|l ls Hl _ IH]; cbn [concat]; [done|]. induction l as [|log l IHl]; cbn in *; [done|].
  destruct (unpack log); [|done]. destruct (unpack_all unpack l), (unpack_all unpack (l ++ concat ls)).
  cbn in *. by apply IHl.
Qed.

Lemma collect_kind_succeeds {Ev} k (unpack : Log -> Ev + E) mk start stop w s :
  (exists logs w', FilterLogs k start stop w = (inl (logs, None), w')) ->
  (forall b, start <= b <= stop -> (unpack_all unpack (logs_at k b)).2 = None) ->
  exists ws', collect_kind k unpack mk start stop (w, s) = (None, ws').
Proof.
  intros (logs & w' & Hf) Hu. unfold collect_kind. rewrite Hf. apply FilterLogs_ok in Hf as ->.
  destruct (drain_ok unpack (fun ev l => handler (mk ev l)) pick (range_logs k start stop) s) as (it & -> & ->).
  unfold range_logs. rewrite unpack_all_concat; [eauto|]. apply Forall_forall.
  intros l (b & -> & Hb)%list_elem_of_fmap. rewrite elem_of_seqZ in Hb. apply Hu. lia.
Qed.

Lemma collectEvents_succeeds start stop ws :
  (forall k a b v, exists logs v', FilterLogs k a b v = (inl (logs, None), v')) ->
  (forall b, start <= b <= stop ->
     (unpack_all UnpackRecordSet (logs_at EventRecordSet b)).2 = None
     /\ (unpack_all UnpackRecordRemoved (logs_at EventRecordRemoved b)).2 = None
     /\ (unpack_all UnpackTransferred (logs_at EventTransferred b)).2 = None
     /\ (unpack_all UnpackRegistered (logs_at EventRegistered b)).2 = None) ->
  exists ws', collectEvents start stop ws = (None, ws').
Proof.
  intros Hf Hu. unfold collectEvents.
  repeat match goal with
  | |- context [collect_kind ?k ?u ?m start stop ?ws] =>
      destruct (collect_kind_succeeds k u m start stop ws.1 ws.2) as [? Hck];
        [apply Hf|intros ? ?; by apply Hu|rewrite <- surjective_pairing in Hck; rewrite Hck; clear Hck; cbv beta iota]
  end. eauto.
Qed.

(** A tick during which the RPC endpoint works and the logs decode catches
    up completely: the watcher ends at the head it saw. *)
Theorem watch_tick_catches_up last w s w1 head w2 :
  0 <= last <= head -> select_tick w = (true, w1) -> ChainHead w1 = (inl head, w2) ->
  (forall k a b v, exists logs v', FilterLogs k a b v = (inl (logs, None), v')) ->
  (forall b, last < b <= head ->
     (unpack_all UnpackRecordSet (logs_at EventRecordSet b)).2 = None
     /\ (unpack_all UnpackRecordRemoved (logs_at EventRecordRemoved b)).2 = None
     /\ (unpack_all UnpackTransferred (logs_at EventTransferred b)).2 = None
     /\ (unpack_all UnpackRegistered (logs_at EventRegistered b)).2 = None) ->
  exists ws', watch_tick last (w, s) = Watching head ws'.
Proof.
  intros [H0 Hlast] Ht Hh Hf Hu. pose proof (ChainHead_range _ _ _ Hh) as Hr.
  unfold watch_tick. rewrite Ht. cbn [negb]. rewrite Hh.
  assert (exists ws', catch_up (catch_up_fuel head last) head last (w2, s) = Some (head, ws')) as [ws' ->]; [|eauto].
  unfold catch_up_fuel. remember (Z.to_nat (head - last)) as n eqn:En.
  assert (Z.to_nat (head - last) < Datatypes.S n)%nat as Hn by lia. clear En. generalize (w2, s) as ws.
  remember (Datatypes.S n) as fuel eqn:Ef. clear n Ef.
  revert last H0 Hlast Hu Hn. induction fuel as [|fuel IH]; intros last H0 Hlast Hu Hn ws; [lia|].
  cbn [catch_up]. destruct (Z.ltb_spec last head) as [Hlt|Hge]; [|replace last with head by lia; eauto].
  pose proof (window_ok head last H0 Hlt ltac:(lia)) as [-> Hstop]. cbv zeta.
  generalize dependent (window head last). intros stop Hstop. destruct (collectEvents_succeeds (last + 1) stop ws) as [ws1 ->]; [done| |].
  - intros b Hb. apply Hu. lia.
  - apply IH; [lia..| |lia]. intros b Hb. apply Hu. lia.
Qed.

Lemma collect_kind_world {Ev} k (unpack : Log -> Ev + E) mk start stop ws :
  (collect_kind k unpack mk start stop ws).2.1 = (FilterLogs k start stop ws.1).2.
Proof.
  unfold collect_kind. destruct ws as [w s]. cbn. destruct (FilterLogs k start stop w) as [[[logs sub]|e] w1]; [|done].
  by repeat case_match; simplify_eq.
Qed.

Lemma collectEvents_world (P : W -> Prop) start stop ws :
  (forall k v, P v -> P (FilterLogs k start stop v).2) -> P ws.1 -> P (collectEvents start stop ws).2.1.
Proof.
  intros HP Hws. unfold collectEvents.
  repeat match goal with
  | |- context [collect_kind ?k ?u ?m start stop ?ws] =>
      let H := fresh in pose proof (collect_kind_world k u m start stop ws) as H;
      destruct (collect_kind k u m start stop ws) as [[?|] [? ?]]; cbn [fst snd] in H |- *; subst; cbn [fst snd]; auto
  end.
Qed.

(** No eth_getLogs request spans more than 2000 blocks or leaves the range
    between [last] and the head: any property of the world that such requests
    preserve is preserved by catching up. *)
Theorem catch_up_requests_bounded (P : W -> Prop) head last ws last' ws' :
  0 <= last -> head < 2 ^ 64 ->
  (forall k a b v, last < a <= b -> b <= head -> b - a < 2000 -> P v -> P (FilterLogs k a b v).2) ->
  catch_up (catch_up_fuel head last) head last ws = Some (last', ws') -> P ws.1 -> P ws'.1.
Proof.
  unfold catch_up_fuel. generalize (Datatypes.S (Z.to_nat (head - last))) as fuel. intros fuel.
  revert last ws. induction fuel as [|fuel IH]; intros last ws H0 Hh HP; cbn [catch_up]; [done|].
  destruct (Z.ltb_spec last head) as [Hlt|Hge]; [|by intros [= <- <-]].
  pose proof (window_ok head last H0 Hlt ltac:(lia)) as [-> Hstop]. cbv zeta.
  generalize dependent (window head last). intros stop Hstop. intros Hc Hw.
  pose proof (collectEvents_world P (last + 1) stop ws) as H1.
  destruct (collectEvents (last + 1) stop ws) as [[e|] ws1].
  - injection Hc as <- <-. apply H1; [|done]. intros k v. apply HP; lia.
  - eapply (IH stop ws1); [lia|done| |exact Hc|].
    + intros k a b v ???. apply HP; lia.
    + apply H1; [|done]. intros k v. apply HP; lia.
Qed.
End Watch.

(** * A concrete chain

    Every block holds one RecordSet event whose log is its block number. The
    world scripts the heads the endpoint reports and which eth_getLogs calls
    fail, and records the ranges requested. *)
Record demo_world := mkDemo { heads : list Z; broken : list bool; requests : list (Z * Z) }.

Definition demo_logs_at (k : EventKind) (b : Z) : list Z :=
  match k with EventRecordSet => [b] | _ => [] end.
Definition demo_filter (k : EventKind) (a b : Z) (w : demo_world) : (list Z * option Z + Z) * demo_world :=
  (if hd false (broken w) then inr 1 else inl (range_logs demo_logs_at k a b, None),
   mkDemo (heads w) (tl (broken w)) (requests w ++ [(a, b)])).
Definition demo_head (w : demo_world) : (Z + Z) * demo_world :=
  (inl (hd 0 (heads w) mod 2 ^ 64), mkDemo (tl (heads w)) (broken w) (requests w)).
Definition demo_wait (d : Z) (w : demo_world) : bool * demo_world := (true, w).
Definition demo_tick (w : demo_world) : bool * demo_world := (true, w).
Definition demo_ctx (w : demo_world) : option Z := None.
Definition demo_rec (l : Z) : NamespaceDAppRecordEvent + Z := inl (mkRecEv [] (str "alice") (str "A") []).
Definition demo_xfer (l : Z) : NamespaceDAppTransferred + Z := inl (mkXferEv [] zero_address zero_address).
Definition demo_reg (l : Z) : NamespaceDAppRegistered + Z := inl (mkRegEv [] (str "alice") zero_address).
Definition demo_pick (n : nat) : bool := Nat.even n.
Definition demo_handler (e : RecordEvent) (s : list Z) : list Z := s ++ [Block e].

Definition demo_watch : nat -> demo_world * list Z -> _ :=
  WatchRecordEvents demo_filter demo_rec demo_rec demo_xfer demo_reg id demo_pick demo_handler
    demo_head demo_wait demo_tick demo_ctx.
Definition demo_start : demo_world := mkDemo [10; 13; 15] [false; true] [].
Definition demo_started : demo_world := mkDemo [13; 15] [false; true] [].
Definition demo_final : demo_world :=
  mkDemo [] [] [(11, 13); (11, 13); (11, 15); (11, 15); (11, 15); (11, 15)].

Lemma demo_filter_ok k a b w logs sub w' :
  demo_filter k a b w = (inl (logs, sub), w') -> logs = range_logs demo_logs_at k a b.
Proof. unfold demo_filter. destruct (hd false (broken w)); congruence. Qed.

Lemma demo_head_ok w n w' : demo_head w = (inl n, w') -> 0 <= n < 2 ^ 64.
Proof. intros [= <- _]. apply Z.mod_pos_bound. lia. Qed.

(** The second request of the first tick fails; its range is scanned again, so
    the events of blocks 11 to 13 are delivered twice. *)
Example demo_watch_two_ticks :
  demo_watch 2 (demo_start, []) = (inl (Watching 15 (demo_final, [11; 12; 13; 11; 12; 13; 14; 15])), (demo_started, [])).
Proof. vm_refl. Qed.

Lemma watch_never_skips_witness :
  exists evs : list RecordEvent, fold_left (fun s e => demo_handler e s) evs [] = [11; 12; 13; 11; 12; 13; 14; 15].
Proof.
  destruct (watch_never_skips demo_filter demo_rec demo_rec demo_xfer demo_reg id demo_pick demo_handler
    demo_head demo_wait demo_tick demo_ctx demo_logs_at demo_filter_ok demo_head_ok
    2 demo_start [] 10 demo_started 15 (demo_final, [11; 12; 13; 11; 12; 13; 14; 15]))
    as (_ & evs & H & _); [reflexivity|exact demo_watch_two_ticks|].
  exists evs. symmetry. exact H.
Defined.

Definition demo_good_filter (k : EventKind) (a b : Z) (w : demo_world) : (list Z * option Z + Z) * demo_world :=
  (inl (range_logs demo_logs_at k a b, None), w).
Lemma demo_good_filter_ok k a b w logs sub w' :
  demo_good_filter k a b w = (inl (logs, sub), w') -> logs = range_logs demo_logs_at k a b.
Proof. by intros [= <- _ _]. Qed.

Lemma watch_tick_catches_up_witness :
  exists ws', watch_tick demo_good_filter demo_rec demo_rec demo_xfer demo_reg id demo_pick demo_handler
    demo_head demo_wait demo_tick demo_ctx 10 (demo_started, []) = Watching 13 ws'.
Proof.
  apply (watch_tick_catches_up demo_good_filter demo_rec demo_rec demo_xfer demo_reg id demo_pick demo_handler
    demo_head demo_wait demo_tick demo_ctx demo_logs_at demo_good_filter_ok demo_head_ok
    10 demo_started [] demo_started 13 (mkDemo [15] [false; true] [])).
  - lia.
  - reflexivity.
  - reflexivity.
  - intros k a b v. eexists _, _. reflexivity.
  - intros b _. repeat split.
Defined.

Definition spans_ok (w : demo_world) : Prop := Forall (fun r => r.2 - r.1 < 2000) (requests w).

Lemma catch_up_requests_bounded_witness :
  exists ws', catch_up demo_filter demo_rec demo_rec demo_xfer demo_reg id demo_pick demo_handler
      (catch_up_fuel 2500 100) 2500 100 (mkDemo [] [] [], []) = Some (2500, ws')
    /\ spans_ok ws'.1.
Proof.
  eexists. split; [vm_compute; reflexivity|].
  eapply (catch_up_requests_bounded demo_filter demo_rec demo_rec demo_xfer demo_reg id demo_pick demo_handler
    spans_ok 2500 100 (mkDemo [] [] [], []) 2500).
  - lia.
  - lia.
  - intros k a b v Ha Hb Hs Hv. unfold spans_ok, demo_filter. cbn.
    apply Forall_app. split; [done|]. by repeat constructor.
  - vm_refl.
  - constructor.
Defined.

End Events.
