(* ===== verification/Contract.v ===== *)
(** The contracts the resolver reads and the owner's tool writes
    (src/contracts/contracts/NamespaceDApp.sol and RecordSchemaRegistry.sol): the
    authority the Go code is a client of.

    A transaction is a function from its message and the storage to an error (the
    transaction reverts, as it does with value sent to a function that is not
    payable), a panic (checked arithmetic, an array access out of range) or the new storage with the events emitted. Storage maps are finite
    maps whose absent keys read as zero values. keccak256 is a parameter; the
    layout of abi.encode is written out. *)
From S2P Require Import Prelude GoStrings Query Chain.
Import Chain.

Local Open Scope Z_scope.

Module Contract.

(** msg and block, and whether the value transfers the contract makes succeed. *)
Record msg := mkMsg { sender : address; value : Z; timestamp : Z; call_ok : bool }.

Inductive sol_error :=
| InvalidName | InvalidPubKey | NameUnavailable | DomainNotRegistered | DomainExpired | NotDomainOwner
| InsufficientFee (required provided : Z) | NotTreasurer | ZeroAddress | RefundFailed | WithdrawFailed
| UnknownRecordType | MissingMandatoryField (field : bytes) | FieldArrayMismatch | TooManyFields
| FieldValueTooLong | FieldNameTooLong | SelectorTooLong | InvalidTTL | RecordNotFound
| CommitmentNotFound | CommitmentTooNew | CommitmentTooOld
| TypeAlreadyExists | UnknownType | InvalidTypeName | InvalidFieldName | DuplicateField
| NotPayable.   (* the compiler's check, which reverts without data *)

(** The events of the contract the resolver watches, and the others. *)
Inductive event :=
| Committed (commitment : bytes) (at_ : Z)
| Registered (nameHash name : bytes) (owner : address) (pubKey : bytes) (expiry generation feePaid : Z)
| Renewed (nameHash : bytes) (newExpiry feePaid : Z)
| Transferred (nameHash : bytes) (oldOwner newOwner : address) (newPubKey : bytes)
| Withdrawn (to : address) (amount : Z)
| RecordSet (nameHash name recordKey recordType selector : bytes) (ttl : Z)
| RecordRemoved (nameHash name recordKey recordType selector : bytes)
| TypeDeclared (typeHash name : bytes) (declarer : address) (mandatoryCount optionalCount : Z).

Definition REGISTRATION_PERIOD : Z := 365 * 86400.
Definition MIN_COMMITMENT_AGE : Z := 30.
Definition MAX_COMMITMENT_AGE : Z := 86400.
Definition MAX_RECORD_FIELDS : Z := 16.
Definition MAX_FIELD_NAME_LENGTH : Z := 64.
Definition MAX_FIELD_VALUE_LENGTH : Z := 1024.
Definition MAX_SELECTOR_LENGTH : Z := 256.

Definition len (b : bytes) : Z := Z.of_nat (length b).
Definition uint64 (z : Z) : Z := z mod 2 ^ 64.
(** Checked uint256 arithmetic. *)
Definition add256 (a b : Z) : go sol_error Z := if a + b <? 2 ^ 256 then Ret (a + b) else Panic.
Definition sub256 (a b : Z) : go sol_error Z := if b <=? a then Ret (a - b) else Panic.
Definition mul256 (a b : Z) : go sol_error Z := if a * b <? 2 ^ 256 then Ret (a * b) else Panic.
Definition require (b : bool) (e : sol_error) : go sol_error () := if b then Ret () else Err e.
Definition index {A} (l : list A) (i : Z) : go sol_error A :=
  if 0 <=? i then or_panic (l !! Z.to_nat i) else Panic.

(** abi.encode of a dynamic value, of two bytes32, and of the commitment's four
    arguments. *)
Definition abi_dynamic (b : bytes) : bytes :=
  be_bytes 32 (len b) ++ b ++ replicate (Z.to_nat ((- len b) mod 32)) x00.
Definition abi_commitment (name : bytes) (owner : address) (pubKey secret : bytes) : bytes :=
  be_bytes 32 128 ++ (replicate 12 x00 ++ owner) ++ be_bytes 32 (128 + len (abi_dynamic name)) ++ secret
  ++ abi_dynamic name ++ abi_dynamic pubKey.

(** * RecordSchemaRegistry *)
Record FieldSpec := mkFieldSpec { fs_name : bytes; fs_mandatory : bool }.
Record Schema := mkSchema { sc_name : bytes; sc_exists : bool; sc_fields : list FieldSpec }.
Record registry := mkRegistry { schemas : gmap bytes Schema; typeNames : list bytes }.

(** The hash of the machine, and the values the constructor fixes. *)
Class Keccak := keccak256 : bytes -> bytes.
Class Immutables := { basePrice : Z; treasurer : address }.

Section Contract.
Context {K : Keccak} {IM : Immutables}.

Definition validateFieldName (b : bytes) : go sol_error () :=
  require (negb ((len b =? 0) || (32 <? len b))) InvalidFieldName.

Fixpoint push_fields (mandatory : bool) (names : list bytes) (fields : list FieldSpec) : go sol_error (list FieldSpec) :=
  match names with
  | [] => Ret fields
  | n :: names => _ ← validateFieldName n; push_fields mandatory names (fields ++ [mkFieldSpec n mandatory])
  end.

(** _checkNoDuplicates: no two fields with equal name hashes. *)
Fixpoint checkNoDuplicates (fields : list FieldSpec) : go sol_error () :=
  match fields with
  | [] => Ret ()
  | f :: fields =>
      if existsb (fun g => bool_decide (keccak256 (fs_name f) = keccak256 (fs_name g))) fields then Err DuplicateField
      else checkNoDuplicates fields
  end.

(** declareType and _declare *)
Definition declareType (m : msg) (name : bytes) (mandatory optional : list bytes) (r : registry) :
    go sol_error (registry * list event) :=
  _ ← require (Query.sol_validateTypeName name) InvalidTypeName;
  _ ← require (Z.of_nat (length mandatory) + Z.of_nat (length optional) <=? 16) TooManyFields;
  let h := keccak256 name in
  _ ← require (negb (match schemas r !! h with Some s => sc_exists s | None => false end)) TypeAlreadyExists;
  fields ← push_fields true mandatory [];
  fields ← push_fields false optional fields;
  _ ← checkNoDuplicates fields;
  mret (mkRegistry (<[h := mkSchema name true fields]> (schemas r)) (typeNames r ++ [name]),
        [TypeDeclared h name (sender m) (Z.of_nat (length mandatory)) (Z.of_nat (length optional))]).

Definition typeExists (r : registry) (name : bytes) : bool :=
  match schemas r !! keccak256 name with Some s => sc_exists s | None => false end.
Definition mandatoryFields (r : registry) (typeHash : bytes) : go sol_error (list bytes) :=
  match schemas r !! typeHash with
  | Some s => if sc_exists s then Ret (map fs_name (List.filter fs_mandatory (sc_fields s))) else Err UnknownType
  | None => Err UnknownType
  end.

Definition getSchema (r : registry) (typeName : bytes) : go sol_error (list FieldSpec) :=
  match schemas r !! keccak256 typeName with
  | Some s => if sc_exists s then Ret (sc_fields s) else Err UnknownType
  | None => Err UnknownType
  end.

(** * NamespaceDApp *)

(** The storage; a record's existence flag is [b_Exists]. *)
Record state := mkState {
  domains : gmap bytes Domain;
  records : gmap (bytes * bytes) NamespaceDAppRecord;   (* name hash, record key *)
  recordKeys : gmap (bytes * Z) (list bytes);           (* name hash, generation *)
  recordKeyIndex : gmap (bytes * Z * bytes) Z;          (* name hash, generation, record key *)
  commitments : gmap bytes Z;
  balance : Z;
}.
Definition empty_state : state := mkState ∅ ∅ ∅ ∅ ∅ 0.

Definition zero_domain : Domain := mkDomain zero_address [] 0 0.
Definition empty_record : NamespaceDAppRecord := mkBinding [] [] [] [] 0 0 [] zero_hash false.
Definition domain_of (s : state) (h : bytes) : Domain := default zero_domain (domains s !! h).
Definition record_of (s : state) (h k : bytes) : NamespaceDAppRecord := default empty_record (records s !! (h, k)).
Definition keys_of (s : state) (h : bytes) (g : Z) : list bytes := default [] (recordKeys s !! (h, g)).
Definition index_of (s : state) (h : bytes) (g : Z) (k : bytes) : Z := default 0 (recordKeyIndex s !! (h, g, k)).

Definition with_domain (h : bytes) (d : Domain) (s : state) : state :=
  mkState (<[h := d]> (domains s)) (records s) (recordKeys s) (recordKeyIndex s) (commitments s) (balance s).
Definition with_commitments (c : gmap bytes Z) (s : state) : state :=
  mkState (domains s) (records s) (recordKeys s) (recordKeyIndex s) c (balance s).
Definition with_balance (b : Z) (s : state) : state :=
  mkState (domains s) (records s) (recordKeys s) (recordKeyIndex s) (commitments s) b.

Definition priceOf (name : bytes) : go sol_error Z :=
  let n := len name in
  if (n =? 0) || (63 <? n) then Err InvalidName
  else if n =? 1 then mul256 basePrice 16
  else if n =? 2 then mul256 basePrice 8
  else if n =? 3 then mul256 basePrice 4
  else if n =? 4 then mul256 basePrice 2
  else Ret basePrice.

Definition registered (d : Domain) : bool := negb (bool_decide (D_Owner d = zero_address)).
(** owner set and not past the expiry *)
Definition active (now : Z) (d : Domain) : bool := registered d && (now <=? D_Expiry d).

Definition makeCommitment (name : bytes) (owner : address) (pubKey secret : bytes) : bytes :=
  keccak256 (abi_commitment name owner pubKey secret).

Definition commit (m : msg) (commitment : bytes) (s : state) : go sol_error (state * list event) :=
  mret (with_commitments (<[commitment := timestamp m]> (commitments s)) s, [Committed commitment (timestamp m)]).

(** _refundExcess, on the balance that already holds the value. *)
Definition refundExcess (m : msg) (price : Z) (s : state) : go sol_error state :=
  excess ← sub256 (value m) price;
  if 0 <? excess then (if call_ok m then mret (with_balance (balance s - excess) s) else Err RefundFailed)
  else mret s.

Definition pay (m : msg) (s : state) : state := with_balance (balance s + value m) s.

Definition register (m : msg) (name pubKey secret : bytes) (s : state) : go sol_error (state * list event) :=
  let s := pay m s in
  _ ← require (Query.sol_validateName name) InvalidName;
  _ ← require (negb ((len pubKey =? 0) || (128 <? len pubKey))) InvalidPubKey;
  let commitment := makeCommitment name (sender m) pubKey secret in
  let committedAt := default 0 (commitments s !! commitment) in
  _ ← require (negb (committedAt =? 0)) CommitmentNotFound;
  earliest ← add256 committedAt MIN_COMMITMENT_AGE;
  _ ← require (negb (timestamp m <? earliest)) CommitmentTooNew;
  latest ← add256 committedAt MAX_COMMITMENT_AGE;
  _ ← require (negb (latest <? timestamp m)) CommitmentTooOld;
  let s := with_commitments (delete commitment (commitments s)) s in
  let h := keccak256 name in
  let d := domain_of s h in
  _ ← require (negb (active (timestamp m) d)) NameUnavailable;
  price ← priceOf name;
  _ ← require (negb (value m <? price)) (InsufficientFee price (value m));
  until ← add256 (timestamp m) REGISTRATION_PERIOD;
  let d := mkDomain (sender m) pubKey (uint64 until) (uint64 (D_Generation d + 1)) in
  s ← refundExcess m price (with_domain h d s);
  mret (s, [Registered h name (sender m) pubKey (D_Expiry d) (D_Generation d) price]).

Definition renew (m : msg) (name : bytes) (s : state) : go sol_error (state * list event) :=
  let s := pay m s in
  let h := keccak256 name in
  let d := domain_of s h in
  _ ← require (registered d) DomainNotRegistered;
  _ ← require (negb (D_Expiry d <? timestamp m)) DomainExpired;
  price ← priceOf name;
  _ ← require (negb (value m <? price)) (InsufficientFee price (value m));
  until ← add256 (D_Expiry d) REGISTRATION_PERIOD;
  let d := mkDomain (D_Owner d) (D_PubKey d) (uint64 until) (D_Generation d) in
  s ← refundExcess m price (with_domain h d s);
  mret (s, [Renewed h (D_Expiry d) price]).

(** The three checks every owner's operation begins with. *)
Definition only_owner (m : msg) (d : Domain) : go sol_error () :=
  _ ← require (registered d) DomainNotRegistered;
  _ ← require (negb (D_Expiry d <? timestamp m)) DomainExpired;
  require (bool_decide (sender m = D_Owner d)) NotDomainOwner.

Definition transfer (m : msg) (name : bytes) (newOwner : address) (newPubKey : bytes) (s : state) :
    go sol_error (state * list event) :=
  _ ← require (negb (bool_decide (newOwner = zero_address))) ZeroAddress;
  _ ← require (negb ((len newPubKey =? 0) || (128 <? len newPubKey))) InvalidPubKey;
  let h := keccak256 name in
  let d := domain_of s h in
  _ ← only_owner m d;
  mret (with_domain h (mkDomain newOwner newPubKey (D_Expiry d) (uint64 (D_Generation d + 1))) s,
        [Transferred h (D_Owner d) newOwner newPubKey]).

Definition withdraw (m : msg) (to : address) (s : state) : go sol_error (state * list event) :=
  _ ← require (bool_decide (sender m = treasurer)) NotTreasurer;
  _ ← require (negb (bool_decide (to = zero_address))) ZeroAddress;
  _ ← require (call_ok m) WithdrawFailed;
  mret (with_balance 0 s, [Withdrawn to (balance s)]).

Definition recordKeyOf (recordType selector : bytes) : bytes := keccak256 (keccak256 recordType ++ keccak256 selector).

(** The loop over the fields of setRecord; both arrays have the same length. *)
Fixpoint check_lengths (names vals : list bytes) : go sol_error () :=
  match vals with
  | [] => Ret ()
  | v :: vals =>
      n ← or_panic (head names);
      _ ← require (negb (MAX_FIELD_NAME_LENGTH <? len n)) FieldNameTooLong;
      _ ← require (negb (MAX_FIELD_VALUE_LENGTH <? len v)) FieldValueTooLong;
      check_lengths (tail names) vals
  end.

(** _checkMandatoryFields *)
Fixpoint find_mandatory (mandatory fieldNames : list bytes) : go sol_error () :=
  match mandatory with
  | [] => Ret ()
  | w :: mandatory =>
      if existsb (fun n => bool_decide (keccak256 n = keccak256 w)) fieldNames then find_mandatory mandatory fieldNames
      else Err (MissingMandatoryField w)
  end.
Definition checkMandatoryFields (reg : registry) (typeHash : bytes) (fieldNames : list bytes) : go sol_error () :=
  mandatory ← mandatoryFields reg typeHash; find_mandatory mandatory fieldNames.

(** The assignment of the record's fields and the registration of its key. *)
Definition store_record (h key : bytes) (r : NamespaceDAppRecord) (g : Z) (s : state) : state :=
  let s := mkState (domains s) (<[(h, key) := r]> (records s)) (recordKeys s) (recordKeyIndex s) (commitments s) (balance s) in
  if index_of s h g key =? 0 then
    let keys := keys_of s h g ++ [key] in
    mkState (domains s) (records s) (<[(h, g) := keys]> (recordKeys s))
      (<[(h, g, key) := Z.of_nat (length keys)]> (recordKeyIndex s)) (commitments s) (balance s)
  else s.

Definition setRecord (m : msg) (reg : registry) (name recordType selector : bytes) (fieldNames fieldValues : list bytes)
    (ttl : Z) (ownerSig commitment : bytes) (s : state) : go sol_error (state * list event) :=
  let h := keccak256 name in
  let d := domain_of s h in
  _ ← only_owner m d;
  _ ← require (Nat.eqb (length fieldNames) (length fieldValues)) FieldArrayMismatch;
  _ ← require (negb (MAX_RECORD_FIELDS <? Z.of_nat (length fieldNames))) TooManyFields;
  _ ← require (negb (MAX_SELECTOR_LENGTH <? len selector)) SelectorTooLong;
  _ ← require (negb (ttl =? 0)) InvalidTTL;
  _ ← check_lengths fieldNames fieldValues;
  _ ← require (typeExists reg recordType) UnknownRecordType;
  _ ← checkMandatoryFields reg (keccak256 recordType) fieldNames;
  let key := recordKeyOf recordType selector in
  let r := mkBinding recordType selector fieldNames fieldValues ttl (D_Generation d) ownerSig commitment true in
  mret (store_record h key r (D_Generation d) s, [RecordSet h name key recordType selector ttl]).

(** The swap-and-pop of removeRecord on the key list and its index. *)
Definition drop_key (h key : bytes) (g : Z) (s : state) : go sol_error state :=
  let idxPlus1 := index_of s h g key in
  let keys := keys_of s h g in
  lastIdx ← sub256 (Z.of_nat (length keys)) 1;
  idx ← sub256 idxPlus1 1;
  '(keys, ix) ←
    (if negb (idx =? lastIdx) then
       moved ← index keys lastIdx;
       _ ← index keys idx;
       mret (<[Z.to_nat idx := moved]> keys, <[(h, g, moved) := idxPlus1]> (recordKeyIndex s))
     else mret (keys, recordKeyIndex s));
  mret (mkState (domains s) (records s) (<[(h, g) := take (length keys - 1) keys]> (recordKeys s))
          (delete (h, g, key) ix) (commitments s) (balance s)).

Definition removeRecord (m : msg) (name recordType selector : bytes) (s : state) : go sol_error (state * list event) :=
  let h := keccak256 name in
  let d := domain_of s h in
  _ ← only_owner m d;
  let key := recordKeyOf recordType selector in
  let r := record_of s h key in
  _ ← require (b_Exists r && (b_Generation r =? D_Generation d)) RecordNotFound;
  s ← drop_key h key (D_Generation d)
        (mkState (domains s) (delete (h, key) (records s)) (recordKeys s) (recordKeyIndex s) (commitments s) (balance s));
  mret (s, [RecordRemoved h name key recordType selector]).

(** * Views *)

Definition live (d : Domain) (r : NamespaceDAppRecord) : bool := b_Exists r && (b_Generation r =? D_Generation d).

Definition lookup_record (now : Z) (name recordType selector : bytes) (s : state) : NamespaceDAppRecord :=
  let h := keccak256 name in
  let d := domain_of s h in
  if negb (active now d) then empty_record
  else
    let r := record_of s h (recordKeyOf recordType selector) in
    if live d r then r else empty_record.

Definition resolve (now : Z) (name recordType selector : bytes) (s : state) : NamespaceDAppRecord * address * bytes :=
  let d := domain_of s (keccak256 name) in
  let '(owner, pubKey) := if active now d then (D_Owner d, D_PubKey d) else (zero_address, []) in
  (lookup_record now name recordType selector s, owner, pubKey).

Definition listRecords (now : Z) (name : bytes) (s : state) : list NamespaceDAppRecord :=
  let h := keccak256 name in
  let d := domain_of s h in
  if negb (active now d) then []
  else List.filter (live d) (map (record_of s h) (keys_of s h (D_Generation d))).

Definition getDomain (name : bytes) (s : state) : Domain := domain_of s (keccak256 name).

(** * Calls *)

(** The storage of both contracts. *)
Record store := mkStore { ns : state; reg : registry }.

Inductive call :=
| Commit (commitment : bytes)
| Register (name pubKey secret : bytes)
| Renew (name : bytes)
| Transfer (name : bytes) (newOwner : address) (newPubKey : bytes)
| Withdraw (to : address)
| SetRecord (name recordType selector : bytes) (fieldNames fieldValues : list bytes) (ttl : Z) (ownerSig commitment : bytes)
| RemoveRecord (name recordType selector : bytes)
| DeclareType (name : bytes) (mandatory optional : list bytes).
#[export] Instance call_eq_dec : EqDecision call.
Proof. solve_decision. Defined.

Definition on_ns (st : store) (r : go sol_error (state * list event)) : go sol_error (store * list event) :=
  '(s, evs) ← r; mret (mkStore s (reg st), evs).

(** The functions declared payable. *)
Definition payable (c : call) : bool := match c with Register _ _ _ | Renew _ => true | _ => false end.

Definition dispatch (m : msg) (c : call) (st : store) : go sol_error (store * list event) :=
  match c with
  | Commit com => on_ns st (commit m com (ns st))
  | Register name pubKey secret => on_ns st (register m name pubKey secret (ns st))
  | Renew name => on_ns st (renew m name (ns st))
  | Transfer name newOwner newPubKey => on_ns st (transfer m name newOwner newPubKey (ns st))
  | Withdraw to => on_ns st (withdraw m to (ns st))
  | SetRecord name recordType selector names vals ttl sig com =>
      on_ns st (setRecord m (reg st) name recordType selector names vals ttl sig com (ns st))
  | RemoveRecord name recordType selector => on_ns st (removeRecord m name recordType selector (ns st))
  | DeclareType name mandatory optional =>
      '(r, evs) ← declareType m name mandatory optional (reg st); mret (mkStore (ns st) r, evs)
  end.

(** A transaction; value sent to a function that is not payable reverts it. *)
Definition exec (m : msg) (c : call) (st : store) : go sol_error (store * list event) :=
  _ ← require (payable c || (value m =? 0)) NotPayable;
  dispatch m c st.

Lemma exec_ret m c st r : exec m c st = Ret r <-> (payable c = true \/ value m = 0) /\ dispatch m c st = Ret r.
Proof.
  unfold exec. rewrite <- (Z.eqb_eq (value m) 0), <- orb_true_iff.
  destruct (payable c || (value m =? 0)); cbn; [naive_solver|]. split; [done|by intros []].
Qed.
Lemma exec_dispatch m c st r : exec m c st = Ret r -> dispatch m c st = Ret r.
Proof. by intros []%exec_ret. Qed.
Lemma exec_free m c st : value m = 0 -> exec m c st = dispatch m c st.
Proof. intros H. unfold exec. by rewrite H, orb_true_r. Qed.

(** The types the registry's constructor declares. *)
Definition constructor (m : msg) : go sol_error registry :=
  let declare name mandatory optional (r : registry) := '(r, _) ← declareType m name mandatory optional r; mret r in
  r ← declare (str "A") [str "address"] [] (mkRegistry ∅ []);
  r ← declare (str "AAAA") [str "address"] [] r;
  r ← declare (str "MX") [str "host"; str "priority"] [] r;
  r ← declare (str "SVC") [str "target"; str "service"; str "transport"] [str "port"] r;
  declare (str "ResourceRef") [str "infoHash"; str "sha256"; str "contentType"] [] r.

(** The widths of a transaction's values, which the machine and the ABI give them; a
    block's time in seconds is 62 bits here, two less than the header's field. *)
Definition widths (m : msg) (c : call) : Prop :=
  0 <= timestamp m < 2 ^ 62 /\ 0 <= value m /\ length (sender m) = 20%nat
  /\ match c with
     | Register _ _ secret => length secret = 32%nat
     | Transfer _ newOwner _ => length newOwner = 20%nat
     | SetRecord _ _ _ _ _ ttl _ com => 0 <= ttl < 2 ^ 32 /\ length com = 32%nat
     | _ => True
     end.

(** The storages that transactions allowed by [P] lead to, a reverted one changing
    nothing, with the transactions that succeeded, the last one first. *)
Inductive reachable (P : msg -> call -> Prop) : list (msg * call) -> store -> Prop :=
| reach_init m r : constructor m = Ret r -> reachable P [] (mkStore empty_state r)
| reach_exec tr st m c st' evs :
    reachable P tr st -> P m c -> exec m c st = Ret (st', evs) -> reachable P ((m, c) :: tr) st'.

(** * The invariant of the record store *)

Record name_ok (n : nat) (s : state) (h : bytes) : Prop := {
  no_gen : 0 <= D_Generation (domain_of s h) <= Z.of_nat n;
  (** the index of a key is its position plus one, and zero for the others *)
  no_index g i k : keys_of s h g !! i = Some k -> index_of s h g k = Z.of_nat i + 1;
  no_absent g k : k ∉ keys_of s h g -> index_of s h g k = 0;
  (** nothing is stored for generations to come *)
  no_future g : D_Generation (domain_of s h) < g -> keys_of s h g = [];
  no_past k : b_Exists (record_of s h k) = true -> b_Generation (record_of s h k) <= D_Generation (domain_of s h);
  (** the keys of the current generation are those of the live records *)
  no_live k : k ∈ keys_of s h (D_Generation (domain_of s h)) <-> live (domain_of s h) (record_of s h k) = true;
}.
Definition state_ok (n : nat) (s : state) : Prop := forall h, name_ok n s h.

(** Two storages agree on the records of a name. *)
Definition same_records (s s' : state) (h : bytes) : Prop :=
  (forall k, record_of s' h k = record_of s h k) /\ (forall g, keys_of s' h g = keys_of s h g)
  /\ (forall g k, index_of s' h g k = index_of s h g k).

End Contract.
End Contract.
