(* ===== verification/Authority.v ===== *)
(** What the contracts promise: the invariant of the record store under every
    transaction, the records it can hold, who can change what a name resolves to,
    and the events that tell the caches about it. *)
From S2P Require Import Prelude GoStrings Query Chain Cache Events Contract.
Import Chain.

Local Open Scope Z_scope.

Module Authority.
Import Contract.

Section Authority.
Context {K : Keccak} {IM : Immutables}.
Implicit Types (s : Contract.state) (st : store) (h k : bytes) (g : Z).

Lemma domain_of_with h d s h' : domain_of (with_domain h d s) h' = if decide (h = h') then d else domain_of s h'.
Proof. unfold domain_of, with_domain. cbn. rewrite lookup_insert. by case_decide. Qed.

Lemma domain_of_same s s' h : domains s' = domains s -> domain_of s' h = domain_of s h.
Proof. unfold domain_of. by intros ->. Qed.

Lemma name_ok_mono n s h : name_ok n s h -> name_ok (S n) s h.
Proof. intros [H1 H2 H3 H4 H5 H6]. split; [lia|done..]. Qed.

Lemma name_ok_same n s s' h :
  same_records s s' h -> domain_of s' h = domain_of s h -> name_ok n s h -> name_ok n s' h.
Proof.
  intros (Hr & Hk & Hi) Hd [H1 H2 H3 H4 H5 H6].
  split; intros *; rewrite ?Hd, ?Hr, ?Hk, ?Hi; eauto.
Qed.

(** A domain whose generation is kept or moves on by one. *)
Lemma name_ok_domain n s s' h :
  same_records s s' h ->
  D_Generation (domain_of s' h) = D_Generation (domain_of s h)
  \/ D_Generation (domain_of s' h) = D_Generation (domain_of s h) + 1 ->
  name_ok n s h -> name_ok (S n) s' h.
Proof.
  intros (Hr & Hk & Hi) Hg [H1 H2 H3 H4 H5 H6]. split.
  - lia.
  - intros g i k. rewrite Hk, Hi. apply H2.
  - intros g k. rewrite Hk, Hi. apply H3.
  - intros g Hlt. rewrite Hk. apply H4. lia.
  - intros k. rewrite Hr. intros Hx. apply H5 in Hx. lia.
  - intros k. rewrite Hk, Hr. destruct Hg as [Hg|Hg].
    + unfold live. rewrite Hg. apply H6.
    + rewrite H4 by lia. split; [by intros ?%elem_of_nil|]. unfold live. intros [Hx Hgen]%andb_true_iff.
      apply H5 in Hx. lia.
Qed.

Lemma require_ret b e u : require b e = Ret u <-> b = true.
Proof. destruct b, u; done. Qed.

(** * Writing a record *)

Lemma store_record_spec h key r g s :
  let s' := store_record h key r g s in
  domains s' = domains s
  /\ (forall h', h' <> h -> same_records s s' h')
  /\ (forall k, record_of s' h k = if decide (k = key) then r else record_of s h k)
  /\ (forall g', keys_of s' h g'
        = if decide (g' = g /\ index_of s h g key = 0) then keys_of s h g ++ [key] else keys_of s h g')
  /\ (forall g' k, index_of s' h g' k
        = if decide (g' = g /\ k = key /\ index_of s h g key = 0) then Z.of_nat (length (keys_of s h g)) + 1
          else index_of s h g' k).
Proof.
  unfold store_record. change (index_of (mkState _ _ _ _ _ _) h g key) with (index_of s h g key).
  destruct (Z.eqb_spec (index_of s h g key) 0) as [Hi|Hi]; cbn zeta.
  - split; [done|]. split; [|split; [|split]].
    + intros h' Hh. unfold same_records, record_of, keys_of, index_of. cbn.
      split; [|split]; intros; by rewrite lookup_insert_ne by congruence.
    + intros k. unfold record_of. cbn. rewrite lookup_insert. repeat case_decide; naive_solver.
    + intros g'. unfold keys_of. cbn. rewrite lookup_insert. repeat case_decide; naive_solver.
    + intros g' k. unfold index_of, keys_of. cbn. rewrite lookup_insert, length_app. cbn [length].
      repeat case_decide; simplify_eq/=; try naive_solver. lia.
  - split; [done|]. split; [|split; [|split]].
    + intros h' Hh. unfold same_records, record_of, keys_of, index_of. cbn.
      split; [|done]. intros; by rewrite lookup_insert_ne by congruence.
    + intros k. unfold record_of. cbn. rewrite lookup_insert. repeat case_decide; naive_solver.
    + intros g'. rewrite decide_False by naive_solver. done.
    + intros g' k. rewrite decide_False by naive_solver. done.
Qed.

(** A key is listed exactly when its index is not zero. *)
Lemma listed_index n s h g k : name_ok n s h -> k ∈ keys_of s h g <-> index_of s h g k <> 0.
Proof.
  intros H. split.
  - intros [i Hi]%list_elem_of_lookup. rewrite (no_index _ _ _ H _ _ _ Hi). lia.
  - intros Hi. destruct (decide (k ∈ keys_of s h g)) as [|Hn]; [done|]. by apply (no_absent _ _ _ H) in Hn.
Qed.

Lemma store_record_ok n s h key r :
  name_ok n s h -> b_Exists r = true -> b_Generation r = D_Generation (domain_of s h) ->
  name_ok n (store_record h key r (D_Generation (domain_of s h)) s) h.
Proof.
  intros Hok Hx Hg. pose proof (listed_index n s h (D_Generation (domain_of s h)) key Hok) as Hlist.
  destruct (store_record_spec h key r (D_Generation (domain_of s h)) s) as (Hd & _ & Hr & Hk & Hi).
  set (s' := store_record _ _ _ _ _) in *. set (G := D_Generation (domain_of s h)) in *.
  assert (domain_of s' h = domain_of s h) as Hdom by (unfold domain_of; by rewrite Hd).
  destruct Hok as [H1 H2 H3 H4 H5 H6]. split; rewrite ?Hdom; fold G; try done.
  - intros g i k. rewrite Hk, Hi. destruct (decide (g = G /\ _)) as [[-> H0]|Hn].
    + rewrite lookup_app_Some, list_lookup_singleton_Some. intros [Hl|(Hle & Hj & <-)].
      * rewrite decide_False by (intros (_ & -> & _); apply H2 in Hl; lia). by apply H2.
      * rewrite decide_True by done. lia.
    + rewrite decide_False by naive_solver. apply H2.
  - intros g k. rewrite Hk, Hi. destruct (decide (g = G /\ _)) as [[-> H0]|Hn].
    + rewrite not_elem_of_app, list_elem_of_singleton. intros [Hnk Hne]. rewrite decide_False by naive_solver. by apply H3.
    + rewrite decide_False by naive_solver. apply H3.
  - intros g Hlt. rewrite Hk, decide_False by lia. by apply H4.
  - intros k. rewrite Hr. destruct (decide (k = key)); [intros _; by rewrite Hg|apply H5].
  - intros k. rewrite Hk, Hr. destruct (decide (k = key)) as [->|Hne].
    + unfold live at 1. rewrite Hx, Hg. fold G. rewrite Z.eqb_refl. split; [done|intros _].
      destruct (decide (G = G /\ _)) as [Hz|Hz]; [apply elem_of_app; right; by left|]. apply Hlist. naive_solver.
    + rewrite <- H6. destruct (decide (G = G /\ _)); [|done]. rewrite elem_of_app, list_elem_of_singleton. naive_solver.
Qed.

(** * Removing a key: swap and pop *)

(** The list without the element at [i], the last element moved there. *)
Definition swap_pop (i : nat) (l : list bytes) : list bytes :=
  match last l with Some m => take (length l - 1) (<[i := m]> l) | None => l end.

Lemma swap_pop_lookup i l m j :
  last l = Some m -> swap_pop i l !! j
  = if decide (j < length l - 1)%nat then if decide (j = i) then Some m else l !! j else None.
Proof.
  intros Hm. unfold swap_pop. rewrite Hm, lookup_take.
  repeat case_decide; try done.
  - subst. apply list_lookup_insert_eq. lia.
  - by apply list_lookup_insert_ne.
Qed.

Lemma drop_key_spec h key g s i :
  (forall i k, keys_of s h g !! i = Some k -> index_of s h g k = Z.of_nat i + 1) ->
  keys_of s h g !! i = Some key ->
  exists m s', drop_key h key g s = Ret s' /\ last (keys_of s h g) = Some m
  /\ domains s' = domains s /\ records s' = records s
  /\ (forall h' g', keys_of s' h' g' = if decide (h' = h /\ g' = g) then swap_pop i (keys_of s h g) else keys_of s h' g')
  /\ (forall h' g' k, index_of s' h' g' k
        = if decide (h' = h /\ g' = g /\ k = key) then 0
          else if decide (h' = h /\ g' = g /\ k = m) then Z.of_nat i + 1 else index_of s h' g' k).
Proof.
  intros Hix Hi. pose proof (Hix _ _ Hi) as Hidx. set (keys := keys_of s h g) in *.
  pose proof (lookup_lt_Some _ _ _ Hi) as Hlt.
  assert (exists m, last keys = Some m) as [m Hm].
  { rewrite last_lookup. apply lookup_lt_is_Some. lia. }
  exists m. unfold drop_key. fold keys. rewrite Hidx. unfold sub256.
  rewrite (proj2 (Z.leb_le 1 (Z.of_nat (length keys)))), (proj2 (Z.leb_le 1 (Z.of_nat i + 1))) by lia. cbn [mbind go_bind].
  destruct (Z.eqb_spec (Z.of_nat i + 1 - 1) (Z.of_nat (length keys) - 1)) as [He|He]; cbn [negb].
  - assert (i = pred (length keys)) as -> by lia. rewrite <- last_lookup, Hm in Hi. injection Hi as ->.
    eexists. split; [reflexivity|]. split; [done|]. split; [done|]. split; [done|]. split.
    + intros h' g'. unfold keys_of at 1. cbn [recordKeys]. rewrite lookup_insert.
      case_decide as Hp; [|rewrite decide_False by naive_solver; done].
      rewrite decide_True by naive_solver. cbn. unfold swap_pop. rewrite Hm.
      rewrite list_insert_id by (by rewrite <- last_lookup). done.
    + intros h' g' k. unfold index_of at 1. cbn [recordKeyIndex]. rewrite lookup_delete.
      repeat case_decide; try done; naive_solver.
  - assert (keys !! Z.to_nat (Z.of_nat (length keys) - 1) = Some m) as Hlast.
    { rewrite <- Hm, last_lookup. f_equal. lia. }
    unfold index. rewrite (proj2 (Z.leb_le 0 (Z.of_nat (length keys) - 1))) by lia. rewrite Hlast. cbn [or_panic mbind go_bind].
    rewrite (proj2 (Z.leb_le 0 (Z.of_nat i + 1 - 1))) by lia.
    replace (Z.to_nat (Z.of_nat i + 1 - 1)) with i by lia. rewrite Hi. cbn [or_panic mbind go_bind mret go_ret].
    eexists. split; [reflexivity|]. split; [done|]. split; [done|]. split; [done|]. split.
    + intros h' g'. unfold keys_of at 1. cbn [recordKeys]. rewrite lookup_insert.
      case_decide as Hp; [|rewrite decide_False by naive_solver; done].
      rewrite decide_True by naive_solver. cbn. unfold swap_pop. by rewrite Hm, length_insert.
    + intros h' g' k. unfold index_of at 1. cbn [recordKeyIndex]. rewrite lookup_delete.
      destruct (decide (h' = h /\ g' = g /\ k = key)) as [(-> & -> & ->)|Hk]; [by rewrite decide_True|].
      rewrite decide_False by naive_solver. rewrite lookup_insert.
      destruct (decide (h' = h /\ g' = g /\ k = m)) as [(-> & -> & ->)|Hkm]; [by rewrite decide_True|].
      by rewrite decide_False by naive_solver.
Qed.

Lemma swap_pop_elem i l key k :
  l !! i = Some key -> (forall j, l !! j = Some key -> j = i) ->
  k ∈ swap_pop i l <-> k ∈ l /\ k <> key.
Proof.
  intros Hi Hu. pose proof (lookup_lt_Some _ _ _ Hi) as Hlt.
  assert (exists m, last l = Some m) as [m Hm] by (rewrite last_lookup; apply lookup_lt_is_Some; lia).
  pose proof Hm as Hlast. rewrite last_lookup in Hlast. rewrite !list_elem_of_lookup.
  setoid_rewrite (swap_pop_lookup i l m); [|done]. split.
  - intros [j Hj]. repeat case_decide; simplify_eq.
    + split; [eauto|]. intros ->. apply Hu in Hlast. lia.
    + split; [eauto|]. intros ->. by apply Hu in Hj.
  - intros [[j Hj] Hk]. pose proof (lookup_lt_Some _ _ _ Hj).
    destruct (decide (j = length l - 1)%nat) as [->|Hne].
    + replace (pred (length l)) with (length l - 1)%nat in Hlast by lia. simplify_eq.
      exists i. rewrite decide_True by (destruct (decide (i = length l - 1)%nat) as [->|]; [congruence|lia]).
      by rewrite decide_True.
    + exists j. rewrite decide_True by lia. rewrite decide_False; [done|]. intros ->. congruence.
Qed.

Definition without_record h key s : Contract.state :=
  mkState (domains s) (delete (h, key) (records s)) (recordKeys s) (recordKeyIndex s) (commitments s) (balance s).

(** Removing a live record never panics, and leaves every other record as it was. *)
Lemma drop_live n s h key :
  name_ok n s h -> live (domain_of s h) (record_of s h key) = true ->
  exists s', drop_key h key (D_Generation (domain_of s h)) (without_record h key s) = Ret s'
    /\ domains s' = domains s /\ name_ok n s' h /\ (forall h', h' <> h -> same_records s s' h')
    /\ (forall k, record_of s' h k = if decide (k = key) then empty_record else record_of s h k).
Proof.
  intros Hok Hlive. set (G := D_Generation (domain_of s h)). destruct Hok as [H1 H2 H3 H4 H5 H6].
  apply H6 in Hlive as Hin. fold G in Hin. apply list_elem_of_lookup in Hin as [i Hi].
  destruct (drop_key_spec h key G (without_record h key s) i) as (m & s' & Hs & Hm & Hd & Hr & Hk & Hx); [apply H2|exact Hi|].
  change (keys_of (without_record h key s)) with (keys_of s) in *. change (index_of (without_record h key s)) with (index_of s) in *.
  cbn [domains without_record] in Hd.
  assert (domain_of s' h = domain_of s h) as Hdom by (unfold domain_of; by rewrite Hd).
  assert (forall h' k, record_of s' h' k = if decide (h' = h /\ k = key) then empty_record else record_of s h' k) as Hrec.
  { intros h' k. unfold record_of. rewrite Hr. cbn. rewrite lookup_delete. repeat case_decide; naive_solver. }
  pose proof (fun j Hj => eq_trans (eq_sym (H2 G j key Hj)) (H2 G i key Hi)) as Hu.
  assert (forall k, k ∈ swap_pop i (keys_of s h G) <-> k ∈ keys_of s h G /\ k <> key) as Hel.
  { intros k. apply swap_pop_elem; [done|]. intros j Hj. apply Hu in Hj. lia. }
  exists s'. split; [done|]. split; [done|]. split; [|split].
  - split; rewrite ?Hdom; fold G; try done.
    + intros g j k. rewrite Hk, Hx. destruct (decide (h = h /\ g = G)) as [[_ ->]|Hn].
      * rewrite (swap_pop_lookup i _ m) by done. intros Hj.
        assert (k ∈ swap_pop i (keys_of s h G)) as [_ Hne]%Hel.
        { apply list_elem_of_lookup. exists j. by rewrite (swap_pop_lookup i _ m). }
        rewrite decide_False by naive_solver.
        destruct (decide (j < _)%nat) as [Hj1|]; [|done]. destruct (decide (j = i)) as [->|Hji].
        -- injection Hj as <-. by rewrite decide_True.
        -- rewrite decide_False; [by apply H2|]. intros (_ & _ & ->).
           rewrite last_lookup in Hm. apply H2 in Hm, Hj. lia.
      * rewrite !decide_False by naive_solver. apply H2.
    + intros g k. rewrite Hk, Hx. destruct (decide (h = h /\ g = G)) as [[_ ->]|Hn].
      * rewrite Hel. intros Hnk. destruct (decide (h = h /\ G = G /\ k = key)) as [|Hk1]; [done|].
        assert (k <> key) as Hne by naive_solver.
        rewrite decide_False; [apply H3; naive_solver|]. intros (_ & _ & ->). apply Hnk. split; [|done].
        by apply last_Some_elem_of.
      * rewrite !decide_False by naive_solver. apply H3.
    + intros g Hlt. rewrite Hk, decide_False by lia. by apply H4.
    + intros k. rewrite Hrec. destruct (decide (h = h /\ k = key)); [done|apply H5].
    + intros k. rewrite Hk, Hrec. rewrite (decide_True (P := h = h /\ G = G)) by done. rewrite Hel. unfold G. rewrite H6.
      destruct (decide (h = h /\ k = key)) as [[_ ->]|Hne]; [|naive_solver].
      split; [naive_solver|done].
  - intros h' Hh. split; [|split]; intros; rewrite ?Hrec, ?Hk, ?Hx, ?decide_False by naive_solver; done.
  - intros k. rewrite Hrec. repeat case_decide; naive_solver.
Qed.

(** * Every transaction keeps the invariant *)

Lemma uint64_succ z : 0 <= z -> z + 1 < 2 ^ 64 -> uint64 (z + 1) = z + 1.
Proof. intros. unfold uint64. apply Z.mod_small. lia. Qed.

Lemma only_owner_ret m d u :
  only_owner m d = Ret u <-> registered d = true /\ timestamp m <= D_Expiry d /\ sender m = D_Owner d.
Proof.
  unfold only_owner. destruct (registered d); cbn; [|naive_solver].
  destruct (Z.ltb_spec (D_Expiry d) (timestamp m)); cbn; [split; [done|lia]|].
  rewrite require_ret, bool_decide_eq_true. naive_solver.
Qed.

(** * What a successful transaction did *)

Ltac bind_inv H :=
  lazymatch type of H with
  | (_ ≫= _) = Ret _ =>
      let x := fresh "x" in let E := fresh "E" in
      apply go_bind_ret in H as (x & E & H); cbv beta zeta in H; bind_inv H
  | _ => idtac
  end.

(** The guards a successful transaction passed, as propositions. *)
Ltac guards :=
  repeat match goal with
  | E : require _ _ = Ret _ |- _ => apply require_ret in E
  | E : negb _ = true |- _ => apply negb_true_iff in E
  | E : _ || _ = false |- _ => apply orb_false_iff in E as [? ?]
  | E : _ && _ = true |- _ => apply andb_true_iff in E as [? ?]
  | E : (_ <? _) = false |- _ => apply Z.ltb_ge in E
  | E : (_ <=? _) = true |- _ => apply Z.leb_le in E
  | E : (_ =? _) = false |- _ => apply Z.eqb_neq in E
  | E : (_ =? _) = true |- _ => apply Z.eqb_eq in E
  | E : Nat.eqb _ _ = true |- _ => apply Nat.eqb_eq in E
  | E : bool_decide _ = true |- _ => apply bool_decide_eq_true in E
  | E : bool_decide _ = false |- _ => apply bool_decide_eq_false in E
  | E : add256 _ _ = Ret _ |- _ =>
      unfold add256 in E;
      match type of E with (if ?b then _ else _) = _ => destruct b; [injection E as <-|done] end
  end.

(** Two storages with the same records. *)
Definition stores_same s s' : Prop :=
  records s' = records s /\ recordKeys s' = recordKeys s /\ recordKeyIndex s' = recordKeyIndex s.

Lemma stores_same_records s s' h : stores_same s s' -> same_records s s' h.
Proof. intros (H1 & H2 & H3). unfold same_records, record_of, keys_of, index_of. by rewrite H1, H2, H3. Qed.

Lemma refundExcess_ret m price s s' :
  refundExcess m price s = Ret s' <->
  price <= value m /\ (price < value m -> call_ok m = true) /\ s' = with_balance (balance s - (value m - price)) s.
Proof.
  unfold refundExcess, sub256. destruct (Z.leb_spec price (value m)); cbn; [|naive_solver lia].
  assert (value m - price = 0 -> with_balance (balance s - (value m - price)) s = s) as H0.
  { intros ->. unfold with_balance. rewrite Z.sub_0_r. by destruct s. }
  destruct (Z.ltb_spec 0 (value m - price)).
  - destruct (call_ok m); split; [intros [= <-]; done|by intros (_ & _ & ->)|done|intros (_ & Hc & _); by specialize (Hc ltac:(lia))].
  - rewrite H0 by lia. split; [intros [= <-]; split; [done|split; [lia|done]]|by intros (_ & _ & ->)].
Qed.

Lemma register_ret m name pubKey secret s s' evs :
  register m name pubKey secret s = Ret (s', evs) ->
  let h := keccak256 name in
  let d := mkDomain (sender m) pubKey (uint64 (timestamp m + REGISTRATION_PERIOD)) (uint64 (D_Generation (domain_of s h) + 1)) in
  exists price, priceOf name = Ret price /\ price <= value m
    /\ Query.sol_validateName name = true /\ 0 < len pubKey <= 128 /\ active (timestamp m) (domain_of s h) = false
    /\ (exists at_, commitments s !! makeCommitment name (sender m) pubKey secret = Some at_ /\ at_ <> 0
          /\ at_ + MIN_COMMITMENT_AGE <= timestamp m <= at_ + MAX_COMMITMENT_AGE)
    /\ domains s' = <[h := d]> (domains s) /\ stores_same s s'
    /\ commitments s' = delete (makeCommitment name (sender m) pubKey secret) (commitments s)
    /\ balance s' = balance s + price
    /\ evs = [Registered h name (sender m) pubKey (D_Expiry d) (D_Generation d) price].
Proof.
  unfold register. intros H. bind_inv H. injection H as <- <-.
  rename x7 into price. guards.
  match goal with E : refundExcess _ _ _ = _ |- _ => apply refundExcess_ret in E as (Hp & _ & ->) end.
  cbn [commitments pay with_balance with_commitments with_domain] in *.
  exists price. split; [done|]. split; [done|]. split; [done|].
  split; [unfold len in *; lia|]. split; [done|].
  split.
  { destruct (commitments s !! _) as [at_|] eqn:Ec; cbn in *; [|done]. exists at_. split; [done|]. lia. }
  cbn. split; [done|]. split; [done|]. split; [done|]. split; [lia|done].
Qed.

Lemma renew_ret m name s s' evs :
  renew m name s = Ret (s', evs) ->
  let h := keccak256 name in
  let d := domain_of s h in
  let d' := mkDomain (D_Owner d) (D_PubKey d) (uint64 (D_Expiry d + REGISTRATION_PERIOD)) (D_Generation d) in
  exists price, priceOf name = Ret price /\ price <= value m /\ active (timestamp m) d = true
    /\ domains s' = <[h := d']> (domains s) /\ stores_same s s' /\ commitments s' = commitments s
    /\ balance s' = balance s + price /\ evs = [Renewed h (D_Expiry d') price].
Proof.
  unfold renew. intros H. bind_inv H. injection H as <- <-. guards.
  match goal with E : refundExcess _ _ _ = _ |- _ => apply refundExcess_ret in E as (Hp & _ & ->) end.
  change (domain_of (pay m s)) with (domain_of s) in *. cbn in *. eexists. split; [done|]. split; [done|].
  split; [unfold active; apply andb_true_iff; split; [done|apply Z.leb_le; lia]|].
  do 3 (split; [done|]). split; [lia|done].
Qed.

Lemma transfer_ret m name newOwner newPubKey s s' evs :
  transfer m name newOwner newPubKey s = Ret (s', evs) ->
  let h := keccak256 name in
  let d := domain_of s h in
  newOwner <> zero_address /\ 0 < len newPubKey <= 128
  /\ active (timestamp m) d = true /\ sender m = D_Owner d
  /\ s' = with_domain h (mkDomain newOwner newPubKey (D_Expiry d) (uint64 (D_Generation d + 1))) s
  /\ evs = [Transferred h (D_Owner d) newOwner newPubKey].
Proof.
  unfold transfer. intros H. bind_inv H. injection H as <- <-. guards.
  match goal with E : only_owner _ _ = _ |- _ => apply only_owner_ret in E as (Hr & He & Hs) end.
  split; [done|]. split; [unfold len in *; lia|]. cbn. unfold active. rewrite Hr. split; [by apply Z.leb_le|].
  done.
Qed.

Lemma check_lengths_ret ns vs u :
  length ns = length vs ->
  check_lengths ns vs = Ret u <->
  Forall (fun n => len n <= MAX_FIELD_NAME_LENGTH) ns /\ Forall (fun v => len v <= MAX_FIELD_VALUE_LENGTH) vs.
Proof.
  revert ns. induction vs as [|v vs IH]; intros [|n ns]; try done; cbn [check_lengths head or_panic mbind go_bind tail].
  - intros _. destruct u. split; [by repeat constructor|done].
  - intros [= Hl]. rewrite !Forall_cons.
    destruct (Z.ltb_spec MAX_FIELD_NAME_LENGTH (len n)); cbn [negb require mbind go_bind]; [split; [done|lia]|].
    destruct (Z.ltb_spec MAX_FIELD_VALUE_LENGTH (len v)); cbn [negb require mbind go_bind]; [split; [done|lia]|].
    rewrite IH by done. naive_solver.
Qed.

(** What setRecord checks about the record it is given. *)
Definition record_accepted (rg : registry) (recordType selector : bytes) (names vals : list bytes) (ttl : Z) : Prop :=
  length names = length vals /\ Z.of_nat (length names) <= MAX_RECORD_FIELDS /\ len selector <= MAX_SELECTOR_LENGTH
  /\ ttl <> 0 /\ Forall (fun n => len n <= MAX_FIELD_NAME_LENGTH) names
  /\ Forall (fun v => len v <= MAX_FIELD_VALUE_LENGTH) vals /\ typeExists rg recordType = true
  /\ checkMandatoryFields rg (keccak256 recordType) names = Ret ().

Lemma setRecord_ret m rg name recordType selector names vals ttl sig com s s' evs :
  let h := keccak256 name in
  let d := domain_of s h in
  let key := recordKeyOf recordType selector in
  setRecord m rg name recordType selector names vals ttl sig com s = Ret (s', evs) <->
  active (timestamp m) d = true /\ sender m = D_Owner d
  /\ record_accepted rg recordType selector names vals ttl
  /\ s' = store_record h key (mkBinding recordType selector names vals ttl (D_Generation d) sig com true) (D_Generation d) s
  /\ evs = [RecordSet h name key recordType selector ttl].
Proof.
  cbn zeta. split.
  - unfold setRecord. intros H. bind_inv H. injection H as <- <-. guards.
    match goal with E : only_owner _ _ = _ |- _ => apply only_owner_ret in E as (Hr & He & Hs) end.
    match goal with E : check_lengths _ _ = _ |- _ => apply check_lengths_ret in E as [Hn Hv]; [|done] end.
    destruct x6. split; [unfold active; rewrite Hr; by apply Z.leb_le|]. done.
  - intros (Ha & Hs & (Hl & Hf & Hsel & Httl & Hn & Hv & Ht & Hm) & -> & ->). unfold setRecord. cbv zeta.
    apply andb_true_iff in Ha as [Hr He%Z.leb_le].
    assert (only_owner m (domain_of s (keccak256 name)) = Ret ()) as -> by (by apply only_owner_ret).
    cbn [mbind go_bind]. rewrite (proj2 (Nat.eqb_eq _ _) Hl). cbn [require mbind go_bind].
    rewrite (proj2 (Z.ltb_ge _ _) Hf). cbn [negb require mbind go_bind].
    rewrite (proj2 (Z.ltb_ge _ _) Hsel). cbn [negb require mbind go_bind].
    rewrite (proj2 (Z.eqb_neq _ _) Httl). cbn [negb require mbind go_bind].
    rewrite (proj2 (check_lengths_ret names vals () Hl) (conj Hn Hv)). cbn [mbind go_bind].
    rewrite Ht. cbn [require mbind go_bind]. rewrite Hm. done.
Qed.

Lemma removeRecord_ret m name recordType selector s s' evs :
  let h := keccak256 name in
  let d := domain_of s h in
  let key := recordKeyOf recordType selector in
  removeRecord m name recordType selector s = Ret (s', evs) <->
  active (timestamp m) d = true /\ sender m = D_Owner d /\ live d (record_of s h key) = true
  /\ drop_key h key (D_Generation d) (without_record h key s) = Ret s'
  /\ evs = [RecordRemoved h name key recordType selector].
Proof.
  cbn zeta. unfold removeRecord. rewrite go_bind_ret. split.
  - intros (u & (Hr & He & Hs)%only_owner_ret & H). bind_inv H. injection H as -> <-. guards.
    split; [unfold active; rewrite Hr; by apply Z.leb_le|]. split; [done|]. split; [|done].
    unfold live. apply andb_true_iff. split; [done|by apply Z.eqb_eq].
  - intros ([Hr He%Z.leb_le]%andb_true_iff & Hs & Hl & Hd & ->). exists (). split; [by apply only_owner_ret|].
    unfold live in Hl. rewrite Hl. cbn [require mbind go_bind]. unfold without_record in Hd. rewrite Hd. done.
Qed.

(** The domain a transaction leaves behind has its generation kept or moved on. *)
Lemma exec_ok n m c st st' evs :
  Z.of_nat (S n) < 2 ^ 64 -> exec m c st = Ret (st', evs) -> state_ok n (ns st) -> state_ok (S n) (ns st').
Proof.
  intros Hn Hex Hok.
  assert (forall s' h d, stores_same (ns st) s' -> domains s' = <[h := d]> (domains (ns st)) ->
    D_Generation d = D_Generation (domain_of (ns st) h)
    \/ D_Generation d = uint64 (D_Generation (domain_of (ns st) h) + 1) -> state_ok (S n) s') as Hdomains.
  { intros s' h d Hs Hd Hg h'. eapply name_ok_domain; [by apply stores_same_records| |apply Hok].
    unfold domain_of in *. rewrite Hd, lookup_insert. pose proof (no_gen _ _ _ (Hok h')) as Hb. unfold domain_of in Hb.
    destruct (decide (h = h')) as [<-|]; cbn; [|by left].
    destruct Hg as [->| ->]; [by left|right]. apply uint64_succ; lia. }
  assert (forall s', stores_same (ns st) s' -> domains s' = domains (ns st) -> state_ok (S n) s') as Hkept.
  { intros s' Hs Hd h. apply name_ok_mono. eapply name_ok_same; [by apply stores_same_records|by apply domain_of_same|apply Hok]. }
  apply exec_dispatch in Hex; destruct c; cbn [dispatch] in Hex; apply go_bind_ret in Hex as ([s' evs'] & Hop & [= <- <-]); cbn [ns].
  - injection Hop as <- _. by apply Hkept.
  - apply register_ret in Hop as (price & _ & _ & _ & _ & _ & _ & Hd & Hs & _). eapply Hdomains; [done|exact Hd|by right].
  - apply renew_ret in Hop as (price & _ & _ & _ & Hd & Hs & _). eapply Hdomains; [done|exact Hd|by left].
  - apply transfer_ret in Hop as (_ & _ & _ & _ & -> & _). eapply Hdomains; [done|reflexivity|by right].
  - unfold withdraw in Hop. bind_inv Hop. injection Hop as <- _. by apply Hkept.
  - apply setRecord_ret in Hop as (_ & _ & _ & -> & _). intros h.
    destruct (store_record_spec (keccak256 name) (recordKeyOf recordType selector)
      (mkBinding recordType selector fieldNames fieldValues ttl (D_Generation (domain_of (ns st) (keccak256 name))) ownerSig commitment true)
      (D_Generation (domain_of (ns st) (keccak256 name))) (ns st)) as (Hd & Hs & _).
    apply name_ok_mono. destruct (decide (h = keccak256 name)) as [->|Hne]; [by apply store_record_ok|].
    eapply name_ok_same; [by apply Hs|by apply domain_of_same|apply Hok].
  - apply removeRecord_ret in Hop as (_ & _ & Hl & Hdrop & _). intros h.
    destruct (drop_live n _ _ _ (Hok _) Hl) as (s1 & Hs1 & Hd & Hn1 & Hs & _). rewrite Hdrop in Hs1. injection Hs1 as <-.
    apply name_ok_mono. destruct (decide (h = keccak256 name)) as [->|Hne]; [done|].
    eapply name_ok_same; [by apply Hs|by apply domain_of_same|apply Hok].
  - by apply Hkept.
Qed.

Lemma empty_ok : state_ok 0 empty_state.
Proof.
  intros h. split; try done. intros k. cbn. split; [by intros ?%elem_of_nil|done].
Qed.

(** * Reachable storages *)
Section Reachable.
Variable P : msg -> call -> Prop.
Hypothesis P_widths : forall m c, P m c -> widths m c.

Lemma reachable_ok tr st : reachable P tr st -> Z.of_nat (length tr) < 2 ^ 64 -> state_ok (length tr) (ns st).
Proof.
  induction 1 as [m r _|tr st m c st' evs _ IH Hwf Hex]; intros Hn; [apply empty_ok|].
  eapply exec_ok; [done|exact Hex|]. apply IH. cbn [length] in Hn. lia.
Qed.

(** A domain's fields; an unregistered one is all zeros. *)
Record domain_typed (d : Domain) : Prop := {
  dt_owner : length (D_Owner d) = 20%nat;
  dt_expiry : 0 <= D_Expiry d < 2 ^ 64;
  dt_generation : 0 <= D_Generation d < 2 ^ 64;
  dt_pubKey : len (D_PubKey d) <= 128;
  dt_registered : registered d = true -> D_PubKey d <> [];
}.

(** A schema is stored under the hash of its valid name. *)
Record schema_typed (th : bytes) (sc : Schema) : Prop := {
  st_exists : sc_exists sc = true;
  st_name : th = keccak256 (sc_name sc) /\ Query.sol_validateTypeName (sc_name sc) = true;
  st_fields : Z.of_nat (length (sc_fields sc)) <= 16;
  st_field : Forall (fun f => 0 < len (fs_name f) <= 32) (sc_fields sc);
  st_distinct : NoDup (map (fun f => keccak256 (fs_name f)) (sc_fields sc));
}.

(** A record is stored under the key of its type and selector, with what setRecord
    accepts in its fields and every mandatory field of its type's schema. *)
Record record_typed (rg : registry) (k : bytes) (r : NamespaceDAppRecord) : Prop := {
  rt_key : k = recordKeyOf (b_RecordType r) (b_Selector r);
  rt_fields : length (b_FieldNames r) = length (b_FieldValues r) /\ Z.of_nat (length (b_FieldNames r)) <= MAX_RECORD_FIELDS;
  rt_selector : len (b_Selector r) <= MAX_SELECTOR_LENGTH;
  rt_names : Forall (fun n => len n <= MAX_FIELD_NAME_LENGTH) (b_FieldNames r);
  rt_values : Forall (fun v => len v <= MAX_FIELD_VALUE_LENGTH) (b_FieldValues r);
  rt_ttl : 0 < b_Ttl r < 2 ^ 32;
  rt_generation : 0 <= b_Generation r < 2 ^ 64;
  rt_commitment : length (b_Commitment r) = 32%nat;
  rt_schema : exists sc, schemas rg !! keccak256 (b_RecordType r) = Some sc /\ sc_exists sc = true
    /\ forall f, f ∈ sc_fields sc -> fs_mandatory f = true ->
       exists n, n ∈ b_FieldNames r /\ keccak256 n = keccak256 (fs_name f);
}.

(** A declared schema never changes. *)
Definition reg_extends (rg rg' : registry) : Prop :=
  forall th sc, schemas rg !! th = Some sc -> sc_exists sc = true -> schemas rg' !! th = Some sc.

Lemma push_fields_ret mandatory names fields fields' :
  push_fields mandatory names fields = Ret fields' ->
  fields' = fields ++ map (fun n => mkFieldSpec n mandatory) names /\ Forall (fun n => 0 < len n <= 32) names.
Proof.
  revert fields. induction names as [|n names IH]; intros fields; cbn [push_fields map].
  - intros [= <-]. by rewrite app_nil_r.
  - intros H. bind_inv H. unfold validateFieldName in E. guards. apply IH in H as [-> Hf].
    rewrite <- app_assoc. split; [done|]. constructor; [unfold len in *; lia|done].
Qed.

Lemma checkNoDuplicates_ret fields u :
  checkNoDuplicates fields = Ret u -> NoDup (map (fun f => keccak256 (fs_name f)) fields).
Proof.
  induction fields as [|f fields IH]; cbn [checkNoDuplicates map]; [constructor|].
  destruct (existsb _ fields) eqn:Ex; [done|]. intros Hc. constructor; [|auto].
  intros (g & Hg & Hin)%list_elem_of_fmap. apply not_true_iff_false in Ex. apply Ex, existsb_exists.
  exists g. split; [by apply list_elem_of_In|by apply bool_decide_eq_true].
Qed.

(** declareType adds one well-typed schema. *)
Lemma declareType_ret m name mandatory optional rg rg' evs :
  declareType m name mandatory optional rg = Ret (rg', evs) ->
  exists sc, schemas rg' = <[keccak256 name := sc]> (schemas rg) /\ sc_name sc = name /\ schema_typed (keccak256 name) sc
    /\ typeExists rg name = false.
Proof.
  unfold declareType. intros H. bind_inv H. injection H as <- _. guards.
  repeat match goal with E : push_fields _ _ _ = _ |- _ => apply push_fields_ret in E as [-> ?] end.
  cbn [schemas]. eexists. split; [reflexivity|]. split; [done|]. split; [|done]. split; cbn [sc_exists sc_name sc_fields]; try done.
  - rewrite !length_app, !length_map. cbn [length]. lia.
  - apply Forall_app. by split; apply Forall_map.
  - by eapply checkNoDuplicates_ret.
Qed.

Lemma declareType_extends m name mandatory optional rg rg' evs :
  declareType m name mandatory optional rg = Ret (rg', evs) -> reg_extends rg rg'.
Proof.
  intros (sc & Hs & _ & _ & Hne)%declareType_ret th sc' Hl Hx. rewrite Hs, lookup_insert. case_decide as Ht; [|done].
  subst. unfold typeExists in Hne. rewrite Hl in Hne. congruence.
Qed.

Lemma exec_extends m c st st' evs : exec m c st = Ret (st', evs) -> reg_extends (reg st) (reg st').
Proof.
  intros Hex. apply exec_dispatch in Hex; destruct c; cbn [dispatch] in Hex; apply go_bind_ret in Hex as ([s' evs'] & Hop & [= <- <-]); cbn [reg]; try by intros th sc.
  by eapply declareType_extends.
Qed.

Lemma record_typed_mono rg rg' k r : reg_extends rg rg' -> record_typed rg k r -> record_typed rg' k r.
Proof. intros H [? ? ? ? ? ? ? ? (sc & Hs & Hx & Hm)]. split; auto. exists sc. auto. Qed.

(** Every record a transaction leaves was there before it, or is the one it set. *)
Lemma exec_records m c st st' evs h k :
  exec m c st = Ret (st', evs) -> b_Exists (record_of (ns st') h k) = true ->
  record_of (ns st') h k = record_of (ns st) h k
  \/ exists name typ sel names vals ttl sig com, c = SetRecord name typ sel names vals ttl sig com
     /\ record_accepted (reg st) typ sel names vals ttl /\ h = keccak256 name /\ k = recordKeyOf typ sel
     /\ record_of (ns st') h k = mkBinding typ sel names vals ttl (D_Generation (domain_of (ns st) h)) sig com true.
Proof.
  intros Hex Hx.
  assert (forall s', stores_same (ns st) s' -> record_of s' h k = record_of (ns st) h k) as Hsame.
  { intros s' Hs. by apply (stores_same_records _ _ h). }
  apply exec_dispatch in Hex; destruct c; cbn [dispatch] in Hex; apply go_bind_ret in Hex as ([s' evs'] & Hop & [= <- <-]); cbn [ns] in *.
  - left. injection Hop as <- _. by apply Hsame.
  - left. apply register_ret in Hop as (price & _ & _ & _ & _ & _ & _ & _ & Hs & _). by apply Hsame.
  - left. apply renew_ret in Hop as (price & _ & _ & _ & _ & Hs & _). by apply Hsame.
  - left. apply transfer_ret in Hop as (_ & _ & _ & _ & -> & _). by apply Hsame.
  - left. unfold withdraw in Hop. bind_inv Hop. injection Hop as <- _. by apply Hsame.
  - apply setRecord_ret in Hop as (_ & _ & Hacc & -> & _).
    match type of Hx with context [store_record ?h ?k ?r ?g ?s] =>
      destruct (store_record_spec h k r g s) as (_ & Hs & Hr & _) end.
    destruct (decide (h = keccak256 name)) as [->|Hne]; [|left; by apply Hs].
    rewrite Hr in *. destruct (decide (k = recordKeyOf recordType selector)) as [->|]; [right|by left]. naive_solver.
  - left. apply removeRecord_ret in Hop as (_ & _ & _ & Hdrop & _). unfold drop_key in Hdrop. bind_inv Hdrop.
    destruct x1 as [keys ix]. injection Hdrop as <-. revert Hx. unfold record_of. cbn [records without_record].
    rewrite lookup_delete. by case_decide.
  - by left.
Qed.

Lemma find_mandatory_ret mandatory names u :
  find_mandatory mandatory names = Ret u -> Forall (fun w => exists n, n ∈ names /\ keccak256 n = keccak256 w) mandatory.
Proof.
  induction mandatory as [|w mandatory IH]; cbn; [constructor|].
  destruct (existsb _ names) eqn:Ex; [|done]. intros Hf. constructor; [|auto].
  apply existsb_exists in Ex as (n & Hn & He%bool_decide_eq_true). exists n. by rewrite list_elem_of_In.
Qed.

Lemma checkMandatoryFields_ret rg th names u :
  checkMandatoryFields rg th names = Ret u ->
  exists sc, schemas rg !! th = Some sc /\ sc_exists sc = true
    /\ forall f, f ∈ sc_fields sc -> fs_mandatory f = true -> exists n, n ∈ names /\ keccak256 n = keccak256 (fs_name f).
Proof.
  unfold checkMandatoryFields, mandatoryFields. destruct (schemas rg !! th) as [sc|] eqn:Es; [|done].
  destruct (sc_exists sc) eqn:Ex; [|done]. cbn. intros Hf%find_mandatory_ret. exists sc. split; [done|]. split; [done|].
  intros f Hin Hm. rewrite Forall_forall in Hf. apply Hf, list_elem_of_fmap. exists f. split; [done|].
  apply list_elem_of_In, filter_In. by rewrite <- list_elem_of_In.
Qed.

Lemma uint64_range z : 0 <= uint64 z < 2 ^ 64.
Proof. unfold uint64. apply Z.mod_pos_bound. lia. Qed.

Lemma zero_domain_typed : domain_typed zero_domain.
Proof. by split. Qed.

Lemma reachable_domains tr st h : reachable P tr st -> domain_typed (domain_of (ns st) h).
Proof.
  intros Hre. revert h. induction Hre as [m r _|tr st m c st' evs _ IH Hwf Hex]; intros h; [apply zero_domain_typed|].
  apply P_widths in Hwf as (Ht & _ & Hsender & Hc).
  assert (forall s' h' d, domains s' = <[h' := d]> (domains (ns st)) -> domain_typed d -> domain_typed (domain_of s' h)) as Hins.
  { intros s' h' d Hd Hty. unfold domain_of. rewrite Hd, lookup_insert. case_decide; [done|apply IH]. }
  apply exec_dispatch in Hex; destruct c; cbn [dispatch] in Hex; apply go_bind_ret in Hex as ([s' evs'] & Hop & [= <- <-]); cbn [ns].
  - injection Hop as <- _. apply IH.
  - apply register_ret in Hop as (price & _ & _ & _ & Hpk & _ & _ & Hd & _). eapply Hins; [exact Hd|].
    split; cbn; try apply uint64_range; [done|lia|]. intros _ ->. by destruct Hpk.
  - apply renew_ret in Hop as (price & _ & _ & _ & Hd & _). eapply Hins; [exact Hd|].
    destruct (IH (keccak256 name)). split; cbn; auto. apply uint64_range.
  - apply transfer_ret in Hop as (_ & Hpk & _ & _ & -> & _). eapply Hins; [reflexivity|].
    destruct (IH (keccak256 name)). split; cbn; auto; [apply uint64_range|lia|]. intros _ ->. by destruct Hpk.
  - unfold withdraw in Hop. bind_inv Hop. injection Hop as <- _. apply IH.
  - apply setRecord_ret in Hop as (_ & _ & _ & -> & _).
    rewrite (domain_of_same (ns st)) by (apply (store_record_spec _ _ _ _ (ns st))). apply IH.
  - apply removeRecord_ret in Hop as (_ & _ & _ & Hdrop & _). unfold drop_key in Hdrop. bind_inv Hdrop.
    destruct x1 as [keys ix]. injection Hdrop as <-. apply IH.
  - apply IH.
Qed.

(** A registered domain is past generation zero. *)
Lemma reachable_generation tr st h :
  reachable P tr st -> Z.of_nat (length tr) < 2 ^ 64 -> registered (domain_of (ns st) h) = true ->
  0 < D_Generation (domain_of (ns st) h).
Proof.
  intros Hre. revert h. induction Hre as [m r _|tr st m c st' evs Hre IH _ Hex]; intros h Hn; [done|]. cbn [length] in Hn.
  pose proof (reachable_ok _ _ Hre ltac:(lia)) as Hok. specialize (fun h => IH h ltac:(lia)).
  assert (forall h, 0 <= D_Generation (domain_of (ns st) h) <= Z.of_nat (length tr)) as Hg by (intros h'; apply (no_gen _ _ _ (Hok h'))).
  assert (forall s' h' d, domains s' = <[h' := d]> (domains (ns st)) -> 0 < D_Generation d ->
    registered (domain_of s' h) = true -> 0 < D_Generation (domain_of s' h)) as Hins.
  { intros s' h' d Hd Hpos. unfold domain_of. rewrite Hd, lookup_insert. case_decide; [done|apply IH]. }
  apply exec_dispatch in Hex; destruct c; cbn [dispatch] in Hex; apply go_bind_ret in Hex as ([s' evs'] & Hop & [= <- <-]); cbn [ns].
  - injection Hop as <- _. apply IH.
  - apply register_ret in Hop as (price & _ & _ & _ & _ & _ & _ & Hd & _). eapply Hins; [exact Hd|]. cbn.
    pose proof (Hg (keccak256 name)). rewrite uint64_succ; lia.
  - apply renew_ret in Hop as (price & _ & _ & [Hr _]%andb_true_iff & Hd & _). eapply Hins; [exact Hd|]. by apply IH.
  - apply transfer_ret in Hop as (_ & _ & _ & _ & -> & _). eapply Hins; [reflexivity|]. cbn.
    pose proof (Hg (keccak256 name)). rewrite uint64_succ; lia.
  - unfold withdraw in Hop. bind_inv Hop. injection Hop as <- _. apply IH.
  - apply setRecord_ret in Hop as (_ & _ & _ & -> & _).
    rewrite (domain_of_same (ns st)) by (apply (store_record_spec _ _ _ _ (ns st))). apply IH.
  - apply removeRecord_ret in Hop as (_ & _ & _ & Hdrop & _). unfold drop_key in Hdrop. bind_inv Hdrop.
    destruct x1 as [keys ix]. injection Hdrop as <-. apply IH.
  - apply IH.
Qed.

Lemma reachable_typed tr st h k :
  reachable P tr st -> b_Exists (record_of (ns st) h k) = true -> record_typed (reg st) k (record_of (ns st) h k).
Proof.
  intros Hre. revert h k. induction Hre as [m r _|tr st m c st' evs Hre IH Hwf Hex]; intros h k Hx; [done|].
  destruct (exec_records _ _ _ _ _ _ _ Hex Hx) as [He|(name & typ & sel & names & vals & ttl & sig & com & -> & Hacc & -> & -> & Hr)].
  - rewrite He in *. eapply record_typed_mono; [by eapply exec_extends|]. by apply IH.
  - apply P_widths in Hwf as (_ & _ & _ & Httl & Hcom). destruct Hacc as (H1 & H2 & H3 & H4 & H5 & H6 & H7 & H8).
    eapply record_typed_mono; [by eapply exec_extends|].
    rewrite Hr. split; cbn; auto; [lia| |by eapply checkMandatoryFields_ret].
    by eapply dt_generation, reachable_domains.
Qed.
Lemma constructor_schemas m r th sc : constructor m = Ret r -> schemas r !! th = Some sc -> schema_typed th sc.
Proof.
  unfold constructor. intros H.
  assert (forall name mandatory optional rg rg', (forall th sc, schemas rg !! th = Some sc -> schema_typed th sc) ->
    (declareType m name mandatory optional rg ≫= (fun '(r, _) => mret r)) = Ret rg' ->
    forall th sc, schemas rg' !! th = Some sc -> schema_typed th sc) as Hdecl.
  { intros name mandatory optional rg rg' IH (x & E & Hx)%go_bind_ret. destruct x as [rg1 evs]. injection Hx as ->.
    apply declareType_ret in E as (s1 & -> & _ & Hty & _). intros th' sc'. rewrite lookup_insert.
    case_decide; [naive_solver|apply IH]. }
  do 4 (apply go_bind_ret in H as (? & ? & H)). revert th sc.
  do 5 (eapply Hdecl; [|eassumption]). intros th sc [=].
Qed.

Lemma reachable_schemas tr st th sc : reachable P tr st -> schemas (reg st) !! th = Some sc -> schema_typed th sc.
Proof.
  intros Hre. revert th sc. induction Hre as [m r Hc|tr st m c st' evs Hre IH Hwf Hex]; intros th sc; [by eapply constructor_schemas|].
  apply exec_dispatch in Hex; destruct c; cbn [dispatch] in Hex; apply go_bind_ret in Hex as ([s' evs'] & Hop & [= <- <-]); cbn [reg]; try apply IH.
  apply declareType_ret in Hop as (s1 & -> & _ & Hty & _). rewrite lookup_insert. case_decide; [naive_solver|apply IH].
Qed.

(** C10. Whatever transactions are sent, the storage stays well typed: domains have a
    20-byte owner, a key of at most 128 bytes, and 64-bit expiry and generation;
    schemas are valid, without duplicate fields, under the hash of their name;
    and every record is within the limits, under the key of its type and
    selector, with all the mandatory fields of its type. *)
Theorem storage_typed tr st :
  reachable P tr st ->
  (forall h, domain_typed (domain_of (ns st) h))
  /\ (forall th sc, schemas (reg st) !! th = Some sc -> schema_typed th sc)
  /\ (forall h k, b_Exists (record_of (ns st) h k) = true -> record_typed (reg st) k (record_of (ns st) h k)).
Proof.
  intros Hre. split; [|split]; intros.
  - by eapply reachable_domains.
  - by eapply reachable_schemas.
  - by eapply reachable_typed.
Qed.

(** * Enumeration *)

Lemma active_reg now d : active now d = true -> registered d = true.
Proof. by intros [? _]%andb_true_iff. Qed.

Lemma lookup_record_live now name typ sel s :
  b_Exists (lookup_record now name typ sel s) = true ->
  active now (domain_of s (keccak256 name)) = true
  /\ lookup_record now name typ sel s = record_of s (keccak256 name) (recordKeyOf typ sel)
  /\ live (domain_of s (keccak256 name)) (record_of s (keccak256 name) (recordKeyOf typ sel)) = true.
Proof.
  unfold lookup_record. destruct (active now _); cbn [negb]; [|done]. destruct (live _ _); done.
Qed.

(** C9. listRecords returns every record that a lookup of its type and selector
    finds, nothing else, and each one once: the key list survives any sequence of
    overwrites, swap-and-pop removals, transfers and re-registrations. *)
Theorem listRecords_exact tr st now name :
  reachable P tr st -> Z.of_nat (length tr) < 2 ^ 64 ->
  NoDup (map (fun r => recordKeyOf (b_RecordType r) (b_Selector r)) (listRecords now name (ns st)))
  /\ forall r, r ∈ listRecords now name (ns st) <->
       b_Exists r = true /\ lookup_record now name (b_RecordType r) (b_Selector r) (ns st) = r.
Proof.
  intros Hre Hn. pose proof (reachable_ok _ _ Hre Hn (keccak256 name)) as Hok.
  pose proof (reachable_typed tr st (keccak256 name)) as Hty. unfold listRecords.
  set (h := keccak256 name) in *. set (s := ns st) in *. set (d := domain_of s h) in *.
  assert (forall k, k ∈ keys_of s h (D_Generation d) -> live d (record_of s h k) = true
    /\ k = recordKeyOf (b_RecordType (record_of s h k)) (b_Selector (record_of s h k))) as Hkeys.
  { intros k Hk. apply (no_live _ _ _ Hok) in Hk. split; [done|].
    apply andb_true_iff in Hk as [Hx _]. by apply (rt_key _ _ _ (Hty k Hre Hx)). }
  destruct (active now d) eqn:Ea; cbn [negb].
  - assert (List.filter (live d) (map (record_of s h) (keys_of s h (D_Generation d)))
      = map (record_of s h) (keys_of s h (D_Generation d))) as Hall.
    { apply forallb_filter_id, forallb_forall. intros r (k & <- & Hk%list_elem_of_In)%in_map_iff. by apply Hkeys. }
    rewrite Hall. split.
    + rewrite map_map. rewrite (map_ext_in _ id), map_id.
      * apply NoDup_alt. intros i j k Hi Hj. apply (no_index _ _ _ Hok) in Hi, Hj. lia.
      * intros k Hk%list_elem_of_In. symmetry. by apply Hkeys.
    + intros r. rewrite list_elem_of_fmap. split.
      * intros (k & -> & Hk). destruct (Hkeys k Hk) as [Hl He]. unfold lookup_record. fold h s d.
        rewrite Ea, <- He, Hl. cbn [negb]. split; [by apply andb_true_iff in Hl as [? _]|done].
      * intros [Hx Hl]. rewrite <- Hl in Hx. apply lookup_record_live in Hx as (_ & Hr & Hlive).
        rewrite Hl in Hr. eexists. split; [exact Hr|]. by apply (no_live _ _ _ Hok).
  - split; [constructor|]. intros r. split; [by intros ?%elem_of_nil|]. intros [Hx Hl]. rewrite <- Hl in Hx.
    apply lookup_record_live in Hx as (Ha & _). fold h s d in Ha. congruence.
Qed.
(** * What a transaction changes *)

(** Expiries stay far from the top of their width: 2^38 transactions cannot renew a
    name that far. *)
Lemma expiry_bound tr st h :
  reachable P tr st -> Z.of_nat (length tr) < 2 ^ 38 ->
  D_Expiry (domain_of (ns st) h) <= 2 ^ 62 + (Z.of_nat (length tr) + 1) * REGISTRATION_PERIOD.
Proof.
  intros Hre. revert h. induction Hre as [m r _|tr st m c st' evs Hre IH Hwf Hex]; intros h Hn; [unfold REGISTRATION_PERIOD; change (D_Expiry _) with 0; cbn [length]; lia|].
  cbn [length] in *. rewrite Nat2Z.inj_succ in *.
  assert (D_Expiry (domain_of (ns st) h) <= 2 ^ 62 + (Z.of_nat (length tr) + 1) * REGISTRATION_PERIOD) as Hold by (apply IH; lia).
  apply P_widths in Hwf as (Ht & _). unfold REGISTRATION_PERIOD in *.
  assert (forall s' h' d, domains s' = <[h' := d]> (domains (ns st)) ->
    (D_Expiry d = D_Expiry (domain_of (ns st) h') \/ D_Expiry d = uint64 (timestamp m + 365 * 86400)
     \/ D_Expiry d = uint64 (D_Expiry (domain_of (ns st) h') + 365 * 86400)) ->
    D_Expiry (domain_of s' h) <= 2 ^ 62 + (Z.succ (Z.of_nat (length tr)) + 1) * (365 * 86400)) as Hins.
  { intros s' h' d Hd He. unfold domain_of at 1. rewrite Hd, lookup_insert. case_decide as Heq; [subst h'; cbn|].
    - pose proof (dt_expiry _ (reachable_domains _ _ h Hre)) as Hr.
      destruct He as [->|[->| ->]]; [lia|unfold uint64; rewrite Z.mod_small; lia..].
    - unfold domain_of in Hold. lia. }
  assert (forall s', domains s' = domains (ns st) ->
    D_Expiry (domain_of s' h) <= 2 ^ 62 + (Z.succ (Z.of_nat (length tr)) + 1) * (365 * 86400)) as Hkept.
  { intros s' Hd. rewrite (domain_of_same (ns st)) by done. lia. }
  apply exec_dispatch in Hex; destruct c; cbn [dispatch] in Hex; apply go_bind_ret in Hex as ([s' evs'] & Hop & [= <- <-]); cbn [ns].
  - injection Hop as <- _. by apply Hkept.
  - apply register_ret in Hop as (price & _ & _ & _ & _ & _ & _ & Hd & _). eapply Hins; [exact Hd|]. by right; left.
  - apply renew_ret in Hop as (price & _ & _ & _ & Hd & _). eapply Hins; [exact Hd|]. by right; right.
  - apply transfer_ret in Hop as (_ & _ & _ & _ & -> & _). eapply Hins; [reflexivity|]. by left.
  - unfold withdraw in Hop. bind_inv Hop. injection Hop as <- _. by apply Hkept.
  - apply setRecord_ret in Hop as (_ & _ & _ & -> & _). apply Hkept, store_record_spec.
  - apply removeRecord_ret in Hop as (_ & _ & _ & Hdrop & _). apply Hkept. unfold drop_key in Hdrop. bind_inv Hdrop.
    destruct x1 as [keys ix]. by injection Hdrop as <-.
  - by apply Hkept.
Qed.
(** What a lookup reads of the storage. *)
Lemma resolve_same now name typ sel s s' :
  active now (domain_of s' (keccak256 name)) = active now (domain_of s (keccak256 name)) ->
  (active now (domain_of s (keccak256 name)) = true ->
    D_Owner (domain_of s' (keccak256 name)) = D_Owner (domain_of s (keccak256 name))
    /\ D_PubKey (domain_of s' (keccak256 name)) = D_PubKey (domain_of s (keccak256 name))
    /\ D_Generation (domain_of s' (keccak256 name)) = D_Generation (domain_of s (keccak256 name))
    /\ record_of s' (keccak256 name) (recordKeyOf typ sel) = record_of s (keccak256 name) (recordKeyOf typ sel)) ->
  resolve now name typ sel s' = resolve now name typ sel s.
Proof.
  unfold resolve, lookup_record. cbv zeta. intros ->. destruct (active now _); cbn [negb]; [|done].
  intros (-> & -> & Hg & ->); [done|]. unfold live. by rewrite Hg.
Qed.

Lemma resolve_same_domain now name typ sel s s' :
  domain_of s' (keccak256 name) = domain_of s (keccak256 name) ->
  record_of s' (keccak256 name) (recordKeyOf typ sel) = record_of s (keccak256 name) (recordKeyOf typ sel) ->
  resolve now name typ sel s' = resolve now name typ sel s.
Proof. intros Hd Hr. apply resolve_same; rewrite Hd; auto. Qed.

(** Each transaction writes one name. *)
Definition call_name (c : call) : option bytes :=
  match c with
  | Register name _ _ | Renew name | Transfer name _ _ | SetRecord name _ _ _ _ _ _ _ | RemoveRecord name _ _ => Some name
  | Commit _ | Withdraw _ | DeclareType _ _ _ => None
  end.

(** The domain and records of the names a transaction does not write. *)
Lemma exec_frame n m c st st' evs h :
  state_ok n (ns st) -> exec m c st = Ret (st', evs) -> (forall name, call_name c = Some name -> h <> keccak256 name) ->
  domain_of (ns st') h = domain_of (ns st) h /\ same_records (ns st) (ns st') h.
Proof.
  intros Hok Hex Hn.
  assert (forall s' h' d, h <> h' -> domains s' = <[h' := d]> (domains (ns st)) -> stores_same (ns st) s' ->
    domain_of s' h = domain_of (ns st) h /\ same_records (ns st) s' h) as Hins.
  { intros s' h' d Hne Hd Hs. split; [|by apply stores_same_records]. unfold domain_of. by rewrite Hd, lookup_insert_ne. }
  apply exec_dispatch in Hex; destruct c; cbn [dispatch] in Hex; apply go_bind_ret in Hex as ([s' evs'] & Hop & [= <- <-]); cbn [ns call_name] in *.
  - injection Hop as <- _. done.
  - apply register_ret in Hop as (price & _ & _ & _ & _ & _ & _ & Hd & Hs & _). eapply Hins; eauto.
  - apply renew_ret in Hop as (price & _ & _ & _ & Hd & Hs & _). eapply Hins; eauto.
  - apply transfer_ret in Hop as (_ & _ & _ & _ & -> & _). eapply Hins; eauto; done.
  - unfold withdraw in Hop. bind_inv Hop. injection Hop as <- _. done.
  - apply setRecord_ret in Hop as (_ & _ & _ & -> & _).
    match goal with |- context [store_record ?h ?k ?r ?g ?s] => destruct (store_record_spec h k r g s) as (Hd & Hs & _) end.
    split; [by apply domain_of_same|]. apply Hs. by apply Hn.
  - apply removeRecord_ret in Hop as (_ & _ & Hl & Hdrop & _).
    destruct (drop_live n _ _ _ (Hok _) Hl) as (s1 & Hs1 & Hd & _ & Hs & _). rewrite Hdrop in Hs1. injection Hs1 as <-.
    split; [by apply domain_of_same|]. apply Hs. by apply Hn.
  - done.
Qed.

(** The events the resolver watches, as its watcher reports them. *)
Definition announced (block : Z) (ev : event) : option RecordEvent :=
  match ev with
  | RecordSet h name _ typ sel _ => Some (Events.set_event id (Events.mkRecEv h name typ sel) block)
  | RecordRemoved h name _ typ sel => Some (Events.removed_event id (Events.mkRecEv h name typ sel) block)
  | Transferred h oldOwner newOwner _ => Some (Events.transferred_event id (Events.mkXferEv h oldOwner newOwner) block)
  | Registered h name owner _ _ _ _ => Some (Events.registered_event id (Events.mkRegEv h name owner) block)
  | _ => None
  end.
Definition hits (k : Cache.Key) (evs : list event) : bool :=
  existsb (fun ev => match announced 0 ev with Some re => Cache.event_hits keccak256 re k | None => false end) evs.

(** Only a renewal, which keeps the name active, writes a name without an event. *)
Lemma exec_hits m c st st' evs name typ sel :
  exec m c st = Ret (st', evs) -> call_name c = Some name -> c <> Renew name ->
  hits (Cache.mkKey name typ sel) evs = true.
Proof.
  intros Hex Hn Hr. apply exec_dispatch in Hex; destruct c; cbn [dispatch] in Hex; apply go_bind_ret in Hex as ([s' evs'] & Hop & [= <- <-]);
    cbn [call_name] in Hn; simplify_eq.
  - apply register_ret in Hop as (price & _ & _ & _ & _ & _ & _ & _ & _ & _ & _ & ->). cbn. by rewrite bool_decide_eq_true_2.
  - apply transfer_ret in Hop as (_ & _ & _ & _ & _ & ->). cbn. by rewrite bool_decide_eq_true_2.
  - apply setRecord_ret in Hop as (_ & _ & _ & _ & ->). cbn. by rewrite bool_decide_eq_true_2.
  - apply removeRecord_ret in Hop as (_ & _ & _ & _ & ->). cbn. by rewrite bool_decide_eq_true_2.
Qed.
(** The owner's name is only written by its owner. *)
Lemma exec_by_owner m c st st' evs name :
  exec m c st = Ret (st', evs) -> call_name c = Some name -> c <> Renew name ->
  active (timestamp m) (domain_of (ns st) (keccak256 name)) = true ->
  sender m = D_Owner (domain_of (ns st) (keccak256 name)).
Proof.
  intros Hex Hn Hr Ha. apply exec_dispatch in Hex; destruct c; cbn [dispatch] in Hex; apply go_bind_ret in Hex as ([s' evs'] & Hop & [= <- <-]);
    cbn [call_name] in Hn; simplify_eq.
  - apply register_ret in Hop as (price & _ & _ & _ & _ & Hna & _). congruence.
  - by apply transfer_ret in Hop as (_ & _ & _ & ? & _).
  - by apply setRecord_ret in Hop as (_ & ? & _).
  - by apply removeRecord_ret in Hop as (_ & ? & _).
Qed.

(** A transaction that does not write a name, or only renews it: its answers at the
    time of the transaction are the same, and it has its owner for as long as before. *)
Definition undisturbed (now : Z) (name : bytes) (s s' : Contract.state) : Prop :=
  (forall typ sel, resolve now name typ sel s' = resolve now name typ sel s)
  /\ D_Owner (getDomain name s') = D_Owner (getDomain name s)
  /\ D_Expiry (getDomain name s) <= D_Expiry (getDomain name s').

Lemma renew_undisturbed tr m name st st' evs :
  reachable P tr st -> Z.of_nat (length tr) < 2 ^ 38 -> exec m (Renew name) st = Ret (st', evs) ->
  undisturbed (timestamp m) name (ns st) (ns st').
Proof.
  intros Hre Hn Hex. apply exec_dispatch in Hex. cbn [dispatch] in Hex. apply go_bind_ret in Hex as ([s' evs'] & Hop & [= <- <-]). cbn [ns].
  apply renew_ret in Hop as (price & _ & _ & Ha & Hd & Hs & _).
  pose proof (expiry_bound _ _ (keccak256 name) Hre Hn) as Hb. unfold REGISTRATION_PERIOD in *.
  pose proof (dt_expiry _ (reachable_domains _ _ (keccak256 name) Hre)) as He.
  pose proof Ha as [Hreg Hle%Z.leb_le]%andb_true_iff. unfold undisturbed, getDomain.
  set (d := domain_of (ns st) (keccak256 name)) in *.
  assert (domain_of s' (keccak256 name) = mkDomain (D_Owner d) (D_PubKey d) (uint64 (D_Expiry d + 365 * 86400)) (D_Generation d)) as Hd'.
  { unfold domain_of. by rewrite Hd, lookup_insert_eq. }
  split; [|rewrite Hd'; cbn; split; [done|unfold uint64; rewrite Z.mod_small; lia]].
  intros typ sel. apply resolve_same; rewrite Hd'; fold d.
  - rewrite Ha. unfold active, registered. cbn. unfold uint64. rewrite Z.mod_small by lia.
    apply andb_true_iff. split; [exact Hreg|apply Z.leb_le; lia].
  - intros _. cbn. split; [done|]. split; [done|]. split; [done|]. by apply stores_same_records.
Qed.

(** A name resolves to no owner exactly when it is not active. *)
Lemma resolve_owner now name typ sel s :
  (resolve now name typ sel s).1.2 = zero_address <-> active now (getDomain name s) = false.
Proof.
  unfold resolve, getDomain. cbv zeta. destruct (active now _) eqn:Ha; [|done]. cbn.
  apply andb_true_iff in Ha as [Hr%negb_true_iff%bool_decide_eq_false _]. done.
Qed.
Lemma resolve_inactive now name typ sel s :
  active now (getDomain name s) = false -> resolve now name typ sel s = (empty_record, zero_address, []).
Proof. unfold resolve, lookup_record, getDomain. by intros ->. Qed.
Lemma resolve_active now now' name typ sel s s' :
  resolve now' name typ sel s' = resolve now name typ sel s -> active now' (getDomain name s') = active now (getDomain name s).
Proof.
  intros H. pose proof (resolve_owner now name typ sel s) as H1. rewrite <- H, (resolve_owner now' name typ sel s') in H1.
  destruct (active now' _), (active now _); naive_solver.
Qed.

(** While a name is active, time does not change its answers. *)
Lemma resolve_time now t name typ sel s :
  now <= t -> active t (getDomain name s) = true ->
  active now (getDomain name s) = true /\ resolve t name typ sel s = resolve now name typ sel s.
Proof.
  intros Ht Ha. assert (active now (getDomain name s) = true) as Hn.
  { unfold active in *. apply andb_true_iff in Ha as [-> H%Z.leb_le]. apply Z.leb_le. lia. }
  split; [done|]. unfold resolve, lookup_record. unfold getDomain in *. by rewrite Ha, Hn.
Qed.

(** What happens from one moment to another: time passes and transactions succeed,
    the last one first, with the events they emit. *)
Inductive advance st (t : Z) : list (msg * call) -> list event -> store -> Z -> Prop :=
| adv_start : advance st t [] [] st t
| adv_time txs evs st1 t1 t2 : advance st t txs evs st1 t1 -> t1 <= t2 -> advance st t txs evs st1 t2
| adv_transaction txs evs st1 t1 m c st2 new :
    advance st t txs evs st1 t1 -> P m c -> timestamp m = t1 -> exec m c st1 = Ret (st2, new) ->
    advance st t ((m, c) :: txs) (evs ++ new) st2 t1.

Lemma advance_reachable tr st t txs evs st' t' : reachable P tr st -> advance st t txs evs st' t' -> reachable P (txs ++ tr) st'.
Proof. intros Hre. induction 1; [done..|]. by eapply reach_exec. Qed.

Lemma hits_app (k : Cache.Key) evs evs' : hits k (evs ++ evs') = hits k evs || hits k evs'.
Proof. apply existsb_app. Qed.

Section Names.
Variable U : bytes -> Prop.
Hypothesis keccak256_inj : forall a b, U a -> U b -> keccak256 a = keccak256 b -> a = b.

(** A transaction writes a name with an event, and only by its owner while it is
    active, or leaves it undisturbed. *)
Lemma exec_writes tr m c st st' evs name :
  reachable P tr st -> Z.of_nat (length tr) < 2 ^ 38 -> exec m c st = Ret (st', evs) ->
  U name -> (forall name', call_name c = Some name' -> U name') ->
  (call_name c = Some name /\ (forall typ sel, hits (Cache.mkKey name typ sel) evs = true)
   /\ (active (timestamp m) (getDomain name (ns st)) = true -> sender m = D_Owner (getDomain name (ns st))))
  \/ undisturbed (timestamp m) name (ns st) (ns st').
Proof.
  intros Hre Hn Hex HU HUc.
  destruct (decide (call_name c = Some name)) as [Hc|Hc].
  - destruct (decide (c = Renew name)) as [->|Hr]; [right; by eapply renew_undisturbed|left].
    split; [done|]. split; [intros; by eapply exec_hits|by apply (exec_by_owner m c st st' evs)].
  - right. destruct (exec_frame (length tr) m c st st' evs (keccak256 name)) as [Hd (Hr & _)]; auto.
    + apply reachable_ok; [done|lia].
    + intros name' Hc' He. apply Hc. by rewrite (keccak256_inj _ _ HU (HUc _ Hc') He).
    + unfold undisturbed, getDomain. rewrite Hd. split; [|done]. intros. by apply resolve_same_domain.
Qed.

Lemma exec_unannounced tr m c st st' evs name typ sel :
  reachable P tr st -> Z.of_nat (length tr) < 2 ^ 38 -> exec m c st = Ret (st', evs) ->
  U name -> (forall name', call_name c = Some name' -> U name') ->
  hits (Cache.mkKey name typ sel) evs = false ->
  resolve (timestamp m) name typ sel (ns st') = resolve (timestamp m) name typ sel (ns st).
Proof.
  intros Hre Hn Hex HU HUc Hno. destruct (exec_writes tr m c st st' evs name) as [(_ & Hh & _)|[H _]]; try done.
  by rewrite Hh in Hno.
Qed.

(** Between two moments without an event on a key its answer stays, or expires. *)
Lemma advance_unannounced tr st t txs evs st' t' name typ sel :
  reachable P tr st -> Z.of_nat (length (txs ++ tr)) < 2 ^ 38 -> advance st t txs evs st' t' ->
  U name -> (forall m c name', (m, c) ∈ txs -> call_name c = Some name' -> U name') ->
  hits (Cache.mkKey name typ sel) evs = false ->
  resolve t' name typ sel (ns st') = resolve t name typ sel (ns st)
  \/ active t (getDomain name (ns st)) = true /\ active t' (getDomain name (ns st')) = false.
Proof.
  intros Hre Hn Hadv HU. revert Hn. induction Hadv as [|txs evs st1 t1 t2 Hadv IH Ht|txs evs st1 t1 m c st2 new Hadv IH HP Ht Hex];
    intros Hn HUs Hno; [by left| |].
  - destruct (active t2 (getDomain name (ns st1))) eqn:Ha2.
    + destruct (resolve_time t1 t2 name typ sel _ Ht Ha2) as [Ha1 ->]. destruct (IH Hn HUs Hno) as [H|[_ H]]; [by left|congruence].
    + destruct (IH Hn HUs Hno) as [H|[H _]]; [|by right]. destruct (active t1 (getDomain name (ns st1))) eqn:Ha1.
      * right. split; [|done]. rewrite <- Ha1. symmetry. by eapply resolve_active.
      * left. rewrite <- H. by rewrite !resolve_inactive.
  - rewrite hits_app in Hno. apply orb_false_iff in Hno as [Hno Hnew]. cbn [app length] in Hn.
    assert (resolve t1 name typ sel (ns st2) = resolve t1 name typ sel (ns st1)) as Hsame.
    { rewrite <- Ht. eapply exec_unannounced; [by eapply advance_reachable|lia|exact Hex|done|intros; by eapply HUs; [left|]|done]. }
    rewrite Hsame, (resolve_active _ _ _ _ _ _ _ Hsame). apply IH; [lia| |done]. intros *. intros ?. eapply HUs. by right.
Qed.

(** While the registration lasts, nobody but its owner changes what a name resolves to. *)
Lemma advance_by_owner tr st t txs evs st' t' name typ sel :
  reachable P tr st -> Z.of_nat (length (txs ++ tr)) < 2 ^ 38 -> advance st t txs evs st' t' ->
  U name -> (forall m c name', (m, c) ∈ txs -> call_name c = Some name' -> U name') ->
  active t (getDomain name (ns st)) = true -> t' <= D_Expiry (getDomain name (ns st)) ->
  (hits (Cache.mkKey name typ sel) evs = true
   /\ exists m c, (m, c) ∈ txs /\ call_name c = Some name /\ sender m = D_Owner (getDomain name (ns st)))
  \/ (resolve t' name typ sel (ns st') = resolve t name typ sel (ns st)
      /\ D_Owner (getDomain name (ns st')) = D_Owner (getDomain name (ns st))
      /\ D_Expiry (getDomain name (ns st)) <= D_Expiry (getDomain name (ns st'))).
Proof.
  intros Hre Hn Hadv HU HUs Ha Hle. revert Hn Hle HUs.
  induction Hadv as [|txs evs st1 t1 t2 Hadv IH Ht|txs evs st1 t1 m c st2 new Hadv IH HP Ht Hex]; intros Hn Hle HUs.
  - right. split; [done|]. split; [done|lia].
  - destruct (IH Hn ltac:(lia) HUs) as [H|(H & Ho & He)]; [by left|right]. split; [|done]. rewrite <- H. apply resolve_time; [done|].
    pose proof (resolve_active _ _ _ _ _ _ _ H) as H1. rewrite Ha in H1. unfold active in *. apply andb_true_iff in H1 as [-> _]. apply Z.leb_le. lia.
  - cbn [app length] in Hn. destruct IH as [[Hh (m1 & c1 & Hin & ?)]|(H & Ho & He)]; [lia|lia|intros *; intros ?; eapply HUs; by right| |].
    { left. rewrite hits_app, Hh. split; [done|]. exists m1, c1. split; [by right|done]. }
    pose proof (resolve_active _ _ _ _ _ _ _ H) as H1. rewrite Ha in H1.
    destruct (exec_writes (txs ++ tr) m c st1 st2 new name) as [(Hc & Hh & Hs)|(Hr & Ho' & He')];
      [by eapply advance_reachable|lia|exact Hex|done|intros; by eapply HUs; [left|]| |].
    + left. rewrite hits_app, Hh, orb_true_r. split; [done|]. exists m, c. split; [by left|]. split; [done|].
      rewrite <- Ho. apply Hs. by rewrite Ht.
    + right. rewrite <- H, <- Ho, <- Ht, Hr. split; [done|]. split; [done|]. lia.
Qed.

(** C7. Between any two moments, whatever transactions are mined in between, what a
    name resolves to changes only in two ways: a transaction emits an event on which
    the resolver's cache drops the entry of that name, or the name, active at the
    first moment, has expired by the second, which no event tells. While the
    registration of the first moment lasts it is always the former, and by a
    transaction of the owner. *)
Theorem changes_announced tr st t txs evs st' t' name typ sel :
  reachable P tr st -> Z.of_nat (length (txs ++ tr)) < 2 ^ 38 -> advance st t txs evs st' t' ->
  U name -> (forall m c name', (m, c) ∈ txs -> call_name c = Some name' -> U name') ->
  resolve t' name typ sel (ns st') <> resolve t name typ sel (ns st) ->
  (hits (Cache.mkKey name typ sel) evs = true
   \/ active t (getDomain name (ns st)) = true /\ active t' (getDomain name (ns st')) = false)
  /\ (active t (getDomain name (ns st)) = true -> t' <= D_Expiry (getDomain name (ns st)) ->
      hits (Cache.mkKey name typ sel) evs = true
      /\ exists m c, (m, c) ∈ txs /\ call_name c = Some name /\ sender m = D_Owner (getDomain name (ns st))).
Proof.
  intros Hre Hn Hadv HU HUs Hch. split.
  - destruct (hits _ evs) eqn:Hh; [by left|right].
    destruct (advance_unannounced tr st t txs evs st' t' name typ sel) as [H|H]; done.
  - intros Ha Hle. destruct (advance_by_owner tr st t txs evs st' t' name typ sel) as [H|[H _]]; done.
Qed.
End Names.

(** A name's generation moves on with every change of hands, and what was stored
    for it is out of reach. *)
Lemma generation_moved n s s' h :
  name_ok n s h -> same_records s s' h -> D_Generation (domain_of s' h) = D_Generation (domain_of s h) + 1 ->
  forall k, live (domain_of s' h) (record_of s' h k) = false.
Proof.
  intros Hok (Hr & _) Hg k. rewrite Hr. unfold live. rewrite Hg. destruct (b_Exists _) eqn:Ex; [|done].
  apply (no_past _ _ _ Hok) in Ex. cbn [andb]. apply Z.eqb_neq. lia.
Qed.

(** C8. After a transfer or a registration the name resolves to its new owner and
    key and to no record at all, at any later time: nothing that an earlier owner
    published or signed is served under the new one. *)
Theorem handover_revokes tr m c st st' evs name owner pubKey now :
  reachable P tr st -> Z.of_nat (length tr) < 2 ^ 38 -> P m c -> exec m c st = Ret (st', evs) ->
  (c = Transfer name owner pubKey \/ exists secret, c = Register name pubKey secret /\ owner = sender m /\ owner <> zero_address) ->
  getDomain name (ns st') = mkDomain owner pubKey (D_Expiry (getDomain name (ns st'))) (D_Generation (getDomain name (ns st)) + 1)
  /\ (timestamp m <= now <= D_Expiry (getDomain name (ns st')) -> forall typ sel,
       resolve now name typ sel (ns st') = (empty_record, owner, pubKey))
  /\ listRecords now name (ns st') = [].
Proof.
  intros Hre Hn HP Hex Hc. pose proof (reachable_ok _ _ Hre ltac:(lia) (keccak256 name)) as Hok.
  pose proof (no_gen _ _ _ Hok) as Hgen.
  assert (exists e, domain_of (ns st') (keccak256 name) = mkDomain owner pubKey e (D_Generation (domain_of (ns st) (keccak256 name)) + 1)
    /\ same_records (ns st) (ns st') (keccak256 name) /\ owner <> zero_address) as (e & Hd & Hs & Ho).
  { apply exec_dispatch in Hex. destruct Hc as [->|(secret & -> & -> & Ho)]; cbn [dispatch] in Hex; apply go_bind_ret in Hex as ([s' evs'] & Hop & [= <- <-]); cbn [ns].
    - apply transfer_ret in Hop as (Ho & _ & _ & _ & -> & _). eexists. rewrite domain_of_with, decide_True by done.
      rewrite uint64_succ by lia. by split.
    - apply register_ret in Hop as (price & _ & _ & _ & _ & _ & _ & Hd & Hs & _). eexists.
      unfold domain_of at 1. rewrite Hd, lookup_insert_eq. cbn. rewrite uint64_succ by lia.
      split; [done|]. split; [by apply stores_same_records|done]. }
  pose proof (generation_moved _ _ _ _ Hok Hs) as Hdead. rewrite Hd in Hdead. specialize (Hdead eq_refl).
  unfold getDomain. rewrite Hd. cbn [D_Expiry]. split; [done|]. split.
  - intros Hnow typ sel. unfold resolve, lookup_record. rewrite Hd, Hdead.
    assert (active now (mkDomain owner pubKey e (D_Generation (domain_of (ns st) (keccak256 name)) + 1)) = true) as ->; [|done].
    unfold active, registered. cbn [D_Owner D_Expiry]. rewrite bool_decide_eq_false_2 by done. apply Z.leb_le. lia.
  - unfold listRecords. rewrite Hd. destruct (active now _); cbn [negb]; [|done].
    induction (keys_of (ns st') _ _) as [|k keys IH]; [done|]. cbn [map List.filter]. by rewrite Hdead.
Qed.
(** * Commitments *)

(** A commitment's time is the time of the last transaction that made it. *)
Lemma commitment_origin tr st com t :
  reachable P tr st -> commitments (ns st) !! com = Some t ->
  exists m0, (m0, Commit com) ∈ tr /\ timestamp m0 = t /\ widths m0 (Commit com).
Proof.
  intros Hre. induction Hre as [m r _|tr st m c st' evs Hre IH Hwf Hex]; [done|]. intros Hl.
  assert (commitments (ns st) !! com = Some t -> exists m0, (m0, Commit com) ∈ (m, c) :: tr /\ timestamp m0 = t
    /\ widths m0 (Commit com)) as Hold.
  { intros (m0 & Hin & Ht)%IH. exists m0. split; [by right|done]. }
  apply exec_dispatch in Hex; destruct c; cbn [dispatch] in Hex; apply go_bind_ret in Hex as ([s' evs'] & Hop & [= <- <-]); cbn [ns] in Hl.
  - injection Hop as <- _. cbn in Hl. rewrite lookup_insert in Hl. case_decide; [|by apply Hold]. simplify_eq.
    exists m. split; [by left|]. split; [done|by apply P_widths].
  - apply register_ret in Hop as (price & _ & _ & _ & _ & _ & _ & _ & _ & Hc & _). rewrite Hc in Hl.
    apply lookup_delete_Some in Hl as [_ Hl]. by apply Hold.
  - apply renew_ret in Hop as (price & _ & _ & _ & _ & _ & Hc & _). rewrite Hc in Hl. by apply Hold.
  - apply transfer_ret in Hop as (_ & _ & _ & _ & -> & _). by apply Hold.
  - unfold withdraw in Hop. bind_inv Hop. injection Hop as <- _. by apply Hold.
  - apply setRecord_ret in Hop as (_ & _ & _ & -> & _). apply Hold. revert Hl. unfold store_record.
    by destruct (_ =? 0).
  - apply removeRecord_ret in Hop as (_ & _ & _ & Hdrop & _). apply Hold. unfold drop_key in Hdrop. bind_inv Hdrop.
    destruct x1 as [keys ix]. by injection Hdrop as <-.
  - by apply Hold.
Qed.

(** C25. A registration reveals a commitment to this name, sender, key and secret that
    was made between 30 seconds and a day before, for a name that was free; it
    leaves the contract exactly the price richer, and uses the commitment up. *)
Theorem register_reveals tr m st st' evs name pubKey secret :
  reachable P tr st -> exec m (Register name pubKey secret) st = Ret (st', evs) ->
  (exists m0, (m0, Commit (makeCommitment name (sender m) pubKey secret)) ∈ tr
     /\ timestamp m0 + 30 <= timestamp m <= timestamp m0 + 86400)
  /\ active (timestamp m) (getDomain name (ns st)) = false
  /\ Query.sol_validateName name = true
  /\ (exists price, priceOf name = Ret price /\ price <= value m /\ balance (ns st') = balance (ns st) + price)
  /\ commitments (ns st') !! makeCommitment name (sender m) pubKey secret = None
  /\ (forall m' res, sender m' = sender m -> exec m' (Register name pubKey secret) st' <> Ret res).
Proof.
  intros Hre Hex. apply exec_dispatch in Hex. cbn [dispatch] in Hex. apply go_bind_ret in Hex as ([s' evs'] & Hop & [= <- <-]).
  apply register_ret in Hop as (price & Hp & Hv & Hval & _ & Hna & (at_ & Hat & Hz & Hage) & _ & _ & Hc & Hb & _).
  assert (commitments s' !! makeCommitment name (sender m) pubKey secret = None) as Hnone by (rewrite Hc; apply lookup_delete_eq).
  destruct (commitment_origin _ _ _ _ Hre Hat) as (m0 & Hin & <- & _). split; [by exists m0|].
  split; [done|]. split; [done|]. split; [by exists price|]. split; [done|].
  intros m' [st2 evs2] Hs Hex. apply exec_dispatch in Hex. cbn [dispatch ns] in Hex. apply go_bind_ret in Hex as ([s2 evs3] & Hop & _).
  apply register_ret in Hop as (? & _ & _ & _ & _ & _ & (at2 & Hat2 & _) & _). rewrite Hs in Hat2. cbn [ns] in *. congruence.
Qed.

(** A commitment can be put off by anyone: committing the same hash again, by any
    account, restarts its minimum age, and the registration that was about to reveal
    it reverts. *)
Theorem recommit_blocks_register m0 com st st' evs m name pubKey secret :
  P m0 (Commit com) -> exec m0 (Commit com) st = Ret (st', evs) ->
  com = makeCommitment name (sender m) pubKey secret -> timestamp m < timestamp m0 + 30 ->
  forall res, exec m (Register name pubKey secret) st' <> Ret res.
Proof.
  intros HP Hex -> Ht [st2 evs2] Hreg. pose proof (P_widths _ _ HP) as (Hw & _).
  apply exec_dispatch in Hex, Hreg. injection Hex as <- _. cbn [dispatch ns] in Hreg. apply go_bind_ret in Hreg as ([s2 evs3] & Hop & _).
  apply register_ret in Hop as (_ & _ & _ & _ & _ & _ & (at_ & Hat & _ & Hage) & _).
  cbn in Hat. rewrite lookup_insert_eq in Hat. injection Hat as <-. unfold MIN_COMMITMENT_AGE in Hage. lia.
Qed.

(** * Transactions that succeed *)

Lemma add256_small a b : a + b < 2 ^ 256 -> add256 a b = Ret (a + b).
Proof. intros. unfold add256. by rewrite (proj2 (Z.ltb_lt _ _)). Qed.

Lemma register_succeeds m name pubKey secret at_ s :
  let com := makeCommitment name (sender m) pubKey secret in
  Query.sol_validateName name = true -> 0 < len pubKey <= 128 -> priceOf name = Ret (value m) ->
  commitments s !! com = Some at_ -> 0 < at_ -> at_ + MIN_COMMITMENT_AGE <= timestamp m <= at_ + MAX_COMMITMENT_AGE ->
  timestamp m < 2 ^ 62 -> active (timestamp m) (domain_of s (keccak256 name)) = false ->
  is_ret (register m name pubKey secret s) = true.
Proof.
  intros com Hv Hpk Hprice Hc Hat Hage Ht Ha. unfold register. cbv zeta. fold com.
  change (commitments (pay m s)) with (commitments s). rewrite Hv, Hc. cbn [require mbind go_bind default from_option id].
  assert ((len pubKey =? 0) || (128 <? len pubKey) = false) as ->.
  { apply orb_false_iff. split; [apply Z.eqb_neq|apply Z.ltb_ge]; lia. }
  unfold MIN_COMMITMENT_AGE, MAX_COMMITMENT_AGE, REGISTRATION_PERIOD in *.
  rewrite (proj2 (Z.eqb_neq at_ 0)) by lia. rewrite !add256_small by lia. cbn [negb require mbind go_bind].
  rewrite (proj2 (Z.ltb_ge (timestamp m) _)), (proj2 (Z.ltb_ge _ (timestamp m))) by lia. cbn [negb require mbind go_bind].
  change (domain_of (with_commitments _ _)) with (domain_of s). rewrite Ha. cbn [negb require mbind go_bind].
  rewrite Hprice. cbn [mbind go_bind]. rewrite (proj2 (Z.ltb_ge (value m) (value m))) by lia. cbn [negb require mbind go_bind].
  match goal with |- is_ret (?r ≫= _) = true => destruct r as [s'| |] eqn:E; [done|exfalso..] end;
    revert E; unfold refundExcess, sub256; rewrite (proj2 (Z.leb_le (value m) (value m))), Z.sub_diag by lia; done.
Qed.

Lemma priceOf_succeeds name :
  Query.sol_validateName name = true -> 0 <= basePrice * 16 < 2 ^ 256 -> exists p, priceOf name = Ret p /\ 0 <= p.
Proof.
  intros (_ & Hl & _)%Query.sol_validateName_spec Hb. unfold priceOf, mul256. cbv zeta.
  rewrite (proj2 (Z.eqb_neq (len name) 0)), (proj2 (Z.ltb_ge 63 (len name))) by (unfold len; lia). cbn [orb].
  repeat (destruct (len name =? _)); rewrite ?(proj2 (Z.ltb_lt _ _)) by lia; eexists; (split; [done|lia]).
Qed.

(** A record that was set is what the name resolves to, as long as it is active. *)
Lemma setRecord_resolves m rg name typ sel names vals ttl sig com s s' evs now :
  setRecord m rg name typ sel names vals ttl sig com s = Ret (s', evs) ->
  active now (domain_of s (keccak256 name)) = true ->
  domain_of s' (keccak256 name) = domain_of s (keccak256 name)
  /\ resolve now name typ sel s'
     = (mkBinding typ sel names vals ttl (D_Generation (domain_of s (keccak256 name))) sig com true,
        D_Owner (domain_of s (keccak256 name)), D_PubKey (domain_of s (keccak256 name))).
Proof.
  intros (_ & _ & _ & -> & _)%setRecord_ret Ha.
  match goal with |- context [store_record ?h ?k ?r ?g ?s] => destruct (store_record_spec h k r g s) as (Hd & _ & Hr & _) end.
  assert (forall s', domains s' = domains s -> domain_of s' (keccak256 name) = domain_of s (keccak256 name)) as Hdom
    by (intros; by apply domain_of_same).
  split; [by apply Hdom|]. unfold resolve, lookup_record. rewrite !Hdom, Ha, Hr by done. cbn [negb].
  rewrite decide_True by done. unfold live. cbn. by rewrite Z.eqb_refl.
Qed.

(** * Panics *)

Lemma require_bind {A} b e (f : () -> go sol_error A) : f () <> Panic -> require b e ≫= f <> Panic.
Proof. by destruct b. Qed.

Lemma push_fields_no_panic mandatory names fields : push_fields mandatory names fields <> Panic.
Proof.
  revert fields. induction names as [|n names IH]; intros fields; cbn [push_fields]; [done|].
  unfold validateFieldName. apply require_bind, IH.
Qed.

Lemma priceOf_no_panic name : 0 <= basePrice * 16 < 2 ^ 256 -> priceOf name <> Panic.
Proof.
  intros Hb. unfold priceOf, mul256. cbv zeta.
  repeat (destruct (_ || _); [done|]). repeat (destruct (len name =? _)); try done;
    (rewrite (proj2 (Z.ltb_lt _ _)) by lia); done.
Qed.

Lemma refundExcess_no_panic m price s : price <= value m -> refundExcess m price s <> Panic.
Proof.
  intros Hp. unfold refundExcess, sub256. rewrite (proj2 (Z.leb_le _ _)) by lia. cbn.
  destruct (0 <? _); [|done]. by destruct (call_ok m).
Qed.

Lemma check_lengths_no_panic ns vs : length ns = length vs -> check_lengths ns vs <> Panic.
Proof.
  revert ns. induction vs as [|v vs IH]; intros [|n ns]; try done. intros [= Hl]. cbn [check_lengths head or_panic mbind go_bind].
  apply require_bind. cbn beta. apply require_bind. by apply IH.
Qed.

Lemma register_no_panic tr m name pubKey secret st :
  0 <= basePrice * 16 < 2 ^ 256 -> reachable P tr st -> 0 <= timestamp m < 2 ^ 62 ->
  register m name pubKey secret (ns st) <> Panic.
Proof.
  intros Hb Hre Ht. unfold register. cbv zeta.
  set (com := makeCommitment _ _ _ _).
  assert (0 <= default 0 (commitments (ns st) !! com) < 2 ^ 62) as Hc.
  { destruct (commitments (ns st) !! com) as [t|] eqn:Ec; cbn; [|lia].
    by destruct (commitment_origin _ _ _ _ Hre Ec) as (m0 & _ & <- & ? & _). }
  change (commitments (pay m (ns st))) with (commitments (ns st)). unfold MIN_COMMITMENT_AGE, MAX_COMMITMENT_AGE, REGISTRATION_PERIOD.
  rewrite !add256_small by lia. do 3 (apply require_bind; cbv beta). cbn [mbind go_bind].
  apply require_bind. cbn [mbind go_bind]. do 2 (apply require_bind; cbv beta).
  apply bind_not_panic; [by apply priceOf_no_panic|]. intros price _.
  destruct (Z.ltb_spec (value m) price) as [|Hv]; [done|]. cbn [negb require mbind go_bind].
  apply bind_not_panic; [by apply refundExcess_no_panic|done].
Qed.

Lemma on_ns_no_panic st r : r <> Panic -> on_ns st r <> Panic.
Proof. by destruct r as [[]| |]. Qed.

Lemma find_mandatory_no_panic mandatory names : find_mandatory mandatory names <> Panic.
Proof. induction mandatory; cbn; [done|]. by destruct (existsb _ _). Qed.

Lemma only_owner_no_panic m d : only_owner m d <> Panic.
Proof. unfold only_owner. do 2 (apply require_bind; cbv beta). by destruct (bool_decide _). Qed.

(** C24. No transaction panics, in any storage that fewer than 2^38 transactions lead
    to, provided that sixteen times the deployed base price is a uint256 (otherwise
    the price of a one-letter name overflows): the checked additions of the
    commitment's age and the expiry, the price of short names, the refund's
    subtraction and the index arithmetic of the swap-and-pop removal stay in range. *)
Theorem exec_never_panics tr m c st :
  0 <= basePrice * 16 < 2 ^ 256 -> reachable P tr st -> Z.of_nat (length tr) < 2 ^ 38 -> P m c -> exec m c st <> Panic.
Proof.
  intros Hb Hre Hn HP. pose proof (P_widths _ _ HP) as (Ht & _).
  unfold exec. apply require_bind. destruct c; cbn [dispatch]; try apply on_ns_no_panic.
  - done.
  - by apply (register_no_panic tr).
  - unfold renew. cbv zeta. do 2 (apply require_bind; cbv beta). apply bind_not_panic; [by apply priceOf_no_panic|]. intros price _.
    destruct (Z.ltb_spec (value m) price) as [|Hv]; [done|]. cbn [negb require mbind go_bind].
    change (domain_of (pay m (ns st))) with (domain_of (ns st)).
    pose proof (dt_expiry _ (reachable_domains _ _ (keccak256 name) Hre)). unfold REGISTRATION_PERIOD.
    rewrite add256_small by lia. cbn [mbind go_bind]. apply bind_not_panic; [by apply refundExcess_no_panic|done].
  - unfold transfer. cbv zeta. do 2 (apply require_bind; cbv beta). apply bind_not_panic; [apply only_owner_no_panic|done].
  - unfold withdraw. by do 3 (apply require_bind; cbv beta).
  - unfold setRecord. cbv zeta. apply bind_not_panic; [apply only_owner_no_panic|]. intros _ _.
    destruct (Nat.eqb_spec (length fieldNames) (length fieldValues)); [|done]. cbn [require mbind go_bind].
    do 3 (apply require_bind; cbv beta). apply bind_not_panic; [by apply check_lengths_no_panic|]. intros _ _.
    apply require_bind; cbv beta. apply bind_not_panic; [|done].
    unfold checkMandatoryFields, mandatoryFields. apply bind_not_panic; [|intros; apply find_mandatory_no_panic].
    destruct (schemas _ !! _) as [sc|]; [|done]. by destruct (sc_exists sc).
  - unfold removeRecord. cbv zeta. apply bind_not_panic; [apply only_owner_no_panic|]. intros _ _.
    destruct (_ && _) eqn:Hl; [|done]. cbn [require mbind go_bind]. fold (live (domain_of (ns st) (keccak256 name))
      (record_of (ns st) (keccak256 name) (recordKeyOf recordType selector))) in Hl.
    destruct (drop_live _ _ _ _ (reachable_ok _ _ Hre ltac:(lia) (keccak256 name)) Hl) as (s' & Hs & _).
    unfold without_record in Hs. rewrite Hs. done.
  - apply bind_not_panic; [|by intros []]. unfold declareType. cbv zeta. do 3 (apply require_bind; cbv beta).
    do 2 (apply bind_not_panic; [apply push_fields_no_panic|intros]).
    apply bind_not_panic; [|done]. clear. induction a0 as [|f fields IH]; cbn; [done|]. by destruct (existsb _ _).
Qed.
End Reachable.

(** A sequence of transactions, oldest first, each of which succeeds. *)
Fixpoint transact (l : list (msg * call)) st : go sol_error store :=
  match l with
  | [] => Ret st
  | (m, c) :: l => '(st, _) ← exec m c st; transact l st
  end.

Lemma transact_reachable P l tr st st' :
  reachable P tr st -> Forall (fun mc => P mc.1 mc.2) l -> transact l st = Ret st' -> reachable P (rev l ++ tr) st'.
Proof.
  revert tr st. induction l as [|[m c] l IH]; intros tr st Hre; cbn [transact rev app]; [by intros _ [= <-]|].
  intros [HP Hl]%Forall_cons ([st1 evs] & Hex & Hrun)%go_bind_ret. rewrite <- app_assoc. cbn [app].
  eapply IH; [|done|exact Hrun]. by eapply reach_exec.
Qed.
End Authority.

(** * A concrete history *)

(** A hash without collisions, and the constructor's values. *)
#[local] Instance toy_keccak : Keccak := fun b => be_bytes 8 (len b) ++ b.
#[local] Instance toy_immutables : Immutables := {| basePrice := 100; treasurer := be_bytes 20 1 |}.

Lemma toy_keccak_inj a b : keccak256 (Keccak := toy_keccak) a = keccak256 b -> a = b.
Proof. unfold keccak256, toy_keccak. intros H. apply app_inj_length in H as [_ ?]; [done|by rewrite !be_bytes_length]. Qed.

Definition alice : address := be_bytes 20 77.
Definition bob : address := be_bytes 20 78.
Definition by_alice (t v : Z) : msg := mkMsg alice v t true.
Definition demo_secret : bytes := be_bytes 32 5.
Definition demo_calls : list (msg * call) :=
  [ (by_alice 1000 0, Commit (makeCommitment (str "alice") alice (str "key") demo_secret));
    (by_alice 1040 130, Register (str "alice") (str "key") demo_secret);
    (by_alice 1050 0, SetRecord (str "alice") (str "A") [] [str "address"] [str "10.0.0.1"] 300 [] zero_hash);
    (by_alice 1060 0, SetRecord (str "alice") (str "AAAA") [] [str "address"] [str "::1"] 300 [] zero_hash);
    (by_alice 1070 0, RemoveRecord (str "alice") (str "A") []) ].
Definition demo_run (n : nat) : go sol_error store :=
  r ← constructor (by_alice 0 0); transact (take n demo_calls) (mkStore empty_state r).
Definition demo_after (n : nat) : store :=
  match demo_run n with Ret st => st | _ => mkStore empty_state (mkRegistry ∅ []) end.

Lemma demo_widths : Forall (fun mc => widths mc.1 mc.2) demo_calls.
Proof. repeat (apply Forall_cons; split; [unfold widths; cbn; repeat split; (lia || done)|]). constructor. Qed.

Lemma demo_runs : forallb (fun n => is_ret (demo_run n)) [0; 1; 2; 3; 4; 5]%nat = true.
Proof. vm_refl. Qed.

Lemma demo_reachable n : (n <= 5)%nat -> reachable widths (rev (take n demo_calls)) (demo_after n).
Proof.
  intros Hn. pose proof demo_runs as H. rewrite forallb_forall in H. specialize (H n).
  assert (demo_run n = Ret (demo_after n)) as (r & Hr & Hrun)%go_bind_ret.
  { unfold demo_after. destruct (demo_run n); [done|discriminate H|discriminate H]; cbn; lia. }
  rewrite <- (app_nil_r (rev _)). eapply transact_reachable; [by eapply reach_init| |exact Hrun].
  apply Forall_take, demo_widths.
Qed.

Definition demo_transfer : call := Transfer (str "alice") bob (str "bobkey").
Definition demo_set_call : call := SetRecord (str "alice") (str "A") [] [str "address"] [str "10.0.0.1"] 300 [] zero_hash.

Lemma storage_typed_witness :
  record_typed (reg (demo_after 4)) (recordKeyOf (str "A") [])
    (record_of (ns (demo_after 4)) (keccak256 (str "alice")) (recordKeyOf (str "A") [])).
Proof.
  apply (storage_typed widths (fun m c H => H) (rev (take 4 demo_calls)) (demo_after 4)); [apply demo_reachable; lia|vm_refl].
Defined.

Lemma listRecords_exact_witness :
  map b_RecordType (listRecords 1080 (str "alice") (ns (demo_after 5))) = [str "AAAA"]
  /\ b_Exists (lookup_record 1080 (str "alice") (str "A") [] (ns (demo_after 5))) = false
  /\ forall r, r ∈ listRecords 1080 (str "alice") (ns (demo_after 5)) ->
       lookup_record 1080 (str "alice") (b_RecordType r) (b_Selector r) (ns (demo_after 5)) = r.
Proof.
  split; [vm_refl|]. split; [vm_refl|]. intros r Hr.
  apply (listRecords_exact widths (fun m c H => H) (rev (take 5 demo_calls)) (demo_after 5) 1080 (str "alice")).
  - apply demo_reachable. lia.
  - reflexivity.
  - exact Hr.
Defined.

(** Alice publishes an address at 1050, and a year later the name expires. *)
Definition demo_expiry : Z := 1040 + 365 * 86400.
Lemma changes_announced_witness :
  exists st' evs, exec (by_alice 1050 0) demo_set_call (demo_after 2) = Ret (st', evs)
    /\ (hits (Cache.mkKey (str "alice") (str "A") []) evs = true
        /\ exists m c, (m, c) ∈ [(by_alice 1050 0, demo_set_call)] /\ call_name c = Some (str "alice") /\ sender m = alice).
Proof.
  destruct (is_ret_ex (exec (by_alice 1050 0) demo_set_call (demo_after 2))) as [[st' evs] Hex]; [vm_refl|].
  exists st', evs. split; [exact Hex|].
  destruct (changes_announced widths (fun m c H => H) (fun _ => True) (fun a b _ _ => toy_keccak_inj a b)
    (rev (take 2 demo_calls)) (demo_after 2) 1045 [(by_alice 1050 0, demo_set_call)] evs st' demo_expiry (str "alice") (str "A") [])
    as [_ H].
  - apply demo_reachable. lia.
  - reflexivity.
  - apply (adv_time _ _ _ _ _ _ 1050); [|unfold demo_expiry; lia]. apply (adv_transaction _ _ _ [] [] (demo_after 2) 1050); [|unfold widths; cbn; repeat split; (lia || done)|done|done].
    apply (adv_time _ _ _ _ _ _ 1045); [constructor|lia].
  - exact I.
  - intros; exact I.
  - assert (st' = match exec (by_alice 1050 0) demo_set_call (demo_after 2) with Ret (s, _) => s | _ => demo_after 0 end) as ->
      by (by rewrite Hex). clear Hex.
    intros H. apply (f_equal (fun x => b_Exists x.1.1)) in H. revert H.
    lazymatch goal with |- ?x = ?y -> _ =>
      assert (x = true) as -> by vm_refl; assert (y = false) as -> by vm_refl end. discriminate.
  - apply H; [vm_refl|]. vm_compute. discriminate.
Defined.

Lemma handover_revokes_witness :
  exists st' evs, exec (by_alice 1080 0) demo_transfer (demo_after 5) = Ret (st', evs)
    /\ listRecords 1090 (str "alice") (ns st') = [] /\ D_Owner (getDomain (str "alice") (ns st')) = bob.
Proof.
  destruct (is_ret_ex (exec (by_alice 1080 0) demo_transfer (demo_after 5))) as [[st' evs] Hex]; [vm_refl|].
  exists st', evs. split; [exact Hex|].
  destruct (handover_revokes widths (rev (take 5 demo_calls)) (by_alice 1080 0) demo_transfer (demo_after 5)
    st' evs (str "alice") bob (str "bobkey") 1090) as (-> & _ & H).
  - apply demo_reachable. lia.
  - reflexivity.
  - unfold widths; cbn; repeat split; (lia || done).
  - exact Hex.
  - left. reflexivity.
  - split; [exact H|reflexivity].
Defined.

Lemma register_reveals_witness :
  exists st' evs, exec (by_alice 1040 130) (Register (str "alice") (str "key") demo_secret) (demo_after 1) = Ret (st', evs)
    /\ balance (ns st') = 100
    /\ commitments (ns st') !! makeCommitment (str "alice") alice (str "key") demo_secret = None.
Proof.
  destruct (is_ret_ex (exec (by_alice 1040 130) (Register (str "alice") (str "key") demo_secret) (demo_after 1)))
    as [[st' evs] Hex]; [vm_refl|]. exists st', evs. split; [exact Hex|].
  destruct (register_reveals widths (fun m c H => H) (rev (take 1 demo_calls)) (by_alice 1040 130) (demo_after 1)
    st' evs (str "alice") (str "key") demo_secret) as (_ & _ & _ & (price & Hp & _ & Hb) & H & _).
  - apply demo_reachable. lia.
  - exact Hex.
  - split; [|exact H]. rewrite Hb. injection Hp as <-. vm_refl.
Defined.

Lemma exec_never_panics_witness :
  exec (by_alice 1070 0) (RemoveRecord (str "alice") (str "A") []) (demo_after 4) <> Panic.
Proof.
  apply (exec_never_panics widths (fun m c H => H) (rev (take 4 demo_calls))).
  - cbn. lia.
  - apply demo_reachable. lia.
  - reflexivity.
  - unfold widths; cbn; repeat split; (lia || done).
Defined.

Definition by_bob (t : Z) : msg := mkMsg bob 0 t true.
Lemma recommit_blocks_register_witness :
  exists st' evs, exec (by_bob 1020) (Commit (makeCommitment (str "alice") alice (str "key") demo_secret)) (demo_after 1) = Ret (st', evs)
    /\ forall res, exec (by_alice 1045 100) (Register (str "alice") (str "key") demo_secret) st' <> Ret res.
Proof.
  eexists _, _. split; [reflexivity|].
  apply (recommit_blocks_register widths (fun m c H => H) (by_bob 1020)
    (makeCommitment (str "alice") alice (str "key") demo_secret) (demo_after 1) _
    [Committed (makeCommitment (str "alice") alice (str "key") demo_secret) 1020]).
  - unfold widths; cbn; repeat split; (lia || done).
  - reflexivity.
  - reflexivity.
  - cbn. lia.
Defined.
End Authority.
