(* ===== verification/RateLimit.v ===== *)
(** The per-IP rate limiter of the resolver (src/resolver/internal/server/ratelimit.go).

    The token bucket (golang.org/x/time/rate) is an interface: [NewLimiter] and
    [Allow]. A request is one atomic step (the limiter's mutex is held), with the
    clock readings the code takes: the one of [prune], the one stored in
    [lastSeen] and the one the token bucket takes. Times are nanoseconds. *)
From S2P Require Import Prelude.

Local Open Scope Z_scope.

(** golang.org/x/time/rate *)
Class RateOps (Lim : Type) := {
  NewLimiter : Z -> Z -> Lim;                (* rps, burst *)
  Allow : Z -> Lim -> bool * Lim;            (* the clock reading *)
}.

(** What the limiter relies on: a bucket unused for [full_after] nanoseconds is
    full again, so it answers as a new one does and ends in the same state. *)
Class RateLaws (Lim : Type) `{RateOps Lim} (rps burst full_after : Z) := {
  last_used : Lim -> Z;
  lim_wf : Lim -> Prop;                      (* a bucket made by [NewLimiter rps burst] *)
  New_wf : lim_wf (NewLimiter rps burst);
  Allow_wf t l : lim_wf l -> lim_wf (Allow t l).2;
  New_last t : 0 <= t -> last_used (NewLimiter rps burst) <= t;
  Allow_last t l : last_used l <= t -> last_used (Allow t l).2 <= t;
  Allow_full t l : lim_wf l -> last_used l + full_after <= t -> Allow t l = Allow t (NewLimiter rps burst);
}.

Module RateLimit.

Definition maxTrackedIPs : Z := 4096.
Definition second : Z := 1000000000.
Definition minute : Z := 60 * second.

Section Limiter.
Context {Lim : Type} `{RateOps Lim}.

(** type limiterEntry struct *)
Record limiterEntry := mkLimiterEntry { lim : Lim; lastSeen : Z }.

(** type ipLimiter struct *)
Record ipLimiter := mkIPLimiter { entries : gmap bytes limiterEntry; rps : Z; burst : Z }.

Definition newIPLimiter (rps burst : Z) : ipLimiter := mkIPLimiter ∅ rps burst.

Definition prune (now : Z) (l : ipLimiter) : ipLimiter :=
  let cutoff := now - minute in
  mkIPLimiter (filter (fun kv => ~ (lastSeen kv.2 < cutoff)) (entries l)) (rps l) (burst l).

(** A request: the client and the clock readings taken while serving it. *)
Record request := mkRequest { ip : bytes; t_prune : Z; t_seen : Z; t_allow : Z }.

(** The first part of allow: the client's entry, made (and the map pruned) if
    there is none. *)
Definition entry_for (r : request) (l : ipLimiter) : limiterEntry * ipLimiter :=
  match entries l !! ip r with
  | Some e => (e, l)
  | None =>
      let l := if maxTrackedIPs <=? Z.of_nat (size (entries l)) then prune (t_prune r) l else l in
      (mkLimiterEntry (NewLimiter (rps l) (burst l)) 0, l)
  end.

Definition allow (r : request) (l : ipLimiter) : bool * ipLimiter :=
  let '(e, l) := entry_for r l in
  let '(ok, lim') := Allow (t_allow r) (lim e) in
  (ok, mkIPLimiter (<[ip r := mkLimiterEntry lim' (t_seen r)]> (entries l)) (rps l) (burst l)).

(** The verdicts of a sequence of requests. *)
Fixpoint run (rs : list request) (l : ipLimiter) : list bool * ipLimiter :=
  match rs with
  | [] => ([], l)
  | r :: rs =>
      let '(ok, l) := allow r l in
      let '(oks, l) := run rs l in (ok :: oks, l)
  end.

(** The specification: every client has a token bucket of its own, for ever. *)
Definition ideal_state := bytes -> option Lim.
Definition ideal_allow (rps burst : Z) (r : request) (b : ideal_state) : bool * ideal_state :=
  let '(ok, l) := Allow (t_allow r) (default (NewLimiter rps burst) (b (ip r))) in
  (ok, fun i => if decide (i = ip r) then Some l else b i).
Fixpoint ideal_run (rps burst : Z) (rs : list request) (b : ideal_state) : list bool :=
  match rs with
  | [] => []
  | r :: rs => let '(ok, b) := ideal_allow rps burst r b in ok :: ideal_run rps burst rs b
  end.

(** The clock does not run backwards, and a request is served within a second. *)
Fixpoint clock_ok (from : Z) (rs : list request) : Prop :=
  match rs with
  | [] => True
  | r :: rs =>
      from <= t_prune r <= t_seen r /\ t_seen r <= t_allow r <= t_prune r + second
      /\ clock_ok (t_allow r) rs
  end.
End Limiter.
Arguments limiterEntry Lim : clear implicits.
Arguments ipLimiter Lim : clear implicits.
Arguments ideal_state Lim : clear implicits.

Section Correct.
Context {Lim : Type} `{!RateOps Lim} (R B : Z) `{!RateLaws Lim R B (minute - second)}.

(** The buckets held are the ideal ones; a client without an entry has never
    been seen or has been idle long enough for its bucket to be full again. *)
Record sim (now : Z) (l : ipLimiter Lim) (b : ideal_state Lim) : Prop := {
  sim_cfg : rps l = R /\ burst l = B;
  sim_some i e : entries l !! i = Some e ->
    b i = Some (lim e) /\ last_used (lim e) <= lastSeen e + second /\ last_used (lim e) <= now;
  sim_none i lm : entries l !! i = None -> b i = Some lm ->
    last_used lm + (minute - second) <= now;
  sim_wf i lm : b i = Some lm -> lim_wf lm;
}.

Lemma prune_sim now t l b : now <= t -> sim now l b -> sim t (prune t l) b.
Proof.
  intros Ht [Hc Hs Hn Hw]. split; cbn; [done| | |done].
  - intros i e [He _]%map_lookup_filter_Some. destruct (Hs i e He) as (? & ? & ?). split; [done|lia].
  - intros i lm Hi Hb. destruct (entries l !! i) as [e|] eqn:Ei.
    + destruct (Hs i e Ei) as (Hb' & Hl & _). rewrite Hb in Hb'. injection Hb' as ->.
      apply map_lookup_filter_None in Hi as [Hi|Hi]; [congruence|].
      specialize (Hi e Ei). cbn in Hi. destruct (decide (lastSeen e < t - minute)); [|done]. lia.
    + specialize (Hn i lm Ei Hb). lia.
Qed.

Lemma sim_later now t l b : now <= t -> sim now l b -> sim t l b.
Proof.
  intros Ht [Hc Hs Hn Hw]. split; [done| | |done].
  - intros i e He. destruct (Hs i e He) as (? & ? & ?). split; [done|lia].
  - intros i lm Hi Hb. specialize (Hn i lm Hi Hb). lia.
Qed.

Lemma allow_sim now r l b :
  0 <= now -> now <= t_prune r <= t_seen r -> t_seen r <= t_allow r <= t_prune r + second -> sim now l b ->
  (allow r l).1 = (ideal_allow R B r b).1
  /\ sim (t_allow r) (allow r l).2 (ideal_allow R B r b).2.
Proof.
  intros H0 H1 H2 Hsim. unfold allow, ideal_allow.
  assert (exists e l1, entry_for r l = (e, l1) /\ sim (t_prune r) l1 b /\ last_used (lim e) <= t_prune r
    /\ Allow (t_allow r) (lim e) = Allow (t_allow r) (default (NewLimiter R B) (b (ip r)))) as (e & l1 & -> & Hs1 & Hu & Ha).
  { unfold entry_for. destruct (entries l !! ip r) as [e|] eqn:Ei.
    - exists e, l. split; [done|]. split; [apply (sim_later now); [lia|done]|].
      destruct (sim_some _ _ _ Hsim _ _ Ei) as (-> & _ & ?). split; [lia|done].
    - set (l1 := if maxTrackedIPs <=? Z.of_nat (size (entries l)) then prune (t_prune r) l else l).
      eexists _, l1. split; [done|].
      assert (sim (t_prune r) l1 b) as Hs1.
      { subst l1. destruct (maxTrackedIPs <=? _); [apply (prune_sim now)|apply (sim_later now)]; by try lia. }
      split; [done|]. cbn [lim]. destruct (sim_cfg _ _ _ Hs1) as [-> ->].
      split; [apply New_last; lia|].
      destruct (b (ip r)) as [lm|] eqn:Eb; [|done]. cbn.
      symmetry. apply Allow_full; [by eapply sim_wf|].
      specialize (sim_none _ _ _ Hsim _ _ Ei Eb). lia. }
  assert (lim_wf (Allow (t_allow r) (default (NewLimiter R B) (b (ip r)))).2) as Hw'.
  { apply Allow_wf. destruct (b (ip r)) eqn:Eb; cbn; [by eapply sim_wf|apply New_wf]. }
  rewrite <- Ha in *. assert (last_used (Allow (t_allow r) (lim e)).2 <= t_allow r) as Hl by (apply Allow_last; lia).
  destruct (Allow (t_allow r) (lim e)) as [ok lim']. cbn [fst snd] in *. split; [done|].
  destruct Hs1 as [Hc Hs Hn Hw]. split; cbn [entries rps burst]; [done| | |].
  - intros i e0. rewrite lookup_insert. case_decide as Ei; case_decide as Ei'; subst; try done.
    + intros [= <-]. cbn. split; [done|lia].
    + intros He. destruct (Hs _ _ He) as (? & ? & ?). split; [done|lia].
  - intros i lm. rewrite lookup_insert. case_decide as Ei; [done|]. intros He.
    rewrite decide_False by done. intros Hb. specialize (Hn _ _ He Hb). lia.
  - intros i lm. case_decide; [by intros [= <-]|apply Hw].
Qed.

Lemma limiter_run_sim now rs l b : 0 <= now -> clock_ok now rs -> sim now l b -> (run rs l).1 = ideal_run R B rs b.
Proof.
  revert now l b. induction rs as [|r rs IH]; intros now l b H0 Hc Hs; [done|]. destruct Hc as (H1 & H2 & H3).
  destruct (allow_sim now r l b H0 H1 H2 Hs) as [Hv Hs']. cbn.
  destruct (allow r l) as [ok l'], (ideal_allow R B r b) as [ok' b']. cbn in *. subst.
  rewrite <- (IH (t_allow r) l' b'); [|lia|done|done]. by destruct (run rs l').
Qed.

(** C34. Every client gets exactly the verdicts of a token bucket of its own, fed
    with its requests only: other clients never affect them, and neither does
    pruning, because a pruned bucket had time to refill. The laws assumed of the
    bucket ([RateLaws] at a minute less a second) hold of rate R and burst B when B is
    at most 59 R, that is when it refills within 59 seconds ([bucket_laws]). *)
Theorem allow_isolates_clients now rs :
  0 <= now -> clock_ok now rs -> (run rs (newIPLimiter R B)).1 = ideal_run R B rs (fun _ => None).
Proof. intros H0 Hc. apply (limiter_run_sim now); [done|done|]. by split. Qed.


(** The map of clients: an entry is only dropped when its client was idle for
    over a minute, and making room for a new client at the limit leaves no
    such entry, so beyond 4096 entries all clients were seen in the last minute. *)
Theorem allow_tracks_recent r (l : ipLimiter Lim) :
  let l' := (allow r l).2 in
  (forall i e, entries l !! i = Some e -> i <> ip r ->
     entries l' !! i = Some e \/ (entries l' !! i = None /\ lastSeen e < t_prune r - minute))
  /\ (exists e, entries l' !! ip r = Some e /\ lastSeen e = t_seen r)
  /\ (entries l !! ip r = None -> maxTrackedIPs < Z.of_nat (size (entries l')) ->
      forall i e, entries l' !! i = Some e -> i <> ip r -> t_prune r - minute <= lastSeen e)
  /\ (is_Some (entries l !! ip r) -> size (entries l') = size (entries l)).
Proof using Type.
  cbv zeta. unfold allow, entry_for. destruct (entries l !! ip r) as [e0|] eqn:Ei.
  { destruct (Allow (t_allow r) (lim e0)) as [ok lim']. cbn [snd entries].
    split; [intros i e He Hne; rewrite lookup_insert_ne by done; auto|].
    split; [eexists; split; [apply lookup_insert_eq|done]|]. split; [done|]. intros _.
    by rewrite map_size_insert, Ei. }
  set (full := maxTrackedIPs <=? Z.of_nat (size (entries l))).
  destruct (Allow _ _) as [ok lim']. cbn [snd entries].
  split; [|split; [eexists; split; [apply lookup_insert_eq|done]|split; [|by intros [? ?]]]].
  - intros i e He Hne. rewrite !lookup_insert_ne by done. destruct full; [|auto]. cbn [prune entries].
    destruct (decide (lastSeen e < t_prune r - minute)).
    + right. split; [|done]. apply map_lookup_filter_None. right. cbn. naive_solver.
    + left. apply map_lookup_filter_Some. done.
  - intros _ Hsz i e. destruct full eqn:Ef; cbn [prune entries] in *.
    + intros He Hne. rewrite lookup_insert_ne in He by done.
      apply map_lookup_filter_Some in He as [_ He]. cbn in He. lia.
    + exfalso. subst full. apply Z.leb_gt in Ef. rewrite map_size_insert_None in Hsz by done. lia.
Qed.
End Correct.

(** * A token bucket

    The bucket of golang.org/x/time/rate, in billionths of a token: it refills
    with time up to the burst, and a denied request does not touch it. [None] is
    the zero time of a new bucket. *)
Record bucket := mkBucket { b_rps : Z; b_burst : Z; b_tokens : Z; b_last : option Z }.

Definition bucket_level (t : Z) (b : bucket) : Z :=
  match b_last b with
  | None => b_burst b * second
  | Some last => Z.min (b_burst b * second) (b_tokens b + Z.max 0 (t - last) * b_rps b)
  end.

#[export] Instance bucket_ops : RateOps bucket := {
  NewLimiter rps burst := mkBucket rps burst 0 None;
  Allow t b :=
    if second <=? bucket_level t b
    then (true, mkBucket (b_rps b) (b_burst b) (bucket_level t b - second) (Some t))
    else (false, b);
}.

Definition bucket_wf (R B : Z) (b : bucket) : Prop :=
  b_rps b = R /\ b_burst b = B /\ 0 <= b_tokens b.

(** With a burst that refills within [full_after], the bucket has the laws. *)
Program Definition bucket_laws (R B full_after : Z) (HR : 0 <= R) (HB : 1 <= B)
    (Hfull : B * second <= full_after * R) (Hpos : 0 <= full_after) : RateLaws bucket R B full_after := {|
  last_used b := default 0 (b_last b);
  lim_wf := bucket_wf R B;
|}.
Next Obligation. by intros. Qed.
Next Obligation.
  intros R B fa HR HB Hf Hp t l (H1 & H2 & H3). cbn.
  destruct (Z.leb_spec second (bucket_level t l)); cbn; [|done]. split; [done|]. split; [done|]. cbn. lia.
Qed.
Next Obligation. intros; cbn. lia. Qed.
Next Obligation. intros R B fa HR HB Hf Hp t l Hl. cbn. by destruct (second <=? bucket_level t l). Qed.
Next Obligation.
  intros R B fa HR HB Hf Hp t l (<- & <- & H3) Hl. cbn.
  assert (bucket_level t l = b_burst l * second) as ->.
  { unfold bucket_level. destruct (b_last l) as [last|]; [|done]. cbn in Hl. nia. }
  unfold bucket_level. cbn. unfold second. by rewrite !(proj2 (Z.leb_le _ _)) by lia.
Qed.

(** One request a second, bursts of two. *)
Definition demo_req (who : String.string) (t : Z) : request := mkRequest (str who) t t t.
Arguments demo_req who%_string.
Definition demo_requests : list request :=
  [demo_req "1.1.1.1" 5; demo_req "1.1.1.1" 6; demo_req "1.1.1.1" 7; demo_req "2.2.2.2" 8;
   demo_req "1.1.1.1" (second + 10); demo_req "1.1.1.1" (second + 11)].

Example demo_verdicts :
  (run demo_requests (newIPLimiter (Lim := bucket) 1 2)).1 = [true; true; false; true; true; false].
Proof. vm_compute. reflexivity. Qed.

Lemma allow_isolates_clients_witness :
  (run demo_requests (newIPLimiter (Lim := bucket) 1 2)).1 = ideal_run 1 2 demo_requests (fun _ => None).
Proof.
  apply (allow_isolates_clients 1 2
    (RateLaws0 := bucket_laws 1 2 (minute - second) ltac:(lia) ltac:(lia) ltac:(vm_compute; congruence)
       ltac:(vm_compute; congruence)) 0); [lia|].
  vm_compute. repeat split; congruence.
Defined.

(** Clients that all come within one minute are all tracked: maxTrackedIPs does
    not bound the map. *)
Lemma crowd_tracked {Lim} `{!RateOps Lim} t (ips : list bytes) (l : ipLimiter Lim) :
  NoDup ips -> (forall i, i ∈ ips -> entries l !! i = None) ->
  (forall i e, entries l !! i = Some e -> lastSeen e = t) ->
  size (entries (run ((fun i => mkRequest i t t t) <$> ips) l).2) = (size (entries l) + length ips)%nat.
Proof.
  revert l. induction ips as [|i ips IH]; intros l Hnd Hfresh Hseen; cbn; [lia|].
  apply NoDup_cons in Hnd as [Hi Hnd].
  assert (prune t l = l) as Hp.
  { destruct l as [m r b]. unfold prune. cbn in *. f_equal. apply map_filter_id.
    intros j e He. cbn. rewrite (Hseen j e He). unfold minute, second. lia. }
  set (rq := mkRequest i t t t).
  assert (exists ok lm, allow rq l = (ok, mkIPLimiter (<[i := mkLimiterEntry lm t]> (entries l)) (rps l) (burst l)))
    as (ok & lm & Ha).
  { unfold allow, entry_for. cbn. rewrite Hfresh by set_solver. rewrite Hp.
    destruct (maxTrackedIPs <=? _); destruct (Allow _ _); eauto. }
  change (let '(ok, l0) := allow rq l in let '(oks, l1) := run ((fun i => mkRequest i t t t) <$> ips) l0 in (ok :: oks, l1))
    with (run (rq :: ((fun i => mkRequest i t t t) <$> ips)) l).
  cbn [run]. rewrite Ha.
  specialize (IH (mkIPLimiter (<[i := mkLimiterEntry lm t]> (entries l)) (rps l) (burst l)) Hnd).
  destruct (run _ _) as [oks l'] eqn:Er. cbn [snd entries] in *. rewrite IH.
  - rewrite map_size_insert_None by (apply Hfresh; set_solver). lia.
  - intros j Hj. rewrite lookup_insert_ne by set_solver. apply Hfresh. set_solver.
  - intros j e. rewrite lookup_insert. case_decide; [by intros [= <-]|apply Hseen].
Qed.

Definition crowd : list bytes := be_bytes 4 <$> seqZ 0 5000.

Lemma crowd_exceeds_limit :
  maxTrackedIPs
  < Z.of_nat (size (entries (run ((fun i => mkRequest i 0 0 0) <$> crowd) (newIPLimiter (Lim := bucket) 1 2)).2)).
Proof.
  rewrite crowd_tracked; [|..|done].
  - unfold crowd. rewrite length_fmap, length_seqZ. unfold maxTrackedIPs. cbn [newIPLimiter entries].
    rewrite map_size_empty. lia.
  - apply NoDup_fmap_2_strong; [|apply NoDup_seqZ].
    intros x y Hx%elem_of_seqZ Hy%elem_of_seqZ Hxy%be_bytes_inj. rewrite !Z.mod_small in Hxy; lia.
  - intros i _. apply lookup_empty.
Qed.
End RateLimit.
