(* ===== verification/Encoding.v ===== *)
(** The encodings the packages share: [encoding/hex], length-prefixed strings
    written with [encoding/binary], and the 0x-prefixed hexadecimal of
    go-ethereum's [hexutil] as an interface. *)
From S2P Require Import Prelude GoStrings.

Local Open Scope Z_scope.

(** * encoding/hex *)

Definition hex_digit (n : Z) : byte := z2b (if n <? 10 then 48 + n else 87 + n).

(** hex.EncodeToString *)
Definition hex_encode (s : bytes) : bytes :=
  concat (map (fun b => [hex_digit (b2z b / 16); hex_digit (b2z b mod 16)]) s).

Definition hex_value (b : byte) : option Z :=
  let c := b2z b in
  if in_range 48 57 c then Some (c - 48)
  else if in_range 97 102 c then Some (c - 87)
  else if in_range 65 70 c then Some (c - 55)
  else None.

(** hex.DecodeString; [None] is a non-nil error. *)
Fixpoint hex_decode (s : bytes) : option bytes :=
  match s with
  | [] => Some []
  | [_] => None
  | a :: b :: s =>
      match hex_value a, hex_value b, hex_decode s with
      | Some x, Some y, Some r => Some (z2b (16 * x + y) :: r)
      | _, _, _ => None
      end
  end.

Lemma hex_value_digit n : 0 <= n < 16 -> hex_value (hex_digit n) = Some n.
Proof.
  intros H. assert (forallb (fun n => bool_decide (hex_value (hex_digit n) = Some n)) (seqZ 0 16) = true) as Hall
    by reflexivity.
  rewrite forallb_True_eq, Forall_forall in Hall.
  eapply bool_decide_eq_true_1, Hall, elem_of_seqZ. lia.
Qed.

Lemma hex_decode_encode s : hex_decode (hex_encode s) = Some s.
Proof.
  induction s as [|b s IH]; [done|]. unfold hex_encode in *. cbn. pose proof (b2z_range b).
  rewrite !hex_value_digit, IH by (apply Z.mod_pos_bound || (split; [apply Z.div_pos|apply Z.div_lt_upper_bound]); lia).
  f_equal. f_equal. rewrite <- (z2b_b2z b) at 3. f_equal. rewrite (Z.div_mod (b2z b) 16) at 3; lia.
Qed.

Lemma hex_encode_inj s t : hex_encode s = hex_encode t -> s = t.
Proof. intros H. apply (f_equal hex_decode) in H. rewrite !hex_decode_encode in H. congruence. Qed.

Lemma hex_encode_length s : length (hex_encode s) = (2 * length s)%nat.
Proof. unfold hex_encode. induction s as [|b s IH]; cbn in *; lia. Qed.

Definition is_hex (b : byte) : bool := match hex_value b with Some _ => true | None => false end.

Lemma hex_encode_is_hex s : Forall (fun b => is_hex b = true) (hex_encode s).
Proof.
  unfold hex_encode. induction s as [|b s IH]; cbn; [constructor|]. pose proof (b2z_range b).
  repeat constructor; [| |done]; unfold is_hex; rewrite hex_value_digit; try done.
  - split; [apply Z.div_pos|apply Z.div_lt_upper_bound]; lia.
  - apply Z.mod_pos_bound. lia.
Qed.

Lemma is_hex_solid b : is_hex b = true -> solid b = true.
Proof. destruct b; done || (cbn; congruence). Qed.

(** * hexutil (go-ethereum): hexadecimal with a 0x prefix *)
Class Hexutil := {
  hexutil_Encode : bytes -> bytes;
  hexutil_Decode : bytes -> option bytes;
}.
Class HexutilLaws `{Hexutil} := {
  hexutil_Encode_hex b : hexutil_Encode b = str "0x" ++ hex_encode b;
  hexutil_Decode_hex b : hexutil_Decode (str "0x" ++ hex_encode b) = Some b;
  hexutil_Decode_empty : hexutil_Decode [] = None;      (* ErrEmptyString *)
}.

(** An instance: the empty string, a missing prefix, an odd length and a
    character that is not hexadecimal are errors. *)
#[export] Instance std_hexutil : Hexutil := {
  hexutil_Encode b := str "0x" ++ hex_encode b;
  hexutil_Decode s :=
    match s with
    | a :: b :: rest =>
        if bool_decide (a = "0"%byte) && (bool_decide (b = "x"%byte) || bool_decide (b = "X"%byte))
        then hex_decode rest else None
    | _ => None
    end;
}.
#[export] Program Instance std_hexutil_laws : HexutilLaws.
Next Obligation. done. Qed.
Next Obligation. intros b. apply hex_decode_encode. Qed.
Next Obligation. done. Qed.

(** * Length-prefixed strings

    [PutUintN(l, uintN(len(s)))] followed by the bytes: the length is cut to the
    width of the prefix. *)
Definition writeStr (n : nat) (s : bytes) : bytes := be_bytes n (Z.of_nat (length s)) ++ s.

#[global] Arguments writeStr : simpl never.

Definition fits (n : nat) (s : bytes) : Prop := Z.of_nat (length s) < 256 ^ Z.of_nat n.

Lemma be_bytes_app_inj n z1 z2 (r1 r2 : bytes) :
  0 <= z1 < 256 ^ Z.of_nat n -> 0 <= z2 < 256 ^ Z.of_nat n ->
  be_bytes n z1 ++ r1 = be_bytes n z2 ++ r2 -> z1 = z2 /\ r1 = r2.
Proof.
  intros H1 H2 H. apply app_inj_length in H as [Hz Hr]; [|by rewrite !be_bytes_length].
  split; [|done]. apply be_bytes_inj in Hz. rewrite !Z.mod_small in Hz; lia.
Qed.

(** A length-prefixed string is read back whatever follows it. *)
Lemma writeStr_app_inj n s1 s2 (r1 r2 : bytes) :
  fits n s1 -> fits n s2 -> writeStr n s1 ++ r1 = writeStr n s2 ++ r2 -> s1 = s2 /\ r1 = r2.
Proof.
  unfold fits, writeStr. intros H1 H2 H. rewrite <- !app_assoc in H.
  apply be_bytes_app_inj in H as [Hl H]; [|lia..]. apply app_inj_length in H; [done|lia].
Qed.

Lemma writeStr_length n s : length (writeStr n s) = (n + length s)%nat.
Proof. unfold writeStr. by rewrite length_app, be_bytes_length. Qed.
