(* ===== verification/Pki.v ===== *)
(** Package [pki] (src/resolver/internal/pki): the canonical record message owners
    sign and its verification (owner.go), the resource manifest (resource.go), the
    signed response envelope (envelope.go) and the resolver's identity key
    (identity.go).

    The elliptic-curve operations of go-ethereum and of crypto/ed25519 and the
    hash functions are interfaces; their laws are what those packages document.
    [sort.Slice] is an interface too: it may return any sorted permutation. *)
From S2P Require Import Prelude GoStrings Encoding Chain.
Import Chain.

Local Open Scope Z_scope.

(** sort.Slice on pairs compared by their keys: not stable, so with equal keys
    the result is any sorted permutation. *)
Class SortPairs := sort_pairs : list (bytes * bytes) -> list (bytes * bytes).
Class SortPairsLaws `{SortPairs} := {
  sort_pairs_perm l : sort_pairs l ≡ₚ l;
  sort_pairs_sorted l : StronglySorted (fun p q => bytes_le p.1 q.1) (sort_pairs l);
}.

(** go-ethereum's crypto and accounts packages *)
Class EthCrypto (Priv Pub : Type) := {
  TextHash : bytes -> bytes;                       (* accounts.TextHash (EIP-191) *)
  SigToPub : bytes -> bytes -> option Pub;         (* digest, [R || S || V] with V 0 or 1 *)
  FromECDSAPub : Pub -> bytes;
  PubkeyToAddress : Pub -> address;
  eth_Sign : bytes -> Priv -> option bytes;        (* crypto.Sign *)
}.
Class EthCryptoLaws (Priv Pub : Type) `{EthCrypto Priv Pub} := {
  eth_pub : Priv -> Pub;                           (* key.PublicKey *)
  (** "The produced signature is in the [R || S || V] format where V is 0 or 1" *)
  eth_Sign_format d k sig : eth_Sign d k = Some sig ->
    length sig = 65%nat /\ (exists v, sig !! 64%nat = Some v /\ b2z v <= 1);
  eth_Sign_recovers d k sig : eth_Sign d k = Some sig -> SigToPub d sig = Some (eth_pub k);
}.

(** crypto/ed25519 *)
Class Ed25519 (EdPriv : Type) := {
  ed_NewKeyFromSeed : bytes -> EdPriv;
  ed_Public : EdPriv -> bytes;
  ed_Sign : EdPriv -> bytes -> bytes;
  ed_Verify : bytes -> bytes -> bytes -> bool;     (* public key, message, signature *)
}.
Class Ed25519Laws (EdPriv : Type) `{Ed25519 EdPriv} := {
  ed_Public_length k : length (ed_Public k) = 32%nat;
  ed_Sign_length k m : length (ed_Sign k m) = 64%nat;
  ed_Verify_Sign k m : ed_Verify (ed_Public k) m (ed_Sign k m) = true;
}.

Module Pki.

(** crypto.SignatureLength, ed25519.PublicKeySize, SignatureSize and SeedSize *)
Definition SignatureLength : nat := 65.
Definition PublicKeySize : nat := 32.
Definition EdSignatureSize : nat := 64.
Definition SeedSize : nat := 32.

(** * owner.go *)
Section Owner.
Context `{!SortPairs}.

(** [pairs[i] = pair{r.FieldNames[i], r.FieldVals[i]}] for every index of the
    names; a missing value is an index out of range. *)
Fixpoint field_pairs (names vals : list bytes) : option (list (bytes * bytes)) :=
  match names, vals with
  | [], _ => Some []
  | _ :: _, [] => None
  | n :: names, v :: vals =>
      match field_pairs names vals with Some ps => Some ((n, v) :: ps) | None => None end
  end.

Definition field_bytes (p : bytes * bytes) : bytes := writeStr 2 p.1 ++ writeStr 2 p.2.

Definition RecordMessage {E} (name : bytes) (r : Record) : go E bytes :=
  pairs ← or_panic (field_pairs (FieldNames r) (FieldVals r));
  let pairs := sort_pairs pairs in
  mret (str "ddns-record-v2" ++ writeStr 2 name ++ writeStr 2 (Type_ r) ++ writeStr 2 (Selector r)
    ++ be_bytes 4 (TTL r) ++ be_bytes 8 (Generation r)
    ++ be_bytes 2 (Z.of_nat (length pairs)) ++ concat (map field_bytes pairs)).

Definition isPlaceholderPubKey (pubKey : bytes) : bool :=
  let zero b := bool_decide (b = x00) in
  match pubKey with
  | [] => true
  | b0 :: rest =>
      if forallb zero pubKey then true
      else (Z.of_nat (length pubKey) =? 65) && bool_decide (b0 = x04) && forallb zero rest
  end.

(** The ways VerifyOwnerSig wraps ErrBadSignature. *)
Inductive sig_error :=
| FieldArraysDiffer (names vals : nat)
| BadSigLength (got : nat)
| RecoverFailed
| PubKeyMismatch
| OwnerMismatch.

Context {Priv Pub : Type} `{!EthCrypto Priv Pub}.

(** [if sig[64] >= 27 { sig[64] -= 27 }] *)
Definition raw_recovery_id (sig : bytes) : go sig_error bytes :=
  v ← or_panic (sig !! 64%nat);
  mret (if 27 <=? b2z v then <[64%nat := z2b (b2z v - 27)]> sig else sig).

Definition VerifyOwnerSig (name : bytes) (r : Record) (owner : address) (pubKey : bytes) : go sig_error () :=
  if negb (Nat.eqb (length (FieldNames r)) (length (FieldVals r)))
  then Err (FieldArraysDiffer (length (FieldNames r)) (length (FieldVals r)))
  else if negb (Nat.eqb (length (OwnerSig r)) SignatureLength)
  then Err (BadSigLength (length (OwnerSig r)))
  else
    sig ← raw_recovery_id (OwnerSig r);
    msg ← RecordMessage name r;
    match SigToPub (TextHash msg) sig with
    | None => Err RecoverFailed
    | Some recovered =>
        if negb (isPlaceholderPubKey pubKey) && negb (bool_decide (FromECDSAPub recovered = pubKey))
        then Err PubKeyMismatch
        else if negb (bool_decide (PubkeyToAddress recovered = owner)) then Err OwnerMismatch
        else Ret ()
    end.

(** [sig[64] += 27], on a byte *)
Definition add_v (sig : bytes) : go () bytes :=
  v ← or_panic (sig !! 64%nat);
  mret (<[64%nat := z2b (b2z v + 27)]> sig).

Definition SignRecord (name : bytes) (r : Record) (key : Priv) : go () bytes :=
  msg ← RecordMessage name r;
  match eth_Sign (TextHash msg) key with
  | None => Err ()
  | Some sig => add_v sig
  end.
End Owner.

(** * resource.go *)
Section Resource.
Variable Sum256 : bytes -> bytes.   (* sha256.Sum256 *)

Definition ResourceManifest (owner pubKeyHex infoHash sha256Hex contentType : bytes)
    (ownerSigVerified : bool) (zkProofHex body : bytes) : bytes :=
  str "ddns-resource-v1" ++ writeStr 4 owner ++ writeStr 4 pubKeyHex ++ writeStr 4 infoHash
  ++ writeStr 4 sha256Hex ++ writeStr 4 contentType
  ++ [if ownerSigVerified then x01 else x00] ++ writeStr 4 zkProofHex ++ Sum256 body.

Inductive resource_error := errBadResolverKey | errBadResourceSig.

Context {EdPriv : Type} `{!Ed25519 EdPriv} `{!Hexutil}.

(** hexutil.Decode and the length test that follows it *)
Definition decode_sized (n : nat) (s : bytes) : option bytes :=
  match hexutil_Decode s with
  | Some b => if Nat.eqb (length b) n then Some b else None
  | None => None
  end.

Definition VerifyResourceSignature (resolverPubHex sigHex owner pubKeyHex infoHash sha256Hex contentType : bytes)
    (ownerSigVerified : bool) (zkProofHex body : bytes) : go resource_error () :=
  match decode_sized PublicKeySize resolverPubHex with
  | None => Err errBadResolverKey
  | Some pub =>
      match decode_sized EdSignatureSize sigHex with
      | None => Err errBadResourceSig
      | Some sig =>
          if negb (ed_Verify pub (ResourceManifest owner pubKeyHex infoHash sha256Hex contentType
                     ownerSigVerified zkProofHex body) sig)
          then Err errBadResourceSig else Ret ()
      end
  end.
End Resource.

(** * identity.go and envelope.go *)
Section Identity.
Context {EdPriv : Type} `{!Ed25519 EdPriv} `{!Hexutil}.

(** type Identity struct *)
Record Identity := mkIdentity { priv : EdPriv }.

Definition Sign (id : Identity) (message : bytes) : bytes := ed_Sign (priv id) message.
Definition PublicKey (id : Identity) : bytes := ed_Public (priv id).
Definition PublicKeyHex (id : Identity) : bytes := str "0x" ++ hex_encode (PublicKey id).

(** The outcome of os.ReadFile. *)
Inductive read_result := FileData (data : bytes) | FileNotExist | FileError.

(** What the rest of the file system answers: rand.Read, filepath.Dir(path) not
    being ".", os.MkdirAll and os.WriteFile. *)
Record fs := mkFs {
  fs_read : read_result;
  fs_random : option bytes;
  fs_has_dir : bool;
  fs_mkdir_ok : bool;
  fs_write_ok : bool;
}.
Inductive identity_error := BadKeystore | RandFailed | MkdirFailed | WriteFailed | ReadFailed.

Definition TrimPrefix (s p : bytes) : bytes :=
  match drop_prefix p s with Some s' => s' | None => s end.

(** LoadOrCreateIdentity, with the contents written to the file, if any. *)
Definition LoadOrCreateIdentity (f : fs) : go identity_error (Identity * option bytes) :=
  match fs_read f with
  | FileData data =>
      match hex_decode (TrimPrefix (TrimSpace data) (str "0x")) with
      | Some seed =>
          if Nat.eqb (length seed) SeedSize then Ret (mkIdentity (ed_NewKeyFromSeed seed), None)
          else Err BadKeystore
      | None => Err BadKeystore
      end
  | FileNotExist =>
      match fs_random f with
      | None => Err RandFailed
      | Some seed =>
          if fs_has_dir f && negb (fs_mkdir_ok f) then Err MkdirFailed
          else if negb (fs_write_ok f) then Err WriteFailed
          else Ret (mkIdentity (ed_NewKeyFromSeed seed), Some (hex_encode seed ++ [x0a]))
      end
  | FileError => Err ReadFailed
  end.

(** type Envelope struct *)
Record Envelope := mkEnvelope { Data : bytes; Resolver : bytes; Signature : bytes }.

(** SealEnvelope; [marshal] is json.Marshal. *)
Definition SealEnvelope {V E} (marshal : V -> go E bytes) (id : Identity) (v : V) : go E Envelope :=
  data ← marshal v;
  mret (mkEnvelope data (PublicKeyHex id) (hexutil_Encode (Sign id data))).

Inductive envelope_error := BadResolverKey (s : bytes) | BadSigEncoding (s : bytes) | EnvelopeSigInvalid.

Definition VerifyEnvelope (env : Envelope) : go envelope_error () :=
  match decode_sized PublicKeySize (Resolver env) with
  | None => Err (BadResolverKey (Resolver env))
  | Some pub =>
      match decode_sized EdSignatureSize (Signature env) with
      | None => Err (BadSigEncoding (Signature env))
      | Some sig =>
          if negb (ed_Verify pub (Data env) sig) then Err EnvelopeSigInvalid else Ret ()
      end
  end.
End Identity.
Arguments Identity : clear implicits.

(** * The record message *)
Section Message.
Context {SP : SortPairs} {SPL : SortPairsLaws}.

Lemma field_pairs_Some names vals ps :
  field_pairs names vals = Some ps <-> ps = zip names vals /\ (length names <= length vals)%nat.
Proof.
  revert vals ps. induction names as [|n names IH]; intros vals ps; cbn.
  - split; [intros [= <-]; split; [done|lia]|by intros [-> _]].
  - destruct vals as [|v vals]; cbn; [split; [done|lia]|].
    destruct (field_pairs names vals) as [ps'|] eqn:E.
    + apply IH in E as [-> Hl]. split; [intros [= <-]; split; [done|lia]|by intros [-> _]].
    + split; [done|]. intros [-> Hl]. assert (field_pairs names vals = Some (zip names vals)) by (apply IH; lia || (split; [done|lia])).
      congruence.
Qed.

(** The message of a record whose arrays match. *)
Definition message_of (name : bytes) (r : Record) (pairs : list (bytes * bytes)) : bytes :=
  str "ddns-record-v2" ++ writeStr 2 name ++ writeStr 2 (Type_ r) ++ writeStr 2 (Selector r)
    ++ be_bytes 4 (TTL r) ++ be_bytes 8 (Generation r)
    ++ be_bytes 2 (Z.of_nat (length pairs)) ++ concat (map field_bytes pairs).

Definition fields (r : Record) : list (bytes * bytes) := zip (FieldNames r) (FieldVals r).

Lemma RecordMessage_Ret {E} name r m :
  RecordMessage (E := E) name r = Ret m <->
  (length (FieldNames r) <= length (FieldVals r))%nat /\ m = message_of name r (sort_pairs (fields r)).
Proof.
  unfold RecordMessage. destruct (field_pairs _ _) as [ps|] eqn:E0; cbn.
  - apply field_pairs_Some in E0 as [-> Hl]. split; [intros [= <-]; done|by intros [_ ->]].
  - split; [done|]. intros [Hl _].
    assert (field_pairs (FieldNames r) (FieldVals r) = Some (zip (FieldNames r) (FieldVals r)))
      by (apply field_pairs_Some; done). congruence.
Qed.

Lemma RecordMessage_no_panic {E} name r : length (FieldNames r) = length (FieldVals r) -> RecordMessage (E := E) name r <> Panic.
Proof.
  intros Hl H. assert (RecordMessage (E := E) name r = Ret (message_of name r (sort_pairs (fields r)))) as E0; [|congruence].
  apply RecordMessage_Ret. split; [lia|done].
Qed.

Lemma RecordMessage_not_Err {E} name r (e : E) : RecordMessage name r <> Err e.
Proof. unfold RecordMessage. by destruct (field_pairs _ _). Qed.

(** The lengths the message can represent (the contract's limits are smaller). *)
Definition encodable (name : bytes) (r : Record) : Prop :=
  fits 2 name /\ fits 2 (Type_ r) /\ fits 2 (Selector r) /\ record_wf r
  /\ Forall (fits 2) (FieldNames r) /\ Forall (fits 2) (FieldVals r)
  /\ Z.of_nat (length (FieldNames r)) < 2 ^ 16.

Lemma field_bytes_concat_inj ps1 ps2 :
  Forall (fun p => fits 2 p.1 /\ fits 2 p.2) ps1 -> Forall (fun p => fits 2 p.1 /\ fits 2 p.2) ps2 ->
  length ps1 = length ps2 -> concat (map field_bytes ps1) = concat (map field_bytes ps2) -> ps1 = ps2.
Proof.
  intros H1. revert ps2. induction H1 as [|[k1 v1] ps1 [Hk1 Hv1] _ IH]; intros [|[k2 v2] ps2] H2 Hl; try done.
  apply Forall_cons in H2 as [[Hk2 Hv2] H2]. cbn [fst snd length] in *. cbn [map concat].
  unfold field_bytes at 1 3. cbn [fst snd]. rewrite <- !app_assoc.
  intros H. apply writeStr_app_inj in H as [-> H]; [|done..].
  apply writeStr_app_inj in H as [-> H]; [|done..]. f_equal. apply IH; [done|lia|done].
Qed.

Lemma fields_fit name r :
  encodable name r -> Forall (fun p => fits 2 p.1 /\ fits 2 p.2) (sort_pairs (fields r))
    /\ Z.of_nat (length (sort_pairs (fields r))) < 2 ^ 16.
Proof.
  intros (_ & _ & _ & _ & Hn & Hv & Hl). rewrite sort_pairs_perm. split.
  - apply Forall_forall. intros [k v] Hin. unfold fields in Hin.
    rewrite Forall_forall in Hn, Hv. split; [apply Hn|apply Hv].
    + by eapply elem_of_zip_l.
    + by eapply elem_of_zip_r.
  - unfold fields. rewrite length_zip. lia.
Qed.

Lemma message_of_inj n1 r1 ps1 n2 r2 ps2 :
  fits 2 n1 -> fits 2 (Type_ r1) -> fits 2 (Selector r1) -> record_wf r1 ->
  fits 2 n2 -> fits 2 (Type_ r2) -> fits 2 (Selector r2) -> record_wf r2 ->
  Forall (fun p => fits 2 p.1 /\ fits 2 p.2) ps1 -> Z.of_nat (length ps1) < 2 ^ 16 ->
  Forall (fun p => fits 2 p.1 /\ fits 2 p.2) ps2 -> Z.of_nat (length ps2) < 2 ^ 16 ->
  message_of n1 r1 ps1 = message_of n2 r2 ps2 ->
  n1 = n2 /\ Type_ r1 = Type_ r2 /\ Selector r1 = Selector r2 /\ TTL r1 = TTL r2
  /\ Generation r1 = Generation r2 /\ ps1 = ps2.
Proof.
  intros H1 H2 H3 (H4 & H5 & _) H6 H7 H8 (H9 & H10 & _) H11 H12 H13 H14 H. unfold message_of in H.
  apply app_inj_length in H as [_ H]; [|done].
  apply writeStr_app_inj in H as [-> H]; [|done..].
  apply writeStr_app_inj in H as [-> H]; [|done..].
  apply writeStr_app_inj in H as [-> H]; [|done..].
  apply be_bytes_app_inj in H as [-> H]; [|lia..].
  apply be_bytes_app_inj in H as [-> H]; [|lia..].
  apply be_bytes_app_inj in H as [Hl H]; [|lia..].
  apply field_bytes_concat_inj in H as ->; [done..|lia].
Qed.

Lemma RecordMessage_inj {E} n1 r1 n2 r2 m :
  encodable n1 r1 -> encodable n2 r2 ->
  RecordMessage (E := E) n1 r1 = Ret m -> RecordMessage (E := E) n2 r2 = Ret m ->
  n1 = n2 /\ Type_ r1 = Type_ r2 /\ Selector r1 = Selector r2 /\ TTL r1 = TTL r2
  /\ Generation r1 = Generation r2 /\ fields r1 ≡ₚ fields r2.
Proof.
  intros E1 E2 [_ ->]%RecordMessage_Ret [_ H]%RecordMessage_Ret.
  pose proof (fields_fit _ _ E1) as [F1 L1]. pose proof (fields_fit _ _ E2) as [F2 L2].
  destruct E1 as (? & ? & ? & ? & _), E2 as (? & ? & ? & ? & _).
  apply message_of_inj in H as (? & ? & ? & ? & ? & Hp); [|done..].
  do 5 (split; [done|]). by rewrite <- (sort_pairs_perm (fields r1)), Hp, sort_pairs_perm.
Qed.

(** The bytes an owner signs determine the name, the type, the selector, the
    TTL, the generation and the set of fields of the record: no two records (or
    names) with representable lengths share a message. *)
Theorem RecordMessage_injective {E} n1 r1 n2 r2 m :
  encodable n1 r1 -> encodable n2 r2 ->
  RecordMessage (E := E) n1 r1 = Ret m -> RecordMessage (E := E) n2 r2 = Ret m ->
  n1 = n2 /\ Type_ r1 = Type_ r2 /\ Selector r1 = Selector r2 /\ TTL r1 = TTL r2
  /\ Generation r1 = Generation r2 /\ fields r1 ≡ₚ fields r2.
Proof. apply RecordMessage_inj. Qed.

(** The message does not depend on the order in which the chain lists the
    fields, nor on the sorting algorithm, when the field names are distinct. *)
Theorem RecordMessage_field_order {E} name r1 r2 m :
  Type_ r1 = Type_ r2 -> Selector r1 = Selector r2 -> TTL r1 = TTL r2 -> Generation r1 = Generation r2 ->
  fields r1 ≡ₚ fields r2 -> NoDup (fields r1).*1 ->
  (length (FieldNames r2) <= length (FieldVals r2))%nat ->
  RecordMessage (E := E) name r1 = Ret m -> RecordMessage (E := E) name r2 = Ret m.
Proof.
  intros H1 H2 H3 H4 Hp Hnd Hl [_ ->]%RecordMessage_Ret. apply RecordMessage_Ret. split; [done|].
  replace (sort_pairs (fields r2)) with (sort_pairs (fields r1)).
  { unfold message_of. congruence. }
  eapply StronglySorted_unique_strong; [|apply sort_pairs_sorted..|by rewrite !sort_pairs_perm].
  intros [k1 v1] [k2 v2]. rewrite !sort_pairs_perm, <- Hp. cbn. intros Hi1 Hi2 Hle1 Hle2.
  assert (k1 = k2) as -> by (by apply (anti_symm bytes_le)).
  apply list_elem_of_lookup in Hi1 as [i Hi], Hi2 as [j Hj].
  assert (i = j) as -> by (eapply (NoDup_lookup (fields r1).*1); rewrite ?list_lookup_fmap, ?Hi, ?Hj; done).
  congruence.
Qed.
End Message.

(** * Owner signatures *)
Section Signatures.
Context {SP : SortPairs} {SPL : SortPairsLaws}.
Context {Priv Pub : Type} `{!EthCrypto Priv Pub}.

(** The raw [R || S || V] form of a stored signature. *)
Definition raw_sig (sig : bytes) : bytes :=
  match sig !! 64%nat with
  | Some v => if 27 <=? b2z v then <[64%nat := z2b (b2z v - 27)]> sig else sig
  | None => sig
  end.

Lemma raw_recovery_id_Ret sig : length sig = SignatureLength -> raw_recovery_id sig = Ret (raw_sig sig).
Proof.
  intros Hl. unfold raw_recovery_id, raw_sig, SignatureLength in *.
  destruct (sig !! 64%nat) eqn:E; [done|]. apply lookup_ge_None in E. lia.
Qed.

(** What the checks after recovery ask of the recovered key. *)
Definition key_matches (owner : address) (pubKey : bytes) (pub : Pub) : Prop :=
  (isPlaceholderPubKey pubKey = true \/ FromECDSAPub pub = pubKey) /\ PubkeyToAddress pub = owner.

Definition sig_ok (name : bytes) (r : Record) (owner : address) (pubKey : bytes) : Prop :=
  length (FieldNames r) = length (FieldVals r) /\ length (OwnerSig r) = SignatureLength
  /\ exists pub, SigToPub (TextHash (message_of name r (sort_pairs (fields r)))) (raw_sig (OwnerSig r)) = Some pub
      /\ key_matches owner pubKey pub.

Lemma VerifyOwnerSig_spec name r owner pubKey :
  match VerifyOwnerSig name r owner pubKey with
  | Ret _ => sig_ok name r owner pubKey
  | Err _ => ~ sig_ok name r owner pubKey
  | Panic => False
  end.
Proof.
  unfold VerifyOwnerSig, sig_ok, key_matches.
  destruct (Nat.eqb_spec (length (FieldNames r)) (length (FieldVals r))) as [Hf|Hf]; cbn [negb]; [|naive_solver].
  destruct (Nat.eqb_spec (length (OwnerSig r)) SignatureLength) as [Hs|Hs]; cbn [negb]; [|naive_solver].
  rewrite raw_recovery_id_Ret by done. cbn.
  rewrite (proj2 (RecordMessage_Ret name r (message_of name r (sort_pairs (fields r))))) by (split; [lia|done]). cbn.
  destruct (SigToPub _ _) as [pub|]; [|naive_solver].
  destruct (isPlaceholderPubKey pubKey); cbn [negb andb].
  - case_bool_decide; cbn; naive_solver.
  - repeat (case_bool_decide; cbn); naive_solver.
Qed.

(** C32. VerifyOwnerSig never panics and accepts exactly the records whose field
    arrays match and whose 65-byte signature recovers, from the canonical
    message, a key that hashes to the owner and is the registered one (when one
    is registered). *)
Theorem VerifyOwnerSig_accepts name r owner pubKey :
  VerifyOwnerSig name r owner pubKey <> Panic
  /\ (VerifyOwnerSig name r owner pubKey = Ret () <-> sig_ok name r owner pubKey).
Proof.
  pose proof (VerifyOwnerSig_spec name r owner pubKey) as H.
  destruct (VerifyOwnerSig name r owner pubKey) as [[]| |]; naive_solver.
Qed.

Definition with_sig (r : Record) (sig : bytes) : Record :=
  mkRecord (Type_ r) (Selector r) (FieldNames r) (FieldVals r) (TTL r) (Generation r) sig (Commitment r) (Exists r).

Lemma add_v_raw sig v :
  length sig = 65%nat -> sig !! 64%nat = Some v -> b2z v <= 1 ->
  exists sig', add_v sig = Ret sig' /\ length sig' = 65%nat /\ raw_sig sig' = sig.
Proof.
  intros Hl Hv Hle. unfold add_v. rewrite Hv. cbn. eexists. split; [done|].
  rewrite length_insert. split; [done|]. unfold raw_sig.
  rewrite list_lookup_insert_eq by lia. rewrite b2z_z2b. pose proof (b2z_range v).
  rewrite Z.mod_small by lia. rewrite (proj2 (Z.leb_le _ _)) by lia.
  rewrite list_insert_insert_eq. replace (b2z v + 27 - 27) with (b2z v) by lia.
  rewrite z2b_b2z. by apply list_insert_id.
Qed.

(** A record signed with SignRecord verifies: against the key's address, and
    against the key itself or a placeholder. *)
Lemma SignRecord_verifies `{!EthCryptoLaws Priv Pub} name r k sig pubKey :
  length (FieldNames r) = length (FieldVals r) ->
  SignRecord name r k = Ret sig ->
  isPlaceholderPubKey pubKey = true \/ pubKey = FromECDSAPub (eth_pub k) ->
  VerifyOwnerSig name (with_sig r sig) (PubkeyToAddress (eth_pub k)) pubKey = Ret ().
Proof.
  intros Hf Hs Hpk. pose proof (VerifyOwnerSig_spec name (with_sig r sig) (PubkeyToAddress (eth_pub k)) pubKey) as H.
  unfold SignRecord in Hs.
  rewrite (proj2 (RecordMessage_Ret name r (message_of name r (sort_pairs (fields r))))) in Hs by (split; [lia|done]).
  cbn in Hs. destruct (eth_Sign _ k) as [raw|] eqn:E; [|done].
  destruct (eth_Sign_format _ _ _ E) as (Hl & v & Hv & Hle).
  destruct (add_v_raw raw v Hl Hv Hle) as (sig' & Ha & Hl' & Hraw). rewrite Ha in Hs. injection Hs as ->.
  assert (sig_ok name (with_sig r sig) (PubkeyToAddress (eth_pub k)) pubKey) as Hok.
  { split; [done|]. split; [done|]. exists (eth_pub k). cbn [OwnerSig with_sig]. rewrite Hraw.
    split; [by apply eth_Sign_recovers|]. split; [naive_solver|done]. }
  destruct (VerifyOwnerSig _ _ _ _) as [[]| |]; done.
Qed.

(** The order of secp256k1's group, modulo which ECDSA reads a digest. *)
Definition secp256k1_n : Z := 2 ^ 256 - 432420386565659656852420866394968145599.

(** The digest a record's signature is recovered from. *)
Definition digest (name : bytes) (r : Record) : bytes := TextHash (message_of name r (sort_pairs (fields r))).

(** C31. A signature cannot be replayed: if one signature (in either form of its
    recovery byte) makes two records verify for the same owner and registered key,
    they are one record: the same name, generation, type, selector, TTL and set of
    fields. So a signature the owner gave for a record verifies no other, in
    particular none of a later generation, after a transfer or a re-registration.

    ECDSA recovers Q = r^-1 (s R - z G), so a signature that recovers one key from
    two digests has digests equal modulo the group's order; the other two hypotheses
    concern the two records at hand only: their messages do not collide, and the keys
    recovered do not have one registered key, or one address, unless they are equal. *)
Theorem VerifyOwnerSig_no_replay owner pubKey name r name' r' :
  (forall d d' sig pub, SigToPub d sig = Some pub -> SigToPub d' sig = Some pub -> be_Z d mod secp256k1_n = be_Z d' mod secp256k1_n) ->
  (be_Z (digest name r) mod secp256k1_n = be_Z (digest name' r') mod secp256k1_n ->
     message_of name r (sort_pairs (fields r)) = message_of name' r' (sort_pairs (fields r'))) ->
  (forall p p', SigToPub (digest name r) (raw_sig (OwnerSig r)) = Some p -> SigToPub (digest name' r') (raw_sig (OwnerSig r')) = Some p' ->
     key_matches owner pubKey p -> key_matches owner pubKey p' -> p = p') ->
  encodable name r -> encodable name' r' ->
  VerifyOwnerSig name r owner pubKey = Ret () -> VerifyOwnerSig name' r' owner pubKey = Ret () ->
  raw_sig (OwnerSig r) = raw_sig (OwnerSig r') ->
  name = name' /\ Generation r = Generation r' /\ Type_ r = Type_ r' /\ Selector r = Selector r' /\ TTL r = TTL r'
  /\ fields r ≡ₚ fields r'.
Proof.
  intros Hbind Hcol Hkey He He' Hv Hv' Hsig.
  pose proof (VerifyOwnerSig_spec name r owner pubKey) as H. rewrite Hv in H. destruct H as (Hf & _ & p & Hp & Hm).
  pose proof (VerifyOwnerSig_spec name' r' owner pubKey) as H. rewrite Hv' in H. destruct H as (Hf' & _ & p' & Hp' & Hm').
  fold (digest name r) in Hp. fold (digest name' r') in Hp'.
  assert (p' = p) as -> by (symmetry; by apply Hkey). rewrite Hsig in Hp.
  specialize (Hcol (Hbind _ _ _ _ Hp Hp')).
  destruct (RecordMessage_inj (E := ()) name r name' r' (message_of name r (sort_pairs (fields r))) He He') as (? & ? & ? & ? & ? & ?).
  - apply RecordMessage_Ret. split; [lia|done].
  - apply RecordMessage_Ret. split; [lia|exact Hcol].
  - done.
Qed.
End Signatures.

(** * Resource manifests, envelopes and the identity key *)
Section Resolver.
Context {EdPriv : Type} {ED : Ed25519 EdPriv} {EDL : Ed25519Laws EdPriv} {HX : Hexutil} {HXL : HexutilLaws}.
Variable Sum256 : bytes -> bytes.

Lemma decode_sized_hex n b : length b = n -> decode_sized n (str "0x" ++ hex_encode b) = Some b.
Proof. intros Hl. unfold decode_sized. rewrite hexutil_Decode_hex, Hl, Nat.eqb_refl. done. Qed.

(** The provenance the resolver asserts about a resource. *)
Record provenance := mkProvenance {
  p_owner : bytes; p_pubKeyHex : bytes; p_infoHash : bytes; p_sha256Hex : bytes;
  p_contentType : bytes; p_ownerSigVerified : bool; p_zkProofHex : bytes }.
Definition manifest (p : provenance) (body : bytes) : bytes :=
  ResourceManifest Sum256 (p_owner p) (p_pubKeyHex p) (p_infoHash p) (p_sha256Hex p) (p_contentType p)
    (p_ownerSigVerified p) (p_zkProofHex p) body.
Definition provenance_fits (p : provenance) : Prop :=
  fits 4 (p_owner p) /\ fits 4 (p_pubKeyHex p) /\ fits 4 (p_infoHash p) /\ fits 4 (p_sha256Hex p)
  /\ fits 4 (p_contentType p) /\ fits 4 (p_zkProofHex p).

(** Two resource responses with the same manifest assert the same provenance
    and serve the same body (sha256 having no collision between them): a
    signature on the manifest covers every header and every byte. *)
Theorem ResourceManifest_injective p1 b1 p2 b2 :
  (Sum256 b1 = Sum256 b2 -> b1 = b2) ->
  provenance_fits p1 -> provenance_fits p2 -> manifest p1 b1 = manifest p2 b2 -> p1 = p2 /\ b1 = b2.
Proof.
  intros Hsum (H1 & H2 & H3 & H4 & H5 & H6) (K1 & K2 & K3 & K4 & K5 & K6) H. unfold manifest, ResourceManifest in H.
  destruct p1 as [o1 k1 i1 s1 c1 v1 z1], p2 as [o2 k2 i2 s2 c2 v2 z2]. cbn [p_owner p_pubKeyHex p_infoHash p_sha256Hex
    p_contentType p_ownerSigVerified p_zkProofHex] in *.
  apply app_inj_length in H as [_ H]; [|done].
  do 5 (apply writeStr_app_inj in H as [-> H]; [|done..]).
  apply app_inj_length in H as [Hv H]; [|done]. apply writeStr_app_inj in H as [-> H]; [|done..].
  split; [|auto]. f_equal. by destruct v1, v2.
Qed.

(** What the resolver signs verifies: a sealed envelope passes VerifyEnvelope
    and a signed manifest passes VerifyResourceSignature, with the key the
    resolver publishes. *)
Theorem resolver_signatures_verify {V E} (marshal : V -> go E bytes) (id : Identity EdPriv) v env p body :
  SealEnvelope marshal id v = Ret env ->
  VerifyEnvelope (EdPriv := EdPriv) env = Ret () /\ marshal v = Ret (Data env) /\ Resolver env = PublicKeyHex id
  /\ VerifyResourceSignature Sum256 (EdPriv := EdPriv) (PublicKeyHex id)
       (hexutil_Encode (Sign id (manifest p body)))
       (p_owner p) (p_pubKeyHex p) (p_infoHash p) (p_sha256Hex p) (p_contentType p)
       (p_ownerSigVerified p) (p_zkProofHex p) body = Ret ().
Proof.
  unfold SealEnvelope. intros (data & Hm & [= <-])%go_bind_ret.
  unfold VerifyEnvelope, VerifyResourceSignature. cbn [Resolver Signature Data].
  unfold PublicKeyHex. rewrite !hexutil_Encode_hex. unfold PublicKeySize, EdSignatureSize, PublicKey, Sign.
  rewrite !decode_sized_hex by (apply ed_Public_length || apply ed_Sign_length).
  fold (manifest p body). rewrite !ed_Verify_Sign. done.
Qed.

(** A change to a sealed envelope is noticed unless the signature still verifies. *)
Lemma VerifyEnvelope_Ret env :
  VerifyEnvelope (EdPriv := EdPriv) env = Ret () ->
  exists pub sig, hexutil_Decode (Resolver env) = Some pub /\ hexutil_Decode (Signature env) = Some sig
    /\ length pub = 32%nat /\ length sig = 64%nat /\ ed_Verify pub (Data env) sig = true.
Proof.
  unfold VerifyEnvelope, decode_sized.
  destruct (hexutil_Decode (Resolver env)) as [pub|]; [|done]. destruct (Nat.eqb_spec (length pub) PublicKeySize); [|done].
  destruct (hexutil_Decode (Signature env)) as [sig|]; [|done]. destruct (Nat.eqb_spec (length sig) EdSignatureSize); [|done].
  destruct (ed_Verify pub (Data env) sig) eqn:E; [|done]. intros _. exists pub, sig. done.
Qed.

(** The key created on first boot is the key loaded on every later boot. *)
Theorem identity_persists (f : fs) id data f' :
  LoadOrCreateIdentity f = Ret (id, Some data) -> length (default [] (fs_random f)) = SeedSize ->
  fs_read f' = FileData data ->
  LoadOrCreateIdentity f' = Ret (id, None).
Proof.
  unfold LoadOrCreateIdentity. intros H Hl Hr. rewrite Hr. destruct (fs_read f).
  - destruct (hex_decode _) as [seed|]; [destruct (Nat.eqb _ _)|]; done.
  - destruct (fs_random f) as [seed|]; [|done]. cbn in Hl.
    destruct (fs_has_dir f && _); [done|]. destruct (negb (fs_write_ok f)); [done|]. injection H as <- <-.
    rewrite TrimSpace_newline.
    + assert (TrimPrefix (hex_encode seed) (str "0x") = hex_encode seed) as ->.
      { unfold TrimPrefix. destruct (drop_prefix _ _) as [s'|] eqn:E; [|done].
        apply drop_prefix_Some in E. pose proof (hex_encode_is_hex seed) as Hh. rewrite E in Hh.
        cbn in Hh. apply Forall_cons in Hh as [_ Hh]. by apply Forall_cons in Hh as [Hx _]. }
      rewrite hex_decode_encode, Hl. done.
    + intros E. apply (f_equal length) in E. rewrite hex_encode_length, Hl in E. done.
    + eapply Forall_impl; [apply hex_encode_is_hex|]. exact is_hex_solid.
  - done.
Qed.
End Resolver.

(** * Concrete instances

    Toy primitives with the laws above, on which the functions can be run. *)
Definition key_le (p q : bytes * bytes) : Prop := bytes_le p.1 q.1.
#[export] Instance key_le_dec : RelDecision key_le.
Proof. intros p q. unfold key_le. apply _. Defined.
#[export] Instance key_le_trans : Transitive key_le.
Proof. intros p q r. unfold key_le. apply bytes_le_trans. Qed.
#[export] Instance key_le_total : Total key_le.
Proof. intros p q. unfold key_le. apply bytes_le_total. Qed.
#[export] Instance merge_sort_pairs : SortPairs := merge_sort key_le.
#[export] Instance merge_sort_pairs_laws : SortPairsLaws.
Proof. split; intros l; [apply merge_sort_Permutation|apply (StronglySorted_merge_sort key_le)]. Qed.

Definition demo_record : Record :=
  mkRecord (str "A") [] [str "ttl-hint"; str "ip"] [str "1"; str "10.0.0.1"] 300 2 (replicate 65 x00) zero_hash true.
Definition demo_record' : Record :=
  mkRecord (str "A") [] [str "ip"; str "ttl-hint"] [str "10.0.0.1"; str "1"] 300 2 [] zero_hash true.

Lemma demo_encodable : encodable (str "alice") demo_record.
Proof. repeat split; repeat constructor; vm_compute; congruence. Qed.

Definition demo_message : bytes :=
  Eval vm_compute in message_of (str "alice") demo_record (sort_pairs (fields demo_record)).

Lemma RecordMessage_injective_witness :
  RecordMessage (E := ()) (str "alice") demo_record = Ret demo_message
  /\ fields demo_record ≡ₚ fields demo_record'.
Proof.
  split; [vm_compute; reflexivity|].
  apply (RecordMessage_injective (E := ()) (str "alice") demo_record (str "alice") demo_record' demo_message).
  - exact demo_encodable.
  - repeat split; repeat constructor; vm_compute; congruence.
  - vm_compute. reflexivity.
  - vm_compute. reflexivity.
Defined.

Lemma RecordMessage_field_order_witness : RecordMessage (E := ()) (str "alice") demo_record' = Ret demo_message.
Proof.
  apply (RecordMessage_field_order (E := ()) (str "alice") demo_record demo_record' demo_message); try reflexivity.
  - cbn. apply perm_swap.
  - apply (bool_decide_unpack _). vm_compute. exact I.
Defined.

(** Keys are numbers; a signature carries the key. *)
Definition toy_eth : EthCrypto Z Z := {|
  TextHash m := m;
  SigToPub d sig := Some (be_Z (take 32 sig));
  FromECDSAPub p := be_bytes 65 p;
  PubkeyToAddress p := be_bytes 20 p;
  eth_Sign d k := Some (be_bytes 32 k ++ replicate 33 x00);
|}.
Lemma toy_sig_format k :
  length (be_bytes 32 k ++ replicate 33 x00) = 65%nat
  /\ exists v, (be_bytes 32 k ++ replicate 33 x00) !! 64%nat = Some v /\ b2z v <= 1.
Proof. split; [by rewrite length_app, be_bytes_length|]. by exists x00. Qed.

Lemma toy_sig_key k : be_Z (take 32 (be_bytes 32 k ++ replicate 33 x00)) = k mod 256 ^ 32.
Proof. rewrite take_app_length' by (symmetry; apply be_bytes_length). by rewrite be_Z_be_bytes. Qed.

Definition toy_eth_laws : EthCryptoLaws Z Z (H := toy_eth).
Proof.
  refine (Build_EthCryptoLaws Z Z toy_eth (fun k => k mod 256 ^ 32) _ _).
  - intros d k sig [= <-]. apply toy_sig_format.
  - intros d k sig [= <-]. exact (f_equal Some (toy_sig_key k)).
Defined.

Lemma demo_record_verifies :
  VerifyOwnerSig (EthCrypto0 := toy_eth) (str "alice")
    (with_sig demo_record (be_bytes 32 77 ++ replicate 32 x00 ++ [x1b])) (be_bytes 20 77) (be_bytes 65 77) = Ret ().
Proof.
  apply (SignRecord_verifies (EthCrypto0 := toy_eth) (EthCryptoLaws0 := toy_eth_laws) (str "alice") demo_record 77).
  - reflexivity.
  - vm_compute. reflexivity.
  - right. reflexivity.
Qed.

(** Signatures that recover, and bind the digest: s = k + z modulo the order. *)
Definition sum_eth : EthCrypto Z Z := {|
  TextHash m := be_bytes 32 (be_Z m);
  SigToPub d sig := Some ((be_Z (take 32 sig) - be_Z d) mod secp256k1_n);
  FromECDSAPub p := be_bytes 65 p;
  PubkeyToAddress p := be_bytes 20 p;
  eth_Sign d k := Some (be_bytes 32 ((k + be_Z d) mod secp256k1_n) ++ replicate 33 x00);
|}.
Lemma secp256k1_n_bound : 0 < secp256k1_n < 256 ^ 32.
Proof. by split. Qed.
Definition sum_eth_laws : EthCryptoLaws Z Z (H := sum_eth).
Proof.
  refine (Build_EthCryptoLaws Z Z sum_eth (fun k => k mod secp256k1_n) _ _).
  - intros d k sig [= <-]. apply toy_sig_format.
  - intros d k sig [= <-].
    change (Some ((be_Z (take 32 (be_bytes 32 ((k + be_Z d) mod secp256k1_n) ++ replicate 33 x00)) - be_Z d) mod secp256k1_n)
      = Some (k mod secp256k1_n)). f_equal. rewrite toy_sig_key. pose proof secp256k1_n_bound.
    pose proof (Z.mod_pos_bound (k + be_Z d) secp256k1_n ltac:(lia)).
    rewrite (Z.mod_small _ (256 ^ 32)) by lia. rewrite Zminus_mod_idemp_l. f_equal. lia.
Defined.
Lemma sum_eth_binds d d' sig pub :
  SigToPub (EthCrypto := sum_eth) d sig = Some pub -> SigToPub (EthCrypto := sum_eth) d' sig = Some pub ->
  be_Z d mod secp256k1_n = be_Z d' mod secp256k1_n.
Proof.
  cbn -[secp256k1_n]. set (s := be_Z (take 32 sig)). intros [= <-] [= H].
  assert (forall x, x mod secp256k1_n = (s - (s - x) mod secp256k1_n) mod secp256k1_n) as Hx
    by (intros x; rewrite Zminus_mod_idemp_r; f_equal; lia).
  by rewrite (Hx (be_Z d)), (Hx (be_Z d')), H.
Qed.

(** Key 77 signs the demo record; the same fields in another order verify with it. *)
Definition demo_signature : bytes :=
  Eval vm_compute in match SignRecord (EthCrypto0 := sum_eth) (str "alice") demo_record 77 with Ret sig => sig | _ => [] end.
Lemma VerifyOwnerSig_no_replay_witness :
  VerifyOwnerSig (EthCrypto0 := sum_eth) (str "alice") (with_sig demo_record demo_signature) (be_bytes 20 77) (be_bytes 65 77) = Ret ()
  /\ Generation demo_record = Generation demo_record' /\ fields demo_record ≡ₚ fields demo_record'.
Proof.
  split; [vm_refl|].
  destruct (VerifyOwnerSig_no_replay (EthCrypto0 := sum_eth) (be_bytes 20 77) (be_bytes 65 77) (str "alice") (with_sig demo_record demo_signature)
    (str "alice") (with_sig demo_record' demo_signature)) as (_ & Hg & _ & _ & _ & Hf).
  - exact sum_eth_binds.
  - intros _. vm_refl.
  - intros p p' Hp Hp' _ _. assert (Some p = Some p') as [= ->]; [|reflexivity]. rewrite <- Hp, <- Hp'. vm_refl.
  - repeat split; repeat constructor; vm_compute; congruence.
  - repeat split; repeat constructor; vm_compute; congruence.
  - vm_refl.
  - vm_refl.
  - reflexivity.
  - split; [exact Hg|exact Hf].
Defined.

(** A checksum in place of the signature. *)
Definition toy_sign (pub m : bytes) : bytes := be_bytes 64 (be_Z pub + be_Z m).
#[export] Instance toy_ed : Ed25519 bytes := {
  ed_NewKeyFromSeed seed := seed;
  ed_Public k := be_bytes 32 (be_Z k);
  ed_Sign k m := toy_sign (be_bytes 32 (be_Z k)) m;
  ed_Verify pub m sig := bool_decide (sig = toy_sign pub m);
}.
#[export] Program Instance toy_ed_laws : Ed25519Laws bytes.
Next Obligation. intros k. apply be_bytes_length. Qed.
Next Obligation. intros k m. apply be_bytes_length. Qed.
Next Obligation. intros k m. by apply bool_decide_eq_true_2. Qed.

Definition demo_provenance : provenance :=
  mkProvenance (str "0xabc") (str "0x04") (str "11") (str "22") (str "text/html") true [].
Definition demo_sum (b : bytes) : bytes := be_bytes 32 (be_Z b).
Definition demo_seed : bytes := Eval vm_compute in be_bytes 32 (12345 ^ 17).

Lemma ResourceManifest_injective_witness : demo_provenance = demo_provenance /\ str "hi" = str "hi".
Proof.
  apply (ResourceManifest_injective demo_sum).
  - reflexivity.
  - repeat split; vm_compute; congruence.
  - repeat split; vm_compute; congruence.
  - reflexivity.
Defined.

Lemma resolver_signatures_verify_witness :
  VerifyEnvelope (EdPriv := bytes)
    (mkEnvelope (str "{}") (PublicKeyHex (mkIdentity demo_seed))
      (hexutil_Encode (Sign (mkIdentity demo_seed) (str "{}")))) = Ret ().
Proof.
  destruct (resolver_signatures_verify (EdPriv := bytes) demo_sum (fun v : bytes => Ret (E := ()) v) (mkIdentity demo_seed)
    (str "{}") _ demo_provenance (str "hi") eq_refl) as [H _]. exact H.
Defined.

Lemma identity_persists_witness :
  LoadOrCreateIdentity (EdPriv := bytes) (mkFs (FileData (hex_encode demo_seed ++ [x0a])) None true true true)
  = Ret (mkIdentity demo_seed, None).
Proof.
  apply (identity_persists (EdPriv := bytes) (mkFs FileNotExist (Some demo_seed) true true true) (mkIdentity demo_seed)
    (hex_encode demo_seed ++ [x0a])); reflexivity.
Defined.

End Pki.
