(* ===== verification/Zk.v ===== *)
(** Package [zk] (src/resolver/internal/zk) and cmd/record-commit: the packing of a
    record message into field elements, its MiMC commitment, the Groth16 prover
    and verifier calls and the calldata form of a proof.

    gnark and gnark-crypto are interfaces: the MiMC hasher, the in-circuit MiMC
    gadget, the Groth16 backend and the canonical field encoding, with the laws
    the code relies on. *)
From S2P Require Import Prelude GoStrings Encoding Chain Pki.
Import Chain Pki.

Local Open Scope Z_scope.

(** gnark-crypto's bn254/fr/mimc: a hasher fed with blocks. *)
Class Mimc (St : Type) := {
  mimc_New : St;
  mimc_Write : bytes -> St -> option St;    (* None: the error of Write *)
  mimc_Sum : St -> bytes;
}.
(** The order of the BN254 scalar field. *)
Definition fr_modulus : Z :=
  21888242871839275222246405745257275088548364400416034343698204186575808495617.

(** "Write ... the data is expected to be a multiple of 32 bytes, each block a
    big-endian element smaller than the modulus" *)
Class MimcLaws (St : Type) `{Mimc St} := {
  mimc_Write_canonical b st : length b = 32%nat -> be_Z b < fr_modulus -> is_Some (mimc_Write b st);
  mimc_Sum_length st : length (mimc_Sum st) = 32%nat;
}.

(** A Groth16 proof over BN254: the coordinates of A, B and C. *)
Record Proof := mkProof {
  Ar_X : Z; Ar_Y : Z; Bs_X_A1 : Z; Bs_X_A0 : Z; Bs_Y_A1 : Z; Bs_Y_A0 : Z; Krs_X : Z; Krs_Y : Z }.

(** type RecordCommitmentCircuit struct: the assignment of its variables. *)
Record RecordCommitmentCircuit := mkCircuit { Length : Z; Chunks : list Z; C_Commitment : Z }.

(** gnark: constraint systems, keys, witnesses, prover and verifier *)
Class Groth16 (CCS PK VK Wit PubWit : Type) := {
  cs_ReadFrom : bytes -> option CCS;
  pk_ReadFrom : bytes -> option PK;
  vk_ReadFrom : bytes -> option VK;
  NewWitness : RecordCommitmentCircuit -> option Wit;
  NewPublicWitness : Z -> option PubWit;
  groth16_Prove : CCS -> PK -> Wit -> option Proof;
  groth16_Verify : Proof -> VK -> PubWit -> bool;
  MarshalSolidity : Proof -> bytes;
  SetBytesCanonical : bytes -> option Z;
}.

Module Zk.

Definition ChunkSize : Z := 31.
Definition MaxChunks : Z := 16.
Definition MaxPayload : Z := ChunkSize * MaxChunks.

Inductive zk_error :=
| ErrPayloadTooLarge (n : Z)
| HashWriteFailed
| ArtifactsMissing | ReadCcs | PkMissing | ReadPk | VkMissing | ReadVk
| WitnessFailed | ProveFailed | PublicWitnessFailed | VerifyFailed
| BadCalldataLength (n : Z) | BadCoordinate (i : nat).

(** [msg[lo:hi]] *)
Definition slice (lo hi : Z) (msg : bytes) : bytes := take (Z.to_nat (hi - lo)) (drop (Z.to_nat lo) msg).

Definition chunk (msg : bytes) (i : Z) : bytes :=
  let lo := i * ChunkSize in
  let len := Z.of_nat (length msg) in
  if lo <? len then slice lo (Z.min (lo + ChunkSize) len) msg else [].

Definition PackMessage (msg : bytes) : go zk_error (list Z) :=
  let len := Z.of_nat (length msg) in
  if MaxPayload <? len then Err (ErrPayloadTooLarge len)
  else Ret (len :: map (fun i => be_Z (chunk msg i)) (seqZ 0 MaxChunks)).

(** fr.Element: SetBigInt reduces, Bytes is 32 bytes, big endian. *)
Definition fr_bytes (z : Z) : bytes := be_bytes 32 (z mod fr_modulus).

Section Commitment.
Context {St : Type} `{!Mimc St}.

Fixpoint write_elements (els : list Z) (h : St) : go zk_error St :=
  match els with
  | [] => Ret h
  | el :: els =>
      match mimc_Write (fr_bytes el) h with
      | Some h => write_elements els h
      | None => Err HashWriteFailed
      end
  end.

Definition Commitment (msg : bytes) : go zk_error bytes :=
  elements ← PackMessage msg;
  h ← write_elements elements mimc_New;
  mret (mimc_Sum h).

Definition assignment (msg : bytes) : go zk_error RecordCommitmentCircuit :=
  elements ← PackMessage msg;
  commitment ← Commitment msg;
  match elements with
  | len :: chunks => mret (mkCircuit len chunks (be_Z commitment))
  | [] => Panic
  end.

(** The circuit: the in-circuit hash of the length and the chunks is asserted
    equal to the commitment. [gadget] is std/hash/mimc. *)
Definition circuit_holds (gadget : list Z -> Z) (c : RecordCommitmentCircuit) : Prop :=
  gadget (Length c :: Chunks c) mod fr_modulus = C_Commitment c mod fr_modulus.

(** The embedded files. *)
Variable artifact : bytes -> option bytes.
Context {CCS PK VK Wit PubWit : Type} `{!Groth16 CCS PK VK Wit PubWit}.

(** loadArtifacts: the embedded files do not change, so the sync.Once gives every
    call the result of the first. *)
Definition loadArtifacts : go zk_error (CCS * PK * VK) :=
  match artifact (str "artifacts/record_v1.ccs") with
  | None => Err ArtifactsMissing
  | Some b =>
      match cs_ReadFrom b with
      | None => Err ReadCcs
      | Some ccs =>
          match artifact (str "artifacts/record_v1.pk") with
          | None => Err PkMissing
          | Some b =>
              match pk_ReadFrom b with
              | None => Err ReadPk
              | Some pk =>
                  match artifact (str "artifacts/record_v1.vk") with
                  | None => Err VkMissing
                  | Some b =>
                      match vk_ReadFrom b with
                      | None => Err ReadVk
                      | Some vk => Ret (ccs, pk, vk)
                      end
                  end
              end
          end
      end
  end.

Definition VerifyingKey : go zk_error VK := '(_, _, vk) ← loadArtifacts; mret vk.

Definition or_error {A} (e : zk_error) (o : option A) : go zk_error A :=
  match o with Some a => Ret a | None => Err e end.

Definition Prove (msg : bytes) : go zk_error Proof :=
  '(ccs, pk, _) ← loadArtifacts;
  assign ← assignment msg;
  w ← or_error WitnessFailed (NewWitness assign);
  or_error ProveFailed (groth16_Prove ccs pk w).

Definition publicWitness (commitment : bytes) : go zk_error PubWit :=
  or_error PublicWitnessFailed (NewPublicWitness (be_Z commitment)).

Definition Verify (proof : Proof) (commitment : bytes) : go zk_error () :=
  '(_, _, vk) ← loadArtifacts;
  pubW ← publicWitness commitment;
  if groth16_Verify proof vk pubW then Ret () else Err VerifyFailed.

(** SolidityCalldata; the BN254 backend makes BN254 proofs, so the type assertion
    succeeds. *)
Definition SolidityCalldata (proof : Proof) : go zk_error bytes := Ret (MarshalSolidity proof).

(** [p.F.SetBytesCanonical(data[32*i:32*(i+1)])] *)
Definition coordinate (data : bytes) (i : nat) : go zk_error Z :=
  or_error (BadCoordinate i) (SetBytesCanonical (take 32 (drop (32 * i) data))).

Definition ProofFromSolidityCalldata (data : bytes) : go zk_error Proof :=
  if negb (Nat.eqb (length data) 256) then Err (BadCalldataLength (Z.of_nat (length data)))
  else
    ax ← coordinate data 0; ay ← coordinate data 1;
    bx1 ← coordinate data 2; bx0 ← coordinate data 3;
    by1 ← coordinate data 4; by0 ← coordinate data 5;
    kx ← coordinate data 6; ky ← coordinate data 7;
    mret (mkProof ax ay bx1 bx0 by1 by0 kx ky).
End Commitment.

(** * cmd/record-commit *)
Section RecordCommit.
Context {SP : SortPairs} {St : Type} `{!Mimc St} `{!Hexutil}.

Inductive commit_error := BadInput | LengthMismatch | CommitFailed (e : zk_error).

(** main, on the decoded input; the result is what it prints. *)
Definition record_commit (name : bytes) (r : Record) : go commit_error bytes :=
  if negb (Nat.eqb (length (FieldNames r)) (length (FieldVals r))) then Err LengthMismatch
  else
    msg ← RecordMessage name r;
    match Commitment msg with
    | Ret com => Ret (hexutil_Encode com)
    | Err (ErrPayloadTooLarge _) => Ret (hexutil_Encode (replicate 32 x00))
    | Err e => Err (CommitFailed e)
    | Panic => Panic
    end.
End RecordCommit.

(** * Packing *)

Lemma chunk_nat msg (i : nat) :
  chunk msg (Z.of_nat i) = take 31 (drop (31 * i) msg).
Proof.
  unfold chunk, slice, ChunkSize. destruct (Z.ltb_spec (Z.of_nat i * 31) (Z.of_nat (length msg))).
  - replace (Z.to_nat (Z.of_nat i * 31)) with (31 * i)%nat by lia.
    destruct (decide (Z.of_nat i * 31 + 31 <= Z.of_nat (length msg))).
    + rewrite Z.min_l by lia. f_equal. lia.
    + rewrite Z.min_r by lia. rewrite !take_ge; [done|..]; rewrite length_drop; lia.
  - rewrite drop_ge by lia. by rewrite take_nil.
Qed.

Lemma chunk_range msg i : 0 <= be_Z (chunk msg (Z.of_nat i)) < 2 ^ 248.
Proof.
  rewrite chunk_nat. pose proof (be_Z_range (take 31 (drop (31 * i) msg))) as [H1 H2]. split; [done|].
  eapply Z.lt_le_trans; [exact H2|]. change (2 ^ 248) with (256 ^ 31). apply Z.pow_le_mono_r; [lia|].
  rewrite length_take. lia.
Qed.

Lemma chunks_inj (n : nat) (m1 m2 : bytes) :
  length m1 = length m2 -> (length m1 <= 31 * n)%nat ->
  (forall i, (i < n)%nat -> be_Z (take 31 (drop (31 * i) m1)) = be_Z (take 31 (drop (31 * i) m2))) -> m1 = m2.
Proof.
  revert m1 m2. induction n as [|n IH]; intros m1 m2 Hl Hn Hc.
  { destruct m1, m2; cbn in *; lia || done. }
  rewrite <- (take_drop 31 m1), <- (take_drop 31 m2). f_equal.
  - apply be_Z_inj; [rewrite !length_take; lia|]. exact (Hc 0%nat ltac:(lia)).
  - apply IH; [rewrite !length_drop; lia|rewrite length_drop; lia|].
    intros i Hi. rewrite !drop_drop. specialize (Hc (S i) ltac:(lia)).
    by replace (31 + 31 * i)%nat with (31 * S i)%nat by lia.
Qed.

Lemma PackMessage_Ret msg els :
  PackMessage msg = Ret els <->
  (length msg <= 496)%nat
  /\ els = Z.of_nat (length msg) :: map (fun i => be_Z (take 31 (drop (31 * i) msg))) (seq 0 16).
Proof.
  unfold PackMessage. change MaxPayload with 496. change MaxChunks with 16.
  assert (map (fun i => be_Z (chunk msg i)) (seqZ 0 16)
    = map (fun i => be_Z (take 31 (drop (31 * i) msg))) (seq 0 16)) as ->.
  { unfold seqZ. rewrite map_map. apply map_ext. intros i. rewrite Z.add_0_r. by rewrite chunk_nat. }
  destruct (Z.ltb_spec 496 (Z.of_nat (length msg))).
  - split; [done|lia].
  - split; [intros [= <-]; split; [lia|done]|by intros [_ ->]].
Qed.

(** Every element is a canonical field element: nothing is lost when it becomes
    an [fr.Element]. *)
Lemma PackMessage_small msg els : PackMessage msg = Ret els -> Forall (fun z => 0 <= z < fr_modulus) els.
Proof.
  intros [Hl ->]%PackMessage_Ret. constructor; [unfold fr_modulus; lia|].
  apply List.Forall_forall. intros z (i & <- & _)%in_map_iff.
  pose proof (chunk_range msg i) as H. rewrite chunk_nat in H. unfold fr_modulus. lia.
Qed.

Lemma PackMessage_inj m1 m2 els : PackMessage m1 = Ret els -> PackMessage m2 = Ret els -> m1 = m2.
Proof.
  intros [H1 ->]%PackMessage_Ret [H2 H]%PackMessage_Ret.
  pose proof (f_equal (hd 0) H) as Hl. pose proof (f_equal (@tl Z) H) as Hc. cbn [hd tl] in Hl, Hc.
  apply (chunks_inj 16); [lia|lia|]. intros i Hi. apply (ext_in_map Hc i). apply in_seq. lia.
Qed.

(** Packing succeeds exactly on messages of at most 496 bytes, gives 17
    canonical field elements, and different messages get different elements
    (the length element settles the zero padding). *)
Theorem PackMessage_faithful m1 m2 :
  (is_ret (PackMessage m1) = true <-> (length m1 <= 496)%nat)
  /\ (forall els, PackMessage m1 = Ret els ->
       length els = 17%nat /\ Forall (fun z => 0 <= z < fr_modulus) els
       /\ (PackMessage m2 = Ret els -> m1 = m2)).
Proof.
  split.
  - pose proof (PackMessage_Ret m1) as H. destruct (PackMessage m1) as [els| |]; cbn.
    + split; [|done]. intros _. by apply (H els).
    + split; [done|]. intros Hl. by specialize (proj2 (H _) (conj Hl eq_refl)).
    + split; [done|]. intros Hl. by specialize (proj2 (H _) (conj Hl eq_refl)).
  - intros els H. split; [by apply PackMessage_Ret in H as [_ ->]|].
    split; [by eapply PackMessage_small|]. intros H2. by eapply PackMessage_inj.
Qed.

(** * Panics *)
Section Panics.
Context {St : Type} {MI : Mimc St} {CCS PK VK Wit PubWit : Type} {GR : Groth16 CCS PK VK Wit PubWit}.

Lemma PackMessage_no_panic msg : PackMessage msg <> Panic.
Proof. unfold PackMessage. cbv zeta. by destruct (_ <? _). Qed.

Lemma write_elements_no_panic els h : write_elements els h <> Panic.
Proof. revert h. induction els as [|el els IH]; intros h; cbn [write_elements]; [done|]. by destruct (mimc_Write _ h). Qed.

Lemma Commitment_no_panic msg : Commitment msg <> Panic.
Proof.
  apply bind_not_panic; [apply PackMessage_no_panic|]. intros els _.
  apply bind_not_panic; [apply write_elements_no_panic|done].
Qed.

Lemma assignment_no_panic msg : assignment msg <> Panic.
Proof.
  apply bind_not_panic; [apply PackMessage_no_panic|]. intros els [_ ->]%PackMessage_Ret.
  by apply bind_not_panic; [apply Commitment_no_panic|].
Qed.

Lemma Prove_no_panic artifact msg : Prove artifact msg <> Panic.
Proof.
  apply bind_not_panic; [unfold loadArtifacts; by repeat case_match|]. intros [[ccs pk] vk] _.
  apply bind_not_panic; [apply assignment_no_panic|]. intros cc _.
  apply bind_not_panic; [by destruct (NewWitness cc)|]. intros w _. by destruct (groth16_Prove ccs pk w).
Qed.
End Panics.

(** * Commitments *)
Section Binding.
Context {St : Type} {MI : Mimc St} {MIL : MimcLaws St}.

Lemma fr_bytes_length z : length (fr_bytes z) = 32%nat.
Proof. apply be_bytes_length. Qed.

Lemma fr_bytes_canonical z : be_Z (fr_bytes z) < fr_modulus.
Proof.
  unfold fr_bytes. pose proof (Z.mod_pos_bound z fr_modulus ltac:(unfold fr_modulus; lia)).
  rewrite be_Z_small; [lia|]. split; [lia|]. eapply Z.lt_trans; [apply H|]. done.
Qed.

Lemma write_elements_total els h : exists h', write_elements els h = Ret h'.
Proof.
  revert h. induction els as [|z els IH]; intros h; cbn [write_elements]; [eauto|].
  destruct (mimc_Write_canonical (fr_bytes z) h (fr_bytes_length z) (fr_bytes_canonical z)) as [h' ->]. apply IH.
Qed.

Lemma Commitment_cases msg :
  if decide (length msg <= 496)%nat then exists c, Commitment msg = Ret c
  else Commitment msg = Err (ErrPayloadTooLarge (Z.of_nat (length msg))).
Proof.
  unfold Commitment. case_decide as Hl.
  - rewrite (proj2 (PackMessage_Ret msg _) (conj Hl eq_refl)). cbn [mbind go_bind].
    generalize (Z.of_nat (length msg) :: map (fun i => be_Z (take 31 (drop (31 * i) msg))) (seq 0 16)).
    intros els. destruct (write_elements_total els mimc_New) as [h ->]. by eexists.
  - unfold PackMessage. change MaxPayload with 496. by rewrite (proj2 (Z.ltb_lt _ _)) by lia.
Qed.

Lemma Commitment_Ret msg c :
  Commitment msg = Ret c <->
  exists els h, PackMessage msg = Ret els /\ write_elements els mimc_New = Ret h /\ c = mimc_Sum h.
Proof.
  unfold Commitment. rewrite go_bind_ret. split.
  - intros (els & Hp & (h & Hw & [= <-])%go_bind_ret). eauto.
  - intros (els & h & Hp & Hw & ->). exists els. split; [done|]. rewrite go_bind_ret. eauto.
Qed.

(** A message of at most 496 bytes has a commitment and a longer one has the
    payload-too-large error; and if MiMC does not collide on the elements of two
    messages, the messages have different commitments. *)
Theorem Commitment_binds m1 m2 :
  (forall els1 els2 h1 h2, PackMessage m1 = Ret els1 -> PackMessage m2 = Ret els2 ->
     write_elements els1 mimc_New = Ret h1 -> write_elements els2 mimc_New = Ret h2 ->
     mimc_Sum h1 = mimc_Sum h2 -> els1 = els2) ->
  ((length m1 <= 496)%nat -> exists c, Commitment m1 = Ret c /\ length c = 32%nat)
  /\ ((496 < length m1)%nat -> Commitment m1 = Err (ErrPayloadTooLarge (Z.of_nat (length m1))))
  /\ (forall c, Commitment m1 = Ret c -> Commitment m2 = Ret c -> m1 = m2).
Proof.
  intros Hcol. split; [|split].
  - intros Hl. pose proof (proj2 (PackMessage_Ret m1 _) (conj Hl eq_refl)) as Hp.
    revert Hp. generalize (Z.of_nat (length m1) :: map (fun i => be_Z (take 31 (drop (31 * i) m1))) (seq 0 16)).
    intros els Hp. destruct (write_elements_total els mimc_New) as [h Hw]. exists (mimc_Sum h).
    split; [|apply mimc_Sum_length]. apply Commitment_Ret. eauto.
  - intros Hl. unfold Commitment, PackMessage. change MaxPayload with 496.
    by rewrite (proj2 (Z.ltb_lt _ _)) by lia.
  - intros c (e1 & h1 & P1 & W1 & ->)%Commitment_Ret (e2 & h2 & P2 & W2 & Hs)%Commitment_Ret.
    assert (e1 = e2) as -> by (by eapply Hcol).
    by eapply PackMessage_inj.
Qed.
End Binding.

(** * Proofs *)
Section Proving.
Context {St : Type} {MI : Mimc St} {MIL : MimcLaws St}.
Variable artifact : bytes -> option bytes.
Context {CCS PK VK Wit PubWit : Type} {GR : Groth16 CCS PK VK Wit PubWit}.
Variable gadget : list Z -> Z.

(** The in-circuit hash is the native one. *)
Hypothesis gadget_native : forall els h,
  write_elements els mimc_New = Ret h -> gadget els = be_Z (mimc_Sum h).
(** Groth16 is complete for the keys of the circuit. *)
Hypothesis groth16_complete : forall ccs pk vk c w pw proof,
  loadArtifacts artifact = Ret (ccs, pk, vk) -> circuit_holds gadget c -> NewWitness c = Some w ->
  groth16_Prove ccs pk w = Some proof -> NewPublicWitness (C_Commitment c) = Some pw ->
  groth16_Verify proof vk pw = true.
Hypothesis NewPublicWitness_total : forall z, is_Some (NewPublicWitness z).

Lemma assignment_holds msg c : assignment msg = Ret c -> circuit_holds gadget c.
Proof.
  unfold assignment. intros (els & Hp & (com & Hc & Ha)%go_bind_ret)%go_bind_ret.
  apply Commitment_Ret in Hc as (els' & h & Hp' & Hw & ->). rewrite Hp in Hp'. injection Hp' as <-.
  destruct els as [|len chunks]; [done|]. injection Ha as <-. unfold circuit_holds. cbn [Length Chunks C_Commitment].
  by rewrite (gadget_native _ _ Hw).
Qed.

(** A proof the prover makes verifies against the commitment of its message. *)
Lemma Prove_Verify msg proof com :
  Prove artifact msg = Ret proof -> Commitment msg = Ret com -> Verify artifact proof com = Ret ().
Proof.
  unfold Prove, Verify, publicWitness. intros ([[ccs pk] vk] & Hl & (c & Ha & Hrest)%go_bind_ret)%go_bind_ret Hc.
  apply go_bind_ret in Hrest as (w & Hw & Hpr). rewrite Hl. cbn.
  unfold or_error in *. destruct (NewWitness c) as [w'|] eqn:Ew; [|done]. injection Hw as ->.
  destruct (groth16_Prove ccs pk w) as [pr|] eqn:Ep; [|done]. injection Hpr as ->.
  assert (C_Commitment c = be_Z com) as Hcc.
  { unfold assignment in Ha. apply go_bind_ret in Ha as (els & _ & Ha). rewrite Hc in Ha. cbn in Ha.
    destruct els; [done|]. by injection Ha as <-. }
  destruct (NewPublicWitness_total (be_Z com)) as [pw Hpw]. rewrite Hpw. cbn.
  erewrite groth16_complete; eauto using assignment_holds. by rewrite Hcc.
Qed.
End Proving.

(** * Calldata *)
Section Calldata.
Context {CCS PK VK Wit PubWit : Type} {GR : Groth16 CCS PK VK Wit PubWit}.

Definition coordinates (p : Proof) : list Z :=
  [Ar_X p; Ar_Y p; Bs_X_A1 p; Bs_X_A0 p; Bs_Y_A1 p; Bs_Y_A0 p; Krs_X p; Krs_Y p].

Lemma concat_words_slice (ws : list bytes) i w :
  Forall (fun w => length w = 32%nat) ws -> ws !! i = Some w -> take 32 (drop (32 * i) (concat ws)) = w.
Proof.
  intros H. revert i. induction H as [|w0 ws Hw _ IH]; intros i Hi; [done|]. destruct i as [|i]; cbn [concat].
  - injection Hi as ->. rewrite Nat.mul_0_r, drop_0. by rewrite take_app_length'.
  - rewrite drop_app_ge by lia. replace (32 * S i - length w0)%nat with (32 * i)%nat by lia. by apply IH.
Qed.

Lemma calldata_decode (q : Z) (p : Proof) data :
  (forall p, MarshalSolidity p = concat (map (be_bytes 32) (coordinates p))) ->
  (forall z, 0 <= z < q -> SetBytesCanonical (be_bytes 32 z) = Some z) ->
  Forall (fun z => 0 <= z < q) (coordinates p) ->
  SolidityCalldata p = Ret data -> ProofFromSolidityCalldata data = Ret p.
Proof.
  intros Hm Hs Hc [= <-]. rewrite Hm. unfold ProofFromSolidityCalldata.
  assert (Forall (fun w => length w = 32%nat) (map (be_bytes 32) (coordinates p))) as Hw.
  { apply List.Forall_forall. intros w (z & <- & _)%in_map_iff. apply be_bytes_length. }
  replace (length (concat (map (be_bytes 32) (coordinates p)))) with 256%nat.
  2: { cbn [coordinates map concat]. by rewrite !length_app, !be_bytes_length. }
  cbn [Nat.eqb negb].
  assert (forall i z, coordinates p !! i = Some z ->
    coordinate (concat (map (be_bytes 32) (coordinates p))) i = Ret z) as Hi.
  { intros i z Hz. unfold coordinate. rewrite (concat_words_slice _ i (be_bytes 32 z) Hw).
    - rewrite Hs; [done|]. rewrite Forall_lookup in Hc. by eapply Hc.
    - change (map (be_bytes 32) (coordinates p)) with (be_bytes 32 <$> coordinates p).
      by rewrite list_lookup_fmap, Hz. }
  do 8 (erewrite Hi by reflexivity; cbn [mbind go_bind]). by destruct p.
Qed.

(** The 256-byte calldata of a proof is read back as that proof: the resolver
    and ddns-lookup agree on the order of the eight coordinates. *)
Theorem calldata_roundtrip (q : Z) (p : Proof) data :
  (forall p, MarshalSolidity p = concat (map (be_bytes 32) (coordinates p))) ->
  (forall z, 0 <= z < q -> SetBytesCanonical (be_bytes 32 z) = Some z) ->
  Forall (fun z => 0 <= z < q) (coordinates p) ->
  SolidityCalldata p = Ret data -> ProofFromSolidityCalldata data = Ret p.
Proof. apply calldata_decode. Qed.
End Calldata.

(** * Concrete instances *)
Definition toy_write (b : bytes) (st : Z) : option Z :=
  if Nat.eqb (length b) 32 && (be_Z b <? fr_modulus) then Some ((st * 31 + be_Z b) mod 2 ^ 256) else None.
#[export] Instance toy_mimc : Mimc Z := {
  mimc_New := 0; mimc_Write := toy_write; mimc_Sum st := be_bytes 32 st }.
#[export] Instance toy_mimc_laws : MimcLaws Z.
Proof.
  split.
  - intros b st Hl Hb. exists ((st * 31 + be_Z b) mod 2 ^ 256). cbn [mimc_Write toy_mimc]. unfold toy_write.
    rewrite Hl. by rewrite (proj2 (Z.ltb_lt _ _)) by done.
  - intros st. apply be_bytes_length.
Qed.

Lemma Commitment_binds_witness :
  exists c, Commitment (str "hello") = Ret c /\ length c = 32%nat.
Proof.
  refine (proj1 (Commitment_binds (str "hello") (str "hullo") _) _).
  - intros els1 els2 h1 h2 E1 E2 W1 W2 Hs. exfalso.
    vm_compute in E1, E2. injection E1 as <-. injection E2 as <-.
    vm_compute in W1, W2. injection W1 as <-. injection W2 as <-.
    vm_compute in Hs. discriminate Hs.
  - vm_compute. lia.
Defined.

#[export] Instance toy_groth : Groth16 () () () RecordCommitmentCircuit Z := {
  cs_ReadFrom _ := Some (); pk_ReadFrom _ := Some (); vk_ReadFrom _ := Some ();
  NewWitness c := Some c; NewPublicWitness z := Some z;
  groth16_Prove _ _ c := Some (mkProof (C_Commitment c mod 2 ^ 254) 2 3 4 5 6 7 8);
  groth16_Verify p _ z := Ar_X p =? z mod 2 ^ 254;
  MarshalSolidity p := concat (map (be_bytes 32) (coordinates p));
  SetBytesCanonical b := if Nat.eqb (length b) 32 then Some (be_Z b) else None;
}.

Lemma toy_canonical z : 0 <= z < 2 ^ 254 -> SetBytesCanonical (be_bytes 32 z) = Some z.
Proof.
  intros Hz. cbn -[be_bytes Z.pow]. rewrite be_bytes_length. cbn [Nat.eqb].
  rewrite be_Z_small; [done|]. split; [lia|]. eapply Z.lt_trans; [apply Hz|]. done.
Qed.

Lemma calldata_roundtrip_witness :
  ProofFromSolidityCalldata (concat (map (be_bytes 32) [1; 2; 3; 4; 5; 6; 7; 8])) = Ret (mkProof 1 2 3 4 5 6 7 8).
Proof.
  apply (calldata_roundtrip (2 ^ 254) (mkProof 1 2 3 4 5 6 7 8)).
  - reflexivity.
  - exact toy_canonical.
  - cbn [coordinates]. repeat (constructor; [done|]). constructor.
  - reflexivity.
Defined.

End Zk.
