(* ===== verification/Pay.v ===== *)
(** Package [pay] (src/resolver/internal/pay/pay.go): the micropayment vouchers a
    client signs for a resolver, and the digest of the ResolverIncentives contract
    they have to match (src/contracts/contracts/ResolverIncentives.sol). *)
From S2P Require Import Prelude GoStrings Encoding Chain Pki.
Import Chain Pki.

Local Open Scope Z_scope.

Module Pay.

(** The order of secp256k1, crypto.S256().Params().N. *)
Definition secp256k1_N : Z :=
  115792089237316195423570985008687907852837564279074904382605163141518161494337.
Definition halfN : Z := Z.shiftr secp256k1_N 1.

(** big.Int.Bytes: the absolute value, big endian, without leading zeros. *)
Definition big_Bytes (z : Z) : bytes :=
  if z =? 0 then [] else be_bytes (Z.to_nat (Z.log2 (Z.abs z) / 8 + 1)) (Z.abs z).

Section Voucher.
Context {Priv Pub : Type} {EC : EthCrypto Priv Pub}.
Variable Keccak256 : bytes -> bytes.                (* crypto.Keccak256 *)
Variable LeftPadBytes : bytes -> nat -> bytes.      (* common.LeftPadBytes *)

(** The preimage innerHash feeds to keccak. *)
Definition inner_bytes (contract : address) (id : bytes) (cumulative : Z) : bytes :=
  LeftPadBytes contract 32 ++ id ++ LeftPadBytes (big_Bytes cumulative) 32.

Definition innerHash (contract : address) (id : bytes) (cumulative : Z) : bytes :=
  Keccak256 (inner_bytes contract id cumulative).

Definition Digest (contract : address) (id : bytes) (cumulative : Z) : bytes :=
  TextHash (innerHash contract id cumulative).

Inductive pay_error := SignFailed | BadVoucherLength | HighS | VoucherRecoverFailed.

(** [sig[64] += 27] *)
Definition voucher_v (sig : bytes) : go pay_error bytes :=
  v ← or_panic (sig !! 64%nat); mret (<[64%nat := z2b (b2z v + 27)]> sig).

Definition SignVoucher (key : Priv) (contract : address) (id : bytes) (cumulative : Z) : go pay_error bytes :=
  match eth_Sign (Digest contract id cumulative) key with
  | None => Err SignFailed
  | Some sig => voucher_v sig
  end.

Definition RecoverVoucher (contract : address) (id : bytes) (cumulative : Z) (sig : bytes) : go pay_error address :=
  if negb (Nat.eqb (length sig) 65) then Err BadVoucherLength
  else if halfN <? be_Z (take 32 (drop 32 sig)) then Err HighS
  else
    v ← or_panic (sig !! 64%nat);
    let s := if 27 <=? b2z v then <[64%nat := z2b (b2z v - 27)]> sig else sig in
    match SigToPub (Digest contract id cumulative) s with
    | None => Err VoucherRecoverFailed
    | Some pub => Ret (PubkeyToAddress pub)
    end.

(** * The contract's voucherDigest *)

(** abi.encode of an address, a bytes32 and a uint256 *)
Definition sol_abi_encode (contract : address) (id : bytes) (cumulative : Z) : bytes :=
  replicate 12 x00 ++ contract ++ id ++ be_bytes 32 cumulative.
Definition sol_voucherDigest (contract : address) (id : bytes) (cumulative : Z) : bytes :=
  Keccak256 ([x19] ++ str "Ethereum Signed Message:" ++ [x0a] ++ str "32"
    ++ Keccak256 (sol_abi_encode contract id cumulative)).

(** "LeftPadBytes zero-pads slice to the left up to length l" *)
Hypothesis LeftPadBytes_ok : forall s l, (length s <= l)%nat -> LeftPadBytes s l = replicate (l - length s) x00 ++ s.

Lemma be_Z_zeros n s : be_Z (replicate n x00 ++ s) = be_Z s.
Proof. induction n as [|n IH]; cbn [replicate app]; [done|]. rewrite be_Z_cons, IH. done. Qed.

Lemma big_Bytes_pad z : 0 <= z < 2 ^ 256 ->
  (length (big_Bytes z) <= 32)%nat /\ replicate (32 - length (big_Bytes z)) x00 ++ big_Bytes z = be_bytes 32 z.
Proof.
  intros Hz. unfold big_Bytes. destruct (Z.eqb_spec z 0) as [->|Hnz]; [split; [cbn; lia|done]|].
  rewrite be_bytes_length, Z.abs_eq by lia. set (n := Z.to_nat (Z.log2 z / 8 + 1)).
  assert (Z.log2 z < 256) as Hlog by (apply Z.log2_lt_pow2; lia).
  assert (0 <= Z.log2 z / 8 < 32) as Hdiv.
  { split; [apply Z.div_pos; [apply Z.log2_nonneg|lia]|apply Z.div_lt_upper_bound; lia]. }
  assert (n <= 32)%nat as Hn by lia. split; [done|].
  apply be_Z_inj; [rewrite length_app, length_replicate, !be_bytes_length; lia|].
  rewrite be_Z_zeros, !be_Z_small; [done|done|]. split; [lia|].
  apply Z.log2_lt_cancel. change 256 with (2 ^ 8). rewrite <- Z.pow_mul_r by lia.
  rewrite Z.log2_pow2 by lia. pose proof (Z.mod_pos_bound (Z.log2 z) 8 ltac:(lia)).
  pose proof (Z.div_mod (Z.log2 z) 8 ltac:(lia)). lia.
Qed.

Lemma inner_bytes_abi contract id z :
  length contract = 20%nat -> 0 <= z < 2 ^ 256 ->
  inner_bytes contract id z = sol_abi_encode contract id z.
Proof.
  intros Hc Hz. unfold inner_bytes, sol_abi_encode. destruct (big_Bytes_pad z Hz) as [Hl Hp].
  rewrite (LeftPadBytes_ok contract) by lia. rewrite (LeftPadBytes_ok (big_Bytes z)) by done.
  rewrite Hp, Hc, <- app_assoc. done.
Qed.

Lemma Digest_abi contract id cumulative :
  length contract = 20%nat -> 0 <= cumulative < 2 ^ 256 ->
  (forall d, length (Keccak256 d) = 32%nat) ->
  (forall m, length m = 32%nat ->
     TextHash m = Keccak256 ([x19] ++ str "Ethereum Signed Message:" ++ [x0a] ++ str "32" ++ m)) ->
  Digest contract id cumulative = sol_voucherDigest contract id cumulative.
Proof.
  intros Hc Hz Hk Ht. unfold Digest, sol_voucherDigest, innerHash. rewrite Ht by apply Hk.
  by rewrite inner_bytes_abi.
Qed.

(** The digest a client signs is the one the contract checks, for any uint256
    amount (TextHash being EIP-191 on the 32-byte inner hash). *)
Theorem Digest_matches_contract contract id cumulative :
  length contract = 20%nat -> 0 <= cumulative < 2 ^ 256 ->
  (forall d, length (Keccak256 d) = 32%nat) ->
  (forall m, length m = 32%nat ->
     TextHash m = Keccak256 ([x19] ++ str "Ethereum Signed Message:" ++ [x0a] ++ str "32" ++ m)) ->
  Digest contract id cumulative = sol_voucherDigest contract id cumulative.
Proof. exact (Digest_abi contract id cumulative). Qed.

(** The amount, the channel and the contract are read back from the preimage. *)
Lemma inner_bytes_inj c1 i1 z1 c2 i2 z2 :
  length c1 = 20%nat -> length c2 = 20%nat -> length i1 = 32%nat -> length i2 = 32%nat ->
  0 <= z1 < 2 ^ 256 -> 0 <= z2 < 2 ^ 256 ->
  inner_bytes c1 i1 z1 = inner_bytes c2 i2 z2 -> c1 = c2 /\ i1 = i2 /\ z1 = z2.
Proof.
  intros Hc1 Hc2 Hi1 Hi2 Hz1 Hz2. rewrite !inner_bytes_abi by done. unfold sol_abi_encode. intros H.
  apply app_inj_length in H as [_ H]; [|done]. apply app_inj_length in H as [-> H]; [|lia].
  apply app_inj_length in H as [-> H]; [|lia]. split; [done|]. split; [done|].
  apply be_bytes_inj in H. change (256 ^ Z.of_nat 32) with (2 ^ 256) in H. rewrite !Z.mod_small in H by lia. done.
Qed.

Context {ECL : EthCryptoLaws Priv Pub}.

(** A voucher the client signs is recovered to the client's address (go-ethereum
    makes low-s signatures), and its signed bytes differ from those of a voucher
    for another contract, channel or amount, so it cannot be replayed there. *)
Theorem SignVoucher_recovers key contract id cumulative sig :
  (forall d k s, eth_Sign d k = Some s -> be_Z (take 32 (drop 32 s)) <= halfN) ->
  length contract = 20%nat -> length id = 32%nat -> 0 <= cumulative < 2 ^ 256 ->
  SignVoucher key contract id cumulative = Ret sig ->
  RecoverVoucher contract id cumulative sig = Ret (PubkeyToAddress (eth_pub key))
  /\ forall contract' id' cumulative', length contract' = 20%nat -> length id' = 32%nat -> 0 <= cumulative' < 2 ^ 256 ->
     (contract, id, cumulative) <> (contract', id', cumulative') ->
     inner_bytes contract id cumulative <> inner_bytes contract' id' cumulative'.
Proof.
  intros Hlow Hc Hi Hz Hs. split.
  2: { intros c' i' z' Hc' Hi' Hz' Hne H. apply inner_bytes_inj in H as (-> & -> & ->); done. }
  unfold SignVoucher in Hs. destruct (eth_Sign _ key) as [raw|] eqn:E; [|done].
  destruct (eth_Sign_format _ _ _ E) as (Hl & v & Hv & Hle).
  pose proof (eth_Sign_recovers _ _ _ E) as Hr. pose proof (Hlow _ _ _ E) as Hhalf.
  unfold voucher_v in Hs. rewrite Hv in Hs. cbn in Hs. injection Hs as <-.
  unfold RecoverVoucher. rewrite length_insert, Hl. cbn [Nat.eqb negb].
  assert (take 32 (drop 32 (<[64%nat := z2b (b2z v + 27)]> raw)) = take 32 (drop 32 raw)) as ->.
  { rewrite drop_insert_ge by lia. by rewrite take_insert_ge by lia. }
  rewrite (proj2 (Z.ltb_ge _ _) Hhalf). rewrite list_lookup_insert_eq by lia. cbn [or_panic mbind go_bind].
  rewrite b2z_z2b. pose proof (b2z_range v). rewrite Z.mod_small by lia. rewrite (proj2 (Z.leb_le _ _)) by lia.
  cbv zeta. rewrite list_insert_insert_eq. replace (b2z v + 27 - 27) with (b2z v) by lia.
  rewrite z2b_b2z, list_insert_id by done. by rewrite Hr.
Qed.
End Voucher.

(** * Concrete instances *)
Definition pad_left (s : bytes) (l : nat) : bytes := replicate (l - length s) x00 ++ s.
Definition toy_keccak (s : bytes) : bytes := be_bytes 32 (be_Z s).
Definition toy_text_hash : EthCrypto Z Z := {|
  TextHash m := toy_keccak ([x19] ++ str "Ethereum Signed Message:" ++ [x0a] ++ str "32" ++ m);
  SigToPub d sig := Some (be_Z (take 32 sig));
  FromECDSAPub p := be_bytes 65 p;
  PubkeyToAddress p := be_bytes 20 p;
  eth_Sign d k := Some (be_bytes 32 k ++ replicate 33 x00);
|}.
Definition demo_contract : address := replicate 20 x11.
Definition demo_id : bytes := replicate 32 x22.

Lemma Digest_matches_contract_witness :
  Digest (EC := toy_text_hash) toy_keccak pad_left demo_contract demo_id 1000
  = sol_voucherDigest toy_keccak demo_contract demo_id 1000.
Proof.
  apply (Digest_matches_contract (EC := toy_text_hash) toy_keccak pad_left).
  - reflexivity.
  - reflexivity.
  - lia.
  - intros d. apply be_bytes_length.
  - reflexivity.
Defined.

Lemma SignVoucher_recovers_witness :
  RecoverVoucher (EC := toy_eth) toy_keccak pad_left demo_contract demo_id 1000
    (be_bytes 32 77 ++ replicate 32 x00 ++ [x1b]) = Ret (be_bytes 20 77).
Proof.
  refine (proj1 (SignVoucher_recovers (EC := toy_eth) (ECL := toy_eth_laws) toy_keccak pad_left _ 77 demo_contract demo_id 1000
    (be_bytes 32 77 ++ replicate 32 x00 ++ [x1b]) _ _ _ _ _)).
  - reflexivity.
  - intros d k s [= <-]. vm_compute. congruence.
  - reflexivity.
  - reflexivity.
  - lia.
  - vm_compute. reflexivity.
Defined.

End Pay.
