(* ===== verification/Handle.v ===== *)
(** The resolution path of package [server] (src/resolver/internal/server/handle.go
    and the response building of rest.go): HandleQuery over the cache and the
    chain, the record proof, and the answer the front ends send.

    The state of the server is its cache and the world its chain client talks
    to. A query reads the clock when it looks its key up ([t_get]) and when it
    stores the answer ([t_set]). *)
From S2P Require Import Prelude GoStrings Encoding Query Chain Cache Pki Zk.
Import Chain.

Local Open Scope Z_scope.

#[export] Existing Instances Cache.Key_eq_dec Cache.Key_countable.

Module Handle.

(** type QueryResult struct *)
Record QueryResult := mkQueryResult { Result : ResolveResult; Cached : bool }.

(** The JSON structs of rest.go. *)
Record queryJSON := mkQueryJSON { qj_Name : bytes; qj_Type : bytes; qj_Selector : bytes }.
Record recordJSON := mkRecordJSON {
  rj_Type : bytes; rj_Selector : bytes; rj_FieldNames : list bytes; rj_FieldValues : list bytes;
  rj_TTL : Z; rj_Generation : Z; rj_OwnerSig : bytes; rj_Commitment : bytes }.
Record resolveResponse_t := mkResolveResponse {
  rr_Query : queryJSON; rr_Found : bool; rr_Error : bytes; rr_Record : option recordJSON;
  rr_Owner : bytes; rr_PubKey : bytes; rr_OwnerSigVerified : bool; rr_ZKProof : bytes; rr_Cached : bool }.

(** [time.Duration(ttl) * time.Second], an int64 *)
Definition int64 (z : Z) : Z := (z + 2 ^ 63) mod 2 ^ 64 - 2 ^ 63.
Definition ttl_duration (ttl : Z) : Z := int64 (int64 ttl * 1000000000).

Lemma int64_small z : - 2 ^ 63 <= z < 2 ^ 63 -> int64 z = z.
Proof. intros H. unfold int64. rewrite Z.mod_small; lia. Qed.

(** No uint32 TTL overflows the duration. *)
Lemma ttl_duration_ok ttl : 0 <= ttl < 2 ^ 32 -> ttl_duration ttl = ttl * 1000000000.
Proof. intros H. unfold ttl_duration. rewrite (int64_small ttl) by lia. apply int64_small. lia. Qed.

Section Server.
Context {SP : Pki.SortPairs} {Priv Pub : Type} {EC : Pki.EthCrypto Priv Pub}.
Context {St : Type} {MI : Zk.Mimc St} {CCS PK VK Wit PubWit : Type} {GR : Zk.Groth16 CCS PK VK Wit PubWit}.
Context {L : Type} {LO : Cache.LruOps Cache.Key (Cache.entry ResolveResult) L}.
Context {W Er : Type} {CR : ChainReader W Er} {HX : Encoding.Hexutil}.
Variable artifact : bytes -> option bytes.
Variable nameHash : bytes -> bytes.
Variable address_Hex : address -> bytes.        (* common.Address.Hex *)

(** The fields of Server the query path uses. *)
Record server := mkServer { sv_cache : Cache.TTLCache L; sv_world : W }.

(** proveRecord from the message on, with a mismatch of the commitment as an empty
    proof. It does not panic where the arrays of fields have one length. *)
Definition record_proof (name : bytes) (rec : Record) : go Zk.zk_error bytes :=
  msg ← Pki.RecordMessage name rec;
  com ← Zk.Commitment msg;
  if negb (bool_decide (com = Commitment rec)) then mret []
  else
    proof ← Zk.Prove artifact msg;
    Zk.SolidityCalldata proof.

Lemma record_proof_no_panic name rec : length (FieldNames rec) = length (FieldVals rec) -> record_proof name rec <> Panic.
Proof.
  intros Hl. apply bind_not_panic; [by apply Pki.RecordMessage_no_panic|]. intros msg _.
  apply bind_not_panic; [apply Zk.Commitment_no_panic|]. intros com _. destruct (negb _); [done|].
  by apply bind_not_panic; [apply Zk.Prove_no_panic|].
Qed.

(** proveRecord; nil is []. The comparison of the lengths is what the rest cannot
    panic by. *)
Definition proveRecord (name : bytes) (rec : Record) : bytes :=
  if bool_decide (Commitment rec = zero_hash) then []
  else
    match decide (length (FieldNames rec) = length (FieldVals rec)) with
    | right _ => []
    | left same =>
        match no_panic (record_proof name rec) (record_proof_no_panic name rec same) with
        | inl calldata => calldata
        | inr _ => []
        end
    end.

(** What HandleQuery does to the answer of the chain. *)
Definition vet (name : bytes) (res : ResolveResult) : ResolveResult :=
  let valid :=
    match Pki.VerifyOwnerSig name (RR_Record res) (Owner res) (PubKey res) with
    | Ret _ => true
    | _ => OwnerSigValid res
    end in
  mkResolveResult (RR_Record res) (Owner res) (PubKey res) valid (proveRecord name (RR_Record res)).

Definition query_key (q : Query.Query) : Cache.Key :=
  Cache.mkKey (Query.Name q) (Query.Type_ q) (Query.Selector q).

Definition HandleQuery (q : Query.Query) (t_get t_set : Z) (s : server) : (QueryResult + Er) * server :=
  let key := query_key q in
  let '(hit, c) := Cache.Get nameHash key t_get (sv_cache s) in
  match hit with
  | Some res => (inl (mkQueryResult res true), mkServer c (sv_world s))
  | None =>
      let '(ans, w) := cr_Resolve (Query.Name q) (Query.Type_ q) (Query.Selector q) (sv_world s) in
      match ans with
      | inr e => (inr e, mkServer c w)
      | inl res =>
          if Exists (RR_Record res) then
            let res := vet (Query.Name q) res in
            let c :=
              if 0 <? TTL (RR_Record res)
              then Cache.Set_ nameHash key res (ttl_duration (TTL (RR_Record res))) t_set c
              else c in
            (inl (mkQueryResult res false), mkServer c w)
          else (inl (mkQueryResult res false), mkServer c w)
      end
  end.

(** Found; the result of a query that succeeded is not nil. *)
Definition Found (r : QueryResult) : bool :=
  Exists (RR_Record (Result r)) && negb (bool_decide (Owner (Result r) = zero_address)).

Definition toRecordJSON (r : Record) : recordJSON :=
  mkRecordJSON (Type_ r) (Selector r) (FieldNames r) (FieldVals r) (TTL r) (Generation r)
    (Encoding.hexutil_Encode (OwnerSig r)) (Encoding.hexutil_Encode (Commitment r)).

(** resolveResponse, on the outcome of HandleQuery. *)
Definition build_response (q : Query.Query) (res : QueryResult) : resolveResponse_t :=
  let query := mkQueryJSON (Query.Name q) (Query.Type_ q) (Query.Selector q) in
  if negb (Found res) then mkResolveResponse query false (str "no_match") None [] [] false [] (Cached res)
  else
    mkResolveResponse query true [] (Some (toRecordJSON (RR_Record (Result res))))
      (address_Hex (Owner (Result res))) (Encoding.hexutil_Encode (PubKey (Result res)))
      (OwnerSigValid (Result res))
      (match ZKProof (Result res) with [] => [] | p => Encoding.hexutil_Encode p end) (Cached res).

Definition resolveResponse (q : Query.Query) (t_get t_set : Z) (s : server) : (resolveResponse_t + Er) * server :=
  let '(res, s) := HandleQuery q t_get t_set s in
  match res with
  | inr e => (inr e, s)
  | inl res => (inl (build_response q res), s)
  end.

(** * What an answer promises *)

(** The owner-signature verdict is the verifier's. *)
Definition verdict_ok (name : bytes) (res : ResolveResult) : Prop :=
  OwnerSigValid res = true <-> Pki.VerifyOwnerSig name (RR_Record res) (Owner res) (PubKey res) = Ret ().

(** A proof, when there is one, is the calldata of a proof of the record's own
    message, whose commitment is the record's. *)
Definition proof_ok (name : bytes) (res : ResolveResult) : Prop :=
  ZKProof res = [] \/
  exists msg proof, Pki.RecordMessage (E := Zk.zk_error) name (RR_Record res) = Ret msg
    /\ Zk.Commitment msg = Ret (Commitment (RR_Record res))
    /\ Zk.Prove artifact msg = Ret proof /\ Zk.SolidityCalldata proof = Ret (ZKProof res).

Definition vetted (name : bytes) (res : ResolveResult) : Prop := verdict_ok name res /\ proof_ok name res.

Lemma proveRecord_ok name rec :
  proveRecord name rec = [] \/
  exists msg proof, Pki.RecordMessage (E := Zk.zk_error) name rec = Ret msg
    /\ Zk.Commitment msg = Ret (Commitment rec)
    /\ Zk.Prove artifact msg = Ret proof /\ Zk.SolidityCalldata proof = Ret (proveRecord name rec).
Proof.
  unfold proveRecord. case_bool_decide; [auto|]. destruct (decide _) as [same|]; [|auto].
  pose proof (no_panic_spec (record_proof name rec) (record_proof_no_panic name rec same)) as H0.
  destruct (no_panic _ _) as [calldata|]; [|auto]. unfold record_proof in H0.
  apply go_bind_ret in H0 as (msg & Hm & H0). apply go_bind_ret in H0 as (com & Hc & H0).
  case_bool_decide; cbn [negb] in H0; [|injection H0 as <-; auto]. subst com. apply go_bind_ret in H0 as (proof & Hp & Hd).
  right. by exists msg, proof.
Qed.

Lemma vet_vetted name res : OwnerSigValid res = false -> vetted name (vet name res).
Proof.
  intros Hf. split.
  - unfold verdict_ok, vet. cbn. pose proof (Pki.VerifyOwnerSig_spec name (RR_Record res) (Owner res) (PubKey res)) as H.
    destruct (Pki.VerifyOwnerSig _ _ _ _) as [[]| |]; [done|..]; rewrite Hf; done.
  - unfold proof_ok, vet. cbn. apply proveRecord_ok.
Qed.

(** * Runs of the server

    Queries and contract events, one after the other. *)
Inductive sop :=
| SQuery (q : Query.Query) (t_get t_set : Z)
| SEvent (ev : RecordEvent)
| SFlush.

Definition sstep (o : sop) (s : server) : server :=
  match o with
  | SQuery q t_get t_set => (HandleQuery q t_get t_set s).2
  | SEvent ev => mkServer (Cache.HandleEvent nameHash ev (sv_cache s)) (sv_world s)
  | SFlush => mkServer (Cache.Flush nameHash (sv_cache s)) (sv_world s)
  end.
Definition srun (ops : list sop) (s : server) : server := fold_left (fun s o => sstep o s) ops s.

Context {LL : Cache.LruLaws Cache.Key (Cache.entry ResolveResult) L}.
Variable U : bytes -> Prop.
Hypothesis nameHash_inj : forall a b, U a -> U b -> nameHash a = nameHash b -> a = b.
(** The chain's answers carry no verdict yet. *)
Hypothesis Resolve_unvetted : forall n t sel w res w',
  cr_Resolve n t sel w = (inl res, w') -> OwnerSigValid res = false.

Definition sop_ok (o : sop) : Prop := match o with SQuery q _ _ => U (Query.Name q) | _ => True end.

(** Every cached answer was vetted for the name it is stored under, and is one
    HandleQuery may cache. *)
Definition cached_ok (m : gmap Cache.Key (Cache.entry ResolveResult)) : Prop :=
  forall k e, m !! k = Some e ->
    vetted (Cache.Name k) (Cache.value e)
    /\ Exists (RR_Record (Cache.value e)) = true /\ 0 < TTL (RR_Record (Cache.value e)).

Definition server_inv (s : server) : Prop :=
  Cache.cache_inv nameHash U (sv_cache s) /\ cached_ok (Cache.entries (sv_cache s)).

Lemma cached_ok_subset m m' : m' ⊆ m -> cached_ok m -> cached_ok m'.
Proof. intros Hs Hm k e He. apply Hm. by eapply lookup_weaken. Qed.

Lemma Get_entries_subset k t (c : Cache.TTLCache L) :
  Cache.cache_inv nameHash U c -> Cache.entries (Cache.Get nameHash k t c).2 ⊆ Cache.entries c.
Proof.
  intros Hc. destruct (Cache.Get_inv nameHash U nameHash_inj k t c Hc) as (_ & _ & _ & ->).
  destruct (Cache.entries c !! k) as [e|]; [|done]. destruct (Cache.expiresAt e <? t); [apply delete_subseteq|done].
Qed.

Lemma HandleQuery_inv q t_get t_set s :
  U (Query.Name q) -> server_inv s ->
  server_inv (HandleQuery q t_get t_set s).2
  /\ forall r, (HandleQuery q t_get t_set s).1 = inl r ->
       Exists (RR_Record (Result r)) = true -> vetted (Query.Name q) (Result r).
Proof.
  intros HU [Hc Hm]. unfold HandleQuery.
  pose proof (Cache.Get_inv nameHash U nameHash_inj (query_key q) t_get _ Hc) as (Hc1 & _ & Hv & _).
  pose proof (Get_entries_subset (query_key q) t_get _ Hc) as Hsub.
  destruct (Cache.Get nameHash (query_key q) t_get (sv_cache s)) as [hit c]. cbn [fst snd] in *.
  assert (cached_ok (Cache.entries c)) as Hm1 by (by eapply cached_ok_subset).
  destruct hit as [res|].
  { cbn [fst snd]. split; [by split|]. intros r [= <-] _. cbn [Result].
    destruct (Cache.entries (sv_cache s) !! query_key q) as [e|] eqn:E; [|done].
    destruct (Cache.expiresAt e <? t_get); [done|]. injection Hv as ->. by apply Hm in E as [? _]. }
  destruct (cr_Resolve _ _ _ _) as [[res|e] w] eqn:Ers; cbn [fst snd]; [|by split].
  apply Resolve_unvetted in Ers. destruct (Exists (RR_Record res)) eqn:Ex; cbn [fst snd].
  2: { split; [by split|]. intros r [= <-] Hx. cbn in Hx. congruence. }
  pose proof (vet_vetted (Query.Name q) res Ers) as Hvet.
  split; [|by intros r [= <-] _].
  destruct (Z.ltb_spec 0 (TTL (RR_Record (vet (Query.Name q) res)))) as [Ht|Ht]; [|by split].
  pose proof (Cache.Set_inv nameHash U nameHash_inj (query_key q) (vet (Query.Name q) res)
    (ttl_duration (TTL (RR_Record (vet (Query.Name q) res)))) t_set c HU Hc1) as (Hc2 & _ & _ & Hsub2 & _).
  split; [exact Hc2|]. cbn [sv_cache]. intros k e He. eapply lookup_weaken in He; [|exact Hsub2].
  rewrite lookup_insert in He. case_decide as Ek; [|by apply Hm1].
  injection He as <-. subst k. cbn [Cache.Name query_key Cache.value]. done.
Qed.

Lemma sstep_inv o s : sop_ok o -> server_inv s -> server_inv (sstep o s).
Proof.
  intros Ho Hs. destruct o as [q t_get t_set|ev|]; cbn [sstep].
  - by apply HandleQuery_inv.
  - destruct Hs as [Hc Hm]. destruct (Cache.HandleEvent_inv nameHash U nameHash_inj ev _ Hc) as (H1 & _ & H2).
    split; [done|]. cbn [sv_cache]. intros k e. rewrite H2. destruct (Cache.event_hits nameHash ev k); [done|apply Hm].
  - destruct Hs as [Hc Hm]. destruct (Cache.Flush_inv nameHash U nameHash_inj _ Hc) as (H1 & H2 & _).
    split; [done|]. cbn [sv_cache]. intros k e. by rewrite H2, lookup_empty.
Qed.

Lemma srun_inv ops s : Forall sop_ok ops -> server_inv s -> server_inv (srun ops s).
Proof.
  unfold srun. intros H. revert s. induction H as [|o ops Ho _ IH]; intros s Hs; cbn; [done|].
  by apply IH, sstep_inv.
Qed.

Lemma boot_inv cap c w : Cache.New cap = Some c -> server_inv (mkServer c w).
Proof.
  intros Hn. apply (Cache.New_inv nameHash U) in Hn as (H1 & H2 & _). split; [done|].
  cbn [sv_cache]. intros k e. by rewrite H2, lookup_empty.
Qed.

(** ** Where an answer comes from *)

(** What takes the entry of a key out of the cache for being stale. *)
Definition sop_hits (o : sop) (k : Cache.Key) : bool :=
  match o with SQuery _ _ _ => false | SEvent ev => Cache.event_hits nameHash ev k | SFlush => true end.

(** The chain's answer to a query of a history, at the query's turn; since then
    nothing the server handled concerned its key. *)
Definition told (s0 : server) (ops : list sop) (q : Query.Query) (res : ResolveResult) : Prop :=
  exists pre t_get t_set post, ops = pre ++ SQuery q t_get t_set :: post
    /\ (cr_Resolve (Query.Name q) (Query.Type_ q) (Query.Selector q) (sv_world (srun pre s0))).1 = inl res
    /\ Forall (fun o => sop_hits o (query_key q) = false) post.

Lemma srun_snoc ops o s : srun (ops ++ [o]) s = sstep o (srun ops s).
Proof. unfold srun. by rewrite fold_left_app. Qed.

Lemma told_now s0 ops q t_get t_set res :
  (cr_Resolve (Query.Name q) (Query.Type_ q) (Query.Selector q) (sv_world (srun ops s0))).1 = inl res ->
  told s0 (ops ++ [SQuery q t_get t_set]) q res.
Proof. intros H. by exists ops, t_get, t_set, []. Qed.

Lemma told_snoc s0 ops o q res : told s0 ops q res -> sop_hits o (query_key q) = false -> told s0 (ops ++ [o]) q res.
Proof.
  intros (pre & t_get & t_set & post & -> & Hr & Hp) Ho. exists pre, t_get, t_set, (post ++ [o]). rewrite <- app_assoc.
  split; [done|]. split; [done|]. apply Forall_app. auto.
Qed.

(** A query adds to the cache what the chain answers it, and nothing else. *)
Lemma HandleQuery_entries q t_get t_set s k e :
  U (Query.Name q) -> Cache.cache_inv nameHash U (sv_cache s) ->
  Cache.entries (sv_cache (HandleQuery q t_get t_set s).2) !! k = Some e ->
  Cache.entries (sv_cache s) !! k = Some e
  \/ exists res, k = query_key q /\ Cache.value e = vet (Query.Name q) res
       /\ (cr_Resolve (Query.Name q) (Query.Type_ q) (Query.Selector q) (sv_world s)).1 = inl res.
Proof.
  intros HU Hc. unfold HandleQuery.
  pose proof (Cache.Get_inv nameHash U nameHash_inj (query_key q) t_get _ Hc) as (Hc1 & _).
  pose proof (Get_entries_subset (query_key q) t_get _ Hc) as Hsub.
  destruct (Cache.Get nameHash (query_key q) t_get (sv_cache s)) as [hit c]. cbn [fst snd] in *.
  assert (forall k e, Cache.entries c !! k = Some e -> Cache.entries (sv_cache s) !! k = Some e) as Hold
    by (intros; by eapply lookup_weaken).
  destruct hit as [res|]; [auto|].
  destruct (cr_Resolve _ _ _ _) as [[res|e'] w]; cbn [fst snd sv_cache]; [|auto].
  destruct (Exists (RR_Record res)); cbn [fst snd sv_cache]; [|auto]. destruct (0 <? _); [|auto].
  match goal with |- context [Cache.Set_ _ ?k ?v ?d t_set c] =>
    destruct (Cache.Set_inv nameHash U nameHash_inj k v d t_set c HU Hc1) as (_ & _ & _ & Hs & _) end.
  intros He. eapply lookup_weaken in He; [|exact Hs]. rewrite lookup_insert in He. case_decide as Hk; [|auto].
  right. exists res. injection He as <-. done.
Qed.

(** Every cached answer is what the chain told a query for its key. *)
Lemma entries_told cap c w ops k e :
  Cache.New cap = Some c -> Forall sop_ok ops ->
  Cache.entries (sv_cache (srun ops (mkServer c w))) !! k = Some e ->
  exists q res, k = query_key q /\ Cache.value e = vet (Query.Name q) res /\ told (mkServer c w) ops q res.
Proof.
  intros Hn. revert k e. induction ops as [|o ops IH] using rev_ind; intros k e.
  { intros _. apply (Cache.New_inv nameHash U) in Hn as (_ & H2 & _). cbn. by rewrite H2, lookup_empty. }
  intros [Hops [Ho _]%Forall_cons]%Forall_app. rewrite srun_snoc. set (s0 := mkServer c w) in *.
  destruct (srun_inv ops s0 Hops (boot_inv cap c w Hn)) as [Hc _].
  assert (Cache.entries (sv_cache (srun ops s0)) !! k = Some e -> sop_hits o k = false ->
    exists q res, k = query_key q /\ Cache.value e = vet (Query.Name q) res /\ told s0 (ops ++ [o]) q res) as Hkeep.
  { intros He Hh. destruct (IH _ _ Hops He) as (q & res & -> & Hv & Ht). exists q, res. split; [done|]. split; [done|]. by apply told_snoc. }
  destruct o as [q t_get t_set|ev|]; cbn [sstep].
  - intros [He|(res & -> & Hv & Hr)]%HandleQuery_entries; [by apply Hkeep| |done..].
    exists q, res. split; [done|]. split; [done|]. by apply told_now.
  - destruct (Cache.HandleEvent_inv nameHash U nameHash_inj ev _ Hc) as (_ & _ & H2). cbn [sv_cache]. rewrite H2. cbn [sop_hits] in Hkeep.
    destruct (Cache.event_hits nameHash ev k); [done|]. intros He. by apply Hkeep.
  - destruct (Cache.Flush_inv nameHash U nameHash_inj _ Hc) as (_ & H2 & _). cbn [sv_cache]. by rewrite H2, lookup_empty.
Qed.

(** A positive answer is what the chain told this query, or an earlier one for the same
    key, with the verdict and the proof of HandleQuery. *)
Lemma answer_told cap c w ops q t_get t_set r :
  Cache.New cap = Some c -> Forall sop_ok ops -> U (Query.Name q) ->
  (HandleQuery q t_get t_set (srun ops (mkServer c w))).1 = inl r -> Exists (RR_Record (Result r)) = true ->
  exists res, told (mkServer c w) (ops ++ [SQuery q t_get t_set]) q res /\ Result r = vet (Query.Name q) res.
Proof.
  intros Hn Hops HU. set (s := srun ops (mkServer c w)). destruct (srun_inv ops _ Hops (boot_inv cap c w Hn)) as [Hc _]. fold s in Hc.
  unfold HandleQuery. pose proof (Cache.Get_inv nameHash U nameHash_inj (query_key q) t_get _ Hc) as (_ & _ & Hv & _).
  destruct (Cache.Get nameHash (query_key q) t_get (sv_cache s)) as [hit c1]. cbn [fst snd] in *. destruct hit as [res|].
  - intros [= <-] _. cbn [Result]. destruct (Cache.entries (sv_cache s) !! query_key q) as [e|] eqn:E; [|done].
    destruct (Cache.expiresAt e <? t_get); [done|]. injection Hv as ->.
    destruct (entries_told cap c w ops _ _ Hn Hops E) as (q' & res0 & Hk & Hval & Ht).
    assert (q' = q) as -> by (destruct q, q'; by injection Hk as -> -> ->). exists res0. split; [by apply told_snoc|done].
  - pose proof (told_now (mkServer c w) ops q t_get t_set) as Hnow. fold s in Hnow.
    destruct (cr_Resolve _ _ _ _) as [[res|e'] w1]; cbn [fst snd]; [|done].
    destruct (Exists (RR_Record res)) eqn:Ex; cbn [fst]; intros [= <-]; cbn [Result]; [|congruence].
    intros _. exists res. split; [by apply Hnow|done].
Qed.

(** Whatever queries and events the server has handled, every positive
    answer it gives, cached or not, carries the owner-signature verdict that
    VerifyOwnerSig gives for that name and record, and a proof only if it was
    made from the record's own message with the record's own commitment. *)
Theorem answers_are_vetted cap c w ops q t_get t_set r :
  Cache.New cap = Some c -> Forall sop_ok ops -> U (Query.Name q) ->
  (HandleQuery q t_get t_set (srun ops (mkServer c w))).1 = inl r -> Found r = true ->
  vetted (Query.Name q) (Result r).
Proof.
  intros Hn Hops HU Hr Hf. pose proof (srun_inv ops _ Hops (boot_inv cap c w Hn)) as Hs.
  destruct (HandleQuery_inv q t_get t_set _ HU Hs) as [_ H]. apply H; [done|].
  unfold Found in Hf. by apply andb_true_iff in Hf as [? _].
Qed.

(** Only live records with a positive TTL are cached: a failed chain call, a
    missing record or a zero TTL leaves no entry for the query's key, so the next
    query asks the chain again; a record with TTL seconds is served from the cache
    for exactly that long, without a chain call, as the same answer. *)
Theorem HandleQuery_read_through cap c w ops q t_get t_set :
  Cache.New cap = Some c -> Forall sop_ok ops -> U (Query.Name q) ->
  let s := srun ops (mkServer c w) in
  forall ans s', HandleQuery q t_get t_set s = (ans, s') ->
  match ans with
  | inr _ => Cache.entries (sv_cache s') !! query_key q = None
  | inl r =>
      Cached r = true \/ cached_ok (Cache.entries (sv_cache s')) /\
      if Exists (RR_Record (Result r)) && (0 <? TTL (RR_Record (Result r)))
      then 0 <= TTL (RR_Record (Result r)) < 2 ^ 32 -> forall t t' ,
           let out := HandleQuery q t t' s' in
           t <= t_set + TTL (RR_Record (Result r)) * 1000000000 ->
           out.1 = inl (mkQueryResult (Result r) true) /\ sv_world out.2 = sv_world s'
      else Cache.entries (sv_cache s') !! query_key q = None
  end.
Proof.
  intros Hn Hops HU s ans s' HQ. pose proof (srun_inv ops _ Hops (boot_inv cap c w Hn)) as Hs. fold s in Hs.
  pose proof (HandleQuery_inv q t_get t_set s HU Hs) as [Hs' _]. rewrite HQ in Hs'. cbn [snd] in Hs'.
  destruct Hs as [Hc Hm]. clearbody s. unfold HandleQuery in HQ.
  pose proof (Cache.Get_inv nameHash U nameHash_inj (query_key q) t_get _ Hc) as (Hc1 & _ & Hv & He).
  destruct (Cache.Get nameHash (query_key q) t_get (sv_cache s)) as [hit c1]. cbn [fst snd] in *.
  destruct hit as [res|]; [injection HQ as <- <-; by left|].
  assert (Cache.entries c1 !! query_key q = None) as Hnone.
  { rewrite He. destruct (Cache.entries (sv_cache s) !! query_key q) as [e|] eqn:E; [|done].
    destruct (Cache.expiresAt e <? t_get); [apply lookup_delete_eq|done]. }
  destruct (cr_Resolve _ _ _ _) as [[res|e] w1]; [|by injection HQ as <- <-].
  destruct (Exists (RR_Record res)) eqn:Ex; [|injection HQ as <- <-; right; cbn; rewrite Ex; by split; [apply Hs'|]].
  cbv zeta in HQ. injection HQ as <- <-. right. split; [apply Hs'|]. cbn [Result].
  change (RR_Record (vet (Query.Name q) res)) with (RR_Record res). rewrite Ex. cbn [andb sv_cache].
  destruct (0 <? TTL (RR_Record res)) eqn:Et; [|done]. intros Httl t t' Ht.
  pose proof (Cache.Set_inv nameHash U nameHash_inj (query_key q) (vet (Query.Name q) res)
    (ttl_duration (TTL (RR_Record res))) t_set c1 HU Hc1) as (Hc2 & _ & Hk & _).
  unfold HandleQuery at 1 2. cbn [sv_cache sv_world].
  pose proof (Cache.Get_inv nameHash U nameHash_inj (query_key q) t _ Hc2) as (_ & _ & Hv2 & _).
  rewrite Hk in Hv2. cbn [Cache.expiresAt Cache.value] in Hv2. rewrite ttl_duration_ok in * by done.
  rewrite (proj2 (Z.ltb_ge _ _)) in Hv2 by lia.
  destruct (Cache.Get nameHash (query_key q) t _) as [hit2 c2]. cbn [fst] in Hv2. subst hit2. done.
Qed.

(** The proof attached to an answer is one a client can check: it decodes from
    its calldata and verifies against the commitment of the record on chain. *)
Theorem answer_proofs_verify {MIL : Zk.MimcLaws St} (gadget : list Z -> Z) cap c w ops q t_get t_set r :
  (forall els h, Zk.write_elements els Zk.mimc_New = Ret h -> gadget els = be_Z (Zk.mimc_Sum h)) ->
  (forall ccs pk vk cc wt pw proof,
     Zk.loadArtifacts artifact = Ret (ccs, pk, vk) -> Zk.circuit_holds gadget cc -> Zk.NewWitness cc = Some wt ->
     Zk.groth16_Prove ccs pk wt = Some proof -> Zk.NewPublicWitness (Zk.C_Commitment cc) = Some pw ->
     Zk.groth16_Verify proof vk pw = true) ->
  (forall z, is_Some (Zk.NewPublicWitness z)) ->
  (forall msg proof data, Zk.Prove artifact msg = Ret proof -> Zk.SolidityCalldata proof = Ret data ->
     Zk.ProofFromSolidityCalldata data = Ret proof) ->
  Cache.New cap = Some c -> Forall sop_ok ops -> U (Query.Name q) ->
  (HandleQuery q t_get t_set (srun ops (mkServer c w))).1 = inl r -> Found r = true -> ZKProof (Result r) <> [] ->
  exists proof, Zk.ProofFromSolidityCalldata (ZKProof (Result r)) = Ret proof
    /\ Zk.Verify artifact proof (Commitment (RR_Record (Result r))) = Ret ().
Proof.
  intros Hg Hcomplete Hpw Hcd Hn Hops HU Hr Hf Hne.
  pose proof (srun_inv ops _ Hops (boot_inv cap c w Hn)) as Hs.
  destruct (HandleQuery_inv q t_get t_set _ HU Hs) as [_ H].
  destruct (H r Hr) as [_ [Hz|(msg & proof & _ & Hc & Hp & Hcal)]].
  - unfold Found in Hf. by apply andb_true_iff in Hf as [? _].
  - done.
  - exists proof. split; [by eapply Hcd|]. eapply (Zk.Prove_Verify artifact gadget Hg Hcomplete Hpw); done.
Qed.
End Server.
Arguments server : clear implicits.

(** * A concrete server

    The chain answers every query with one record; the world counts the calls. *)
#[local] Existing Instances Pki.merge_sort_pairs Zk.toy_mimc Zk.toy_mimc_laws Zk.toy_groth.
Definition demo_artifact (path : bytes) : option bytes := Some [].
Definition demo_commitment : bytes :=
  Eval vm_compute in match Zk.Commitment Pki.demo_message with Ret c => c | _ => [] end.
Definition demo_rec : Record :=
  mkRecord (str "A") [] [str "ttl-hint"; str "ip"] [str "1"; str "10.0.0.1"] 300 2
    (be_bytes 32 77 ++ replicate 32 x00 ++ [x1b]) demo_commitment true.
#[export] Instance demo_chain : ChainReader Z () := {
  cr_Resolve n t sel w := (inl (mkResolveResult demo_rec (be_bytes 20 77) [] false []), w + 1);
  cr_GetDomain n w := (inl (mkDomain (be_bytes 20 77) [] 100 2), w + 1);
  cr_ListRecords n w := (inl [demo_rec], w + 1);
  cr_ListTypes w := (inl [str "A"], w + 1);
  cr_ChainHead w := (inl 7, w + 1);
}.
Definition demo_query : Query.Query := Query.mkQuery (str "alice") (str "A") [].
Definition demo_lru : Type := Cache.list_lru Cache.Key (Cache.entry ResolveResult).
Definition demo_cache : Cache.TTLCache demo_lru := Cache.mkCache (Cache.mkListLru [] 8) 8 ∅ ∅ 0 0 0.
Definition demo_hq := HandleQuery (EC := Pki.toy_eth) (CR := demo_chain) (L := demo_lru) demo_artifact (fun n => n) demo_query.
Definition demo_boot : server demo_lru Z := mkServer demo_cache 0.

(** The first query asks the chain, the second is served from the cache. *)
Example demo_two_queries :
  match demo_hq 0 1 demo_boot with
  | (inl r1, s1) =>
      match demo_hq 5 6 s1 with
      | (inl r2, s2) =>
          (Cached r1, Cached r2, sv_world s2, OwnerSigValid (Result r2), bool_decide (ZKProof (Result r2) = []), Found r2)
      | _ => (false, false, 0, false, false, false)
      end
  | _ => (false, false, 0, false, false, false)
  end = (false, true, 1, true, false, true).
Proof. vm_refl. Qed.

Definition demo_ops : list sop := [SQuery demo_query 0 1].
Definition demo_answer : QueryResult :=
  Eval vm_compute in match (demo_hq 5 6 (demo_hq 0 1 demo_boot).2).1 with inl r => r | inr _ => mkQueryResult (mkResolveResult zero_record [] [] false []) false end.

Lemma demo_answer_ok : (demo_hq 5 6 (demo_hq 0 1 demo_boot).2).1 = inl demo_answer.
Proof. vm_refl. Qed.

Lemma demo_server_new : Cache.New 8 = Some demo_cache.
Proof. reflexivity. Qed.

Lemma demo_unvetted n t sel w (res : ResolveResult) w' :
  cr_Resolve n t sel w = (inl res, w') -> OwnerSigValid res = false.
Proof. by intros [= <- _]. Qed.

Lemma answers_are_vetted_witness :
  vetted (EC := Pki.toy_eth) demo_artifact (str "alice") (Result demo_answer).
Proof.
  refine (answers_are_vetted (EC := Pki.toy_eth) (CR := demo_chain) (L := demo_lru) demo_artifact (fun n => n)
    (fun _ => True) (fun _ _ _ _ e => e) demo_unvetted 8 demo_cache 0 demo_ops demo_query 5 6 demo_answer demo_server_new _ I _ _).
  - repeat constructor.
  - exact demo_answer_ok.
  - reflexivity.
Defined.

Lemma HandleQuery_read_through_witness :
  (demo_hq 5 6 (demo_hq 0 1 demo_boot).2).1 = inl (mkQueryResult (Result demo_answer) true).
Proof.
  destruct (HandleQuery_read_through (EC := Pki.toy_eth) (CR := demo_chain) (L := demo_lru) demo_artifact (fun n => n)
    (fun _ => True) (fun _ _ _ _ e => e) demo_unvetted 8 demo_cache 0 [] demo_query 0 1 demo_server_new
    (Forall_nil_2 _) I (inl (mkQueryResult (Result demo_answer) false)) (demo_hq 0 1 demo_boot).2) as [H|[_ H]].
  - vm_refl.
  - discriminate H.
  - apply (H ltac:(vm_compute; split; congruence) 5 6). vm_compute. congruence.
Defined.

Definition demo_gadget (els : list Z) : Z :=
  match Zk.write_elements els Zk.mimc_New with Ret h => be_Z (Zk.mimc_Sum h) | _ => 0 end.

Lemma demo_calldata msg proof data :
  Zk.Prove demo_artifact msg = Ret proof -> Zk.SolidityCalldata proof = Ret data ->
  Zk.ProofFromSolidityCalldata data = Ret proof.
Proof.
  intros Hp Hd. apply (Zk.calldata_decode (2 ^ 254)); [| | |exact Hd].
  - reflexivity.
  - intros z Hz. apply Zk.toy_canonical. lia.
  - unfold Zk.Prove in Hp. apply go_bind_ret in Hp as (x & _ & Hp). destruct x as [[ccs pk] vk].
    apply go_bind_ret in Hp as (cc & _ & Hp). apply go_bind_ret in Hp as (wt & _ & Hp). cbn -[Z.pow] in Hp.
    injection Hp as <-. unfold Zk.coordinates. simpl Zk.Ar_X.
    constructor; [apply Z.mod_pos_bound; lia|]. repeat (constructor; [simpl; lia|]). constructor.
Qed.

Lemma demo_complete ccs pk vk cc (wt : Zk.RecordCommitmentCircuit) (pw : Z) proof :
  Zk.loadArtifacts demo_artifact = Ret (ccs, pk, vk) -> Zk.circuit_holds demo_gadget cc -> Zk.NewWitness cc = Some wt ->
  Zk.groth16_Prove ccs pk wt = Some proof -> Zk.NewPublicWitness (Zk.C_Commitment cc) = Some pw ->
  Zk.groth16_Verify proof vk pw = true.
Proof. intros _ _ [= <-] [= <-] [= <-]. apply Z.eqb_refl. Qed.

Lemma answer_proofs_verify_witness :
  exists proof, Zk.ProofFromSolidityCalldata (ZKProof (Result demo_answer)) = Ret proof
    /\ Zk.Verify demo_artifact proof demo_commitment = Ret ().
Proof.
  refine (answer_proofs_verify (EC := Pki.toy_eth) (CR := demo_chain) (L := demo_lru) demo_artifact (fun n => n)
    (fun _ => True) (fun _ _ _ _ e => e) demo_unvetted demo_gadget 8 demo_cache 0 demo_ops demo_query 5 6 demo_answer
    _ demo_complete _ demo_calldata demo_server_new _ I _ _ _).
  - intros els h Hw. unfold demo_gadget. by rewrite Hw.
  - intros z. by eexists.
  - repeat constructor.
  - exact demo_answer_ok.
  - reflexivity.
  - discriminate.
Defined.
End Handle.
