(* ===== verification/Udp.v ===== *)
(** The UDP front end (src/resolver/internal/server/udp.go): the TLV packet codec,
    the handler of one packet, and the admission control of the receive loop.

    JSON encoding is a parameter (three marshallers), like the text of errors.
    The decoders read the packet by index and slice expressions, which panic out of
    range. Their loops advance an offset by at least the three bytes of a TLV header
    a round, so the packet's length is enough fuel, and the panic that stands for its
    exhaustion is unreachable. *)
From S2P Require Import Prelude GoStrings Regex Encoding Query Chain Cache Pki Zk Handle RateLimit Net.
Import Chain.

Local Open Scope Z_scope.

Module Udp.

Definition udpVersion : byte := x01.
Definition udpMaxPacket : Z := 8192.
Definition udpMaxResp : Z := 65000.
Definition udpMaxInFlight : Z := 256.

Definition udpTLVName : byte := x01.
Definition udpTLVType : byte := x02.
Definition udpTLVSelector : byte := x03.
Definition udpTLVEnvelope : byte := z2b 100.
Definition udpTLVError : byte := z2b 101.

Definition udpStatusOK : byte := x00.
Definition udpStatusBadQuery : byte := x01.
Definition udpStatusChain : byte := x02.
Definition udpStatusInternal : byte := x03.
Definition udpStatusRateLimited : byte := x04.
Definition udpStatusTooLarge : byte := x05.

Definition udpMagic : bytes := str "DDNS".

(** type udpTLV struct *)
Record udpTLV := mkTLV { typ : byte; val : bytes }.

Inductive udp_error :=
| PacketTooShort | BadMagic | BadVersion (b : byte) | BadFlags (b : byte)
| TruncatedHeader | TruncatedValue | DuplicateTLV (t : byte) | QueryError (e : Query.error).

(** * The codec *)

Definition encode_tlv (tlv : udpTLV) : bytes :=
  if 65535 <? Z.of_nat (length (val tlv)) then []   (* skipped *)
  else typ tlv :: be_bytes 2 (Z.of_nat (length (val tlv))) ++ val tlv.

Definition encodeUDPResponse (status : byte) (tlvs : list udpTLV) : bytes :=
  udpMagic ++ [udpVersion; status] ++ concat (map encode_tlv tlvs).

Definition encodeUDPQuery (q : Query.Query) : bytes :=
  encodeUDPResponse x00
    [mkTLV udpTLVName (Query.Name q); mkTLV udpTLVType (Query.Type_ q); mkTLV udpTLVSelector (Query.Selector q)].

(** The checks on the first five bytes, which both decoders make, and the sixth. *)
Definition check_header (packet : bytes) : go udp_error byte :=
  if Z.of_nat (length packet) <? 6 then Err PacketTooShort
  else
    magic ← go_slice packet 0 4;
    if negb (bool_decide (magic = udpMagic)) then Err BadMagic
    else
      ver ← go_index packet 4;
      if negb (bool_decide (ver = udpVersion)) then Err (BadVersion ver)
      else go_index packet 5.

(** One round of the decoding loops at offset [i], up to the value: the type, the
    length and the offset of the value. *)
Definition read_tlv (packet : bytes) (i : Z) : go udp_error (byte * Z * Z) :=
  if Z.of_nat (length packet) - i <? 3 then Err TruncatedHeader
  else
    typ ← go_index packet i;
    len ← go_slice packet (i + 1) (i + 3);
    let length_ := be_Z len in
    let i := i + 3 in
    if length_ >? Z.of_nat (length packet) - i then Err TruncatedValue
    else Ret (typ, length_, i).

Definition is_query_tlv (t : byte) : bool :=
  bool_decide (t = udpTLVName) || bool_decide (t = udpTLVType) || bool_decide (t = udpTLVSelector).

Fixpoint query_loop (fuel : nat) (packet : bytes) (i : Z) (fields : gmap byte bytes) : go udp_error (gmap byte bytes) :=
  if i <? Z.of_nat (length packet) then
    match fuel with
    | O => Panic
    | S fuel =>
        '(t, length_, i) ← read_tlv packet i;
        if is_query_tlv t then
          if bool_decide (is_Some (fields !! t)) then Err (DuplicateTLV t)
          else
            v ← go_slice packet i (i + length_);
            query_loop fuel packet (i + length_) (<[t := v]> fields)
        else query_loop fuel packet (i + length_) fields
    end
  else Ret fields.

Section Decode.
Context {UC : UnicodeCase}.

Definition decodeUDPQuery (packet : bytes) : go udp_error Query.Query :=
  flags ← check_header packet;
  if negb (bool_decide (flags = x00)) then Err (BadFlags flags)
  else
    fields ← query_loop (length packet) packet 6 ∅;
    pairs ← map_err QueryError (Query.ParsePairs (default [] (fields !! udpTLVSelector)));
    map_err QueryError (Query.New (default [] (fields !! udpTLVName)) (default [] (fields !! udpTLVType)) pairs).
End Decode.

Definition append_value (t : byte) (v : bytes) (values : gmap byte (list bytes)) : gmap byte (list bytes) :=
  <[t := default [] (values !! t) ++ [v]]> values.

Fixpoint response_loop (fuel : nat) (packet : bytes) (i : Z) (values : gmap byte (list bytes)) :
    go udp_error (gmap byte (list bytes)) :=
  if i <? Z.of_nat (length packet) then
    match fuel with
    | O => Panic
    | S fuel =>
        '(t, length_, i) ← read_tlv packet i;
        v ← go_slice packet i (i + length_);
        response_loop fuel packet (i + length_) (append_value t v values)
    end
  else Ret values.

Definition decodeUDPResponse (packet : bytes) : go udp_error (byte * gmap byte (list bytes)) :=
  status ← check_header packet;
  values ← response_loop (length packet) packet 6 ∅;
  mret (status, values).

(** * Lemmas on the codec *)

Lemma encode_tlv_fits tlv : fits 2 (val tlv) ->
  encode_tlv tlv = typ tlv :: be_bytes 2 (Z.of_nat (length (val tlv))) ++ val tlv.
Proof. unfold fits, encode_tlv. intros H. by rewrite (proj2 (Z.ltb_ge _ _)) by lia. Qed.

Lemma encode_tlv_length tlv : fits 2 (val tlv) -> Z.of_nat (length (encode_tlv tlv)) = 3 + Z.of_nat (length (val tlv)).
Proof. intros H. rewrite encode_tlv_fits by done. cbn [length]. rewrite length_app, be_bytes_length. lia. Qed.

(** What a decoder reads where the encoder wrote a TLV. *)
Lemma read_tlv_encoded pre tlv post i :
  fits 2 (val tlv) -> i = Z.of_nat (length pre) ->
  read_tlv (pre ++ encode_tlv tlv ++ post) i = Ret (typ tlv, Z.of_nat (length (val tlv)), i + 3).
Proof.
  intros Hf Hi. unfold read_tlv. pose proof (encode_tlv_length tlv Hf) as Hl.
  rewrite (proj2 (Z.ltb_ge _ _)) by (rewrite !length_app; lia).
  rewrite encode_tlv_fits by done. set (n := Z.of_nat (length (val tlv))) in *. cbn [app].
  rewrite go_index_app by done. cbn [mbind go_bind]. rewrite (cons_middle (typ tlv)), app_assoc, <- (app_assoc (be_bytes 2 n)).
  rewrite go_slice_app by (rewrite ?length_app, ?be_bytes_length; cbn; lia). cbn [mbind go_bind]. cbv zeta.
  unfold fits in Hf. rewrite be_Z_small by lia. rewrite Z.gtb_ltb, (proj2 (Z.ltb_ge _ _)); [done|].
  rewrite !length_app, be_bytes_length. cbn [length]. lia.
Qed.

Lemma value_encoded {E} pre tlv post i :
  fits 2 (val tlv) -> i = Z.of_nat (length pre) ->
  go_slice (E := E) (pre ++ encode_tlv tlv ++ post) (i + 3) (i + 3 + Z.of_nat (length (val tlv))) = Ret (val tlv).
Proof.
  intros Hf Hi. rewrite encode_tlv_fits by done.
  replace (pre ++ _) with ((pre ++ typ tlv :: be_bytes 2 (Z.of_nat (length (val tlv)))) ++ val tlv ++ post)
    by (rewrite <- ?app_assoc; cbn [app]; by rewrite <- ?app_assoc).
  apply go_slice_app; rewrite ?length_app; cbn [length]; rewrite ?be_bytes_length; lia.
Qed.

(** A value the decoders read is inside the packet, and a round moves forward. *)
Lemma read_tlv_inside packet i t n i' : read_tlv packet i = Ret (t, n, i') -> i' = i + 3 /\ 0 <= n /\ i' + n <= Z.of_nat (length packet).
Proof.
  unfold read_tlv. destruct (_ <? 3); [done|]. intros (t' & _ & (len & _ & H)%go_bind_ret)%go_bind_ret. revert H. cbv zeta.
  rewrite Z.gtb_ltb. destruct (Z.ltb_spec (Z.of_nat (length packet) - (i + 3)) (be_Z len)); [done|].
  intros [= <- <- <-]. pose proof (be_Z_range len). lia.
Qed.

Lemma read_tlv_no_panic packet i : 0 <= i -> read_tlv packet i <> Panic.
Proof.
  intros Hi. unfold read_tlv. destruct (Z.ltb_spec (Z.of_nat (length packet) - i) 3); [done|].
  destruct (go_index_in (E := udp_error) packet i ltac:(lia)) as [t ->]. cbn [mbind go_bind].
  destruct (go_slice_in (E := udp_error) packet (i + 1) (i + 3) ltac:(lia) ltac:(lia)) as (l & -> & _). cbn [mbind go_bind].
  cbv zeta. by destruct (_ >? _).
Qed.

Lemma query_loop_no_panic fuel packet i fields :
  0 <= i -> Z.of_nat (length packet) - i <= Z.of_nat fuel -> query_loop fuel packet i fields <> Panic.
Proof.
  revert i fields. induction fuel as [|fuel IH]; intros i fields Hi Hl; cbn [query_loop];
    (destruct (Z.ltb_spec i (Z.of_nat (length packet))); [|done]); [lia|].
  destruct (read_tlv packet i) as [[[t n] i']| |] eqn:E; cbn [mbind go_bind]; [|done|by apply read_tlv_no_panic in E].
  apply read_tlv_inside in E as (-> & Hn & He). destruct (is_query_tlv t); [|apply IH; lia].
  case_bool_decide; [done|].
  destruct (go_slice_in (E := udp_error) packet (i + 3) (i + 3 + n) ltac:(lia) ltac:(lia)) as (v & -> & _). apply IH; lia.
Qed.

Lemma response_loop_no_panic fuel packet i values :
  0 <= i -> Z.of_nat (length packet) - i <= Z.of_nat fuel -> response_loop fuel packet i values <> Panic.
Proof.
  revert i values. induction fuel as [|fuel IH]; intros i values Hi Hl; cbn [response_loop];
    (destruct (Z.ltb_spec i (Z.of_nat (length packet))); [|done]); [lia|].
  destruct (read_tlv packet i) as [[[t n] i']| |] eqn:E; cbn [mbind go_bind]; [|done|by apply read_tlv_no_panic in E].
  apply read_tlv_inside in E as (-> & Hn & He).
  destruct (go_slice_in (E := udp_error) packet (i + 3) (i + 3 + n) ltac:(lia) ltac:(lia)) as (v & -> & _). apply IH; lia.
Qed.

Lemma response_loop_encoded fuel pre tlvs values :
  Forall (fun t => fits 2 (val t)) tlvs -> (length (concat (map encode_tlv tlvs)) <= fuel)%nat ->
  response_loop fuel (pre ++ concat (map encode_tlv tlvs)) (Z.of_nat (length pre)) values
  = Ret (fold_left (fun m t => append_value (typ t) (val t) m) tlvs values).
Proof.
  intros H. revert fuel pre values. induction H as [|tlv tlvs Hf _ IH]; intros fuel pre values Hl; cbn [map concat fold_left] in *.
  { rewrite app_nil_r. by destruct fuel; cbn [response_loop]; rewrite Z.ltb_irrefl. }
  pose proof (encode_tlv_length tlv Hf) as Ht. rewrite length_app in Hl. destruct fuel as [|fuel]; [lia|]. cbn [response_loop].
  rewrite (proj2 (Z.ltb_lt _ _)) by (rewrite !length_app; lia).
  rewrite read_tlv_encoded by done. cbn [mbind go_bind]. rewrite value_encoded by done. cbn [mbind go_bind].
  replace (Z.of_nat (length pre) + 3 + Z.of_nat (length (val tlv))) with (Z.of_nat (length (pre ++ encode_tlv tlv)))
    by (rewrite length_app; lia).
  rewrite app_assoc. apply IH. lia.
Qed.

(** One round of the query's loop on an encoded field. *)
Lemma query_loop_field fuel pre tlv post fields :
  fits 2 (val tlv) -> is_query_tlv (typ tlv) = true -> fields !! typ tlv = None ->
  query_loop (S fuel) (pre ++ encode_tlv tlv ++ post) (Z.of_nat (length pre)) fields
  = query_loop fuel ((pre ++ encode_tlv tlv) ++ post) (Z.of_nat (length (pre ++ encode_tlv tlv))) (<[typ tlv := val tlv]> fields).
Proof.
  intros Hf Ht Hn. pose proof (encode_tlv_length tlv Hf) as Hl. cbn [query_loop].
  rewrite (proj2 (Z.ltb_lt _ _)) by (rewrite !length_app; lia).
  rewrite read_tlv_encoded by done. cbn [mbind go_bind]. rewrite Ht, Hn, bool_decide_eq_false_2 by (by intros []).
  rewrite value_encoded by done. cbn [mbind go_bind]. rewrite <- app_assoc. f_equal. rewrite length_app. lia.
Qed.
Lemma query_loop_end fuel packet fields : query_loop fuel packet (Z.of_nat (length packet)) fields = Ret fields.
Proof. by destruct fuel; cbn [query_loop]; rewrite Z.ltb_irrefl. Qed.

(** * Packets *)

Definition header (status : byte) : bytes := udpMagic ++ [udpVersion; status].
Lemma encoded_header status tlvs : encodeUDPResponse status tlvs = header status ++ concat (map encode_tlv tlvs).
Proof. reflexivity. Qed.
Lemma check_header_encoded status rest : check_header (header status ++ rest) = Ret status.
Proof.
  unfold check_header. rewrite (proj2 (Z.ltb_ge _ _)) by (cbn; lia).
  rewrite (go_slice_app [] udpMagic _ 0 4 eq_refl eq_refl : go_slice (header status ++ rest) 0 4 = _). cbn [mbind go_bind].
  rewrite bool_decide_eq_true_2 by done. cbn [negb]. reflexivity.
Qed.
Lemma decodeUDPResponse_encoded status tlvs :
  Forall (fun t => fits 2 (val t)) tlvs ->
  decodeUDPResponse (encodeUDPResponse status tlvs)
  = Ret (status, fold_left (fun m t => append_value (typ t) (val t) m) tlvs ∅).
Proof.
  intros H. unfold decodeUDPResponse. rewrite encoded_header, check_header_encoded. cbn [mbind go_bind].
  change 6 with (Z.of_nat (length (header status))). rewrite response_loop_encoded; [done|done|]. rewrite length_app. lia.
Qed.

Lemma check_header_no_panic packet : check_header packet <> Panic.
Proof.
  unfold check_header. destruct (Z.ltb_spec (Z.of_nat (length packet)) 6); [done|].
  destruct (go_slice_in (E := udp_error) packet 0 4 ltac:(lia) ltac:(lia)) as (m & -> & _). cbn [mbind go_bind].
  destruct (negb _); [done|]. destruct (go_index_in (E := udp_error) packet 4 ltac:(lia)) as [v ->]. cbn [mbind go_bind].
  destruct (negb _); [done|]. by destruct (go_index_in (E := udp_error) packet 5 ltac:(lia)) as [f ->].
Qed.

Lemma decodeUDPQuery_no_panic {UC : UnicodeCase} packet : decodeUDPQuery packet <> Panic.
Proof.
  unfold decodeUDPQuery. pose proof (check_header_no_panic packet).
  destruct (check_header packet) as [b| |]; cbn [mbind go_bind]; [|done|done].
  destruct (negb _); [done|]. pose proof (query_loop_no_panic (length packet) packet 6 ∅ ltac:(lia) ltac:(lia)).
  destruct (query_loop _ _ _ _) as [fields| |]; cbn [mbind go_bind]; [|done|done].
  pose proof (Query.ParsePairs_no_panic (default [] (fields !! udpTLVSelector))).
  destruct (Query.ParsePairs _) as [pairs| |]; cbn [map_err mbind go_bind]; [|done|done].
  pose proof (Query.New_no_panic (default [] (fields !! udpTLVName)) (default [] (fields !! udpTLVType)) pairs).
  by destruct (Query.New _ _ _).
Qed.

(** C38. Neither decoder panics, whatever bytes arrive: every byte and every slice of
    the packet that they read is within it, and their loops end. *)
Theorem decoders_total {UC : UnicodeCase} packet :
  decodeUDPQuery packet <> Panic /\ decodeUDPResponse packet <> Panic.
Proof.
  split; [apply decodeUDPQuery_no_panic|]. unfold decodeUDPResponse. pose proof (check_header_no_panic packet).
  destruct (check_header packet) as [b| |]; cbn [mbind go_bind]; [|done|done].
  pose proof (response_loop_no_panic (length packet) packet 6 ∅ ltac:(lia) ltac:(lia)).
  by destruct (response_loop _ _ _ _).
Qed.

(** A client's query survives the wire: what encodeUDPQuery sends for a query
    made by query.New is decoded to the same query (selectors up to 65535 bytes). *)
Theorem decodeUDPQuery_encode {UC : UnicodeCase} name t pairs q :
  Query.New name t pairs = Ret q -> fits 2 (Query.Selector q) ->
  decodeUDPQuery (encodeUDPQuery q) = Ret q.
Proof.
  intros Hn Hsel. pose proof (Query.New_lengths _ _ _ _ Hn) as [Ln Lt].
  destruct (Query.New_reparse _ _ _ _ Hn) as (pairs' & Hp & Hnew).
  assert (fits 2 (Query.Name q) /\ fits 2 (Query.Type_ q)) as [Fn Ft] by (unfold fits; lia).
  unfold decodeUDPQuery, encodeUDPQuery. rewrite encoded_header, check_header_encoded. cbn [mbind go_bind].
  rewrite bool_decide_eq_true_2 by done. cbn [negb map concat].
  set (packet := header x00 ++ _). assert (exists n, length packet = S (S (S n))) as [n ->].
  { exists (length packet - 3)%nat. unfold packet. rewrite length_app. cbn. lia. }
  unfold packet. change 6 with (Z.of_nat (length (header x00))).
  rewrite !query_loop_field by (vm_compute; done) || (by cbn). rewrite app_nil_r, query_loop_end. cbn [typ val mbind go_bind].
  rewrite lookup_insert_eq, (lookup_insert_ne _ _ udpTLVName), (lookup_insert_ne _ _ udpTLVName),
    lookup_insert_eq, (lookup_insert_ne _ _ udpTLVType), lookup_insert_eq by done. cbn [default]. unfold id.
  rewrite Hp. cbn [map_err mbind go_bind]. by rewrite Hnew.
Qed.

(** The TLVs of a response come back in order under their types, and the
    status with them, as long as each value fits its 16-bit length. *)
Theorem decodeUDPResponse_encode status tlvs :
  Forall (fun t => fits 2 (val t)) tlvs ->
  decodeUDPResponse (encodeUDPResponse status tlvs)
  = Ret (status, fold_left (fun m t => append_value (typ t) (val t) m) tlvs ∅).
Proof.
  apply decodeUDPResponse_encoded.
Qed.

(** * The handler of a packet *)
Section Server.
Context {UC : UnicodeCase}.
Context {SP : Pki.SortPairs} {Priv Pub : Type} {EC : Pki.EthCrypto Priv Pub}.
Context {St : Type} {MI : Zk.Mimc St} {CCS PK VK Wit PubWit : Type} {GR : Zk.Groth16 CCS PK VK Wit PubWit}.
Context {L : Type} {LO : Cache.LruOps Cache.Key (Cache.entry ResolveResult) L}.
Context {W Er : Type} {CR : ChainReader W Er} {HX : Encoding.Hexutil}.
Context {EdPriv : Type} {ED : Pki.Ed25519 EdPriv}.
Variable artifact : bytes -> option bytes.
Variable nameHash : bytes -> bytes.
Variable address_Hex : address -> bytes.
Context {JE : Type}.
(** json.Marshal of the answer, of an envelope and of an error body; the texts of
    the errors *)
Variable marshal_response : Handle.resolveResponse_t -> go JE bytes.
Variable marshal_envelope : Pki.Envelope -> go JE bytes.
Variable marshal_error : bytes -> bytes -> bytes.
Variable udp_error_text : udp_error -> bytes.
Variable chain_error_text : Er -> bytes.
Variable json_error_text : JE -> bytes.
Variable identity : Pki.Identity EdPriv.

Definition encodeUDPError (status : byte) (code msg : bytes) : bytes :=
  encodeUDPResponse status [mkTLV udpTLVError (marshal_error code msg)].

(** handleUDPPacket from the response on; a panic is [None]. *)
Definition udp_reply (resp : Handle.resolveResponse_t + Er) : option bytes :=
  match resp with
  | inr e => Some (encodeUDPError udpStatusChain (str "chain_error") (chain_error_text e))
  | inl resp =>
      match Pki.SealEnvelope marshal_response identity resp with
      | Panic => None
      | Err e => Some (encodeUDPError udpStatusInternal (str "sign_error") (json_error_text e))
      | Ret env =>
          match marshal_envelope env with
          | Panic => None
          | Err e => Some (encodeUDPError udpStatusInternal (str "marshal_error") (json_error_text e))
          | Ret data =>
              if udpMaxResp <? Z.of_nat (length data)
              then Some (encodeUDPError udpStatusTooLarge (str "response_too_large")
                           (str "response exceeds UDP limit; retry over REST"))
              else Some (encodeUDPResponse udpStatusOK [mkTLV udpTLVEnvelope data])
          end
      end
  end.
Definition refuse_query (e : udp_error) : bytes := encodeUDPError udpStatusBadQuery (str "invalid_query") (udp_error_text e).

(** handleUDPPacket, with the server's state after it. A panic of the handler's
    goroutine is [None]. *)
Definition handleUDPPacket (packet : bytes) (t_get t_set : Z) (s : Handle.server L W) :
    option bytes * Handle.server L W :=
  match decodeUDPQuery packet with
  | Panic => (None, s)
  | Err e => (Some (refuse_query e), s)
  | Ret q =>
      let '(resp, s) := Handle.resolveResponse artifact nameHash address_Hex q t_get t_set s in
      (udp_reply resp, s)
  end.

(** The body of the receive loop for one packet: the rate limit, then the
    semaphore; [None] as reply means a handler was started. [t1], [t2], [t3] are the
    clock readings of the limiter. *)
Context {Lim : Type} {RO : RateOps Lim}.
Definition udpHost (addr : bytes) : bytes :=
  match Net.SplitHostPort addr with Some (host, _) => host | None => addr end.
Definition accept_packet (addr : bytes) (t1 t2 t3 : Z) (l : RateLimit.ipLimiter Lim) (inflight : Z) :
    option bytes * RateLimit.ipLimiter Lim * Z :=
  let '(ok, l) := RateLimit.allow (RateLimit.mkRequest (udpHost addr) t1 t2 t3) l in
  if negb ok
  then (Some (encodeUDPError udpStatusRateLimited (str "rate_limited") (str "too many requests from this address")), l, inflight)
  else if inflight <? udpMaxInFlight then (None, l, inflight + 1)
  else (Some (encodeUDPError udpStatusInternal (str "busy") (str "resolver is busy, retry shortly")), l, inflight).

(** Packets arrive and handlers end ([<-sem]), in any order. *)
Inductive udp_event := Arrive (addr : bytes) (t1 t2 t3 : Z) | HandlerDone.
Definition udp_step (e : udp_event) (st : RateLimit.ipLimiter Lim * Z) : RateLimit.ipLimiter Lim * Z :=
  match e with
  | Arrive addr t1 t2 t3 => let '(_, l, n) := accept_packet addr t1 t2 t3 st.1 st.2 in (l, n)
  | HandlerDone => (st.1, if 0 <? st.2 then st.2 - 1 else st.2)
  end.

(** At most 256 handlers run at once. *)
Lemma inflight_bounded es l :
  0 <= (fold_left (fun st e => udp_step e st) es (l, 0)).2 <= udpMaxInFlight.
Proof.
  enough (forall n, 0 <= n <= udpMaxInFlight ->
    0 <= (fold_left (fun st e => udp_step e st) es (l, n)).2 <= udpMaxInFlight) as H by (apply H; unfold udpMaxInFlight; lia).
  revert l. induction es as [|e es IH]; intros l n Hn; cbn [fold_left]; [done|].
  destruct e as [addr t1 t2 t3|]; cbn [udp_step fst snd].
  - unfold accept_packet. destruct (RateLimit.allow _ l) as [[] l']; cbn [negb]; [|by apply IH].
    destruct (Z.ltb_spec n udpMaxInFlight); apply IH; lia.
  - apply IH. destruct (Z.ltb_spec 0 n); lia.
Qed.

(** The shape of a reply: an OK with one envelope, or an error status with its body,
    or without it where encodeUDPResponse left it out for its length. *)
Definition reply_ok (reply : bytes) : Prop :=
  exists status values, decodeUDPResponse reply = Ret (status, values)
    /\ ((status = udpStatusOK /\ exists data, values = {[udpTLVEnvelope := [data]]})
        \/ (status <> udpStatusOK /\ (values = ∅ \/ exists body, values = {[udpTLVError := [body]]}))).

Lemma decode_single status tlv :
  fits 2 (val tlv) -> decodeUDPResponse (encodeUDPResponse status [tlv]) = Ret (status, {[typ tlv := [val tlv]]}).
Proof.
  intros Hf. rewrite decodeUDPResponse_encoded by by repeat constructor. cbn [fold_left]. unfold append_value. by rewrite lookup_empty.
Qed.

(** An error body over 65535 bytes is left out, and the reply is the status alone. *)
Lemma long_error_dropped status code msg :
  65535 < Z.of_nat (length (marshal_error code msg)) ->
  encodeUDPError status code msg = header status /\ decodeUDPResponse (encodeUDPError status code msg) = Ret (status, ∅).
Proof.
  intros Hl. assert (encodeUDPError status code msg = header status) as H.
  { unfold encodeUDPError. rewrite encoded_header. cbn [map concat]. unfold encode_tlv. cbn [val].
    by rewrite (proj2 (Z.ltb_lt _ _)) by lia. }
  rewrite H. split; [done|]. exact (decodeUDPResponse_encoded status [] ltac:(constructor)).
Qed.

Lemma error_reply_ok status code msg : status <> udpStatusOK -> reply_ok (encodeUDPError status code msg).
Proof.
  intros Hs. destruct (Z.ltb_spec 65535 (Z.of_nat (length (marshal_error code msg)))) as [Hl|Hl].
  - exists status, ∅. split; [by apply long_error_dropped|]. right. auto.
  - exists status, {[udpTLVError := [marshal_error code msg]]}.
    split; [apply (decode_single status (mkTLV _ _)); unfold fits; cbn; lia|]. right. eauto.
Qed.

Section Replies.
Hypothesis response_marshals : forall r, marshal_response r <> Panic.
Hypothesis envelope_marshals : forall env, marshal_envelope env <> Panic.

(** A reply is an error, or the sealed envelope of the response. *)
Lemma udp_reply_ok resp :
  exists reply, udp_reply resp = Some reply /\ reply_ok reply
    /\ ((exists status code msg, status <> udpStatusOK /\ reply = encodeUDPError status code msg)
        \/ exists r env data, resp = inl r /\ Pki.SealEnvelope marshal_response identity r = Ret env /\ marshal_envelope env = Ret data
             /\ Z.of_nat (length data) <= udpMaxResp /\ reply = encodeUDPResponse udpStatusOK [mkTLV udpTLVEnvelope data]).
Proof.
  assert (forall status code msg, status <> udpStatusOK -> exists reply, Some (encodeUDPError status code msg) = Some reply /\ reply_ok reply
    /\ ((exists status code msg, status <> udpStatusOK /\ reply = encodeUDPError status code msg)
        \/ exists r env data, resp = inl r /\ Pki.SealEnvelope marshal_response identity r = Ret env /\ marshal_envelope env = Ret data
             /\ Z.of_nat (length data) <= udpMaxResp /\ reply = encodeUDPResponse udpStatusOK [mkTLV udpTLVEnvelope data])) as Herr.
  { intros status code msg Hs. eexists. split; [reflexivity|]. split; [by apply error_reply_ok|]. left. by exists status, code, msg. }
  unfold udp_reply. destruct resp as [r|e]; [|by apply Herr].
  destruct (Pki.SealEnvelope _ _ _) as [env|e|] eqn:Es; [|by apply Herr|].
  2: { exfalso. unfold Pki.SealEnvelope in Es. pose proof (response_marshals r). by destruct (marshal_response r). }
  destruct (marshal_envelope env) as [data|e|] eqn:Em; [|by apply Herr|by apply envelope_marshals in Em].
  destruct (Z.ltb_spec udpMaxResp (Z.of_nat (length data))) as [Hbig|Hsmall]; [by apply Herr|].
  eexists. split; [reflexivity|]. split.
  { exists udpStatusOK, {[udpTLVEnvelope := [data]]}. split; [|left; eauto].
    apply (decode_single _ (mkTLV _ _)). cbn [val]. unfold fits, udpMaxResp in *. lia. }
  right. by exists r, env, data.
Qed.

(** Every packet gets exactly one reply that the client's decoder accepts: an
    OK with the signed envelope of the answer, or an error status; an envelope over
    the limit is never sent as an empty OK. *)
Theorem handleUDPPacket_replies packet t_get t_set s :
  exists reply, (handleUDPPacket packet t_get t_set s).1 = Some reply /\ reply_ok reply
    /\ (forall q r env data s', decodeUDPQuery packet = Ret q ->
          Handle.resolveResponse artifact nameHash address_Hex q t_get t_set s = (inl r, s') ->
          Pki.SealEnvelope marshal_response identity r = Ret env -> marshal_envelope env = Ret data ->
          Z.of_nat (length data) <= udpMaxResp ->
          decodeUDPResponse reply = Ret (udpStatusOK, {[udpTLVEnvelope := [data]]})).
Proof.
  unfold handleUDPPacket. destruct (decodeUDPQuery packet) as [q|e|] eqn:Ed.
  3: { exfalso. revert Ed. apply decodeUDPQuery_no_panic. }
  2: { eexists. split; [reflexivity|]. split; [by apply error_reply_ok|]. intros. congruence. }
  destruct (Handle.resolveResponse _ _ _ _ _ _ _) as [resp s'] eqn:Eresp.
  destruct (udp_reply_ok resp) as (reply & Hr & Hok & _). exists reply. split; [exact Hr|]. split; [exact Hok|].
  intros q0 r0 env0 data0 s0 [= <-] Hres Es Em Hle. rewrite Hres in Eresp. simplify_eq.
  unfold udp_reply in Hr. rewrite Es, Em, (proj2 (Z.ltb_ge _ _)) in Hr by done. injection Hr as <-.
  apply (decode_single _ (mkTLV _ _)). cbn [val]. unfold fits, udpMaxResp in *. lia.
Qed.
End Replies.
End Server.

(** * Concrete packets *)
#[local] Existing Instances Query.ascii_case Pki.merge_sort_pairs Zk.toy_mimc Zk.toy_groth Pki.toy_ed.

Definition demo_q : Query.Query := Query.mkQuery (str "alice") (str "MX") (str "port=25&service=SMTP&transport=TCP").

Lemma decodeUDPQuery_encode_witness : decodeUDPQuery (encodeUDPQuery demo_q) = Ret demo_q.
Proof.
  apply (decodeUDPQuery_encode (str "alice") (str "MX") (list_to_map Query.demo_pairs)).
  - vm_refl.
  - vm_compute. reflexivity.
Defined.

Lemma decodeUDPResponse_encode_witness :
  decodeUDPResponse (encodeUDPResponse x02 [mkTLV x65 (str "a"); mkTLV x64 []; mkTLV x65 (str "b")])
  = Ret (x02, {[ x65 := [str "a"; str "b"]; x64 := [[]] ]}).
Proof.
  rewrite decodeUDPResponse_encode; [vm_refl|].
  repeat constructor; vm_refl.
Defined.

Definition demo_marshal (r : Handle.resolveResponse_t) : go () bytes := Ret (Handle.rr_Owner r).
Definition demo_marshal_env (e : Pki.Envelope) : go () bytes := Ret (Pki.Data e ++ Pki.Signature e).
Definition demo_error (code msg : bytes) : bytes := str "{" ++ code ++ str ":" ++ msg ++ str "}".
Definition demo_handle (packet : bytes) :=
  handleUDPPacket (EC := Pki.toy_eth) (CR := Handle.demo_chain) (L := Handle.demo_lru) Handle.demo_artifact (fun n => n)
    hex_encode demo_marshal demo_marshal_env demo_error (fun _ => []) (fun _ => []) (fun _ => [])
    (Pki.mkIdentity Pki.demo_seed) packet 0 1 Handle.demo_boot.

Example demo_bad_packet : (demo_handle (str "DDNS")).1
  = Some (udpMagic ++ [x01; x01; x65; x00; x10] ++ str "{invalid_query:}").
Proof. vm_refl. Qed.

Lemma handleUDPPacket_replies_witness :
  exists reply, (demo_handle (encodeUDPQuery demo_q)).1 = Some reply /\ reply_ok reply.
Proof.
  destruct (handleUDPPacket_replies (EC := Pki.toy_eth) (CR := Handle.demo_chain) (L := Handle.demo_lru)
    Handle.demo_artifact (fun n => n) hex_encode demo_marshal demo_marshal_env demo_error
    (fun _ => []) (fun _ => []) (fun _ => []) (Pki.mkIdentity Pki.demo_seed)
    ltac:(discriminate) ltac:(discriminate) (encodeUDPQuery demo_q) 0 1 Handle.demo_boot)
    as (reply & H1 & H2 & _).
  exists reply. split; [exact H1|exact H2].
Defined.

End Udp.
