(* ===== verification/Torrent.v ===== *)
(** Package [torrent] (src/resolver/internal/torrent/torrent.go): the bookkeeping
    of the BitTorrent engine (pin, acquire, release, retain) and Fetch.

    The engine's mutex makes each bookkeeping operation atomic, but the torrent
    client's Drop runs after it is released: an operation returns the torrents
    it decided to drop, and the machine below drops them in later steps, so its
    traces are the interleavings of concurrent fetches. anacrolix/torrent is
    the set of torrents its client holds; what it downloads is a parameter. *)
From S2P Require Import Prelude GoStrings Encoding.

Local Open Scope Z_scope.

Module Torrent.

Definition MaxFetchBytes : Z := Z.shiftl 256 20.
Definition maxRetainedTorrents : Z := 256.

(** metainfo.Hash *)
Abbreviation hash := bytes (only parsing).

(** The bookkeeping of type Engine struct. *)
Record Engine := mkEngine { pinned : gset hash; retained : list hash; inUse : gmap hash Z }.

Definition new_engine : Engine := mkEngine ∅ [] ∅.

(** ** New, Close and Stats: the torrent client's library is the parameter. *)
Record Config := mkConfig { DataDir : bytes; ListenPort : Z; DisableDHT : bool }.
Record client_config := mkClientConfig { cc_DataDir : bytes; cc_ListenPort : Z; cc_NoDHT : bool; cc_Seed : bool }.
Inductive new_error := DataDirFailed | ClientFailed.
Definition New {C} (MkdirAll : bytes -> bool) (NewClient : client_config -> option C) (cfg : Config) : go new_error (C * Engine) :=
  if negb (MkdirAll (DataDir cfg)) then Err DataDirFailed
  else
    match NewClient (mkClientConfig (DataDir cfg) (ListenPort cfg) (DisableDHT cfg) true) with
    | Some c => Ret (c, new_engine)
    | None => Err ClientFailed
    end.

Record Stats_t := mkStats { Torrents : Z; TotalPeers : Z; BytesShared : Z }.
(** Stats, on the active peers and the bytes written of each torrent of the client. *)
Definition Stats (ts : list (Z * Z)) : Stats_t :=
  fold_left (fun s t => mkStats (Torrents s + 1) (TotalPeers s + t.1) (BytesShared s + t.2)) ts (mkStats 0 0 0).

(** [e.inUse[ih]] *)
Definition in_use (e : Engine) (ih : hash) : Z := default 0 (inUse e !! ih).

Definition pin (ih : hash) (e : Engine) : Engine := mkEngine ({[ih]} ∪ pinned e) (retained e) (inUse e).

Definition acquire (ih : hash) (e : Engine) : Engine :=
  mkEngine (pinned e) (retained e) (<[ih := in_use e ih + 1]> (inUse e)).

(** release up to the unlock; the boolean is [drop]. *)
Definition release (ih : hash) (e : Engine) : bool * Engine :=
  let e := if 0 <? in_use e ih then mkEngine (pinned e) (retained e) (<[ih := in_use e ih - 1]> (inUse e)) else e in
  let drop := (in_use e ih =? 0) && negb (bool_decide (ih ∈ pinned e)) in
  let e := if in_use e ih =? 0 then mkEngine (pinned e) (retained e) (delete ih (inUse e)) else e in
  (drop, e).

(** The eviction loop of retain over the FIFO. *)
Fixpoint evict_loop (l : list hash) (pinned : gset hash) (use : hash -> Z) (toDrop : list hash) :
    list hash * gset hash * list hash :=
  match l with
  | old :: rest =>
      if maxRetainedTorrents <? Z.of_nat (length l)
      then evict_loop rest (pinned ∖ {[old]}) use (if use old =? 0 then toDrop ++ [old] else toDrop)
      else (l, pinned, toDrop)
  | [] => ([], pinned, toDrop)
  end.

(** retain up to the unlock; the list is [toDrop]. *)
Definition retain (ih : hash) (e : Engine) : list hash * Engine :=
  let e := if bool_decide (ih ∈ pinned e) then e
           else mkEngine ({[ih]} ∪ pinned e) (retained e ++ [ih]) (inUse e) in
  let '(l, p, toDrop) := evict_loop (retained e) (pinned e) (in_use e) [] in
  (toDrop, mkEngine p l (inUse e)).

(** * Fetch *)
Section Fetch.
Variable Sum256 : bytes -> bytes.
Variable FromHexString : bytes -> option hash.        (* metainfo.Hash.FromHexString *)

Inductive fetch_error :=
| BadInfoHash | BadExpectedSHA | MetadataTimeout | ErrTooLarge (n : Z)
| DownloadFailed (by_ctx : bool) | DownloadTimeout | ErrHashMismatch.

(** What the swarm delivers: metadata or a cancelled context first, then the
    bytes, a read error (the context's own, or another) or a cancelled context. *)
Inductive swarm_metadata := GotInfo (len : Z) | NoInfo.
Inductive swarm_data := Downloaded (data : bytes) | ReadError (by_ctx : bool) | ReadCancelled.

(** The part of Fetch after the argument checks: the bytes, and [keep]. *)
Definition fetch_body (expected : bytes) (meta : swarm_metadata) (data : swarm_data) : go fetch_error bytes :=
  match meta with
  | NoInfo => Err MetadataTimeout
  | GotInfo len =>
      if MaxFetchBytes <? len then Err (ErrTooLarge len)
      else
        match data with
        | ReadError c => Err (DownloadFailed c)
        | ReadCancelled => Err DownloadTimeout
        | Downloaded body =>
            if negb (bool_decide (Sum256 body = expected)) then Err ErrHashMismatch else Ret body
        end
  end.

(** Fetch run without interference; the list are the torrents dropped on the way. *)
Definition Fetch (infoHashHex expectedSHAHex : bytes) (meta : swarm_metadata) (data : swarm_data) (e : Engine) :
    go fetch_error bytes * list hash * Engine :=
  match FromHexString infoHashHex with
  | None => (Err BadInfoHash, [], e)
  | Some ih =>
      match hex_decode expectedSHAHex with
      | None => (Err BadExpectedSHA, [], e)
      | Some expected =>
          if negb (Nat.eqb (length expected) 32) then (Err BadExpectedSHA, [], e)
          else
            let e := acquire ih e in
            let res := fetch_body expected meta data in
            let '(dropped, e) := if is_ret res then retain ih e else ([], e) in
            let '(drop, e) := release ih e in
            (res, dropped ++ (if drop then [ih] else []), e)
      end
  end.
End Fetch.

(** * Interleavings of fetches *)

(** The phases of a running Fetch: added to the client, reading (after acquire),
    retained with torrents left to drop, released with or without a drop left. *)
Inductive phase :=
| Added (ih : hash)
| Reading (ih : hash)
| Retained (ih : hash) (toDrop : list hash)
| Released (ih : hash) (drop : bool).

#[export] Instance phase_eq_dec : EqDecision phase.
Proof. solve_decision. Defined.

Record machine := mkMachine { eng : Engine; client : gset hash; threads : gmap nat phase }.

Inductive event :=
| EAdd (tid : nat) (ih : hash)
| EAcquire (tid : nat)
| ERetain (tid : nat)             (* verified: keep is set *)
| EDropOld (tid : nat)            (* one t.Drop() of retain *)
| ERelease (tid : nat)
| EDropLast (tid : nat)           (* the t.Drop() of release, or its return *)
| ESeed (ih : hash).              (* SeedFile: AddTorrentOpt, pin *)

Definition step (ev : event) (m : machine) : option machine :=
  match ev with
  | EAdd tid ih =>
      match threads m !! tid with
      | None => Some (mkMachine (eng m) ({[ih]} ∪ client m) (<[tid := Added ih]> (threads m)))
      | Some _ => None
      end
  | EAcquire tid =>
      match threads m !! tid with
      | Some (Added ih) => Some (mkMachine (acquire ih (eng m)) (client m) (<[tid := Reading ih]> (threads m)))
      | _ => None
      end
  | ERetain tid =>
      match threads m !! tid with
      | Some (Reading ih) =>
          let '(toDrop, e) := retain ih (eng m) in
          Some (mkMachine e (client m) (<[tid := Retained ih toDrop]> (threads m)))
      | _ => None
      end
  | EDropOld tid =>
      match threads m !! tid with
      | Some (Retained ih (old :: rest)) =>
          Some (mkMachine (eng m) (client m ∖ {[old]}) (<[tid := Retained ih rest]> (threads m)))
      | _ => None
      end
  | ERelease tid =>
      match threads m !! tid with
      | Some (Reading ih) | Some (Retained ih []) =>
          let '(drop, e) := release ih (eng m) in
          Some (mkMachine e (client m) (<[tid := Released ih drop]> (threads m)))
      | _ => None
      end
  | EDropLast tid =>
      match threads m !! tid with
      | Some (Released ih drop) =>
          Some (mkMachine (eng m) (if drop then client m ∖ {[ih]} else client m) (delete tid (threads m)))
      | _ => None
      end
  | ESeed ih => Some (mkMachine (pin ih (eng m)) ({[ih]} ∪ client m) (threads m))
  end.

Fixpoint run_events (evs : list event) (m : machine) : option machine :=
  match evs with
  | [] => Some m
  | ev :: evs => match step ev m with Some m => run_events evs m | None => None end
  end.

Definition boot : machine := mkMachine new_engine ∅ ∅.
Definition reachable (m : machine) : Prop := exists evs, run_events evs boot = Some m.

(** * The bookkeeping is right in every interleaving *)

Definition holds (ih : hash) (p : phase) : bool :=
  match p with Reading i | Retained i _ => bool_decide (i = ih) | _ => false end.

(** The fetches that have acquired a torrent and not released it. *)
Definition readers (ts : gmap nat phase) (ih : hash) : nat := size (filter (fun kv => holds ih kv.2 = true) ts).

Lemma readers_insert ts tid p ih :
  readers (<[tid := p]> ts) ih = ((if holds ih p then 1 else 0) + readers (delete tid ts) ih)%nat.
Proof.
  unfold readers. rewrite <- insert_delete_eq. rewrite map_filter_insert. cbn [snd].
  rewrite delete_delete_eq. destruct (holds ih p) eqn:E.
  - rewrite decide_True by done. rewrite map_size_insert_None; [done|].
    apply map_lookup_filter_None. left. apply lookup_delete_eq.
  - rewrite decide_False by congruence. done.
Qed.

Lemma readers_delete ts tid p ih :
  ts !! tid = Some p -> readers ts ih = ((if holds ih p then 1 else 0) + readers (delete tid ts) ih)%nat.
Proof. intros H. rewrite <- (insert_id ts tid p H) at 1. by rewrite readers_insert. Qed.

Lemma evict_loop_spec l p use td :
  exists pre l', l = pre ++ l'
    /\ evict_loop l p use td = (l', p ∖ list_to_set pre, td ++ filter (fun h => use h = 0) pre)
    /\ Z.of_nat (length l') = Z.min (Z.of_nat (length l)) maxRetainedTorrents.
Proof.
  revert p td. induction l as [|old rest IH]; intros p td.
  { exists [], []. cbn. rewrite app_nil_r, difference_empty_L. unfold maxRetainedTorrents. split; [done|]. split; [done|lia]. }
  cbn [evict_loop]. destruct (Z.ltb_spec maxRetainedTorrents (Z.of_nat (length (old :: rest)))) as [Hlt|Hle].
  - destruct (IH (p ∖ {[old]}) (if use old =? 0 then td ++ [old] else td)) as (pre & l' & -> & Heq & Hl).
    exists (old :: pre), l'. split; [done|]. split; [|cbn [length app] in *; lia].
    rewrite Heq. f_equal; [f_equal; set_solver|]. rewrite filter_cons.
    destruct (Z.eqb_spec (use old) 0); [rewrite decide_True by done|rewrite decide_False by done]; [|done].
    by rewrite <- app_assoc.
  - exists [], (old :: rest). cbn [list_to_set]. rewrite difference_empty_L, filter_nil, app_nil_r. split; [done|]. split; [done|lia].
Qed.

Record engine_ok (e : Engine) (count : hash -> nat) : Prop := {
  eo_count ih : in_use e ih = Z.of_nat (count ih);
  eo_pos ih n : inUse e !! ih = Some n -> 0 < n;
  eo_bound : Z.of_nat (length (retained e)) <= maxRetainedTorrents;
  eo_nodup : NoDup (retained e);
  eo_pinned ih : ih ∈ retained e -> ih ∈ pinned e;
}.

Lemma acquire_ok ih e c : engine_ok e c ->
  engine_ok (acquire ih e) (fun i => if decide (i = ih) then S (c i) else c i).
Proof.
  intros [Hc Hp Hb Hn Hi]. split; cbn; try done.
  - intros i. unfold in_use at 1. cbn. case_decide as E; subst.
    + rewrite lookup_insert_eq. cbn. rewrite Hc. lia.
    + rewrite lookup_insert_ne by done. apply Hc.
  - intros i n. rewrite lookup_insert. case_decide; [|apply Hp]. intros [= <-]. rewrite Hc. lia.
Qed.

Lemma retain_ok ih e c : engine_ok e c ->
  engine_ok (retain ih e).2 c
  /\ forall old, old ∈ (retain ih e).1 -> c old = 0%nat /\ old ∉ pinned (retain ih e).2.
Proof.
  intros [Hc Hp Hb Hn Hi]. unfold retain.
  set (e1 := if bool_decide (ih ∈ pinned e) then e else _).
  assert (inUse e1 = inUse e /\ NoDup (retained e1) /\ (forall i, i ∈ retained e1 -> i ∈ pinned e1)) as (Hu & Hn1 & Hi1).
  { subst e1. case_bool_decide as Hin; [done|]. cbn. split; [done|]. split; [|set_solver].
    apply NoDup_app. split; [done|]. split; [set_solver|apply NoDup_singleton]. }
  assert (forall i, in_use e1 i = Z.of_nat (c i)) as Hc1 by (intros i; unfold in_use; rewrite Hu; apply Hc).
  destruct (evict_loop_spec (retained e1) (pinned e1) (in_use e1) []) as (pre & l' & El & -> & Hl).
  cbn [fst snd app]. rewrite El in Hn1, Hi1. apply NoDup_app in Hn1 as (_ & Hd & Hn').
  split.
  - split; cbn [inUse retained pinned]; try done.
    + intros i n. rewrite Hu. apply Hp.
    + lia.
    + intros i Hin. apply elem_of_difference. split; [apply Hi1; set_solver|].
      rewrite elem_of_list_to_set. intros Hpre. by apply (Hd i Hpre).
  - intros old [Hz Hpre]%list_elem_of_filter. rewrite Hc1 in Hz. split; [lia|]. cbn. set_solver.
Qed.

Lemma release_ok ih e c : engine_ok e c -> (0 < c ih)%nat ->
  engine_ok (release ih e).2 (fun i => if decide (i = ih) then pred (c i) else c i)
  /\ ((release ih e).1 = true -> c ih = 1%nat /\ ih ∉ pinned e).
Proof.
  intros [Hc Hp Hb Hn Hi] Hpos. unfold release. rewrite (proj2 (Z.ltb_lt _ _)) by (rewrite Hc; lia).
  set (e1 := mkEngine (pinned e) (retained e) (<[ih := in_use e ih - 1]> (inUse e))).
  assert (in_use e1 ih = Z.of_nat (pred (c ih))) as Hih.
  { unfold in_use at 1. cbn. rewrite lookup_insert_eq. cbn. rewrite Hc. lia. }
  assert (forall i, i <> ih -> in_use e1 i = Z.of_nat (c i)) as Hother.
  { intros i Hne. unfold in_use. cbn. rewrite lookup_insert_ne by done. apply Hc. }
  cbn [fst snd]. split.
  - destruct (Z.eqb_spec (in_use e1 ih) 0) as [Hz|Hz]; split; cbn [inUse retained pinned]; try done.
    + intros i. unfold in_use. cbn. rewrite lookup_delete. case_decide as E; subst.
      * rewrite decide_True by done. cbn. lia.
      * rewrite decide_False by done. rewrite <- Hother by done. done.
    + intros i n. rewrite lookup_delete. case_decide; [done|]. cbn. rewrite lookup_insert_ne by done. apply Hp.
    + intros i. case_decide as E; [by subst|by apply Hother].
    + intros i n. cbn [e1 inUse]. rewrite lookup_insert. case_decide as E; [|apply Hp]. intros [= <-].
      rewrite Hih in Hz. rewrite Hc. lia.
  - intros [Hz%Z.eqb_eq Hnp]%andb_true_iff. rewrite Hih in Hz. split; [lia|].
    apply negb_true_iff, bool_decide_eq_false_1 in Hnp. done.
Qed.

Lemma engine_ok_ext e c c' : (forall i, c i = c' i) -> engine_ok e c -> engine_ok e c'.
Proof. intros H [Hc Hp Hb Hn Hi]. split; try done. intros i. by rewrite Hc, H. Qed.

Definition machine_ok (m : machine) : Prop := engine_ok (eng m) (readers (threads m)).

Lemma step_ok ev m m' : machine_ok m -> step ev m = Some m' -> machine_ok m'.
Proof.
  unfold machine_ok. intros Hm Hs. destruct ev as [tid ih|tid|tid|tid|tid|tid|ih]; cbn [step] in Hs.
  7: { injection Hs as <-. destruct Hm as [Hc Hp Hb Hn Hi]. split; cbn; try done. set_solver. }
  all: destruct (threads m !! tid) as [[ih0|ih0|ih0 td|ih0 dr]|] eqn:Et; try done.
  - injection Hs as <-. cbn. eapply engine_ok_ext; [|exact Hm]. intros i. rewrite readers_insert.
    by rewrite delete_id by done.
  - injection Hs as <-. cbn. eapply engine_ok_ext; [|by apply acquire_ok]. intros i.
    rewrite readers_insert, (readers_delete _ _ _ i Et). cbn. repeat case_decide; case_bool_decide; subst; done.
  - destruct (retain ih0 (eng m)) as [td e] eqn:Er. injection Hs as <-. cbn.
    pose proof (retain_ok ih0 _ _ Hm) as [Hr _]. rewrite Er in Hr. eapply engine_ok_ext; [|exact Hr]. intros i.
    by rewrite readers_insert, (readers_delete _ _ _ i Et).
  - destruct td as [|old rest]; [done|]. injection Hs as <-. cbn. eapply engine_ok_ext; [|exact Hm]. intros i.
    by rewrite readers_insert, (readers_delete _ _ _ i Et).
  - destruct (release ih0 (eng m)) as [dr e] eqn:Er. injection Hs as <-. cbn.
    assert (0 < readers (threads m) ih0)%nat as Hpos.
    { rewrite (readers_delete _ _ _ ih0 Et). cbn. rewrite bool_decide_eq_true_2 by done. lia. }
    pose proof (release_ok ih0 _ _ Hm Hpos) as [Hr _]. rewrite Er in Hr. eapply engine_ok_ext; [|exact Hr]. intros i.
    rewrite readers_insert, (readers_delete _ _ _ i Et). cbn. case_decide; case_bool_decide; subst; done.
  - destruct td as [|old rest]; [|done]. destruct (release ih0 (eng m)) as [dr e] eqn:Er. injection Hs as <-. cbn.
    assert (0 < readers (threads m) ih0)%nat as Hpos.
    { rewrite (readers_delete _ _ _ ih0 Et). cbn. rewrite bool_decide_eq_true_2 by done. lia. }
    pose proof (release_ok ih0 _ _ Hm Hpos) as [Hr _]. rewrite Er in Hr. eapply engine_ok_ext; [|exact Hr]. intros i.
    rewrite readers_insert, (readers_delete _ _ _ i Et). cbn. case_decide; case_bool_decide; subst; done.
  - injection Hs as <-. cbn. eapply engine_ok_ext; [|exact Hm]. intros i. by rewrite (readers_delete _ _ _ i Et).
Qed.

Lemma run_events_ok evs m m' : machine_ok m -> run_events evs m = Some m' -> machine_ok m'.
Proof.
  revert m. induction evs as [|ev evs IH]; intros m Hm; cbn; [by intros [= <-]|].
  destruct (step ev m) as [m1|] eqn:E; [|done]. apply IH. by eapply step_ok.
Qed.

Lemma boot_ok : machine_ok boot.
Proof. split; cbn; try done; [constructor|set_solver]. Qed.

(** C36. In every interleaving of fetches and seedings: the reference counts are the
    numbers of fetches that are reading, at most 256 fetched torrents are
    retained, all of them pinned, and a drop is only ever decided for a torrent
    that is not pinned and that no other fetch is reading at that moment. *)
Theorem engine_bookkeeping m :
  reachable m ->
  (forall ih, in_use (eng m) ih = Z.of_nat (readers (threads m) ih))
  /\ (Z.of_nat (length (retained (eng m))) <= maxRetainedTorrents)
  /\ (forall ih, ih ∈ retained (eng m) -> ih ∈ pinned (eng m))
  /\ (forall tid ih, threads m !! tid = Some (Reading ih) -> (release ih (eng m)).1 = true ->
        readers (threads m) ih = 1%nat /\ ih ∉ pinned (eng m))
  /\ (forall ih old, old ∈ (retain ih (eng m)).1 ->
        readers (threads m) old = 0%nat /\ old ∉ pinned (retain ih (eng m)).2).
Proof.
  intros [evs Hr]. pose proof (run_events_ok _ _ _ boot_ok Hr) as Hm. pose proof Hm as [Hc Hp Hb Hn Hi].
  split; [done|]. split; [done|]. split; [done|]. split.
  - intros tid ih Ht. apply release_ok; [done|]. rewrite (readers_delete _ _ _ ih Ht). cbn.
    rewrite bool_decide_eq_true_2 by done. lia.
  - intros ih old. by apply retain_ok.
Qed.

(** * Fetch serves verified bytes only *)

Lemma retain_keeps ih e c : engine_ok e c -> ih ∈ pinned (retain ih e).2.
Proof.
  intros [Hc Hp Hb Hn Hi]. unfold retain. case_bool_decide as Hin.
  - destruct (evict_loop_spec (retained e) (pinned e) (in_use e) []) as (pre & l' & El & -> & Hl).
    apply (f_equal length) in El. rewrite length_app in El.
    destruct pre; [|cbn in El; lia]. cbn. set_solver.
  - cbn [retained pinned]. destruct (evict_loop_spec (retained e ++ [ih]) ({[ih]} ∪ pinned e)
      (in_use (mkEngine ({[ih]} ∪ pinned e) (retained e ++ [ih]) (inUse e))) []) as (pre & l' & El & -> & Hl).
    cbn. apply elem_of_difference. split; [set_solver|]. rewrite elem_of_list_to_set. intros Hpre.
    rewrite length_app in Hl. unfold maxRetainedTorrents in Hl. assert (ih ∉ retained e) as Hnr by auto.
    destruct l' as [|x l' _] using rev_ind; [cbn in Hl; lia|].
    rewrite app_assoc in El. apply app_inj_tail in El as [El <-]. rewrite El in Hnr. set_solver.
Qed.

Lemma acquire_release ih e :
  0 <= in_use e ih ->
  (release ih (acquire ih e)).1 = (in_use e ih =? 0) && negb (bool_decide (ih ∈ pinned e))
  /\ pinned (release ih (acquire ih e)).2 = pinned e /\ retained (release ih (acquire ih e)).2 = retained e
  /\ forall i, in_use (release ih (acquire ih e)).2 i = in_use e i.
Proof.
  intros H0. unfold release.
  assert (in_use (acquire ih e) ih = in_use e ih + 1) as Ha by (unfold in_use at 1; cbn; by rewrite lookup_insert_eq).
  rewrite Ha, (proj2 (Z.ltb_lt _ _)) by lia. cbn [acquire pinned retained inUse].
  set (e1 := mkEngine _ _ _). assert (forall i, in_use e1 i = in_use e i) as He1.
  { intros i. unfold in_use at 1. cbn. rewrite insert_insert_eq, lookup_insert. case_decide; subst; cbn; [lia|done]. }
  cbn [fst snd]. rewrite He1. split; [done|].
  destruct (Z.eqb_spec (in_use e ih) 0) as [Hz|Hz]; cbn; (split; [done|]; split; [done|]); intros i; [|apply He1].
  unfold in_use at 1. cbn. rewrite lookup_delete. case_decide; subst; cbn; [done|].
  rewrite !lookup_insert_ne by done. done.
Qed.

Lemma fetch_body_Ret Sum256 expected meta data body :
  fetch_body Sum256 expected meta data = Ret body ->
  exists len, meta = GotInfo len /\ len <= MaxFetchBytes /\ data = Downloaded body /\ Sum256 body = expected.
Proof.
  unfold fetch_body. destruct meta as [len|]; [|done]. destruct (Z.ltb_spec MaxFetchBytes len); [done|].
  destruct data as [b| |]; try done. case_bool_decide; [|done]. intros [= ->]. by exists len.
Qed.

(** Fetch returns bytes only if they hash to the expected SHA-256 and the
    announced length is within the limit; the torrent then stays pinned. On any
    error the bookkeeping is as before the call, and the torrent, if it was added
    at all, is dropped exactly if it is not pinned and nobody else reads it. *)
Theorem Fetch_verified Sum256 FromHexString infoHashHex shaHex meta data e c res dropped e' :
  engine_ok e c ->
  Fetch Sum256 FromHexString infoHashHex shaHex meta data e = (res, dropped, e') ->
  match res with
  | Ret body =>
      exists ih len, FromHexString infoHashHex = Some ih /\ hex_decode shaHex = Some (Sum256 body)
        /\ meta = GotInfo len /\ len <= MaxFetchBytes /\ data = Downloaded body
        /\ ih ∈ pinned e' /\ forall i, in_use e' i = in_use e i
  | Err _ =>
      pinned e' = pinned e /\ retained e' = retained e /\ (forall i, in_use e' i = in_use e i)
      /\ forall ih expected, FromHexString infoHashHex = Some ih -> hex_decode shaHex = Some expected ->
           length expected = 32%nat -> (dropped = [ih] <-> in_use e ih = 0 /\ ih ∉ pinned e)
  | Panic => False
  end.
Proof.
  intros He. unfold Fetch. destruct (FromHexString infoHashHex) as [ih|]; [|by intros [= <- <- <-]].
  destruct (hex_decode shaHex) as [expected|] eqn:Eh; [|by intros [= <- <- <-]].
  destruct (Nat.eqb_spec (length expected) 32); cbn [negb]; [|intros [= <- <- <-]; naive_solver].
  assert (0 <= in_use e ih) as H0 by (rewrite (eo_count _ _ He); lia).
  destruct (fetch_body Sum256 expected meta data) as [body|err|] eqn:Eb; cbn [is_ret].
  - destruct (retain ih (acquire ih e)) as [td e1] eqn:Er. destruct (release ih e1) as [dr e2] eqn:El. intros [= <- <- <-].
    apply fetch_body_Ret in Eb as (len & -> & ? & -> & <-).
    exists ih, len. split; [done|]. split; [done|]. split; [done|]. split; [done|]. split; [done|].
    pose proof (acquire_ok ih _ _ He) as Ha. pose proof (retain_keeps ih _ _ Ha) as Hk.
    pose proof (retain_ok ih _ _ Ha) as [Hr _]. rewrite Er in Hk, Hr. cbn in Hk, Hr.
    pose proof (release_ok ih _ _ Hr) as Hrel. cbn beta in Hrel. rewrite decide_True in Hrel by done.
    specialize (Hrel ltac:(lia)) as [Hrel _]. rewrite El in Hrel. cbn in Hrel. split.
    + assert (pinned e2 = pinned e1) as ->; [|done]. revert El. unfold release. intros [= _ <-].
      by repeat case_match.
    + intros i. rewrite (eo_count _ _ Hrel), (eo_count _ _ He). repeat case_decide; done.
  - destruct (release ih (acquire ih e)) as [dr e1] eqn:El. intros [= <- <- <-].
    destruct (acquire_release ih e H0) as (H1 & H2 & H3 & H4). rewrite El in *. cbn in *. subst dr.
    split; [done|]. split; [done|]. split; [done|]. intros ih' expected' [= <-] _ _.
    destruct (Z.eqb_spec (in_use e ih) 0); cbn; [|naive_solver]. case_bool_decide; cbn; naive_solver.
  - exfalso. unfold fetch_body in Eb. destruct meta; [|done]. destruct (_ <? _); [done|].
    destruct data; try done. by case_bool_decide.
Qed.

(** The part of it the callers of Fetch rely on, for any bookkeeping. *)
Lemma Fetch_hash Sum256 FromHexString infoHashHex shaHex meta data e body dropped e' :
  Fetch Sum256 FromHexString infoHashHex shaHex meta data e = (Ret body, dropped, e') ->
  hex_decode shaHex = Some (Sum256 body).
Proof.
  unfold Fetch. destruct (FromHexString infoHashHex) as [ih|]; [|done].
  destruct (hex_decode shaHex) as [expected|]; [|done]. destruct (negb _); [done|].
  cbv zeta. repeat case_match; intros [= Hb _ _]; by apply fetch_body_Ret in Hb as (len & _ & _ & _ & ->).
Qed.

(** * What the comments promise and the code does not

    Two traces of the machine. *)

(** "a concurrent fetch of the same infohash (or an LRU eviction) can never Drop
    the torrent out from under us": fetch 2 acquires the torrent between fetch 1's
    decision to drop it and the drop. *)
Definition race : list event :=
  [EAdd 1 (str "x"); EAcquire 1; ERelease 1; EAdd 2 (str "x"); EAcquire 2; EDropLast 1].

Lemma race_runs :
  match run_events race boot with
  | Some m => bool_decide (threads m !! 2%nat = Some (Reading (str "x"))) && negb (bool_decide (str "x" ∈ client m))
  | None => false
  end = true.
Proof. vm_refl. Qed.

Lemma reader_can_lose_torrent :
  exists m, reachable m /\ threads m !! 2%nat = Some (Reading (str "x")) /\ str "x" ∉ client m.
Proof.
  pose proof race_runs as H. destruct (run_events race boot) as [m|] eqn:E; [|done].
  exists m. split; [by exists race|]. apply andb_true_iff in H as [H1%bool_decide_eq_true_1 H2].
  split; [done|]. by apply negb_true_iff, bool_decide_eq_false_1 in H2.
Qed.

(** "a seeded file is kept until the engine closes; never auto-dropped": a file
    that was fetched before it is seeded keeps its place in the FIFO, and 256
    further fetches evict it. *)
Definition fetch_once (tid : nat) (ih : hash) : list event :=
  [EAdd tid ih; EAcquire tid; ERetain tid; ERelease tid; EDropLast tid].
Definition seeded_then_evicted : list event :=
  fetch_once 0 (str "x") ++ [ESeed (str "x")]
  ++ concat (map (fun n => fetch_once 0 (be_bytes 4 (Z.of_nat n))) (seq 0 255))
  ++ [EAdd 0 (str "last"); EAcquire 0; ERetain 0; EDropOld 0].

Lemma seeded_can_be_dropped :
  match run_events seeded_then_evicted boot with
  | Some m => bool_decide (str "x" ∈ client m) = false /\ bool_decide (str "x" ∈ pinned (eng m)) = false
  | None => False
  end.
Proof. vm_compute. split; reflexivity. Qed.

(** * Concrete instances *)
Definition demo_sum256 (b : bytes) : bytes := be_bytes 32 (be_Z b).
Definition demo_hash (s : bytes) : option hash := hex_decode s.

Lemma Fetch_verified_witness :
  exists ih len, demo_hash (str "abcd") = Some ih
    /\ hex_decode (hex_encode (demo_sum256 (str "site"))) = Some (demo_sum256 (str "site"))
    /\ GotInfo 4 = GotInfo len /\ len <= MaxFetchBytes /\ Downloaded (str "site") = Downloaded (str "site")
    /\ ih ∈ pinned (mkEngine {[ [xab; xcd] ]} [[xab; xcd]] ∅)
    /\ forall i, in_use (mkEngine {[ [xab; xcd] ]} [[xab; xcd]] ∅) i = in_use new_engine i.
Proof.
  apply (Fetch_verified demo_sum256 demo_hash (str "abcd") (hex_encode (demo_sum256 (str "site"))) (GotInfo 4)
    (Downloaded (str "site")) new_engine (readers ∅) (Ret (str "site")) [] (mkEngine {[ [xab; xcd] ]} [[xab; xcd]] ∅)).
  - exact boot_ok.
  - vm_refl.
Defined.

Definition demo_trace : list event := [EAdd 1 (str "x"); EAcquire 1; EAdd 2 (str "x"); EAcquire 2; ERetain 1].
Definition demo_machine : machine := default boot (run_events demo_trace boot).

Lemma engine_bookkeeping_witness :
  threads demo_machine !! 2%nat = Some (Reading (str "x"))
  /\ in_use (eng demo_machine) (str "x") = Z.of_nat (readers (threads demo_machine) (str "x")).
Proof.
  split; [vm_refl|]. apply (engine_bookkeeping demo_machine). exists demo_trace. vm_refl.
Defined.

End Torrent.
