(* ===== verification/Seed.v ===== *)
(** Seeding: SeedFile and ListenAddrs of package [torrent]
    (src/resolver/internal/torrent/torrent.go) and autoSeedUploads of package
    [server] (src/resolver/internal/server/server.go).

    The metainfo of anacrolix/torrent (BuildFromFilePath, bencode, HashInfoBytes)
    is a parameter. The disk maps the paths that can be read to their contents. *)
From S2P Require Import Prelude GoStrings Net Encoding Torrent.

Local Open Scope Z_scope.

Module Seed.

(** The disk, the bookkeeping of the engine and the torrents its client holds. *)
Record state := mkState { disk : gmap bytes bytes; engine : Torrent.Engine; client : gset bytes }.

Inductive seed_error := OpenFailed | BuildFailed | SeedTimeout (ih : bytes).

(** net.JoinHostPort *)
Definition JoinHostPort (host port : bytes) : bytes :=
  if Net.has_byte host x3a then str "[" ++ host ++ str "]:" ++ port else host ++ str ":" ++ port.

(** ListenAddrs over the addresses of the client; [specified] is whether the host
    parses as an IP address that is not the unspecified one. *)
Fixpoint ListenAddrs_loop (specified : bytes -> bool) (addrs : list bytes) (seen : gset bytes) (out : list bytes) : list bytes :=
  match addrs with
  | [] => out
  | a :: addrs =>
      match Net.SplitHostPort a with
      | None => ListenAddrs_loop specified addrs seen out
      | Some (host, port) =>
          let host := if specified host then host else str "127.0.0.1" in
          let hp := JoinHostPort host port in
          if bool_decide (hp ∈ seen) then ListenAddrs_loop specified addrs seen out
          else ListenAddrs_loop specified addrs ({[hp]} ∪ seen) (out ++ [hp])
      end
  end.
Definition ListenAddrs (specified : bytes -> bool) (addrs : list bytes) : list bytes :=
  ListenAddrs_loop specified addrs ∅ [].

Section Seed.
Variable Sum256 : bytes -> bytes.
Variable build_info : bytes -> bytes -> option bytes.   (* path, content: the marshalled metainfo.Info *)
Variable HashInfoBytes : bytes -> bytes.                (* its infohash *)

(** SeedFile; [got] is whether the metadata arrives before the context ends. *)
Definition SeedFile (path : bytes) (got : bool) (st : state) : (bytes * bytes + seed_error) * state :=
  match disk st !! path with
  | None => (inr OpenFailed, st)
  | Some content =>
      match build_info path content with
      | None => (inr BuildFailed, st)
      | Some info =>
          let ih := HashInfoBytes info in
          let st := mkState (disk st) (engine st) ({[ih]} ∪ client st) in
          if negb got then (inr (SeedTimeout ih), st)
          else (inl (hex_encode ih, hex_encode (Sum256 content)),
                mkState (disk st) (Torrent.pin ih (engine st)) (client st))
      end
  end.

(** os.ReadDir's entries: the name and whether it is a directory. *)
Definition hidden (name : bytes) : bool := match name with b :: _ => bool_decide (b = x2e) | [] => false end.

Definition in_dir (dir name : bytes) : bytes := dir ++ str "/" ++ name.

(** The loop of autoSeedUploads; [got] is the outcome of each wait. *)
Fixpoint seed_loop (dir : bytes) (got : bytes -> bool) (es : list (bytes * bool)) (st : state) : state :=
  match es with
  | [] => st
  | (name, isdir) :: es =>
      if isdir || hidden name then seed_loop dir got es st
      else seed_loop dir got es (SeedFile (in_dir dir name) (got name) st).2
  end.
Definition autoSeedUploads (bt : bool) (dir : bytes) (ReadDir : option (list (bytes * bool))) (got : bytes -> bool)
    (st : state) : state :=
  if negb bt then st
  else match ReadDir with None => st | Some es => seed_loop dir got es st end.

(** A file is being seeded: the client has its torrent and the engine pinned it. *)
Definition seeded (path content : bytes) (st : state) : Prop :=
  exists info, build_info path content = Some info
    /\ HashInfoBytes info ∈ client st /\ HashInfoBytes info ∈ Torrent.pinned (engine st).

Lemma SeedFile_keeps path got st :
  disk (SeedFile path got st).2 = disk st
  /\ client st ⊆ client (SeedFile path got st).2
  /\ Torrent.pinned (engine st) ⊆ Torrent.pinned (engine (SeedFile path got st).2)
  /\ Torrent.inUse (engine (SeedFile path got st).2) = Torrent.inUse (engine st)
  /\ Torrent.retained (engine (SeedFile path got st).2) = Torrent.retained (engine st).
Proof.
  unfold SeedFile. destruct (disk st !! path) as [content|]; [|done]. destruct (build_info path content); [|done].
  destruct got; cbn; split_and!; try done; set_solver.
Qed.

Lemma SeedFile_ok path got st ih sha :
  (SeedFile path got st).1 = inl (ih, sha) ->
  exists content info, disk st !! path = Some content /\ build_info path content = Some info
    /\ ih = hex_encode (HashInfoBytes info) /\ sha = hex_encode (Sum256 content)
    /\ seeded path content (SeedFile path got st).2.
Proof.
  unfold SeedFile, seeded. destruct (disk st !! path) as [content|]; [|done].
  destruct (build_info path content) as [info|] eqn:Eb; [|done]. destruct got; [|done]. cbn. intros [= <- <-].
  exists content, info. split_and!; try done. exists info. set_solver.
Qed.

Lemma seeded_mono path content st path' got :
  seeded path content st -> seeded path content (SeedFile path' got st).2.
Proof.
  intros (info & Hb & Hc & Hp). destruct (SeedFile_keeps path' got st) as (_ & H1 & H2 & _).
  exists info. set_solver.
Qed.

Lemma seed_loop_disk dir got es st : disk (seed_loop dir got es st) = disk st.
Proof.
  revert st. induction es as [|[name isdir] es IH]; intros st; cbn [seed_loop]; [done|].
  destruct (isdir || hidden name); rewrite IH; [done|]. by destruct (SeedFile_keeps (in_dir dir name) (got name) st).
Qed.

Lemma seed_loop_seeds dir got es st path content :
  seeded path content st -> seeded path content (seed_loop dir got es st).
Proof.
  revert st. induction es as [|[name isdir] es IH]; intros st H; cbn [seed_loop]; [done|].
  destruct (isdir || hidden name); apply IH; [done|by apply seeded_mono].
Qed.

(** What a boot seeds: every visible regular file of the uploads directory that
    can be read and described. *)
Lemma autoSeedUploads_seeds dir es got st name content :
  (name, false) ∈ es -> hidden name = false -> got name = true ->
  disk st !! in_dir dir name = Some content -> is_Some (build_info (in_dir dir name) content) ->
  seeded (in_dir dir name) content (autoSeedUploads true dir (Some es) got st).
Proof.
  intros Hin Hh Hg Hd [info Hi]. cbn [autoSeedUploads negb]. revert st Hd.
  induction es as [|[n d] es IH]; intros st Hd; [by apply elem_of_nil in Hin|]. cbn [seed_loop].
  apply elem_of_cons in Hin as [[= <- <-]|Hin].
  - rewrite Hh. cbn [orb]. apply seed_loop_seeds. unfold SeedFile. rewrite Hd, Hi, Hg. cbn.
    exists info. cbn. set_solver.
  - destruct (d || hidden n); apply IH; try done.
    by destruct (SeedFile_keeps (in_dir dir n) (got n) st) as [-> _].
Qed.

(** * What a seeded file is fetched as *)

Variable FromHexString : bytes -> option bytes.
Hypothesis FromHexString_encode : forall info, FromHexString (hex_encode (HashInfoBytes info)) = Some (HashInfoBytes info).
Hypothesis Sum256_length : forall b, length (Sum256 b) = 32%nat.

(** The infohash and digest SeedFile returns name the file's contents: a
    resolver that fetches them gets the contents back when the swarm delivers
    them and they are not too large, rejects any other bytes of the swarm with a
    hash mismatch, and returns nothing whose SHA-256 is not that of the file. *)
Theorem SeedFile_Fetch path got st ih sha len data e :
  (SeedFile path got st).1 = inl (ih, sha) ->
  exists content, disk st !! path = Some content /\ seeded path content (SeedFile path got st).2 /\
  let '(res, _, _) := Torrent.Fetch Sum256 FromHexString ih sha (Torrent.GotInfo len) (Torrent.Downloaded data) e in
  res = if Torrent.MaxFetchBytes <? len then Err (Torrent.ErrTooLarge len)
        else if bool_decide (Sum256 data = Sum256 content) then Ret data else Err Torrent.ErrHashMismatch.
Proof using FromHexString_encode Sum256_length.
  intros H. apply SeedFile_ok in H as (content & info & Hd & _ & -> & -> & Hs). exists content. split; [done|]. split; [done|].
  unfold Torrent.Fetch. rewrite FromHexString_encode, hex_decode_encode, Sum256_length. cbn [Nat.eqb negb]. unfold Torrent.fetch_body.
  destruct (Torrent.MaxFetchBytes <? len); [|case_bool_decide]; cbn [negb is_ret];
    (destruct (Torrent.retain _ _) || idtac); destruct (Torrent.release _ _); done.
Qed.
End Seed.

(** * ListenAddrs *)

Lemma ListenAddrs_loop_nodup specified addrs seen out :
  NoDup out -> (forall x, x ∈ out -> x ∈ seen) -> NoDup (ListenAddrs_loop specified addrs seen out).
Proof.
  revert seen out. induction addrs as [|a addrs IH]; intros seen out Hnd Hs; cbn [ListenAddrs_loop]; [done|].
  destruct (Net.SplitHostPort a) as [[host port]|]; [|by apply IH]. cbv zeta.
  case_bool_decide as Hin; [by apply IH|]. apply IH.
  - apply NoDup_app. split; [done|]. split; [|apply NoDup_singleton]. set_solver.
  - set_solver.
Qed.

Lemma ListenAddrs_nodup specified addrs : NoDup (ListenAddrs specified addrs).
Proof. apply ListenAddrs_loop_nodup; [constructor|]. set_solver. Qed.

Lemma ListenAddrs_loopback :
  ListenAddrs (fun h => negb (bool_decide (h = str "::"))) [str "[::]:42069"; str "127.0.0.1:42069"; str "bad"; str "[fe80::1]:7"]
  = [str "127.0.0.1:42069"; str "[fe80::1]:7"].
Proof. vm_compute. reflexivity. Qed.

(** * A concrete disk *)
Definition demo_info (path content : bytes) : option bytes := Some (path ++ content).
Definition demo_infohash (info : bytes) : bytes := be_bytes 20 (be_Z info).
Definition demo_state : state := mkState {[str "up/a.html" := str "<html>"]} Torrent.new_engine ∅.

Lemma SeedFile_Fetch_witness :
  exists content, disk demo_state !! str "up/a.html" = Some content
  /\ seeded demo_info demo_infohash (str "up/a.html") content
       (SeedFile Torrent.demo_sum256 demo_info demo_infohash (str "up/a.html") true demo_state).2 /\
  let '(res, _, _) := Torrent.Fetch Torrent.demo_sum256 hex_decode
      (hex_encode (demo_infohash (str "up/a.html<html>"))) (hex_encode (Torrent.demo_sum256 (str "<html>")))
      (Torrent.GotInfo 6) (Torrent.Downloaded (str "<html>")) Torrent.new_engine in
  res = if Torrent.MaxFetchBytes <? 6 then Err (Torrent.ErrTooLarge 6)
        else if bool_decide (Torrent.demo_sum256 (str "<html>") = Torrent.demo_sum256 content)
             then Ret (str "<html>") else Err Torrent.ErrHashMismatch.
Proof.
  apply (SeedFile_Fetch Torrent.demo_sum256 demo_info demo_infohash hex_decode (fun info => hex_decode_encode _)
    (fun b => be_bytes_length _ _) (str "up/a.html") true demo_state). vm_compute. reflexivity.
Defined.
End Seed.
