(* ===== verification/ContentType.v ===== *)
(** Package [contenttype] (src/resolver/internal/contenttype/contenttype.go): the
    check of served bytes against the declared media type. net/http's sniffer and
    mime.ParseMediaType are parameters. *)
From S2P Require Import Prelude GoStrings.

Local Open Scope Z_scope.

Module ContentType.

(** type Result struct *)
Record Result := mkResult { Declared : bytes; Detected : bytes; OK : bool; Reason : bytes }.

Section Validate.
Context {UC : UnicodeCase}.
Variable DetectContentType : bytes -> bytes.            (* http.DetectContentType *)
Variable ParseMediaType : bytes -> option bytes.        (* mime.ParseMediaType, the type only *)

Definition HasPrefix (s p : bytes) : bool := match drop_prefix p s with Some _ => true | None => false end.

Definition baseType (ct : bytes) : bytes :=
  match ParseMediaType ct with
  | Some mt => mt
  | None => ToLower (TrimSpace (match Cut ct ";" with Some (before, _) => before | None => ct end))
  end.

Definition text_types : list bytes :=
  [ str "application/javascript"; str "application/x-javascript"; str "application/ecmascript";
    str "application/json"; str "application/ld+json";
    str "application/xml"; str "application/xhtml+xml"; str "image/svg+xml" ].

Definition isText (base : bytes) : bool :=
  HasPrefix base (str "text/") || bool_decide (base ∈ text_types).

Definition Validate (declared body : bytes) : Result :=
  let detected := DetectContentType body in
  let dDecl := baseType declared in
  let dDet := baseType detected in
  if bool_decide (dDecl = []) || bool_decide (dDecl = str "application/octet-stream")
  then mkResult declared detected true (str "declared type is unspecified; not validated")
  else if bool_decide (dDecl = dDet) then mkResult declared detected true (str "exact media-type match")
  else if isText dDecl && isText dDet
  then mkResult declared detected true (str "textual content consistent with declared text type")
  else mkResult declared detected false (str "declared " ++ dDecl ++ str " but content sniffs as " ++ dDet).

(** The families the check tells apart: one for all text types, one for each other
    media type. *)
Definition family (base : bytes) : bytes := if isText base then str "text/" else base.

Lemma Validate_families declared body :
  OK (Validate declared body) = true <->
  baseType declared = [] \/ baseType declared = str "application/octet-stream"
  \/ family (baseType declared) = family (baseType (DetectContentType body)).
Proof.
  unfold Validate, family. set (d := baseType declared). set (t := baseType (DetectContentType body)). cbv zeta.
  case_bool_decide as H1; [cbn; naive_solver|]. case_bool_decide as H2; [cbn; naive_solver|]. cbn [orb].
  case_bool_decide as H3; [rewrite H3; cbn; naive_solver|].
  destruct (isText d) eqn:Ed, (isText t) eqn:Et; cbn; split; try done; try naive_solver.
  - intros [?|[?|Heq]]; [done..|]. exfalso. assert (isText t = true) by (rewrite <- Heq; reflexivity). congruence.
  - intros [?|[?|Heq]]; [done..|]. exfalso. assert (isText d = true) by (rewrite Heq; reflexivity). congruence.
Qed.
End Validate.

End ContentType.
