(* ===== verification/Web.v ===== *)
(** The HTTP front end of package [server]: the query API (rest.go), the resource
    pipeline and its signed response (resource.go), the browser gateway (web.go),
    the health probe (server.go) and the console snapshot (admin.go).

    A request is its path value, its parsed query parameters and its Host; a
    response its status, headers and payload. JSON encoding, error texts, net's
    recognition of loopback addresses and url.QueryEscape are parameters. A nil
    dereference is a [Panic]. *)
From S2P Require Import Prelude GoStrings Encoding Query Chain Cache Pki Zk RateLimit ContentType Handle Torrent Net.
Import Chain.
Import Net (SplitHostPort, EqualFold_localhost, Contains).

Local Open Scope Z_scope.

Module Web.

(** url.Values and its Get *)
Abbreviation values := (gmap bytes (list bytes)) (only parsing).
Definition vget (p : values) (k : bytes) : bytes :=
  match p !! k with Some (v :: _) => v | _ => [] end.

(** The parts of an http.Request the handlers read. *)
Record request := mkHttpRequest { path_name : bytes; params : values; host : bytes }.

(** type domainResponse struct *)
Record domainResponse := mkDomainResponse {
  dr_Name : bytes; dr_Owner : bytes; dr_PubKey : bytes; dr_Expiry : Z; dr_Generation : Z;
  dr_Active : bool; dr_Records : list Handle.recordJSON }.

(** torrent's type Stats struct *)
Record swarmStats := mkSwarm { Torrents : Z; TotalPeers : Z; BytesShared : Z }.

(** type adminStats struct *)
Record adminStats := mkAdminStats {
  as_Resolver : bytes; as_UptimeSec : Z; as_ChainHead : Z; as_ChainOK : bool; as_RESTPort : Z; as_UDPPort : Z;
  as_Cache : Cache.Stats_t; as_Swarm : swarmStats }.

(** What the handlers sign or send. *)
Inductive answer := AResolve (r : Handle.resolveResponse_t) | ADomain (d : domainResponse) | ATypes (ts : list bytes).
Inductive payload :=
| PSigned (env : Pki.Envelope)
| PError (code msg : bytes)
| PBytes (body : bytes)
| PHealth (head : Z + bytes)
| PStats (st : adminStats)
| PObject (fields : list (bytes * bytes)).
Record response := mkResponse { status : Z; headers : gmap bytes bytes; body_of : payload }.

Definition json_headers : gmap bytes bytes := {[str "Content-Type" := str "application/json"]}.
Definition writeError (st : Z) (code msg : bytes) : response := mkResponse st json_headers (PError code msg).

(** Errors of the request parsers. *)
Inductive parse_error := PQuery (e : Query.error) | DupSelector (k : bytes) | NotResourceRef.

Section Params.
Context {UC : UnicodeCase}.

(** The loop of parseResolveQuery over the explicit selector parameters. *)
Fixpoint merge_params (ks : list bytes) (p : values) (pairs : gmap bytes bytes) : go parse_error (gmap bytes bytes) :=
  match ks with
  | [] => Ret pairs
  | k :: ks =>
      let v := vget p k in
      if bool_decide (v = []) then merge_params ks p pairs
      else if bool_decide (is_Some (pairs !! k)) then Err (DupSelector k)
      else merge_params ks p (<[k := v]> pairs)
  end.

Definition parseResolveQuery (p : values) : go parse_error Query.Query :=
  pairs ← map_err PQuery (Query.ParsePairs (vget p (str "selector")));
  pairs ← merge_params [str "port"; str "transport"; str "service"] p pairs;
  map_err PQuery (Query.New (vget p (str "name")) (vget p (str "type")) pairs).

Definition parseResourceQuery (p : values) : go parse_error Query.Query :=
  let recordType := if bool_decide (vget p (str "type") = []) then str "ResourceRef" else vget p (str "type") in
  if negb (bool_decide (recordType = str "ResourceRef")) then Err NotResourceRef
  else
    pairs ← map_err PQuery (Query.ParsePairs (vget p (str "selector")));
    map_err PQuery (Query.New (vget p (str "name")) recordType pairs).

Lemma parseResourceQuery_name p q : parseResourceQuery p = Ret q -> Query.Name q = vget p (str "name").
Proof.
  unfold parseResourceQuery. cbv zeta. destruct (negb _); [done|].
  intros (pairs & _ & H)%go_bind_ret. destruct (Query.New _ _ _) as [q'| |] eqn:E; try done.
  injection H as <-. by apply Query.New_Ret in E as (_ & _ & sel & _ & ->).
Qed.
End Params.

(** * Peer hints *)
Section Peers.
Variable IsLoopbackIP : bytes -> bool.                        (* ParseIP(h) is an IP and IsLoopback *)

Definition isLoopbackHost (h : bytes) : bool := if IsLoopbackIP h then true else EqualFold_localhost h.

Definition maxPeers : Z := 16.

Fixpoint peers_loop (allow : bool) (ps out : list bytes) : list bytes :=
  match ps with
  | [] => out
  | p :: ps =>
      match SplitHostPort p with
      | None => peers_loop allow ps out
      | Some (h, _) =>
          if negb allow && negb (isLoopbackHost h) then peers_loop allow ps out
          else
            let out := out ++ [p] in
            if maxPeers <=? Z.of_nat (length out) then out else peers_loop allow ps out
      end
  end.

Definition resourcePeers (allowPeerHints : bool) (p : values) : list bytes :=
  peers_loop allowPeerHints (default [] (p !! str "peer")) [].

(** Hints are at most 16, parse as host:port and, unless the operator enabled
    them, name a loopback host. *)
Lemma resourcePeers_ok allow p :
  Z.of_nat (length (resourcePeers allow p)) <= maxPeers
  /\ forall x, x ∈ resourcePeers allow p ->
       exists h port, SplitHostPort x = Some (h, port) /\ (allow = true \/ isLoopbackHost h = true).
Proof.
  unfold resourcePeers. generalize (default [] (p !! str "peer")). intros ps.
  assert (forall out, Z.of_nat (length out) < maxPeers ->
    (forall x, x ∈ out -> exists h port, SplitHostPort x = Some (h, port) /\ (allow = true \/ isLoopbackHost h = true)) ->
    Z.of_nat (length (peers_loop allow ps out)) <= maxPeers
    /\ forall x, x ∈ peers_loop allow ps out ->
       exists h port, SplitHostPort x = Some (h, port) /\ (allow = true \/ isLoopbackHost h = true)) as H.
  { induction ps as [|x ps IH]; intros out Hl Ho; cbn [peers_loop]; [split; [lia|done]|].
    destruct (SplitHostPort x) as [[h port]|] eqn:E; [|by apply IH].
    destruct (negb allow && negb (isLoopbackHost h)) eqn:Ea; [by apply IH|].
    assert (forall y, y ∈ out ++ [x] -> exists h port, SplitHostPort y = Some (h, port) /\ (allow = true \/ isLoopbackHost h = true)) as Ho'.
    { intros y [Hy|Hy]%elem_of_app; [by apply Ho|]. apply list_elem_of_singleton in Hy as ->. exists h, port.
      split; [done|]. destruct allow; [auto|]. destruct (isLoopbackHost h); [auto|done]. }
    destruct (Z.leb_spec maxPeers (Z.of_nat (length (out ++ [x])))).
    - split; [rewrite length_app in *; cbn in *; lia|done].
    - apply IH; [done|done]. }
  apply H; [unfold maxPeers; cbn; lia|set_solver].
Qed.
End Peers.

(** type verifiedResource struct *)
Record verifiedResource := mkVerified {
  vr_body : bytes; vr_owner : bytes; vr_pubKeyHex : bytes; vr_infoHash : bytes; vr_sha : bytes;
  vr_contentType : bytes; vr_zkHex : bytes; vr_validation : ContentType.Result; vr_ttl : Z }.

(** type resourceError struct *)
Record resourceError := mkResourceError { re_status : Z; re_code : bytes; re_msg : bytes }.

(** The errors of ResourceFetcher.Fetch the pipeline tells apart. *)
Inductive fetch_failure := FHashMismatch | FTooLarge (msg : bytes) | FTimeout (msg : bytes) | FOther (msg : bytes).

(** The interface ResourceFetcher: Fetch(infoHash, sha, peers). *)
Class ResourceFetcher (W : Type) := {
  rf_Fetch : bytes -> bytes -> list bytes -> W -> (bytes + fetch_failure) * W }.
(** What it promises: bytes it returns hash to the digest it was given. *)
Class ResourceFetcherLaws (W : Type) `{ResourceFetcher W} (Sum256 : bytes -> bytes) := {
  rf_Fetch_verified ih sha peers w body w' :
    rf_Fetch ih sha peers w = (inl body, w') -> hex_decode sha = Some (Sum256 body) }.

(** The torrent engine keeps the promise: [swarm] is what the network delivers for
    an infohash and peer hints. *)
Section EngineFetcher.
Context {W0 : Type}.
Variable swarm : bytes -> list bytes -> W0 -> Torrent.swarm_metadata * Torrent.swarm_data * W0.
Variable Sum256 : bytes -> bytes.
Variable FromHexString : bytes -> option bytes.
Variable fetch_error_text : Torrent.fetch_error -> bytes.

(** The errors.Is tests of fetchVerifiedResource. *)
Definition classify (e : Torrent.fetch_error) : fetch_failure :=
  match e with
  | Torrent.ErrHashMismatch => FHashMismatch
  | Torrent.ErrTooLarge _ => FTooLarge (fetch_error_text e)
  | Torrent.MetadataTimeout | Torrent.DownloadTimeout | Torrent.DownloadFailed true => FTimeout (fetch_error_text e)
  | _ => FOther (fetch_error_text e)
  end.

Definition engine_fetch (ih sha : bytes) (peers : list bytes) (w : W0 * Torrent.Engine) :
    (bytes + fetch_failure) * (W0 * Torrent.Engine) :=
  let '(meta, data, w0) := swarm ih peers w.1 in
  let '(res, _, e) := Torrent.Fetch Sum256 FromHexString ih sha meta data w.2 in
  (match res with Ret body => inl body | Err x => inr (classify x) | Panic => inr (FOther []) end, (w0, e)).

#[local] Instance engine_fetcher : ResourceFetcher (W0 * Torrent.Engine) := { rf_Fetch := engine_fetch }.
#[local] Instance engine_fetcher_laws : ResourceFetcherLaws (W0 * Torrent.Engine) Sum256.
Proof.
  constructor. intros ih sha peers w body w'. cbn. unfold engine_fetch.
  destruct (swarm ih peers w.1) as [[meta data] w0].
  destruct (Torrent.Fetch _ _ _ _ _ _ _) as [[res d] e] eqn:E. destruct res; [|done|done].
  intros [= -> _]. by eapply Torrent.Fetch_hash.
Qed.
End EngineFetcher.

Section Server.
Context {UC : UnicodeCase}.
Context {SP : Pki.SortPairs} {Priv Pub : Type} {EC : Pki.EthCrypto Priv Pub}.
Context {St : Type} {MI : Zk.Mimc St} {CCS PK VK Wit PubWit : Type} {GR : Zk.Groth16 CCS PK VK Wit PubWit}.
Context {L : Type} {LO : Cache.LruOps Cache.Key (Cache.entry ResolveResult) L}.
Context {W Er : Type} {CR : ChainReader W Er} {HX : Encoding.Hexutil} {RF : ResourceFetcher W}.
Context {EdPriv : Type} {ED : Pki.Ed25519 EdPriv}.
Variable artifact : bytes -> option bytes.
Variable nameHash : bytes -> bytes.
Variable address_Hex : address -> bytes.
Variable Sum256 : bytes -> bytes.
Variable identity : Pki.Identity EdPriv.
Context {JE : Type}.
Variable marshal : answer -> go JE bytes.
Variable json_error_text : JE -> bytes.
Variable parse_error_text : parse_error -> bytes.
Variable query_error_text : Query.error -> bytes.
Variable chain_error_text : Er -> bytes.
Variable DetectContentType : bytes -> bytes.
Variable ParseMediaType : bytes -> option bytes.
Variable IsLoopbackIP : bytes -> bool.
(** configuration: whether the engine runs, ALLOW_PEER_HINTS, ENFORCE_CONTENT_TYPE *)
Variable engine_enabled allowPeerHints enforceType : bool.

Abbreviation server := (Handle.server L W).
Abbreviation HandleQuery := (Handle.HandleQuery artifact nameHash).

(** writeSigned *)
Definition writeSigned (st : Z) (v : answer) : go Empty_set response :=
  match Pki.SealEnvelope marshal identity v with
  | Ret env => Ret (mkResponse st json_headers (PSigned env))
  | Err e => Ret (writeError 500 (str "sign_error") (json_error_text e))
  | Panic => Panic
  end.

(** rateLimited: the handler runs only if the limiter lets the client through;
    [t1], [t2], [t3] are the clock readings of the limiter. *)
Definition rateLimited {Lim : Type} {RO : RateOps Lim} {A : Type} (RemoteAddr : bytes) (t1 t2 t3 : Z)
    (l : RateLimit.ipLimiter Lim) (next : go Empty_set response * A) (a : A) :
    go Empty_set response * A * RateLimit.ipLimiter Lim :=
  let ip := match SplitHostPort RemoteAddr with Some (ip, _) => ip | None => RemoteAddr end in
  let '(ok, l) := RateLimit.allow (RateLimit.mkRequest ip t1 t2 t3) l in
  if negb ok then (Ret (writeError 429 (str "rate_limited") (str "too many requests from this address")), a, l)
  else (next.1, next.2, l).

(** handleResolve *)
Definition handleResolve (r : request) (t_get t_set : Z) (s : server) : go Empty_set response * server :=
  match parseResolveQuery (params r) with
  | Panic => (Panic, s)
  | Err e => (Ret (writeError 400 (str "invalid_query") (parse_error_text e)), s)
  | Ret q =>
      let '(resp, s) := Handle.resolveResponse artifact nameHash address_Hex q t_get t_set s in
      match resp with
      | inr e => (Ret (writeError 502 (str "chain_error") (chain_error_text e)), s)
      | inl resp => (writeSigned 200 (AResolve resp), s)
      end
  end.

(** handleDomain; [now] is time.Now().Unix() as uint64 *)
Definition handleDomain (r : request) (now : Z) (w : W) : go Empty_set response * W :=
  let name := path_name r in
  match Query.ValidateName name with
  | Panic => (Panic, w)
  | Err e => (Ret (writeError 400 (str "invalid_query") (query_error_text e)), w)
  | Ret _ =>
      let '(dom, w) := cr_GetDomain name w in
      match dom with
      | inr e => (Ret (writeError 502 (str "chain_error") (chain_error_text e)), w)
      | inl dom =>
          if bool_decide (D_Owner dom = zero_address)
          then (Ret (writeError 404 (str "not_registered") (str "domain is not registered")), w)
          else
            let active := now <? D_Expiry dom in
            let resp recs := mkDomainResponse name (address_Hex (D_Owner dom)) (hexutil_Encode (D_PubKey dom))
                               (D_Expiry dom) (D_Generation dom) active recs in
            if active then
              let '(recs, w) := cr_ListRecords name w in
              match recs with
              | inr e => (Ret (writeError 502 (str "chain_error") (chain_error_text e)), w)
              | inl recs => (writeSigned 200 (ADomain (resp (map Handle.toRecordJSON recs))), w)
              end
            else (writeSigned 200 (ADomain (resp [])), w)
      end
  end.

(** handleTypes *)
Definition handleTypes (w : W) : go Empty_set response * W :=
  let '(types, w) := cr_ListTypes w in
  match types with
  | inr e => (Ret (writeError 502 (str "chain_error") (chain_error_text e)), w)
  | inl types => (writeSigned 200 (ATypes types), w)
  end.

(** handleHealthz *)
Definition handleHealthz (w : W) : response * W :=
  let '(head, w) := cr_ChainHead w in
  match head with
  | inr e => (mkResponse 503 json_headers (PHealth (inr (chain_error_text e))), w)
  | inl h => (mkResponse 200 json_headers (PHealth (inl h)), w)
  end.

(** gatherStats and handleAdminStats; [swarm] is what s.bt.Stats() returns, if
    there is an engine *)
Definition gatherStats (uptime restPort udpPort : Z) (swarm : option swarmStats) (s : server) : adminStats * server :=
  let '(head, w) := cr_ChainHead (Handle.sv_world s) in
  (mkAdminStats (Pki.PublicKeyHex identity) uptime
     (match head with inl h => h | inr _ => 0 end) (match head with inl _ => true | inr _ => false end)
     restPort udpPort (Cache.Stats (Handle.sv_cache s)) (default (mkSwarm 0 0 0) swarm),
   Handle.mkServer (Handle.sv_cache s) w).
Definition handleAdminStats (uptime restPort udpPort : Z) (swarm : option swarmStats) (s : server) : response * server :=
  let '(st, s) := gatherStats uptime restPort udpPort swarm s in (mkResponse 200 json_headers (PStats st), s).

(** * The resource pipeline *)

Definition is_crlf (b : byte) : bool := bool_decide (b = x0d) || bool_decide (b = x0a).
Definition missing (f : option bytes) : bool :=
  match f with Some v => bool_decide (TrimSpace v = []) | None => true end.
Definition bad_ref (msg : bytes) : resourceError := mkResourceError 502 (str "bad_resource_ref") msg.

Definition fetch_error_response (e : fetch_failure) : resourceError :=
  match e with
  | FHashMismatch => mkResourceError 502 (str "resource_hash_mismatch") (str "torrent payload did not match on-chain sha256")
  | FTooLarge m => mkResourceError 502 (str "resource_too_large") m
  | FTimeout m => mkResourceError 504 (str "resource_timeout") m
  | FOther m => mkResourceError 502 (str "resource_fetch_failed") m
  end.

(** fetchVerifiedResource; [sem_ok] is whether the semaphore was acquired before
    the context ended. *)
Definition fetchVerifiedResource (q : Query.Query) (peers : list bytes) (t_get t_set : Z) (sem_ok : bool) (s : server) :
    (verifiedResource + resourceError) * server :=
  if negb engine_enabled
  then (inr (mkResourceError 503 (str "resource_engine_unavailable") (str "resource fetching is not enabled")), s)
  else
    let '(res, s) := HandleQuery q t_get t_set s in
    match res with
    | inr e => (inr (mkResourceError 502 (str "chain_error") (chain_error_text e)), s)
    | inl res =>
        if negb (Handle.Found res)
        then (inr (mkResourceError 404 (str "no_match") (str "ResourceRef record was not found")), s)
        else if negb (OwnerSigValid (Handle.Result res))
        then (inr (mkResourceError 502 (str "owner_signature_invalid") (str "ResourceRef owner signature failed verification")), s)
        else
          let rec := RR_Record (Handle.Result res) in
          let infoHash := Field rec (str "infoHash") in
          let sha := Field rec (str "sha256") in
          if missing infoHash then (inr (bad_ref (str "ResourceRef is missing infoHash")), s)
          else if missing sha then (inr (bad_ref (str "ResourceRef is missing sha256")), s)
          else
            let declared := Field rec (str "contentType") in
            let contentType := if missing declared then str "application/octet-stream" else default [] declared in
            if existsb is_crlf contentType then (inr (bad_ref (str "ResourceRef contentType is invalid")), s)
            else if negb sem_ok
            then (inr (mkResourceError 503 (str "resource_busy") (str "resolver is busy serving resources; retry shortly")), s)
            else
              let '(out, w) := rf_Fetch (default [] infoHash) (default [] sha) peers (Handle.sv_world s) in
              let s := Handle.mkServer (Handle.sv_cache s) w in
              match out with
              | inr e => (inr (fetch_error_response e), s)
              | inl body =>
                  let validation := ContentType.Validate DetectContentType ParseMediaType contentType body in
                  if negb (ContentType.OK validation) && enforceType
                  then (inr (mkResourceError 422 (str "content_type_mismatch") (ContentType.Reason validation)), s)
                  else
                    (inl (mkVerified body (address_Hex (Owner (Handle.Result res)))
                       (hexutil_Encode (PubKey (Handle.Result res))) (default [] infoHash) (default [] sha) contentType
                       (match ZKProof (Handle.Result res) with [] => [] | p => hexutil_Encode p end)
                       validation (TTL rec)), s)
              end
    end.

Definition validationStatus (ok : bool) : bytes := if ok then str "ok" else str "mismatch".
Definition webSandboxCSP : bytes := str "sandbox allow-scripts allow-forms; base-uri 'none'".

Definition peers_of (r : request) : list bytes :=
  resourcePeers IsLoopbackIP allowPeerHints (params r).

(** The manifest handleResource signs. *)
Definition vr_manifest (vr : verifiedResource) : bytes :=
  Pki.ResourceManifest Sum256 (vr_owner vr) (vr_pubKeyHex vr) (vr_infoHash vr) (vr_sha vr) (vr_contentType vr) true
    (vr_zkHex vr) (vr_body vr).

Definition resource_headers (vr : verifiedResource) : gmap bytes bytes :=
  let h : gmap bytes bytes :=
    <[str "X-DDNS-Detected-Type" := ContentType.Detected (vr_validation vr)]>
    (<[str "X-DDNS-Content-Validation" := validationStatus (ContentType.OK (vr_validation vr))]>
    (<[str "X-DDNS-OwnerSig-Verified" := str "true"]>
    (<[str "X-DDNS-SHA256" := vr_sha vr]>
    (<[str "X-DDNS-InfoHash" := vr_infoHash vr]>
    (<[str "X-DDNS-PubKey" := vr_pubKeyHex vr]>
    (<[str "X-DDNS-Owner" := vr_owner vr]>
    (<[str "X-DDNS-Signature" := hexutil_Encode (Pki.Sign identity (vr_manifest vr))]>
    (<[str "X-DDNS-Sig-Scheme" := str "ddns-resource-v1"]>
    (<[str "X-DDNS-Resolver" := Pki.PublicKeyHex identity]>
    (<[str "Content-Security-Policy" := webSandboxCSP]>
    (<[str "X-Content-Type-Options" := str "nosniff"]>
    (<[str "Content-Type" := vr_contentType vr]> ∅)))))))))))) in
  let h := if bool_decide (vr_zkHex vr = []) then h else <[str "X-DDNS-ZKProof" := vr_zkHex vr]> h in
  if 0 <? vr_ttl vr then <[str "Cache-Control" := str "public, max-age=" ++ Itoa (vr_ttl vr)]> h else h.

(** handleResource *)
Definition handleResource (r : request) (t_get t_set : Z) (sem_ok : bool) (s : server) : go Empty_set response * server :=
  match parseResourceQuery (params r) with
  | Panic => (Panic, s)
  | Err e => (Ret (writeError 400 (str "invalid_query") (parse_error_text e)), s)
  | Ret q =>
      let '(out, s) := fetchVerifiedResource q (peers_of r) t_get t_set sem_ok s in
      match out with
      | inr e => (Ret (writeError (re_status e) (re_code e) (re_msg e)), s)
      | inl vr => (Ret (mkResponse 200 (resource_headers vr) (PBytes (vr_body vr))), s)
      end
  end.

(** * The browser gateway *)

(** The loop of handleWeb over the selectors to try, each with the clock readings
    and the semaphore's answer of its pass: [vr] and [rerr], both nil at first. *)
Fixpoint web_loop (name : bytes) (sels : list (bytes * (Z * Z * bool))) (peers : list bytes)
    (vr : option verifiedResource) (rerr : option resourceError) (s : server) :
    option verifiedResource * option resourceError * server :=
  match sels with
  | [] => (vr, rerr, s)
  | (sel, (t_get, t_set, sem_ok)) :: sels =>
      match Query.ParsePairs sel with
      | Ret pairs =>
          match Query.New name (str "ResourceRef") pairs with
          | Ret q =>
              let '(out, s) := fetchVerifiedResource q peers t_get t_set sem_ok s in
              match out with
              | inl vr => (Some vr, None, s)
              | inr e =>
                  if bool_decide (re_code e = str "no_match")
                  then web_loop name sels peers None (Some e) s
                  else (None, Some e, s)
              end
          | _ => web_loop name sels peers vr rerr s
          end
      | _ => web_loop name sels peers vr rerr s
      end
  end.

(** The magnet link of the gateway's headers. *)
Variable QueryEscape : bytes -> bytes.          (* url.QueryEscape *)
Variable ListenAddrs : list bytes.              (* s.bt.ListenAddrs() *)
Variable cfg_BTListenPort : Z.

Definition btPort : Z := if cfg_BTListenPort =? 0 then 42069 else cfg_BTListenPort.

Definition PublicOpenTrackers : list (list bytes) :=
  [ [str "udp://tracker.opentrackr.org:1337/announce"]; [str "udp://open.stealth.si:80/announce"];
    [str "udp://tracker.torrent.eu.org:451/announce"]; [str "udp://tracker.moeking.me:6969/announce"];
    [str "udp://explodie.org:6969/announce"]; [str "http://tracker.opentrackr.org:1337/announce"] ].

Definition trackerParams : bytes :=
  concat (map (fun tier => match tier with t :: _ => str "&tr=" ++ QueryEscape t | [] => [] end) PublicOpenTrackers).

Definition peerParams (r : request) : bytes :=
  let h := match SplitHostPort (host r) with Some (h, _) => h | None => host r end in
  let p := if negb (bool_decide (h = [])) && negb (bool_decide (h = str "localhost")) && negb (bool_decide (h = str "127.0.0.1"))
           then str "&x.pe=" ++ h ++ str ":" ++ Itoa btPort else [] in
  let p := if engine_enabled
           then fold_left (fun p addr => if Contains p addr then p else p ++ str "&x.pe=" ++ addr) ListenAddrs p else p in
  if Contains p (str "127.0.0.1") then p else p ++ str "&x.pe=127.0.0.1:" ++ Itoa btPort.

Definition magnetURI (r : request) (vr : verifiedResource) : bytes :=
  str "magnet:?xt=urn:btih:" ++ vr_infoHash vr ++ str "&dn=" ++ path_name r ++ str ".html" ++ peerParams r ++ trackerParams.

Definition web_headers (r : request) (vr : verifiedResource) : gmap bytes bytes :=
  <[str "X-DDNS-Content-Validation" := validationStatus (ContentType.OK (vr_validation vr))]>
  (<[str "X-DDNS-Integrity-Status" := str "SHA-256 matched on-chain ResourceRef digest"]>
  (<[str "X-DDNS-SHA256" := vr_sha vr]>
  (<[str "X-DDNS-Owner" := vr_owner vr]>
  (<[str "X-DDNS-Magnet" := magnetURI r vr]>
  (<[str "X-DDNS-InfoHash" := vr_infoHash vr]>
  (<[str "X-DDNS-Storage-Protocol" := str "BitTorrent (BEP-05 Mainline DHT / P2P Swarm)"]>
  (<[str "Cache-Control" := str "no-cache, must-revalidate"]>
  (<[str "Content-Security-Policy" := webSandboxCSP]>
  (<[str "X-Content-Type-Options" := str "nosniff"]>
  (<[str "Content-Type" := vr_contentType vr]>
  (<[str "Server" := str "Decentralized-DNS/2.0 (BitTorrent-P2P + Ethereum-Sepolia)"]> ∅))))))))))).

Definition web_selectors (r : request) : list bytes :=
  let selector := vget (params r) (str "selector") in
  if bool_decide (selector = []) then [str "service=HTTP"; []] else [selector].

(** handleWeb; without an error the code reads [vr.contentType] whether or not
    [vr] is nil. [pass i] are the readings of the i-th pass of the loop. *)
Definition handleWeb (r : request) (pass : nat -> Z * Z * bool) (s : server) : go Empty_set response * server :=
  let '(vr, rerr, s) :=
    web_loop (path_name r) (imap (fun i sel => (sel, pass i)) (web_selectors r)) (peers_of r) None None s in
  match rerr with
  | Some e => (Ret (writeError (re_status e) (re_code e) (re_msg e)), s)
  | None =>
      match vr with
      | Some vr => (Ret (mkResponse 200 (web_headers r vr) (PBytes (vr_body vr))), s)
      | None => (Panic, s)
      end
  end.

(** * What is served *)
Context {LL : Cache.LruLaws Cache.Key (Cache.entry ResolveResult) L}.
Context {RFL : ResourceFetcherLaws W Sum256} {EDL : Pki.Ed25519Laws EdPriv} {HXL : HexutilLaws}.
Variable U : bytes -> Prop.
Hypothesis nameHash_inj : forall a b, U a -> U b -> nameHash a = nameHash b -> a = b.
Hypothesis Resolve_unvetted : forall n t sel w res w',
  cr_Resolve n t sel w = (inl res, w') -> OwnerSigValid res = false.

Abbreviation told := (Handle.told artifact nameHash).
Abbreviation srun := (Handle.srun artifact nameHash).

(** The declared media type of a record, as the pipeline reads it. *)
Definition declared_type (rec : Record) : bytes :=
  let declared := Field rec (str "contentType") in
  if missing declared then str "application/octet-stream" else default [] declared.

(** A resource is genuine for a query of a history: the record the chain told the
    server in answer to that very query is live, its domain's owner signed it under
    this name, the resource carries that owner, key, infohash, digest and type, and
    its bytes hash to the digest. *)
Definition genuine (s0 : server) (ops : list Handle.sop) (q : Query.Query) (vr : verifiedResource) : Prop :=
  exists res : ResolveResult,
    told s0 ops q res
    /\ Pki.VerifyOwnerSig (Query.Name q) (RR_Record res) (Owner res) (PubKey res) = Ret ()
    /\ Exists (RR_Record res) = true /\ Owner res <> zero_address
    /\ vr_owner vr = address_Hex (Owner res) /\ vr_pubKeyHex vr = hexutil_Encode (PubKey res)
    /\ Field (RR_Record res) (str "infoHash") = Some (vr_infoHash vr)
    /\ Field (RR_Record res) (str "sha256") = Some (vr_sha vr)
    /\ hex_decode (vr_sha vr) = Some (Sum256 (vr_body vr))
    /\ vr_contentType vr = declared_type (RR_Record res) /\ existsb is_crlf (vr_contentType vr) = false
    /\ vr_ttl vr = TTL (RR_Record res)
    /\ (enforceType = true -> ContentType.OK (vr_validation vr) = true).

Lemma missing_false f : missing f = false -> f = Some (default [] f).
Proof. destruct f; [done|done]. Qed.

(** The pipeline's resource is genuine for its query, asked after the history before
    it; without a record it has done nothing but the query. *)
Lemma fetchVerifiedResource_genuine cap c w ops q peers t_get t_set sem_ok :
  Cache.New cap = Some c -> Forall (Handle.sop_ok U) ops -> U (Query.Name q) ->
  let s0 := Handle.mkServer c w in
  let ops' := ops ++ [Handle.SQuery q t_get t_set] in
  let out := fetchVerifiedResource q peers t_get t_set sem_ok (srun ops s0) in
  (forall vr, out.1 = inl vr -> genuine s0 ops' q vr)
  /\ (forall e, out.1 = inr e -> re_code e = str "no_match" -> out.2 = srun ops' s0).
Proof.
  intros Hn Hops HU s0 ops' out. unfold out, fetchVerifiedResource. destruct engine_enabled; cbn [negb]; [|by split; [|intros e [= <-]]].
  pose proof (Handle.answer_told artifact nameHash U nameHash_inj Resolve_unvetted cap c w ops q t_get t_set) as Htold.
  fold s0 ops' in Htold.
  assert (srun ops' s0 = (HandleQuery q t_get t_set (srun ops s0)).2) as -> by (exact (Handle.srun_snoc artifact nameHash ops (Handle.SQuery q t_get t_set) s0)).
  destruct (Handle.HandleQuery artifact nameHash q t_get t_set (srun ops s0)) as [[res|e] s1]; cbn [fst snd] in *; [|by split; [|intros ? [= <-]]].
  destruct (Handle.Found res) eqn:Ef; cbn [negb]; [|by split].
  destruct (OwnerSigValid (Handle.Result res)) eqn:Eo; cbn [negb]; [|by split; [|intros ? [= <-]]].
  destruct (missing (Field _ (str "infoHash"))) eqn:Ei; [by split; [|intros ? [= <-]]|].
  destruct (missing (Field _ (str "sha256"))) eqn:Esh; [by split; [|intros ? [= <-]]|].
  destruct (existsb is_crlf _) eqn:Ec; [by split; [|intros ? [= <-]]|]. destruct sem_ok; cbn [negb]; [|by split; [|intros ? [= <-]]].
  destruct (rf_Fetch _ _ _ _) as [[body|e] w1] eqn:Ew; cbv zeta; [|by split; [|intros ? [= <-]; destruct e]].
  apply rf_Fetch_verified in Ew.
  destruct (negb _ && enforceType) eqn:Een; cbn [fst snd]; [by split; [|intros ? [= <-]]|]. split; [|done].
  intros vr [= <-]. unfold Handle.Found in Ef. apply andb_true_iff in Ef as [Hex Hown].
  destruct (Htold res Hn Hops HU eq_refl Hex) as (res0 & Ht & Hres). rewrite Hres in *. clear Htold Hres res.
  assert (OwnerSigValid res0 = false) as Hun.
  { destruct Ht as (? & ? & ? & ? & _ & Hr & _). destruct (cr_Resolve _ _ _ _) as [ans w2] eqn:Ers. cbn in Hr. subst ans. by eapply Resolve_unvetted. }
  destruct (Handle.vet_vetted artifact (Query.Name q) res0 Hun) as [Hverd _].
  exists res0. cbn [vr_owner vr_pubKeyHex vr_infoHash vr_sha vr_body vr_contentType vr_validation vr_ttl].
  split; [exact Ht|]. split; [by apply Hverd|]. split; [done|].
  split; [by apply negb_true_iff, bool_decide_eq_false_1 in Hown|].
  split; [done|]. split; [done|]. split; [by apply missing_false|]. split; [by apply missing_false|].
  split; [done|]. split; [done|]. split; [done|]. split; [done|]. intros Hen. rewrite Hen, andb_true_r in Een. by apply negb_false_iff in Een.
Qed.

(** The queries of one request to the gateway. *)
Definition own_query (name : bytes) (o : Handle.sop) : Prop :=
  exists q t_get t_set, o = Handle.SQuery q t_get t_set /\ Query.Name q = name /\ Query.Type_ q = str "ResourceRef".

Lemma web_loop_genuine cap c w name sels peers rerr ops :
  Cache.New cap = Some c -> U name -> Forall (Handle.sop_ok U) ops ->
  forall vr rerr' s', web_loop name sels peers None rerr (srun ops (Handle.mkServer c w)) = (Some vr, rerr', s') ->
  exists passes q, Forall (own_query name) passes /\ Query.Name q = name /\ Query.Type_ q = str "ResourceRef"
    /\ genuine (Handle.mkServer c w) (ops ++ passes) q vr.
Proof.
  intros Hn HU. revert rerr ops. induction sels as [|[sel [[t_get t_set] sem_ok]] sels IH]; intros rerr ops Hops vr rerr' s'; cbn [web_loop]; [done|].
  destruct (Query.ParsePairs sel) as [pairs| |]; [|by apply IH..].
  destruct (Query.New name (str "ResourceRef") pairs) as [q| |] eqn:Eq; [|by apply IH..].
  apply Query.New_Ret in Eq as (_ & _ & sel' & _ & ->).
  set (q := Query.mkQuery name (str "ResourceRef") sel').
  assert (own_query name (Handle.SQuery q t_get t_set)) as Hown by (by exists q, t_get, t_set).
  destruct (fetchVerifiedResource_genuine cap c w ops q peers t_get t_set sem_ok Hn Hops HU) as [Hg Hno]. cbv zeta in Hg, Hno.
  destruct (fetchVerifiedResource q peers t_get t_set sem_ok _) as [[vr1|e] s1]; cbn [fst snd] in *.
  - intros [= <- <- <-]. exists [Handle.SQuery q t_get t_set], q. split; [by repeat constructor|]. split; [done|]. split; [done|]. by apply Hg.
  - case_bool_decide as He; [|done]. rewrite (Hno e eq_refl He). intros Hrun.
    destruct (IH (Some e) (ops ++ [Handle.SQuery q t_get t_set])) with (vr := vr) (rerr' := rerr') (s' := s')
      as (passes & q' & Hp & Hq & Ht & Hgen); [by apply Forall_app; split; [|by repeat constructor]|exact Hrun|].
    exists (Handle.SQuery q t_get t_set :: passes), q'. split; [by constructor|]. split; [done|]. split; [done|].
    by rewrite (cons_middle _ ops passes), app_assoc.
Qed.

(** The headers /resource sends. *)
Lemma resource_headers_fields vr :
  let h := resource_headers vr in
  h !! str "X-DDNS-Resolver" = Some (Pki.PublicKeyHex identity)
  /\ h !! str "X-DDNS-Signature" = Some (hexutil_Encode (Pki.Sign identity (vr_manifest vr)))
  /\ h !! str "X-DDNS-Owner" = Some (vr_owner vr) /\ h !! str "X-DDNS-PubKey" = Some (vr_pubKeyHex vr)
  /\ h !! str "X-DDNS-InfoHash" = Some (vr_infoHash vr) /\ h !! str "X-DDNS-SHA256" = Some (vr_sha vr)
  /\ h !! str "Content-Type" = Some (vr_contentType vr) /\ h !! str "X-DDNS-OwnerSig-Verified" = Some (str "true")
  /\ default [] (h !! str "X-DDNS-ZKProof") = vr_zkHex vr.
Proof.
  cbv zeta. unfold resource_headers.
  destruct (0 <? vr_ttl vr); case_bool_decide as Hz; split_and!;
    repeat (rewrite lookup_insert_ne by done); rewrite ?lookup_insert_eq, ?lookup_empty; done.
Qed.

(** The headers /web sends. *)
Lemma web_headers_fields r vr :
  let h := web_headers r vr in
  h !! str "X-DDNS-Owner" = Some (vr_owner vr) /\ h !! str "X-DDNS-InfoHash" = Some (vr_infoHash vr)
  /\ h !! str "X-DDNS-SHA256" = Some (vr_sha vr) /\ h !! str "Content-Type" = Some (vr_contentType vr).
Proof.
  cbv zeta. unfold web_headers. split_and!; repeat (rewrite lookup_insert_ne by done); by rewrite lookup_insert_eq.
Qed.


(** The value of a header, "" if absent. *)
Definition hget (resp : response) (k : bytes) : bytes := default [] (headers resp !! k).

(** A client's check of the signature of a response, from its headers and body. *)
Definition response_verifies (resp : response) (body : bytes) : Prop :=
  Pki.VerifyResourceSignature Sum256 (EdPriv := EdPriv) (hget resp (str "X-DDNS-Resolver"))
    (hget resp (str "X-DDNS-Signature")) (hget resp (str "X-DDNS-Owner")) (hget resp (str "X-DDNS-PubKey"))
    (hget resp (str "X-DDNS-InfoHash")) (hget resp (str "X-DDNS-SHA256")) (hget resp (str "Content-Type"))
    (bool_decide (hget resp (str "X-DDNS-OwnerSig-Verified") = str "true")) (hget resp (str "X-DDNS-ZKProof")) body
  = Ret ().

Lemma resource_headers_verify vr :
  response_verifies (mkResponse 200 (resource_headers vr) (PBytes (vr_body vr))) (vr_body vr).
Proof.
  unfold response_verifies, hget. cbn [headers].
  destruct (resource_headers_fields vr) as (-> & -> & -> & -> & -> & -> & -> & -> & ->). cbn [default].
  unfold id. rewrite bool_decide_eq_true_2 by done. unfold Pki.VerifyResourceSignature, Pki.PublicKeyHex.
  rewrite hexutil_Encode_hex. unfold Pki.PublicKeySize, Pki.EdSignatureSize, Pki.PublicKey, Pki.Sign.
  rewrite !Pki.decode_sized_hex by (apply Pki.ed_Public_length || apply Pki.ed_Sign_length).
  fold (vr_manifest vr). by rewrite Pki.ed_Verify_Sign.
Qed.

Lemma handleResource_PBytes r t_get t_set sem_ok s resp body :
  (handleResource r t_get t_set sem_ok s).1 = Ret resp -> body_of resp = PBytes body ->
  exists vr, resp = mkResponse 200 (resource_headers vr) (PBytes (vr_body vr)) /\ vr_body vr = body.
Proof.
  unfold handleResource. destruct (parseResourceQuery (params r)) as [q| |]; [|by intros [= <-]|done].
  destruct (fetchVerifiedResource _ _ _ _ _ _) as [[vr|e] s1]; cbn [fst snd]; [|by intros [= <-]].
  intros [= <-] [= <-]. by exists vr.
Qed.

(** What /resource returns can be checked by the client from the response
    alone: the signature header verifies, with the resolver's key, over the
    headers and the body as they were sent. *)
Theorem resource_response_verifies r t_get t_set sem_ok s resp body :
  (handleResource r t_get t_set sem_ok s).1 = Ret resp -> body_of resp = PBytes body -> response_verifies resp body.
Proof. intros H1 H2. destruct (handleResource_PBytes _ _ _ _ _ _ _ H1 H2) as (vr & -> & <-). apply resource_headers_verify. Qed.

(** handleWeb has no answer for a request that no selector turns into a valid
    query: an invalid name or selector makes it dereference nil. *)
Theorem handleWeb_panics_on_bad_name r pass s :
  Query.ValidateName (path_name r) <> Ret () -> (handleWeb r pass s).1 = Panic.
Proof.
  intros Hn. unfold handleWeb.
  assert (forall sels, web_loop (path_name r) sels (peers_of r) None None s = (None, None, s)) as ->.
  { induction sels as [|[sel [[t_get t_set] sem_ok]] sels IH]; [done|]. cbn [web_loop]. destruct (Query.ParsePairs sel) as [pairs| |]; [|done..].
    destruct (Query.New (path_name r) (str "ResourceRef") pairs) as [q| |] eqn:E; [|done..].
    by apply Query.New_Ret in E as [? _]. }
  done.
Qed.
End Server.

(** * A concrete front end

    The chain anchors the two bytes "hi" under every name, and the swarm serves them. *)
#[local] Existing Instances Query.ascii_case Pki.merge_sort_pairs Zk.toy_mimc Zk.toy_mimc_laws Zk.toy_groth Pki.toy_ed Pki.toy_ed_laws
  Encoding.std_hexutil_laws Cache.ListLruLaws.
Definition demo_sha : bytes := Eval vm_compute in hex_encode (Pki.demo_sum (str "hi")).
Definition demo_ref : Record :=
  mkRecord (str "ResourceRef") [] [str "infoHash"; str "sha256"; str "contentType"] [str "ab12"; demo_sha; str "text/plain"]
    300 2 (be_bytes 32 77 ++ replicate 32 x00 ++ [x1b]) [] true.
Definition demo_ref_chain : ChainReader Z () := {|
  cr_Resolve n t sel w := (inl (mkResolveResult demo_ref (be_bytes 20 77) [] false []), w + 1);
  cr_GetDomain n w := (inl (mkDomain (be_bytes 20 77) [] 100 2), w + 1);
  cr_ListRecords n w := (inl [demo_ref], w + 1);
  cr_ListTypes w := (inl [str "ResourceRef"], w + 1);
  cr_ChainHead w := (inl 7, w + 1);
|}.
Definition demo_fetcher : ResourceFetcher Z := {|
  rf_Fetch ih sha peers w :=
    (if bool_decide (hex_decode sha = Some (Pki.demo_sum (str "hi"))) then inl (str "hi") else inr FHashMismatch, w) |}.
Definition demo_fetcher_laws : ResourceFetcherLaws Z Pki.demo_sum (H := demo_fetcher).
Proof. constructor. intros ih sha peers w body w'. cbn. case_bool_decide; [|done]. by intros [= <- _]. Defined.

Definition demo_request : request :=
  mkHttpRequest (str "alice") {[str "name" := [str "alice"]; str "peer" := [str "127.0.0.1:6881"; str "10.0.0.9:1"]]} (str "gw:80").

Definition demo_names : bytes -> Prop := fun _ => True.
Definition demo_server : Handle.server Handle.demo_lru Z :=
  Handle.srun (EC := Pki.toy_eth) (CR := demo_ref_chain) Handle.demo_artifact (fun n => n) [] Handle.demo_boot.
Definition demo_sniff : bytes -> bytes := fun _ => str "text/plain; charset=utf-8".
Definition demo_resource :=
  handleResource (EC := Pki.toy_eth) (CR := demo_ref_chain) (L := Handle.demo_lru) (RF := demo_fetcher) (EdPriv := bytes)
    Handle.demo_artifact (fun n => n) (fun a => a) Pki.demo_sum (Pki.mkIdentity Pki.demo_seed)
    (fun _ => []) (fun _ => []) demo_sniff (fun _ => None) (fun _ => false) true false true.
Definition demo_web :=
  handleWeb (EC := Pki.toy_eth) (CR := demo_ref_chain) (L := Handle.demo_lru) (RF := demo_fetcher)
    Handle.demo_artifact (fun n => n) (fun a => a) (fun _ => []) demo_sniff (fun _ => None) (fun _ => false) true false true
    (fun b => b) [] 0.
Definition resp_of (r : go Empty_set response) : response :=
  match r with Ret r => r | _ => mkResponse 0 ∅ (PBytes []) end.
Definition demo_response : response := resp_of (demo_resource demo_request 0 1 true demo_server).1.
Definition demo_page : response := resp_of (demo_web demo_request (fun _ => (0, 1, true)) demo_server).1.

Lemma demo_response_run : (demo_resource demo_request 0 1 true demo_server).1 = Ret demo_response.
Proof. vm_refl. Qed.

Lemma demo_response_body : body_of demo_response = PBytes (str "hi").
Proof. vm_refl. Qed.

Lemma demo_page_body : body_of demo_page = PBytes (str "hi").
Proof. vm_refl. Qed.

Lemma demo_page_run : (demo_web demo_request (fun _ => (0, 1, true)) demo_server).1 = Ret demo_page.
Proof. vm_refl. Qed.

Lemma demo_ref_unvetted n t sel w (res : ResolveResult) w' :
  cr_Resolve (ChainReader := demo_ref_chain) n t sel w = (inl res, w') -> OwnerSigValid res = false.
Proof. by intros [= <- _]. Qed.

Example demo_peers : resourcePeers (fun h => bool_decide (h = str "127.0.0.1")) false (params demo_request) = [str "127.0.0.1:6881"].
Proof. vm_compute. reflexivity. Qed.


Lemma resource_response_verifies_witness :
  body_of demo_response = PBytes (str "hi") /\ response_verifies (EdPriv := bytes) Pki.demo_sum demo_response (str "hi").
Proof.
  split; [exact demo_response_body|].
  apply (resource_response_verifies (EC := Pki.toy_eth) (CR := demo_ref_chain) (L := Handle.demo_lru) (RF := demo_fetcher)
    (EdPriv := bytes) Handle.demo_artifact (fun n => n) (fun a => a) Pki.demo_sum (Pki.mkIdentity Pki.demo_seed)
    (fun _ => []) (fun _ => []) demo_sniff (fun _ => None) (fun _ => false) true false true demo_request 0 1 true
    demo_server demo_response (str "hi")); [exact demo_response_run|exact demo_response_body].
Defined.

Lemma handleWeb_panics_on_bad_name_witness :
  (demo_web (mkHttpRequest (str "BAD NAME") ∅ []) (fun _ => (0, 1, true)) demo_server).1 = Panic.
Proof.
  apply (handleWeb_panics_on_bad_name (EC := Pki.toy_eth) (CR := demo_ref_chain) (L := Handle.demo_lru) (RF := demo_fetcher)).
  vm_compute. discriminate.
Defined.

End Web.
