(* ===== verification/Cli.v ===== *)
(** Helpers the command-line tools share (each of src/resolver/cmd/ddns,
    cmd/ddns-lookup and cmd/ddns-fetch has its own copy): the reordering of
    arguments, environment defaults and the look-up of contract addresses. *)
From S2P Require Import Prelude GoStrings Net Chain.

Local Open Scope Z_scope.

Module Cli.

Definition dash : byte := "-"%byte.

(** strings.TrimLeft(a, "-") *)
Fixpoint trim_dashes (a : bytes) : bytes :=
  match a with b :: rest => if Byte.eqb b dash then trim_dashes rest else a | [] => [] end.

(** strings.SplitN(s, "=", 2)[0] *)
Definition before_eq (s : bytes) : bytes := match Cut s "=" with Some (k, _) => k | None => s end.

Definition is_flag (a : bytes) : bool :=
  match a with b :: _ :: _ => Byte.eqb b dash | _ => false end.

(** Whether the flag [a] takes the next argument as its value. *)
Definition takes_value (boolFlags : list bytes) (a : bytes) : bool :=
  negb (Net.has_byte a "=") && negb (bool_decide (before_eq (trim_dashes a) ∈ boolFlags)).

(** The loop of reorder: the flags and the positional arguments. *)
Fixpoint reorder_loop (boolFlags args flags pos : list bytes) : list bytes * list bytes :=
  match args with
  | [] => (flags, pos)
  | a :: rest =>
      if bool_decide (a = str "--") then (flags, pos ++ rest)
      else if is_flag a then
        match rest with
        | v :: rest' =>
            if takes_value boolFlags a then reorder_loop boolFlags rest' (flags ++ [a; v]) pos
            else reorder_loop boolFlags rest (flags ++ [a]) pos
        | [] => (flags ++ [a], pos)
        end
      else reorder_loop boolFlags rest flags (pos ++ [a])
  end.
Definition reorder (args boolFlags : list bytes) : list bytes :=
  let '(flags, pos) := reorder_loop boolFlags args [] [] in flags ++ pos.

(** No argument is lost or invented, but for the first "--" that is not the value
    of a flag. *)
Lemma reorder_loop_perm boolFlags args flags pos :
  (reorder_loop boolFlags args flags pos).1 ++ (reorder_loop boolFlags args flags pos).2 ≡ₚ flags ++ pos ++ args
  \/ str "--" :: (reorder_loop boolFlags args flags pos).1 ++ (reorder_loop boolFlags args flags pos).2
     ≡ₚ flags ++ pos ++ args.
Proof.
  remember (length args) as n eqn:En. revert args En flags pos.
  induction (lt_wf n) as [n _ IH]. intros [|a rest] -> flags pos; cbn [reorder_loop fst snd].
  { left. by rewrite app_nil_r. }
  case_bool_decide as Ha; [subst a; right; cbn [fst snd]; solve_Permutation|].
  destruct (is_flag a).
  - destruct rest as [|v rest]; [left; cbn [fst snd]; solve_Permutation|].
    destruct (takes_value boolFlags a).
    + destruct (IH (length rest) ltac:(cbn; lia) rest eq_refl (flags ++ [a; v]) pos) as [H|H]; [left|right]; rewrite H; solve_Permutation.
    + destruct (IH (length (v :: rest)) ltac:(cbn; lia) (v :: rest) eq_refl (flags ++ [a]) pos) as [H|H];
        [left|right]; rewrite H; solve_Permutation.
  - destruct (IH (length rest) ltac:(cbn; lia) rest eq_refl flags (pos ++ [a])) as [H|H]; [left|right]; rewrite H; solve_Permutation.
Qed.

Lemma reorder_perm args boolFlags :
  reorder args boolFlags ≡ₚ args \/ str "--" :: reorder args boolFlags ≡ₚ args.
Proof.
  unfold reorder. pose proof (reorder_loop_perm boolFlags args [] []) as H.
  by destruct (reorder_loop boolFlags args [] []).
Qed.

Example reorder_moves_flags :
  reorder [str "alice"; str "--resolver"; str "http://r"; str "A"; str "--discover"] [str "discover"]
  = [str "--resolver"; str "http://r"; str "--discover"; str "alice"; str "A"].
Proof. reflexivity. Qed.

(** envOr: [v] is os.Getenv(key). *)
Definition envOr (v def : bytes) : bytes := if bool_decide (v = []) then def else v.

Definition bracket (sel : bytes) : bytes := if bool_decide (sel = []) then [] else str " [" ++ sel ++ str "]".

(** namespaceAddr and resolverRegistryAddr: the flag, else the field of the
    deployment file ([None] if it cannot be read or parsed), else the variable. *)
Section Addresses.
Variable HexToAddress : bytes -> bytes.        (* common.HexToAddress *)

Definition lookup_addr (deployments flagVal : bytes) (file_field : option bytes) (env : bytes) : bytes :=
  if negb (bool_decide (flagVal = [])) then HexToAddress flagVal
  else
    match (if bool_decide (deployments = []) then None else file_field) with
    | Some (b :: v) => HexToAddress (b :: v)
    | _ => if bool_decide (env = []) then Chain.zero_address else HexToAddress env
    end.

(** type deployment: the contract addresses of a deploy artifact *)
Record contracts := mkContracts {
  NamespaceDApp : bytes; RecordSchemaRegistry : bytes; ResolverRegistry : bytes; ResolverIncentives : bytes }.

Definition namespaceAddr (deployments flagVal : bytes) (doc : option contracts) (CONTRACT_ADDRESS : bytes) : bytes :=
  lookup_addr deployments flagVal (NamespaceDApp <$> doc) CONTRACT_ADDRESS.
Definition resolverRegistryAddr (deployments flagVal : bytes) (doc : option contracts) (RESOLVER_REGISTRY_ADDRESS : bytes) : bytes :=
  lookup_addr deployments flagVal (ResolverRegistry <$> doc) RESOLVER_REGISTRY_ADDRESS.
End Addresses.

End Cli.
