(* ===== verification/Flags.v ===== *)
(** The command lines of the tools: reorder (each of src/resolver/cmd/ddns,
    cmd/ddns-lookup and cmd/ddns-fetch has its copy) followed by Parse of Go's
    package flag, for the kinds of flags the tools declare.

    A parse gives the assignments in the order they were made and the arguments that
    remain; package flag exits with 0 after -h or -help, and with 2 on errors. *)
From S2P Require Import Prelude GoStrings Net Cli.

Local Open Scope Z_scope.

Module Flags.

(** * Values: strconv with base 0 *)

Definition lower (b : byte) : byte := if in_range 65 90 (b2z b) then z2b (b2z b + 32) else b.
Definition base_prefix (s : bytes) : option (Z * bytes) :=
  match s with
  | a :: b :: rest =>
      if bool_decide (a = "0"%byte) then
        if bool_decide (lower b = "b"%byte) then Some (2, rest)
        else if bool_decide (lower b = "o"%byte) then Some (8, rest)
        else if bool_decide (lower b = "x"%byte) then Some (16, rest) else None
      else None
  | _ => None
  end.
(** The value of a digit or a letter. *)
Definition digit_value (b : byte) : option Z :=
  let c := b2z (lower b) in
  if in_range 48 57 c then Some (c - 48) else if in_range 97 122 c then Some (c - 87) else None.
(** The digits of ParseUint; "_" is skipped, [None] is a syntax or range error. *)
Fixpoint digits (base max : Z) (s : bytes) (n : Z) : option Z :=
  match s with
  | [] => Some n
  | b :: s =>
      if bool_decide (b = "_"%byte) then digits base max s n
      else match digit_value b with
           | Some d => if base <=? d then None else if max <? n * base + d then None else digits base max s (n * base + d)
           | None => None
           end
  end.

(** underscoreOK: what was seen last. *)
Inductive seen := SBegin | SDigit | SUnderscore | SOther.
Fixpoint underscores (hex : bool) (s : bytes) (i : seen) : bool :=
  match s with
  | [] => match i with SUnderscore => false | _ => true end
  | b :: s =>
      let c := b2z (lower b) in
      if in_range 48 57 c || hex && in_range 97 102 c then underscores hex s SDigit
      else if bool_decide (b = "_"%byte) then match i with SDigit => underscores hex s SUnderscore | _ => false end
      else match i with SUnderscore => false | _ => underscores hex s SOther end
  end.
Definition underscoreOK (s : bytes) : bool :=
  match base_prefix s with
  | Some (base, rest) => underscores (base =? 16) rest SDigit
  | None => underscores false s SBegin
  end.

(** strconv.ParseUint(s, 0, 64) *)
Definition ParseUint0 (s : bytes) : option Z :=
  let '(base, rest) :=
    match base_prefix s with
    | Some (base, b :: rest) => (base, b :: rest)
    | _ => match s with b :: rest => if bool_decide (b = "0"%byte) then (8, rest) else (10, s) | [] => (10, s) end
    end in
  if bool_decide (s = []) then None
  else
    n ← digits base (2 ^ 64 - 1) rest 0;
    if bool_decide ("_"%byte ∈ s) && negb (underscoreOK s) then None else Some n.

(** strconv.ParseInt(s, 0, 64) *)
Definition ParseInt0 (s : bytes) : option Z :=
  let '(neg, rest) :=
    match s with
    | b :: rest => if bool_decide (b = "-"%byte) then (true, rest)
                   else if bool_decide (b = "+"%byte) then (false, rest) else (false, s)
    | [] => (false, s)
    end in
  un ← ParseUint0 rest;
  if neg then (if un <=? 2 ^ 63 then Some (- un) else None)
  else if un <? 2 ^ 63 then Some un else None.

(** strconv.ParseBool *)
Definition ParseBool (s : bytes) : option bool :=
  if bool_decide (s ∈ [str "1"; str "t"; str "T"; str "TRUE"; str "true"; str "True"]) then Some true
  else if bool_decide (s ∈ [str "0"; str "f"; str "F"; str "FALSE"; str "false"; str "False"]) then Some false
  else None.

(** * Package flag *)

Inductive kind := KString | KBool | KUint | KInt | KDuration.
#[export] Instance kind_eq_dec : EqDecision kind.
Proof. solve_decision. Defined.
Record flag := mkFlag { f_name : bytes; f_kind : kind }.
Inductive parse_error :=
| ErrHelp | BadSyntax (arg : bytes) | NotDefined (name : bytes) | NeedsArgument (name : bytes) | InvalidValue (name value : bytes).
(** ExitOnError *)
Definition exit_status (e : parse_error) : Z := match e with ErrHelp => 0 | _ => 2 end.

Section Parse.
Variable ParseDuration : bytes -> option Z.       (* time.ParseDuration *)

Definition valid (k : kind) (v : bytes) : bool :=
  match k with
  | KString => true
  | KBool => bool_decide (is_Some (ParseBool v))
  | KUint => bool_decide (is_Some (ParseUint0 v))
  | KInt => bool_decide (is_Some (ParseInt0 v))
  | KDuration => bool_decide (is_Some (ParseDuration v))
  end.

Definition formal (fs : list flag) (name : bytes) : option flag := List.find (fun f => bool_decide (f_name f = name)) fs.

(** The name of a flag, without one dash or two. *)
Definition flag_name (s : bytes) : bytes :=
  match s with a :: b :: rest => if Byte.eqb b Cli.dash then rest else b :: rest | _ => [] end.
Definition bad_name (name : bytes) : bool :=
  match name with [] => true | b :: _ => Byte.eqb b Cli.dash || Byte.eqb b "="%byte end.

(** The loop of FlagSet.Parse, over parseOne. *)
Fixpoint Parse (fs : list flag) (args : list bytes) : go parse_error (list (bytes * bytes) * list bytes) :=
  match args with
  | [] => Ret ([], [])
  | s :: rest =>
      if negb (Cli.is_flag s) then Ret ([], args)
      else if bool_decide (s = str "--") then Ret ([], rest)
      else
        let name := flag_name s in
        if bad_name name then Err (BadSyntax s)
        else
          let '(name, value) := match Cut name "=" with Some (k, v) => (k, Some v) | None => (name, None) end in
          match formal fs name with
          | None => if bool_decide (name ∈ [str "help"; str "h"]) then Err ErrHelp else Err (NotDefined name)
          | Some f =>
              match f_kind f, value with
              | KBool, None => '(vs, pos) ← Parse fs rest; mret ((name, str "true") :: vs, pos)
              | k, Some v =>
                  if valid k v then '(vs, pos) ← Parse fs rest; mret ((name, v) :: vs, pos) else Err (InvalidValue name v)
              | k, None =>
                  match rest with
                  | v :: rest => if valid k v then '(vs, pos) ← Parse fs rest; mret ((name, v) :: vs, pos)
                                 else Err (InvalidValue name v)
                  | [] => Err (NeedsArgument name)
                  end
              end
          end
  end.

(** [_ = fs.Parse(reorder(args, boolFlags...))] *)
Definition parse_line (fs : list flag) (boolFlags args : list bytes) := Parse fs (Cli.reorder args boolFlags).

(** The value a flag ends with: its last assignment, or its default. *)
Definition last_value (name def : bytes) (vs : list (bytes * bytes)) : bytes :=
  match List.find (fun p => bool_decide (p.1 = name)) (rev vs) with Some p => p.2 | None => def end.

(** * Flags anywhere on the line *)

(** What a user types: a positional argument, a flag and its value in two words or
    in one, a switch; with one dash or two. *)
Inductive item :=
| Positional (a : bytes)
| Separate (double : bool) (name value : bytes)
| Joined (double : bool) (name value : bytes)
| Switch (double : bool) (name : bytes).
Definition dashes (double : bool) : bytes := if double then str "--" else str "-".
Definition render (i : item) : list bytes :=
  match i with
  | Positional a => [a]
  | Separate d n v => [dashes d ++ n; v]
  | Joined d n v => [dashes d ++ n ++ str "=" ++ v]
  | Switch d n => [dashes d ++ n]
  end.
Definition assignment (i : item) : list (bytes * bytes) :=
  match i with Positional _ => [] | Separate _ n v | Joined _ n v => [(n, v)] | Switch _ n => [(n, str "true")] end.
Definition positional (i : item) : list bytes := match i with Positional a => [a] | _ => [] end.

(** The name is a declared flag's, without a leading dash or "=", and its value parses. *)
Definition good_name (n : bytes) : Prop := (exists b rest, n = b :: rest /\ b <> "-"%byte) /\ "="%byte ∉ n.
Definition item_ok (fs : list flag) (i : item) : Prop :=
  match i with
  | Positional a => Cli.is_flag a = false
  | Separate _ n v => good_name n /\ exists k, formal fs n = Some (mkFlag n k) /\ k <> KBool /\ valid k v = true
  | Joined _ n v => good_name n /\ exists k, formal fs n = Some (mkFlag n k) /\ valid k v = true
  | Switch _ n => good_name n /\ formal fs n = Some (mkFlag n KBool)
  end.
(** The switches the tool names to reorder are the boolean flags it declares. *)
Definition switches_ok (fs : list flag) (boolFlags : list bytes) : Prop :=
  forall n k, formal fs n = Some (mkFlag n k) -> (n ∈ boolFlags <-> k = KBool).

Definition flag_words (i : item) : list bytes := match i with Positional _ => [] | _ => render i end.

Lemma good_name_app d n v : good_name n -> Cli.is_flag (dashes d ++ n ++ v) = true /\ flag_name (dashes d ++ n ++ v) = n ++ v
  /\ bad_name (n ++ v) = false /\ dashes d ++ n ++ v <> str "--" /\ Cli.trim_dashes (dashes d ++ n ++ v) = n ++ v.
Proof.
  intros [(b & rest & -> & Hb) Heq].
  assert (Byte.eqb b Cli.dash = false) as Hd by (by apply byte_eqb_false).
  assert (Byte.eqb b "="%byte = false) as He by (apply byte_eqb_false; set_solver).
  destruct d; cbn; rewrite ?Hd, ?He; repeat split; try done; congruence.
Qed.

Lemma good_name_flag d n : good_name n -> Cli.is_flag (dashes d ++ n) = true /\ flag_name (dashes d ++ n) = n
  /\ bad_name n = false /\ dashes d ++ n <> str "--" /\ Cli.trim_dashes (dashes d ++ n) = n.
Proof. intros H. pose proof (good_name_app d n [] H) as Hn. by rewrite !app_nil_r in Hn. Qed.

Lemma Cut_none n : "="%byte ∉ n -> Cut n "=" = None.
Proof.
  intros H. destruct (Cut n "=") as [[k v]|] eqn:E; [|done]. apply Cut_Some in E as [-> _]. set_solver.
Qed.

Lemma no_eq_dashes d n : "="%byte ∉ n -> Net.has_byte (dashes d ++ n) "=" = false.
Proof. intros H. apply Net.has_byte_spec. destruct d; cbn; set_solver. Qed.

(** reorder keeps every flag with its value and moves the positional arguments, with
    what follows "--", behind. *)
Lemma reorder_items fs boolFlags items rest flags pos :
  switches_ok fs boolFlags -> Forall (item_ok fs) items ->
  Cli.reorder_loop boolFlags (concat (map render items) ++ match rest with Some e => str "--" :: e | None => [] end) flags pos
  = (flags ++ concat (map flag_words items), pos ++ concat (map positional items) ++ default [] rest).
Proof.
  intros Hsw Hok. revert flags pos. induction Hok as [|i items Hi _ IH]; intros flags pos.
  { cbn. destruct rest as [e|]; cbn; by rewrite ?app_nil_r. }
  assert (forall a l, Cli.is_flag a = true -> a <> str "--" -> Cli.takes_value boolFlags a = false ->
    Cli.reorder_loop boolFlags (a :: l) flags pos = Cli.reorder_loop boolFlags l (flags ++ [a]) pos) as Halone.
  { intros a l Ha Hn Ht. cbn [Cli.reorder_loop]. rewrite bool_decide_eq_false_2, Ha by done. destruct l; [done|by rewrite Ht]. }
  destruct i as [a|d n v|d n v|d n]; cbn [item_ok] in Hi; cbn [map render flag_words positional concat app].
  - cbn [Cli.reorder_loop]. rewrite bool_decide_eq_false_2 by (intros ->; done). rewrite Hi, IH. by rewrite <- app_assoc.
  - destruct Hi as (Hg & k & Hf & Hk & _). destruct (good_name_flag d n Hg) as (H1 & _ & _ & H2 & H3). destruct Hg as [_ Heq].
    cbn [Cli.reorder_loop]. rewrite bool_decide_eq_false_2, H1 by done. unfold Cli.takes_value.
    rewrite no_eq_dashes, H3 by done. unfold Cli.before_eq. rewrite Cut_none by done.
    rewrite bool_decide_eq_false_2 by (rewrite (Hsw _ _ Hf); done). cbn [negb andb]. rewrite IH. by rewrite <- app_assoc.
  - destruct Hi as (Hg & _). destruct (good_name_app d n (str "=" ++ v) Hg) as (H1 & _ & _ & H2 & _).
    rewrite Halone, IH; [by rewrite <- app_assoc|done..|]. unfold Cli.takes_value.
    assert (Net.has_byte (dashes d ++ n ++ str "=" ++ v) "=" = true) as ->; [|done].
    apply not_false_iff_true. rewrite Net.has_byte_spec. intros H. apply H. cbn. set_solver.
  - destruct Hi as (Hg & Hf). destruct (good_name_flag d n Hg) as (H1 & _ & _ & H2 & H3). destruct Hg as [_ Heq].
    rewrite Halone, IH; [by rewrite <- app_assoc|done..|]. unfold Cli.takes_value.
    rewrite no_eq_dashes, H3 by done. unfold Cli.before_eq. rewrite Cut_none by done.
    by rewrite bool_decide_eq_true_2 by (by rewrite (Hsw _ _ Hf)).
Qed.

Lemma Parse_flags fs items pos :
  Forall (item_ok fs) items -> match pos with a :: _ => Cli.is_flag a = false | [] => True end ->
  Parse fs (concat (map flag_words items) ++ pos) = Ret (concat (map assignment items), pos).
Proof.
  intros Hok Hpos. induction Hok as [|i items Hi _ IH].
  { cbn. destruct pos as [|a pos]; [done|]. cbn. by rewrite Hpos. }
  destruct i as [a|d n v|d n v|d n]; cbn [item_ok] in Hi; cbn [map flag_words render assignment concat app]; [exact IH|..].
  - destruct Hi as (Hg & k & Hf & Hk & Hv). destruct (good_name_flag d n Hg) as (H1 & H4 & H5 & H2 & _). destruct Hg as [_ Heq].
    cbn [Parse]. rewrite H1, bool_decide_eq_false_2, H4, H5, Cut_none, Hf by done. cbn [negb f_kind].
    destruct k; try done; by rewrite Hv, IH.
  - destruct Hi as (Hg & k & Hf & Hv). destruct (good_name_app d n (str "=" ++ v) Hg) as (H1 & H4 & H5 & H2 & _). destruct Hg as [_ Heq].
    cbn [Parse]. rewrite H1, bool_decide_eq_false_2, H4, H5 by done. cbn [negb].
    change (str "=" ++ v) with ("="%byte :: v). rewrite Cut_app, Hf by done. cbn [f_kind].
    destruct k; by rewrite Hv, IH.
  - destruct Hi as (Hg & Hf). destruct (good_name_flag d n Hg) as (H1 & H4 & H5 & H2 & _). destruct Hg as [_ Heq].
    cbn [Parse]. rewrite H1, bool_decide_eq_false_2, H4, H5, Cut_none, Hf by done. cbn [negb f_kind]. by rewrite IH.
Qed.

Lemma parse_line_items fs boolFlags items rest :
  switches_ok fs boolFlags -> Forall (item_ok fs) items ->
  let pos := concat (map positional items) ++ default [] rest in
  match pos with a :: _ => Cli.is_flag a = false | [] => True end ->
  parse_line fs boolFlags (concat (map render items) ++ match rest with Some e => str "--" :: e | None => [] end)
  = Ret (concat (map assignment items), pos).
Proof.
  intros Hsw Hok pos Hpos. unfold parse_line, Cli.reorder.
  rewrite (reorder_items fs) by done. cbn [app]. by apply Parse_flags.
Qed.

(** "--" is lost in the reordering: an argument it was to protect is parsed as a flag
    when no positional argument stands before it. *)
Theorem terminator_lost : parse_line [] [] [str "--"; str "-page.html"] = Err (NotDefined (str "page.html")).
Proof. reflexivity. Qed.

(** A decimal without a leading zero is what --ttl and --bt-port read. *)
Lemma digits_decimal s n max :
  forallb is_digit s = true -> 0 <= n -> fold_left (fun acc x => acc * 10 + (b2z x - 48)) s n <= max ->
  digits 10 max s n = Some (fold_left (fun acc x => acc * 10 + (b2z x - 48)) s n).
Proof.
  revert n. induction s as [|b s IH]; intros n Hd Hn Hm; [done|]. cbn [forallb] in Hd. apply andb_true_iff in Hd as [Hb Hs].
  assert (digit_value b = Some (b2z b - 48) /\ b <> "_"%byte /\ 0 <= b2z b - 48 < 10) as (Hv & Hne & Hr).
  { clear -Hb. destruct b; try done; by vm_compute. }
  cbn [digits fold_left] in *. rewrite bool_decide_eq_false_2, Hv by done. rewrite (proj2 (Z.leb_gt _ _)) by lia.
  assert (forall l m, 0 <= m -> forallb is_digit l = true -> m <= fold_left (fun acc x => acc * 10 + (b2z x - 48)) l m) as Hmono.
  { clear. induction l as [|b l IH]; intros m Hm Hl; [done|]. cbn [forallb fold_left] in *. apply andb_true_iff in Hl as [Hb Hl].
    assert (0 <= b2z b - 48) by (destruct b; try done; by vm_compute). etrans; [|apply IH; [lia|done]]. lia. }
  rewrite (proj2 (Z.ltb_ge _ _)) by (etrans; [apply Hmono; [lia|exact Hs]|exact Hm]). apply IH; [done|lia|exact Hm].
Qed.

Lemma dec_digits_lead fuel n :
  0 < n < 10 ^ Z.of_nat fuel -> exists b s, dec_digits fuel n = b :: s /\ b <> "0"%byte.
Proof.
  revert n. induction fuel as [|f IH]; intros n Hn; [cbn in Hn; lia|]. cbn [dec_digits].
  rewrite Nat2Z.inj_succ, Z.pow_succ_r in Hn by lia. destruct (Z.ltb_spec n 10).
  - exists (digit n), []. split; [done|]. intros Hd. apply (f_equal b2z) in Hd. rewrite digit_b2z in Hd by lia. cbn in Hd. lia.
  - destruct (IH (n / 10)) as (b & s & -> & Hb); [split; [apply Z.div_str_pos; lia|apply Z.div_lt_upper_bound; lia]|].
    by eexists _, _.
Qed.

Theorem ParseUint0_Itoa n : 0 <= n < 2 ^ 63 -> ParseUint0 (Itoa n) = Some n.
Proof.
  intros Hn. destruct (decide (n = 0)) as [->|Hz]; [reflexivity|]. unfold Itoa. rewrite (proj2 (Z.ltb_ge _ _)) by lia.
  destruct (dec_digits_lead 19 n) as (b & s & E & Hb); [change (10 ^ Z.of_nat 19) with 10000000000000000000; lia|].
  destruct (dec_digits_ok 19 n) as (_ & Hd & Hp); [change (10 ^ Z.of_nat 19) with 10000000000000000000; lia|lia|].
  rewrite E in *. unfold ParseUint0. assert (base_prefix (b :: s) = None) as ->.
  { unfold base_prefix. destruct s; [done|]. by rewrite bool_decide_eq_false_2. }
  rewrite !bool_decide_eq_false_2 by done. unfold parse_digits in Hp.
  rewrite digits_decimal by (rewrite ?Hp; done || lia). cbn [mbind option_bind]. rewrite Hp.
  rewrite bool_decide_eq_false_2; [done|]. apply forallb_True_eq in Hd. rewrite Forall_forall in Hd. by intros Hi%Hd.
Qed.
End Parse.
End Flags.
