(* ===== verification/Lookup.v ===== *)
(** The verifying client ddns-lookup (src/resolver/cmd/ddns-lookup/main.go).

    A run is what the tool prints and its exit status; a nil dereference is
    [None] instead of a status. The network (the HTTP answer, the registry
    contract, the chain it cross-checks against) and JSON decoding are
    parameters. *)
From S2P Require Import Prelude GoStrings Net Encoding Query Chain Cache Pki Zk Handle Cli.
Import Chain.

Local Open Scope Z_scope.

Module Lookup.

(** type resolveResponse struct of the client *)
Record resolveResponse := mkResponse {
  Found : bool; Error : bytes; rp_Record : option Handle.recordJSON; rp_Owner : bytes; rp_PubKey : bytes;
  OwnerSigVerified : bool; rp_ZKProof : bytes; Cached : bool }.

(** What json decodes from the server's response. *)
Definition client_view (r : Handle.resolveResponse_t) : resolveResponse :=
  mkResponse (Handle.rr_Found r) (Handle.rr_Error r) (Handle.rr_Record r) (Handle.rr_Owner r) (Handle.rr_PubKey r)
    (Handle.rr_OwnerSigVerified r) (Handle.rr_ZKProof r) (Handle.rr_Cached r).

(** The uint32 and uint64 fields of the record hold values of their widths. *)
Definition response_wf (r : resolveResponse) : Prop :=
  forall rj, rp_Record r = Some rj -> 0 <= Handle.rj_TTL rj < 2 ^ 32 /\ 0 <= Handle.rj_Generation rj < 2 ^ 64.

Inductive lookup_error :=
| BadPubKeyEncoding | BadOwnerSigEncoding | BadCommitmentEncoding | BadProofEncoding
| SigErr (e : Pki.sig_error) | ZkErr (e : Zk.zk_error)
| Withheld | NotOnChain | OwnerDiffers | PubKeyDiffers | CommitmentDiffers | OwnerSigDiffers | BodyDiffers
| NoNamespace | DialFailed | ChainErr.

(** The lines the tool prints. *)
Inductive line :=
| LDiscovered (endpoint key : bytes) | LUsage
| LResolver (key : bytes) | LQuery (q : Query.Query) | LCached (c : bool) | LNoMatch (e : bytes)
| LOwner (owner : bytes) | LRecord (text : bytes)
| LOwnerSigInvalid (e : lookup_error) | LOwnerSigOK
| LOnChainMismatch (e : lookup_error) | LOnChainOK (found : bool)
| LZKNone | LZKInvalid (e : lookup_error) | LZKOK.

(** A run: the output and the exit status. *)
Definition run : Type := list line * option Z.
Definition exit (code : Z) : run := ([], Some code).
Definition crash : run := ([], None).
Definition say (l : line) (r : run) : run := (l :: r.1, r.2).

(** formatRecord *)
Fixpoint format_fields (names vals : list bytes) : bytes :=
  match names with
  | [] => []
  | n :: names => str " " ++ n ++ str "=" ++ default [] (head vals) ++ format_fields names (tail vals)
  end.
Definition formatRecord (r : Handle.recordJSON) : bytes :=
  Handle.rj_Type r ++ (if bool_decide (Handle.rj_Selector r = []) then [] else str " [" ++ Handle.rj_Selector r ++ str "]")
  ++ format_fields (Handle.rj_FieldNames r) (Handle.rj_FieldValues r)
  ++ str " (ttl=" ++ Itoa (Handle.rj_TTL r) ++ str "s)".

Definition orDefault (s def : bytes) : bytes := if bool_decide (s = []) then def else s.

(** A line is among the lines printed. *)
Ltac printed := repeat first [apply list_elem_of_here | apply list_elem_of_further].

Section Client.
Context {UC : UnicodeCase} {HX : Hexutil}.
Context {SP : Pki.SortPairs} {Priv Pub : Type} {EC : Pki.EthCrypto Priv Pub} {EdPriv : Type} {ED : Pki.Ed25519 EdPriv}.
Context {St : Type} {MI : Zk.Mimc St} {CCS PK VK Wit PubWit : Type} {GR : Zk.Groth16 CCS PK VK Wit PubWit}.
Context {W Er : Type} {CR : ChainReader W Er}.
Variable artifact : bytes -> option bytes.
Variable HexToAddress : bytes -> address.

(** recordFromResponse *)
Definition commitment_of (s : bytes) : go lookup_error bytes :=
  if bool_decide (s = []) then Ret zero_hash
  else match hexutil_Decode s with
       | Some cb => if Nat.eqb (length cb) 32 then Ret cb else Err BadCommitmentEncoding
       | None => Err BadCommitmentEncoding
       end.
Definition recordFromResponse (resp : resolveResponse) : go lookup_error Record :=
  rj ← or_panic (rp_Record resp);
  match hexutil_Decode (Handle.rj_OwnerSig rj) with
  | None => Err BadOwnerSigEncoding
  | Some sig =>
      com ← commitment_of (Handle.rj_Commitment rj);
      mret (mkRecord (Handle.rj_Type rj) (Handle.rj_Selector rj) (Handle.rj_FieldNames rj) (Handle.rj_FieldValues rj)
              (Handle.rj_TTL rj) (Handle.rj_Generation rj) sig com false)
  end.

Definition verifyOwnerSig (name : bytes) (resp : resolveResponse) : go lookup_error () :=
  match hexutil_Decode (rp_PubKey resp) with
  | None => Err BadPubKeyEncoding
  | Some pubKey =>
      rec ← recordFromResponse resp;
      map_err SigErr (Pki.VerifyOwnerSig name rec (HexToAddress (rp_Owner resp)) pubKey)
  end.

Definition diffAgainstChain (onchain : ResolveResult) (q : Query.Query) (resp : resolveResponse) : go lookup_error () :=
  if negb (Found resp) then if Exists (RR_Record onchain) then Err Withheld else Ret ()
  else if negb (Exists (RR_Record onchain)) then Err NotOnChain
  else
    respRec ← recordFromResponse resp;
    if negb (bool_decide (Owner onchain = HexToAddress (rp_Owner resp))) then Err OwnerDiffers
    else match hexutil_Decode (rp_PubKey resp) with
    | None => Err BadPubKeyEncoding
    | Some respPub =>
        if negb (bool_decide (PubKey onchain = respPub)) then Err PubKeyDiffers
        else if negb (bool_decide (Commitment (RR_Record onchain) = Commitment respRec)) then Err CommitmentDiffers
        else if negb (bool_decide (OwnerSig (RR_Record onchain) = OwnerSig respRec)) then Err OwnerSigDiffers
        else
          m1 ← Pki.RecordMessage (Query.Name q) (RR_Record onchain);
          m2 ← Pki.RecordMessage (Query.Name q) respRec;
          if negb (bool_decide (m1 = m2)) then Err BodyDiffers else Ret ()
    end.

(** compareOnChain: [ns] is namespaceAddr's answer, [dialed] the outcome of Dial. *)
Definition compareOnChain (ns : address) (dialed : option W) (q : Query.Query) (resp : resolveResponse) : go lookup_error () :=
  if bool_decide (ns = zero_address) then Err NoNamespace
  else match dialed with
  | None => Err DialFailed
  | Some w =>
      match (cr_Resolve (Query.Name q) (Query.Type_ q) (Query.Selector q) w).1 with
      | inr _ => Err ChainErr
      | inl onchain => diffAgainstChain onchain q resp
      end
  end.

(** crossCheck; [k] is what runs if it does not exit. *)
Definition crossCheck (ns : address) (dialed : option W) (q : Query.Query) (resp : resolveResponse) (k : run) : run :=
  match compareOnChain ns dialed q resp with
  | Err e => say (LOnChainMismatch e) (exit 1)
  | Panic => crash
  | Ret _ => say (LOnChainOK (Found resp)) k
  end.

Definition verifyZK (resp : resolveResponse) : go lookup_error () :=
  rj ← or_panic (rp_Record resp);
  match hexutil_Decode (Handle.rj_Commitment rj) with
  | Some com =>
      if negb (Nat.eqb (length com) 32) then Err BadCommitmentEncoding
      else match hexutil_Decode (rp_ZKProof resp) with
      | None => Err BadProofEncoding
      | Some calldata =>
          proof ← map_err ZkErr (Zk.ProofFromSolidityCalldata calldata);
          map_err ZkErr (Zk.Verify artifact proof com)
      end
  | None => Err BadCommitmentEncoding
  end.

(** discoverResolver: [rr] is resolverRegistryAddr's answer, [active] what dialling
    and ActiveResolvers return (operators, endpoints, keys). *)
Definition discoverResolver (rr : address) (active : option (list address * list bytes * list bytes)) :
    go () (bytes * bytes) :=
  if bool_decide (rr = zero_address) then Err ()
  else match active with
  | None => Err ()
  | Some (operators, endpoints, keys) =>
      match operators with
      | [] => Err ()
      | _ :: _ =>
          endpoint ← or_panic (head endpoints);
          key ← or_panic (head keys);
          mret (endpoint, hexutil_Encode key)
      end
  end.

(** The environment of a run. *)
Record env := mkEnv {
  discover : bool; resolver_flag : bytes; args : list bytes; selector : bytes;
  rr_addr : address; active : option (list address * list bytes * list bytes);
  http_get : bytes -> Query.Query -> option bytes;       (* the body, if the request and the read succeed *)
  ns_addr : address; dialed : option W;
}.
Variable unmarshal_envelope : bytes -> option Pki.Envelope.
Variable unmarshal_response : bytes -> option resolveResponse.

(** main from the check of the answer on. *)
Definition check_answer (e : env) (q : Query.Query) (resp : resolveResponse) : run :=
  let cross k := if discover e then crossCheck (ns_addr e) (dialed e) q resp k else k in
  if negb (Found resp) then say (LNoMatch (orDefault (Error resp) (str "no_match"))) (cross (exit 0))
  else
    say (LOwner (rp_Owner resp))
    match rp_Record resp with
    | None => crash
    | Some rj =>
        say (LRecord (formatRecord rj))
        match verifyOwnerSig (Query.Name q) resp with
        | Panic => crash
        | Err x => say (LOwnerSigInvalid x) (exit 1)
        | Ret _ =>
            say LOwnerSigOK (cross
              (if bool_decide (rp_ZKProof resp = []) then say LZKNone (exit 0)
               else match verifyZK resp with
                    | Panic => crash
                    | Err x => say (LZKInvalid x) (exit 1)
                    | Ret _ => say LZKOK (exit 0)
                    end))
        end
    end.

(** main from the response body on; [pinned] is "" without discovery. *)
Definition check_body (e : env) (pinned : bytes) (q : Query.Query) (raw : bytes) : run :=
  match unmarshal_envelope raw with
  | None => exit 1
  | Some envl =>
      match Pki.VerifyEnvelope envl with
      | Panic => crash
      | Err _ => exit 1
      | Ret _ =>
          if negb (bool_decide (pinned = [])) && negb (Net.EqualFold (Pki.Resolver envl) pinned) then exit 1
          else match unmarshal_response (Pki.Data envl) with
          | None => exit 1
          | Some resp =>
              say (LResolver (Pki.Resolver envl)) (say (LQuery q) (say (LCached (Cached resp)) (check_answer e q resp)))
          end
      end
  end.

(** main *)
Definition lookup (e : env) : run :=
  let go_on (resolver pinned : bytes) : run :=
    match args e with
    | [name; typ] =>
        match Query.ParsePairs (selector e) with
        | Ret pairs =>
            match Query.New name typ pairs with
            | Ret q => match http_get e resolver q with None => exit 1 | Some raw => check_body e pinned q raw end
            | Err _ => exit 1
            | Panic => crash
            end
        | Err _ => exit 1
        | Panic => crash
        end
    | _ => say LUsage (exit 2)
    end in
  if discover e then
    match discoverResolver (rr_addr e) (active e) with
    | Err _ => exit 1
    | Panic => crash
    | Ret (endpoint, key) => say (LDiscovered endpoint key) (go_on endpoint key)
    end
  else go_on (resolver_flag e) [].

(** * A resolver cannot lie to a discovering client *)
Context {SPL : Pki.SortPairsLaws} {HXL : HexutilLaws}.

(** The contract's records: widths, as many values as names, a message shorter
    than 64 KiB. *)
Definition record_bounded (name : bytes) (r : Record) : Prop :=
  record_wf r /\ length (FieldNames r) = length (FieldVals r)
  /\ Z.of_nat (length (Pki.message_of name r (Pki.sort_pairs (Pki.fields r)))) < 2 ^ 16.

(** A message shorter than 64 KiB leaves no room for a string whose length prefix
    would wrap around. *)
Lemma field_bytes_fit ps :
  Z.of_nat (length (concat (map Pki.field_bytes ps))) < 2 ^ 16 ->
  Forall (fun p => fits 2 p.1 /\ fits 2 p.2) ps /\ (4 * length ps <= length (concat (map Pki.field_bytes ps)))%nat.
Proof.
  induction ps as [|[k v] ps IH]; cbn [map concat]; [by split; [constructor|cbn; lia]|].
  rewrite length_app. unfold Pki.field_bytes at 1 3. cbn [fst snd]. rewrite length_app, !writeStr_length. intros H.
  destruct IH as [IHf IHl]; [lia|]. split; [|cbn [length]; lia].
  constructor; [|done]. unfold fits. cbn [fst snd]. change (256 ^ Z.of_nat 2) with (2 ^ 16). lia.
Qed.

Lemma short_message_encodable name r :
  record_wf r -> length (FieldNames r) = length (FieldVals r) ->
  Z.of_nat (length (Pki.message_of name r (Pki.sort_pairs (Pki.fields r)))) < 2 ^ 16 -> Pki.encodable name r.
Proof.
  intros Hwf Hl Hm. unfold Pki.message_of in Hm. rewrite !length_app, !writeStr_length, !be_bytes_length in Hm.
  destruct (field_bytes_fit (Pki.sort_pairs (Pki.fields r))) as [Hf Hn]; [lia|].
  pose proof (Permutation_length (Pki.sort_pairs_perm (Pki.fields r))) as Hp. rewrite Pki.sort_pairs_perm in Hf.
  unfold Pki.fields in Hf. unfold Pki.fields in Hp at 2. rewrite length_zip in Hp.
  unfold Pki.encodable, fits at 1 2 3. change (256 ^ Z.of_nat 2) with (2 ^ 16).
  do 3 (split; [lia|]). split; [done|]. rewrite Forall_forall in Hf.
  split; [|split; [|lia]]; apply Forall_forall; intros x [i Hx]%list_elem_of_lookup.
  - destruct (lookup_lt_is_Some_2 (FieldVals r) i) as [y Hy]; [apply lookup_lt_Some in Hx; lia|].
    apply (Hf (x, y)). apply list_elem_of_lookup. exists i. apply lookup_zip_Some. done.
  - destruct (lookup_lt_is_Some_2 (FieldNames r) i) as [y Hy]; [apply lookup_lt_Some in Hx; lia|].
    apply (Hf (y, x)). apply list_elem_of_lookup. exists i. apply lookup_zip_Some. done.
Qed.

(** What the comparison with the chain establishes for a positive answer. *)
Lemma diffAgainstChain_found on q resp :
  diffAgainstChain on q resp = Ret () -> Found resp = true ->
  exists rec m, recordFromResponse resp = Ret rec /\ Exists (RR_Record on) = true
    /\ Owner on = HexToAddress (rp_Owner resp) /\ hexutil_Decode (rp_PubKey resp) = Some (PubKey on)
    /\ Commitment rec = Commitment (RR_Record on) /\ OwnerSig rec = OwnerSig (RR_Record on)
    /\ Pki.RecordMessage (E := lookup_error) (Query.Name q) (RR_Record on) = Ret m
    /\ Pki.RecordMessage (E := lookup_error) (Query.Name q) rec = Ret m.
Proof.
  unfold diffAgainstChain. intros H Hf. rewrite Hf in H. cbn [negb] in H.
  destruct (Exists (RR_Record on)); cbn [negb] in H; [|done].
  apply go_bind_ret in H as (rec & Hrec & H). case_bool_decide as Ho; cbn [negb] in H; [|done].
  destruct (hexutil_Decode _) as [pk|]; [|done]. case_bool_decide as Hp; cbn [negb] in H; [|done].
  case_bool_decide as Hc; cbn [negb] in H; [|done]. case_bool_decide as Hs; cbn [negb] in H; [|done].
  apply go_bind_ret in H as (m1 & H1 & (m2 & H2 & H)%go_bind_ret).
  case_bool_decide as Hm; cbn [negb] in H; [|done]. subst. by exists rec, m2.
Qed.

Lemma recordFromResponse_fields resp rj rec :
  rp_Record resp = Some rj -> recordFromResponse resp = Ret rec ->
  Type_ rec = Handle.rj_Type rj /\ Selector rec = Handle.rj_Selector rj /\ TTL rec = Handle.rj_TTL rj
  /\ Generation rec = Handle.rj_Generation rj /\ FieldNames rec = Handle.rj_FieldNames rj
  /\ FieldVals rec = Handle.rj_FieldValues rj /\ length (Commitment rec) = 32%nat.
Proof.
  unfold recordFromResponse. intros ->. cbn. destruct (hexutil_Decode _) as [sig|]; [|done].
  intros (com & Hc & [= <-])%go_bind_ret. cbn. do 6 (split; [done|]). unfold commitment_of in Hc.
  case_bool_decide; [by injection Hc as <-|]. destruct (hexutil_Decode _) as [cb|]; [|done].
  destruct (Nat.eqb_spec (length cb) 32); [|done]. by injection Hc as <-.
Qed.

(** The record printed by the client is the one on the chain. *)
Definition shows (rj : Handle.recordJSON) (r : Record) : Prop :=
  Handle.rj_Type rj = Type_ r /\ Handle.rj_Selector rj = Selector r /\ Handle.rj_TTL rj = TTL r
  /\ Handle.rj_Generation rj = Generation r
  /\ zip (Handle.rj_FieldNames rj) (Handle.rj_FieldValues rj) ≡ₚ Pki.fields r.

Lemma verified_answer_shows on q resp rj :
  response_wf resp -> (Exists (RR_Record on) = true -> record_bounded (Query.Name q) (RR_Record on)) ->
  Found resp = true -> rp_Record resp = Some rj ->
  verifyOwnerSig (Query.Name q) resp = Ret () -> diffAgainstChain on q resp = Ret () ->
  shows rj (RR_Record on)
  /\ Pki.VerifyOwnerSig (Query.Name q) (RR_Record on) (Owner on) (PubKey on) = Ret ().
Proof.
  intros Hwf Hb Hf Hrj Hv Hd. destruct (diffAgainstChain_found _ _ _ Hd Hf) as (rec & m & Hr & Hex & Ho & Hpk & _ & Hs & H1 & H2).
  destruct (recordFromResponse_fields _ _ _ Hrj Hr) as (Ht & Hsel & Httl & Hgen & Hfn & Hfv & Hcl).
  unfold verifyOwnerSig in Hv. rewrite Hpk, Hr in Hv. cbn in Hv. rewrite <- Ho in Hv.
  pose proof (Pki.VerifyOwnerSig_spec (Query.Name q) rec (Owner on) (PubKey on)) as Hspec.
  destruct (Pki.VerifyOwnerSig (Query.Name q) rec _ _) as [[]| |]; [|done..].
  destruct Hspec as (Hl & Hsl & pub & Hpub & Hk). destruct (Hb Hex) as (Hon & Honl & Honm).
  pose proof H1 as [_ Hm1]%Pki.RecordMessage_Ret. pose proof H2 as [_ Hm2]%Pki.RecordMessage_Ret. subst m.
  split.
  - destruct (Pki.RecordMessage_inj (E := lookup_error) (Query.Name q) rec (Query.Name q) (RR_Record on)
      (Pki.message_of (Query.Name q) (RR_Record on) (Pki.sort_pairs (Pki.fields (RR_Record on))))) as (_ & T & S & TT & G & F);
      [| |exact H2|exact H1|].
    + apply short_message_encodable; [|done|congruence]. destruct (Hwf _ Hrj) as [? ?]. unfold record_wf.
      rewrite Httl, Hgen. done.
    + by apply short_message_encodable.
    + unfold shows. rewrite <- Ht, <- Hsel, <- Httl, <- Hgen, <- Hfn, <- Hfv. done.
  - pose proof (Pki.VerifyOwnerSig_spec (Query.Name q) (RR_Record on) (Owner on) (PubKey on)) as Hspec.
    assert (Pki.sig_ok (Query.Name q) (RR_Record on) (Owner on) (PubKey on)) as Hok.
    { split; [done|]. rewrite <- Hs. split; [done|]. exists pub. rewrite Hm2. done. }
    destruct (Pki.VerifyOwnerSig _ _ _ _) as [[]| |]; done.
Qed.

Lemma crossCheck_ok ns d q resp k :
  (crossCheck ns d q resp k).2 = Some 0 ->
  exists w on, d = Some w /\ (cr_Resolve (Query.Name q) (Query.Type_ q) (Query.Selector q) w).1 = inl on
    /\ diffAgainstChain on q resp = Ret () /\ k.2 = Some 0 /\ (crossCheck ns d q resp k).1 = LOnChainOK (Found resp) :: k.1.
Proof.
  unfold crossCheck, compareOnChain. case_bool_decide as Hns; [done|]. destruct d as [w|]; [|done].
  destruct (cr_Resolve _ _ _ w).1 as [on|x] eqn:Eon; [|done].
  destruct (diffAgainstChain on q resp) as [[]| |] eqn:Ed; [|done..]. intros H. exists w, on. done.
Qed.

(** What a discovering client has established when it exits with status 0: it
    printed the answer [on] of the chain. *)
Definition answer_shown (q : Query.Query) (on : ResolveResult) (lines : list line) : Prop :=
  if Exists (RR_Record on)
  then exists owner rj, LOwner owner ∈ lines /\ HexToAddress owner = Owner on
         /\ LRecord (formatRecord rj) ∈ lines /\ shows rj (RR_Record on)
         /\ Pki.VerifyOwnerSig (Query.Name q) (RR_Record on) (Owner on) (PubKey on) = Ret ()
         /\ (LZKOK ∈ lines -> exists proof, Zk.Verify artifact proof (Commitment (RR_Record on)) = Ret ())
  else forall text, LRecord text ∉ lines.
Definition answer_true (q : Query.Query) (w : W) (lines : list line) : Prop :=
  exists on, (cr_Resolve (Query.Name q) (Query.Type_ q) (Query.Selector q) w).1 = inl on /\ answer_shown q on lines.

Lemma verifyZK_onchain resp rec on :
  recordFromResponse resp = Ret rec -> Commitment rec = Commitment (RR_Record on) -> verifyZK resp = Ret () ->
  exists proof, Zk.Verify artifact proof (Commitment (RR_Record on)) = Ret ().
Proof.
  unfold verifyZK, recordFromResponse. destruct (rp_Record resp) as [rj|]; [|done]. cbn.
  destruct (hexutil_Decode (Handle.rj_OwnerSig rj)) as [sig|]; [|done].
  intros (com & Hc & [= <-])%go_bind_ret. cbn. intros <-. unfold commitment_of in Hc.
  case_bool_decide as He; [rewrite He, hexutil_Decode_empty; done|].
  destruct (hexutil_Decode (Handle.rj_Commitment rj)) as [cb|]; [|done].
  destruct (Nat.eqb (length cb) 32); [|done]. injection Hc as ->. cbn [negb].
  destruct (hexutil_Decode (rp_ZKProof resp)) as [cd|]; [|done].
  intros (proof & _ & H)%go_bind_ret. exists proof. by destruct (Zk.Verify artifact proof com) as [[]| |].
Qed.

(** The decoder respects the widths. *)
Hypothesis unmarshal_wf : forall data r, unmarshal_response data = Some r -> response_wf r.
(** What the chain the client dialed holds for a query is bounded. *)
Definition dialed_bounded (e : env) (q : Query.Query) : Prop := forall w on,
  dialed e = Some w -> (cr_Resolve (Query.Name q) (Query.Type_ q) (Query.Selector q) w).1 = inl on ->
  Exists (RR_Record on) = true -> record_bounded (Query.Name q) (RR_Record on).

Lemma check_answer_true e q resp :
  dialed_bounded e q -> discover e = true -> response_wf resp -> (check_answer e q resp).2 = Some 0 ->
  exists w, dialed e = Some w /\ answer_true q w (check_answer e q resp).1.
Proof.
  intros Hb Hd Hwf. unfold check_answer. rewrite Hd. destruct (Found resp) eqn:Ef; cbn [negb].
  - destruct (rp_Record resp) as [rj|] eqn:Erj; [|done].
    destruct (verifyOwnerSig (Query.Name q) resp) as [[]| |] eqn:Ev; [|done..]. cbn [say snd fst].
    intros (w & on & Hw & Hon & Hdiff & Hk & Hout)%crossCheck_ok. exists w. split; [done|]. exists on. split; [done|].
    destruct (verified_answer_shows on q resp rj Hwf (Hb _ _ Hw Hon) Ef Erj Ev Hdiff) as [Hsh Hsig].
    destruct (diffAgainstChain_found _ _ _ Hdiff Ef) as (rec & m & Hr & Hex & Ho & _ & Hc & _).
    unfold answer_shown. rewrite Hex. exists (rp_Owner resp), rj. rewrite Hout. split; [set_solver|]. split; [done|]. split; [set_solver|].
    split; [done|]. split; [done|]. intros Hz. case_bool_decide.
    + cbn in Hz. set_solver.
    + destruct (verifyZK resp) as [[]| |] eqn:Ez; [|cbn in Hk; done..]. by eapply verifyZK_onchain.
  - cbn [say snd fst]. intros (w & on & Hw & Hon & Hdiff & _ & Hout)%crossCheck_ok. exists w. split; [done|]. exists on. split; [done|].
    unfold diffAgainstChain in Hdiff. rewrite Ef in Hdiff. cbn [negb] in Hdiff.
    unfold answer_shown. destruct (Exists (RR_Record on)); [done|]. intros text. rewrite Hout. cbn. set_solver.
Qed.

Lemma answer_true_cons q w l lines :
  answer_true q w lines -> (forall t, l <> LRecord t) -> l <> LZKOK -> answer_true q w (l :: lines).
Proof.
  intros (on & Hon & H) Hr Hz. exists on. split; [done|]. unfold answer_shown in *. destruct (Exists (RR_Record on)); [|set_solver].
  destruct H as (owner & rj & H1 & H2 & H3 & H4 & H5 & H6). exists owner, rj. set_solver.
Qed.

Lemma check_body_true e pinned q raw :
  dialed_bounded e q -> discover e = true -> (check_body e pinned q raw).2 = Some 0 ->
  exists w envl, dialed e = Some w /\ answer_true q w (check_body e pinned q raw).1
    /\ Pki.VerifyEnvelope envl = Ret () /\ LResolver (Pki.Resolver envl) ∈ (check_body e pinned q raw).1
    /\ (pinned <> [] -> Net.EqualFold (Pki.Resolver envl) pinned = true).
Proof.
  intros Hb Hd. unfold check_body. destruct (unmarshal_envelope raw) as [envl|]; [|done].
  destruct (Pki.VerifyEnvelope envl) as [[]| |] eqn:Ev; [|done..].
  destruct (negb (bool_decide (pinned = [])) && negb (Net.EqualFold (Pki.Resolver envl) pinned)) eqn:Ep; [done|].
  destruct (unmarshal_response _) as [resp|] eqn:Eresp; [|done]. cbn [say fst snd]. intros H.
  destruct (check_answer_true e q resp Hb Hd (unmarshal_wf _ _ Eresp) H) as (w & Hw & Ht).
  exists w, envl. split; [done|]. split; [by do 3 (apply answer_true_cons; [|done|done])|].
  split; [done|]. split; [set_solver|]. intros Hne.
  rewrite bool_decide_eq_false_2 in Ep by done. by apply negb_false_iff in Ep.
Qed.

(** A discovering client that exits with status 0 has checked the answer of the
    resolver the registry names. *)
Lemma lookup_checked e :
  discover e = true -> (forall q, Query.ValidateName (Query.Name q) = Ret () -> dialed_bounded e q) -> (lookup e).2 = Some 0 ->
  exists endpoint key q w envl,
    discoverResolver (rr_addr e) (active e) = Ret (endpoint, key)
    /\ args e = [Query.Name q; Query.Type_ q] /\ dialed e = Some w
    /\ Pki.VerifyEnvelope envl = Ret () /\ LResolver (Pki.Resolver envl) ∈ (lookup e).1
    /\ Net.EqualFold (Pki.Resolver envl) key = true
    /\ answer_true q w (lookup e).1.
Proof.
  intros Hd Hb. unfold lookup. rewrite Hd. cbv zeta.
  destruct (discoverResolver (rr_addr e) (active e)) as [[endpoint key]| |] eqn:Edisc; [|done..]. cbn [say fst snd].
  destruct (args e) as [|name [|typ [|]]]; try done.
  destruct (Query.ParsePairs (selector e)) as [pairs| |]; [|done..].
  destruct (Query.New name typ pairs) as [q| |] eqn:Eq; [|done..].
  apply Query.New_Ret in Eq as (Hname & _ & sel & _ & ->).
  destruct (http_get e endpoint _) as [raw|]; [|done]. intros H.
  destruct (check_body_true e key _ raw (Hb (Query.mkQuery name typ sel) Hname) Hd H) as (w & envl & Hw & Ht & Hv & Hin & Hk).
  exists endpoint, key, (Query.mkQuery name typ sel), w, envl. split; [done|]. split; [done|]. split; [done|].
  split; [done|]. split; [set_solver|]. split; [|by apply answer_true_cons].
  apply Hk. unfold discoverResolver in Edisc. case_bool_decide as Hrr; [done|].
  destruct (active e) as [[[[|op ops] eps] keys]|]; try done.
  apply go_bind_ret in Edisc as (ep & _ & (k & _ & [= _ <-])%go_bind_ret). by rewrite hexutil_Encode_hex.
Qed.

(** The contract's records are bounded. *)
Hypothesis chain_bounded : forall n t sel w on,
  (cr_Resolve n t sel w).1 = inl on -> Exists (RR_Record on) = true -> record_bounded n (RR_Record on).

(** C2. Whatever bytes the resolver answers with: a client that discovered it on the
    chain and exits with status 0 got an answer signed by the key the registry
    pins, the record and the owner it printed are those of the contract, signed
    by that owner (and proved, if it said so), or the contract has no live
    record and the client printed none. *)
Theorem lookup_fails_closed e :
  discover e = true -> (lookup e).2 = Some 0 ->
  exists endpoint key q w envl,
    discoverResolver (rr_addr e) (active e) = Ret (endpoint, key)
    /\ args e = [Query.Name q; Query.Type_ q] /\ dialed e = Some w
    /\ Pki.VerifyEnvelope envl = Ret () /\ LResolver (Pki.Resolver envl) ∈ (lookup e).1
    /\ Net.EqualFold (Pki.Resolver envl) key = true
    /\ answer_true q w (lookup e).1.
Proof. intros Hd. apply lookup_checked; [done|]. intros q _ w on _ Hon. by eapply chain_bounded. Qed.

(** * An honest resolver is believed *)
Context {EDL : Pki.Ed25519Laws EdPriv}.
Variable address_Hex : address -> bytes.
Hypothesis HexToAddress_Hex : forall a, HexToAddress (address_Hex a) = a.

Definition set_Exists (b : bool) (r : Record) : Record :=
  mkRecord (Type_ r) (Selector r) (FieldNames r) (FieldVals r) (TTL r) (Generation r) (OwnerSig r) (Commitment r) b.

(** The client rebuilds the record the server described. *)
Lemma recordFromResponse_server q res :
  Handle.Found res = true -> length (Commitment (RR_Record (Handle.Result res))) = 32%nat ->
  recordFromResponse (client_view (Handle.build_response address_Hex q res))
  = Ret (set_Exists false (RR_Record (Handle.Result res))).
Proof.
  intros Hf Hc. unfold Handle.build_response. rewrite Hf. cbn -[hexutil_Decode hexutil_Encode].
  rewrite hexutil_Encode_hex, hexutil_Decode_hex. unfold commitment_of.
  rewrite bool_decide_eq_false_2 by (rewrite hexutil_Encode_hex; done).
  rewrite hexutil_Encode_hex, hexutil_Decode_hex, Hc. done.
Qed.

(** The server's answer [res] is the chain's: same record, owner and key. *)
Definition same_answer (res : Handle.QueryResult) (on : ResolveResult) : Prop :=
  if Handle.Found res
  then RR_Record on = RR_Record (Handle.Result res) /\ Owner on = Owner (Handle.Result res)
       /\ PubKey on = PubKey (Handle.Result res)
  else Exists (RR_Record on) = false.

Definition owner_signed (q : Query.Query) (res : Handle.QueryResult) : Prop :=
  Pki.VerifyOwnerSig (Query.Name q) (RR_Record (Handle.Result res)) (Owner (Handle.Result res)) (PubKey (Handle.Result res)) = Ret ().

Lemma diff_server q res on :
  same_answer res on -> length (Commitment (RR_Record (Handle.Result res))) = 32%nat ->
  (Handle.Found res = true -> owner_signed q res) ->
  diffAgainstChain on q (client_view (Handle.build_response address_Hex q res)) = Ret ().
Proof.
  intros Hs Hc Hl. unfold diffAgainstChain, same_answer in *. destruct (Handle.Found res) eqn:Ef.
  - destruct Hs as (Hr & Ho & Hp). assert (length (FieldNames (RR_Record on)) <= length (FieldVals (RR_Record on)))%nat as Hle.
    { pose proof (Pki.VerifyOwnerSig_spec (Query.Name q) (RR_Record (Handle.Result res))
        (Owner (Handle.Result res)) (PubKey (Handle.Result res))) as Hspec. rewrite (Hl eq_refl) in Hspec.
      destruct Hspec as [Hn _]. rewrite Hr. lia. }
    rewrite recordFromResponse_server by done. unfold Handle.build_response. rewrite Ef.
    cbn -[hexutil_Decode hexutil_Encode]. rewrite Hr. unfold Handle.Found in Ef. apply andb_true_iff in Ef as [-> _]. cbn -[hexutil_Decode hexutil_Encode].
    rewrite HexToAddress_Hex, Ho, bool_decide_eq_true_2 by done. cbn [negb].
    rewrite hexutil_Encode_hex, hexutil_Decode_hex, Hp. rewrite !bool_decide_eq_true_2 by done. cbn [negb].
    rewrite Hr in Hle. change (Pki.RecordMessage ?n (set_Exists false ?r)) with (Pki.RecordMessage (E := lookup_error) n r).
    rewrite (proj2 (Pki.RecordMessage_Ret (E := lookup_error) _ _ _) (conj Hle eq_refl)).
    cbn. by rewrite bool_decide_eq_true_2 by done.
  - unfold Handle.build_response. rewrite Ef. cbn. by rewrite Hs.
Qed.

Lemma verify_server q res :
  Handle.Found res = true -> length (Commitment (RR_Record (Handle.Result res))) = 32%nat ->
  owner_signed q res ->
  verifyOwnerSig (Query.Name q) (client_view (Handle.build_response address_Hex q res)) = Ret ().
Proof.
  intros Hf Hc Hv. unfold verifyOwnerSig. rewrite recordFromResponse_server by done.
  unfold Handle.build_response. rewrite Hf. cbn -[hexutil_Decode hexutil_Encode].
  rewrite hexutil_Encode_hex, hexutil_Decode_hex, HexToAddress_Hex. cbn.
  change (Pki.VerifyOwnerSig ?n (set_Exists false ?r)) with (Pki.VerifyOwnerSig n r).
  unfold owner_signed in Hv. by rewrite Hv.
Qed.

Lemma sealed_verifies {V JE} (marshal : V -> go JE bytes) (id : Pki.Identity EdPriv) v envl :
  Pki.SealEnvelope marshal id v = Ret envl -> Pki.VerifyEnvelope envl = Ret () /\ Pki.Resolver envl = Pki.PublicKeyHex id.
Proof.
  unfold Pki.SealEnvelope. intros (data & _ & [= <-])%go_bind_ret. split; [|done].
  unfold Pki.VerifyEnvelope, Pki.PublicKeyHex. cbn [Pki.Resolver Pki.Signature Pki.Data]. rewrite hexutil_Encode_hex.
  unfold Pki.PublicKeySize, Pki.EdSignatureSize, Pki.PublicKey, Pki.Sign.
  rewrite !Pki.decode_sized_hex by (apply Pki.ed_Public_length || apply Pki.ed_Sign_length). by rewrite Pki.ed_Verify_Sign.
Qed.

Lemma verifyZK_server q res proof :
  Handle.Found res = true -> length (Commitment (RR_Record (Handle.Result res))) = 32%nat ->
  ZKProof (Handle.Result res) <> [] ->
  Zk.ProofFromSolidityCalldata (ZKProof (Handle.Result res)) = Ret proof ->
  Zk.Verify artifact proof (Commitment (RR_Record (Handle.Result res))) = Ret () ->
  verifyZK (client_view (Handle.build_response address_Hex q res)) = Ret ().
Proof.
  intros Hf Hc Hne Hp Hv. unfold verifyZK, Handle.build_response. rewrite Hf. cbn -[hexutil_Decode hexutil_Encode].
  rewrite hexutil_Encode_hex, hexutil_Decode_hex, Hc. cbn [Nat.eqb negb].
  destruct (ZKProof (Handle.Result res)) as [|b p] eqn:Ez; [done|].
  rewrite hexutil_Encode_hex, hexutil_Decode_hex, Hp. cbn. by rewrite Hv.
Qed.

(** C35. A query of a client that reaches an honest resolver: the resolver vetted its
    answer, which is the chain's, and sealed it with the key the registry pins.
    The client accepts it, with every check passed. *)
Theorem lookup_accepts_honest {JE} (marshal : Handle.resolveResponse_t -> go JE bytes) (id : Pki.Identity EdPriv)
    e q pairs endpoint raw envl w res on :
  args e = [Query.Name q; Query.Type_ q] -> Query.ParsePairs (selector e) = Ret pairs ->
  Query.New (Query.Name q) (Query.Type_ q) pairs = Ret q ->
  discover e = true -> discoverResolver (rr_addr e) (active e) = Ret (endpoint, Pki.PublicKeyHex id) ->
  ns_addr e <> zero_address -> dialed e = Some w ->
  (cr_Resolve (Query.Name q) (Query.Type_ q) (Query.Selector q) w).1 = inl on -> same_answer res on ->
  record_wf (RR_Record (Handle.Result res)) ->
  (Handle.Found res = true -> OwnerSigValid (Handle.Result res) = true /\ Handle.verdict_ok (Query.Name q) (Handle.Result res)) ->
  (ZKProof (Handle.Result res) <> [] -> exists proof,
     Zk.ProofFromSolidityCalldata (ZKProof (Handle.Result res)) = Ret proof
     /\ Zk.Verify artifact proof (Commitment (RR_Record (Handle.Result res))) = Ret ()) ->
  Pki.SealEnvelope marshal id (Handle.build_response address_Hex q res) = Ret envl ->
  http_get e endpoint q = Some raw -> unmarshal_envelope raw = Some envl ->
  unmarshal_response (Pki.Data envl) = Some (client_view (Handle.build_response address_Hex q res)) ->
  (lookup e).2 = Some 0
  /\ (Handle.Found res = true -> LOwnerSigOK ∈ (lookup e).1 /\ LOnChainOK true ∈ (lookup e).1
       /\ (ZKProof (Handle.Result res) <> [] -> LZKOK ∈ (lookup e).1)).
Proof.
  intros Ha Hpp Hnew Hd Hdisc Hns Hdial Hon Hsame (_ & _ & Hc) Hver Hzk Hseal Hget Henv Hresp.
  set (resp := client_view (Handle.build_response address_Hex q res)) in *.
  assert (Handle.Found res = true -> owner_signed q res) as Hsig.
  { intros Hf. destruct (Hver Hf) as [Hv1 Hv2]. by apply Hv2. }
  assert (compareOnChain (ns_addr e) (Some w) q resp = Ret ()) as Hcmp.
  { unfold compareOnChain. rewrite bool_decide_eq_false_2, Hon by done. by apply diff_server. }
  destruct (sealed_verifies marshal id _ _ Hseal) as [Hve Hkey].
  unfold lookup. rewrite Hd, Hdisc, Ha, Hpp, Hnew, Hget. unfold check_body. rewrite Henv, Hve, Hresp, Hkey.
  rewrite Net.EqualFold_refl, andb_false_r. unfold check_answer. rewrite Hd, Hdial. unfold crossCheck. rewrite Hcmp.
  fold resp. assert (Found resp = Handle.Found res) as Hfound.
  { unfold resp, Handle.build_response. by destruct (Handle.Found res). }
  rewrite Hfound. destruct (Handle.Found res) eqn:Ef; cbn [negb say fst snd]; [|done].
  assert (rp_Record resp = Some (Handle.toRecordJSON (RR_Record (Handle.Result res)))) as ->.
  { unfold resp, Handle.build_response. by rewrite Ef. }
  rewrite (verify_server q res Ef Hc (Hsig eq_refl) : verifyOwnerSig (Query.Name q) resp = Ret ()). cbn [say fst snd].
  destruct (decide (ZKProof (Handle.Result res) = [])) as [Hz|Hz].
  - rewrite bool_decide_eq_true_2.
    { cbn [say exit fst snd]. split; [done|]. intros _. split; [printed|]. split; [printed|done]. }
    unfold resp, Handle.build_response. rewrite Ef. cbn. by rewrite Hz.
  - destruct (Hzk Hz) as (proof & Hp1 & Hp2). rewrite bool_decide_eq_false_2.
    + rewrite (verifyZK_server q res proof Ef Hc Hz Hp1 Hp2 : verifyZK resp = Ret ()). cbn [say exit fst snd].
      split; [done|]. intros _. split; [printed|]. split; [printed|]. intros _. printed.
    + unfold resp, Handle.build_response. rewrite Ef. cbn. destruct (ZKProof (Handle.Result res)); [done|].
      by rewrite hexutil_Encode_hex.
Qed.

(** A positive answer without a record, which no honest resolver sends, crashes the
    client: formatRecord reads through a nil pointer. *)
Lemma lookup_crashes_without_record e q resp :
  Found resp = true -> rp_Record resp = None -> (check_answer e q resp).2 = None.
Proof. intros Hf Hr. unfold check_answer. by rewrite Hf, Hr. Qed.
End Client.
Arguments env : clear implicits.
Arguments mkEnv {W}.

(** * A concrete run

    The chain has one record, of "alice"; the resolver answers with what the
    server of [Handle] computed for it. *)
#[local] Existing Instances Query.ascii_case Pki.merge_sort_pairs Pki.merge_sort_pairs_laws Zk.toy_mimc Zk.toy_groth
  Pki.toy_ed Pki.toy_ed_laws Encoding.std_hexutil_laws.
Definition alice_chain : ChainReader Z () := {|
  cr_Resolve n t sel w :=
    (inl (mkResolveResult (if bool_decide (n = str "alice") then Handle.demo_rec else zero_record) (be_bytes 20 77) [] false []), w);
  cr_GetDomain n w := (inr (), w); cr_ListRecords n w := (inr (), w); cr_ListTypes w := (inr (), w); cr_ChainHead w := (inr (), w);
|}.
Definition demo_client_response : Handle.resolveResponse_t :=
  Handle.build_response (fun a => a) Handle.demo_query Handle.demo_answer.
Definition demo_id : Pki.Identity bytes := Pki.mkIdentity Pki.demo_seed.
Definition demo_envelope : Pki.Envelope :=
  match Pki.SealEnvelope (fun _ => Ret (E := ()) (str "{}")) demo_id demo_client_response with
  | Ret e => e | _ => Pki.mkEnvelope [] [] [] end.
Definition demo_env : env Z :=
  mkEnv true (str "http://127.0.0.1:8080") [str "alice"; str "A"] [] [x01]
    (Some ([[x02]], [str "http://r"], [Pki.PublicKey demo_id])) (fun _ _ => Some []) [x03] (Some 0).
Definition demo_lookup : run :=
  lookup (EC := Pki.toy_eth) (CR := alice_chain) Handle.demo_artifact (fun a => a) (fun _ => Some demo_envelope)
    (fun _ => Some (client_view demo_client_response)) demo_env.

Lemma alice_bounded n t sel w (on : ResolveResult) :
  (cr_Resolve (ChainReader := alice_chain) n t sel w).1 = inl on -> Exists (RR_Record on) = true ->
  record_bounded n (RR_Record on).
Proof.
  intros [= <-]. cbn [RR_Record]. case_bool_decide as Hn; [|done]. intros _. subst n.
  unfold record_bounded, record_wf. vm_compute. repeat split; congruence.
Qed.

Lemma lookup_fails_closed_witness :
  exists q w, answer_true (EC := Pki.toy_eth) (CR := alice_chain) Handle.demo_artifact (fun a => a) q w demo_lookup.1.
Proof.
  destruct (lookup_fails_closed (EC := Pki.toy_eth) (CR := alice_chain) Handle.demo_artifact (fun a => a)
    (fun _ => Some demo_envelope) (fun _ => Some (client_view demo_client_response))
    ltac:(intros data r [= <-] rj [= <-]; vm_compute; repeat split; congruence) alice_bounded demo_env)
    as (endpoint & key & q & w & envl & _ & _ & _ & _ & _ & _ & H).
  - reflexivity.
  - vm_compute. reflexivity.
  - exists q, w. exact H.
Defined.

Lemma lookup_accepts_honest_witness : demo_lookup.2 = Some 0 /\ LZKOK ∈ demo_lookup.1.
Proof.
  destruct (lookup_accepts_honest (EC := Pki.toy_eth) (CR := alice_chain) Handle.demo_artifact (fun a => a)
    (fun _ => Some demo_envelope) (fun _ => Some (client_view demo_client_response)) (fun a => a) (fun _ => eq_refl)
    (fun _ => Ret (E := ()) (str "{}")) demo_id demo_env Handle.demo_query ∅ (str "http://r") [] demo_envelope 0
    Handle.demo_answer (mkResolveResult Handle.demo_rec (be_bytes 20 77) [] false [])) as [H1 H2].
  all: try (vm_compute; reflexivity).
  - discriminate.
  - vm_compute. repeat split; reflexivity.
  - unfold record_wf. vm_compute. repeat split; congruence.
  - intros _. split; [reflexivity|]. unfold Handle.verdict_ok. vm_compute. split; reflexivity.
  - intros _. eexists. split; vm_compute; reflexivity.
  - split; [exact H1|]. apply H2; [reflexivity|discriminate].
Defined.
End Lookup.
