(* ===== verification/Fetch.v ===== *)
(** The downloading client ddns-fetch (src/resolver/cmd/ddns-fetch/main.go), and
    what it makes of the responses of /resource.

    A run is its exit status, the bytes it writes out and whether it warns about
    the content type. The HTTP exchange and the output file are parameters. *)
From S2P Require Import Prelude GoStrings Net Encoding Query Chain Cache Pki Zk ContentType Handle Torrent Web.
Import Chain.

Local Open Scope Z_scope.

Module Fetch.

Definition maxResourceBytes : Z := Z.shiftl 256 20.

(** io.ReadAll(io.LimitReader(r, maxResourceBytes)) *)
Definition read_limited (b : bytes) : bytes :=
  if Z.of_nat (length b) <=? maxResourceBytes then b else take (Z.to_nat maxResourceBytes) b.

Record outcome := mkOutcome { code : Z; written : option bytes; warned : bool }.
Definition fatal : outcome := mkOutcome 1 None false.

(** An HTTP answer: status, headers and body. *)
Record answer := mkAnswer { a_status : Z; a_headers : gmap bytes bytes; a_body : bytes }.
Definition header (a : answer) (k : bytes) : bytes := default [] (a_headers a !! k).

Section Client.
Context {UC : UnicodeCase} {HX : Hexutil} {EdPriv : Type} {ED : Pki.Ed25519 EdPriv}.
Variable Sum256 : bytes -> bytes.
Variable DetectContentType : bytes -> bytes.
Variable ParseMediaType : bytes -> option bytes.

(** main from the response on; [write_ok] is whether writing to [out] succeeds. *)
Definition check_response (a : answer) (out : bytes) (write_ok : bool) : outcome :=
  let body := read_limited (a_body a) in
  if negb (a_status a =? 200) then fatal
  else
    let wantSHA := header a (str "X-DDNS-SHA256") in
    if negb (bool_decide (hex_encode (Sum256 body) = wantSHA)) then fatal
    else
      let ownerVerified := bool_decide (header a (str "X-DDNS-OwnerSig-Verified") = str "true") in
      match Pki.VerifyResourceSignature Sum256 (header a (str "X-DDNS-Resolver")) (header a (str "X-DDNS-Signature"))
              (header a (str "X-DDNS-Owner")) (header a (str "X-DDNS-PubKey")) (header a (str "X-DDNS-InfoHash"))
              wantSHA (header a (str "Content-Type")) ownerVerified (header a (str "X-DDNS-ZKProof")) body with
      | Ret _ =>
          if negb ownerVerified then fatal
          else
            let warned := negb (ContentType.OK (ContentType.Validate DetectContentType ParseMediaType
                                  (header a (str "Content-Type")) body)) in
            if bool_decide (out = []) || bool_decide (out = str "-") then mkOutcome 0 (Some body) warned
            else if write_ok then mkOutcome 0 (Some body) warned else mkOutcome 1 None warned
      | _ => fatal
      end.

(** main; [http_get] is the request for the query and the peer hints. *)
Definition fetch (args : list bytes) (selector : bytes) (peers : list bytes) (out : bytes) (write_ok : bool)
    (http_get : Query.Query -> list bytes -> option answer) : outcome :=
  match args with
  | [name] =>
      match Query.ParsePairs selector with
      | Ret pairs =>
          match Query.New name (str "ResourceRef") pairs with
          | Ret q => match http_get q peers with None => fatal | Some a => check_response a out write_ok end
          | _ => fatal
          end
      | _ => fatal
      end
  | _ => mkOutcome 2 None false
  end.

(** C30. Whatever the resolver answers, bytes are written only if they hash to the digest of
    the response and the resolver signed them with that digest, the owner, the
    record's fields and a positive owner verdict. *)
Theorem fetch_writes_verified args selector peers out write_ok http_get body :
  written (fetch args selector peers out write_ok http_get) = Some body ->
  exists q a, http_get q peers = Some a /\ args = [Query.Name q] /\ Query.Type_ q = str "ResourceRef" /\ a_status a = 200
    /\ body = read_limited (a_body a)
    /\ header a (str "X-DDNS-SHA256") = hex_encode (Sum256 body)
    /\ exists pub sig, Pki.decode_sized 32 (header a (str "X-DDNS-Resolver")) = Some pub
         /\ Pki.decode_sized 64 (header a (str "X-DDNS-Signature")) = Some sig
         /\ Pki.ed_Verify pub (Pki.ResourceManifest Sum256 (header a (str "X-DDNS-Owner")) (header a (str "X-DDNS-PubKey"))
              (header a (str "X-DDNS-InfoHash")) (hex_encode (Sum256 body)) (header a (str "Content-Type")) true
              (header a (str "X-DDNS-ZKProof")) body) sig = true.
Proof.
  unfold fetch. destruct args as [|name [|]]; try done.
  destruct (Query.ParsePairs selector) as [pairs| |]; try done.
  destruct (Query.New name (str "ResourceRef") pairs) as [q| |] eqn:Eq; try done.
  apply Query.New_Ret in Eq as (_ & _ & sel & _ & ->).
  destruct (http_get _ peers) as [a|] eqn:Ea; [|done]. unfold check_response. set (b := read_limited (a_body a)).
  destruct (Z.eqb_spec (a_status a) 200) as [Hst|]; cbn [negb]; [|done].
  case_bool_decide as Hsha; cbn [negb]; [|done]. unfold Pki.VerifyResourceSignature.
  destruct (Pki.decode_sized _ (header a (str "X-DDNS-Resolver"))) as [pub|] eqn:Ep; [|done].
  destruct (Pki.decode_sized _ (header a (str "X-DDNS-Signature"))) as [sig|] eqn:Es; [|done].
  destruct (Pki.ed_Verify _ _ _) eqn:Ev; cbn [negb]; [|done].
  destruct (bool_decide (header a (str "X-DDNS-OwnerSig-Verified") = str "true")); cbn [negb]; [|done]. intros H.
  assert (b = body) as Hb by (destruct (_ || _); [|destruct write_ok]; cbn in H; congruence).
  subst body. eexists _, a. do 5 (split; [done|]). split; [done|]. exists pub, sig. rewrite Hsha. done.
Qed.
End Client.

(** * The client at the other end of /resource *)
Section EndToEnd.
Context {UC : UnicodeCase} {SP : Pki.SortPairs} {Priv Pub : Type} {EC : Pki.EthCrypto Priv Pub}.
Context {St : Type} {MI : Zk.Mimc St} {CCS PK VK Wit PubWit : Type} {GR : Zk.Groth16 CCS PK VK Wit PubWit}.
Context {L : Type} {LO : Cache.LruOps Cache.Key (Cache.entry ResolveResult) L}.
Context {W Er : Type} {CR : ChainReader W Er} {HX : Hexutil} {HXL : HexutilLaws} {RF : Web.ResourceFetcher W}.
Context {EdPriv : Type} {ED : Pki.Ed25519 EdPriv} {EDL : Pki.Ed25519Laws EdPriv}.
Variable artifact : bytes -> option bytes.
Variable nameHash : bytes -> bytes.
Variable address_Hex : address -> bytes.
Variable Sum256 : bytes -> bytes.
Variable identity : Pki.Identity EdPriv.
Variable parse_error_text : Web.parse_error -> bytes.
Variable chain_error_text : Er -> bytes.
Variable DetectContentType : bytes -> bytes.
Variable ParseMediaType : bytes -> option bytes.
Variable IsLoopbackIP : bytes -> bool.
Variable engine_enabled allowPeerHints enforceType : bool.
Abbreviation handleResource := (Web.handleResource artifact nameHash address_Hex Sum256 identity parse_error_text
  chain_error_text DetectContentType ParseMediaType IsLoopbackIP engine_enabled allowPeerHints enforceType).

Lemma check_response_of_resource vr out :
  Z.of_nat (length (Web.vr_body vr)) <= maxResourceBytes ->
  let o := check_response Sum256 DetectContentType ParseMediaType
             (mkAnswer 200 (Web.resource_headers Sum256 identity vr) (Web.vr_body vr)) out true in
  if bool_decide (Web.vr_sha vr = hex_encode (Sum256 (Web.vr_body vr)))
  then code o = 0 /\ written o = Some (Web.vr_body vr) else o = fatal.
Proof.
  intros Hl o. unfold o, check_response. cbn [a_body a_status]. unfold read_limited. rewrite (proj2 (Z.leb_le _ _)) by done. change (negb (200 =? 200)) with false.
  cbv iota. pose proof (Web.resource_headers_verify Sum256 identity vr) as Hv.
  destruct (Web.resource_headers_fields Sum256 identity vr) as (_ & _ & _ & _ & _ & Hsha & _ & Hov & _).
  unfold Web.response_verifies, Web.hget in Hv. cbn [Web.headers] in Hv. unfold header. cbn [a_headers].
  rewrite Hsha, Hov in *. cbn [default] in *. unfold id in *.
  rewrite (bool_decide_eq_true_2 (str "true" = str "true")) in * by done.
  case_bool_decide as H1; case_bool_decide as H2; try congruence; [|done]. cbn [negb]. rewrite Hv. cbn [negb].
  by destruct (_ || _).
Qed.

(** What ddns-fetch makes of a successful /resource response: it writes exactly the
    bytes served, if the owner spelled the digest in lower case; otherwise it
    rejects the file. *)
Theorem fetch_gets_resource r t_get t_set sem_ok s resp body out :
  (handleResource r t_get t_set sem_ok s).1 = Ret resp -> Web.body_of resp = Web.PBytes body ->
  Z.of_nat (length body) <= maxResourceBytes ->
  let o := check_response Sum256 DetectContentType ParseMediaType
             (mkAnswer (Web.status resp) (Web.headers resp) body) out true in
  if bool_decide (Web.hget resp (str "X-DDNS-SHA256") = hex_encode (Sum256 body))
  then code o = 0 /\ written o = Some body else o = fatal.
Proof.
  intros H1 H2 Hl. destruct (Web.handleResource_PBytes _ _ _ _ _ _ _ _ _ _ _ _ _ _ _ _ _ _ _ _ H1 H2) as (vr & -> & <-).
  pose proof (check_response_of_resource vr out Hl) as H. unfold Web.hget. cbn [Web.headers Web.status].
  destruct (Web.resource_headers_fields Sum256 identity vr) as (_ & _ & _ & _ & _ & -> & _). exact H.
Qed.
End EndToEnd.

(** * Concrete runs *)
#[local] Existing Instances Query.ascii_case Pki.merge_sort_pairs Zk.toy_mimc Zk.toy_groth Pki.toy_ed Pki.toy_ed_laws
  Encoding.std_hexutil_laws.

Definition demo_http (a : Web.response) : Query.Query -> list bytes -> option answer :=
  fun _ _ => Some (mkAnswer (Web.status a) (Web.headers a) (str "hi")).

Lemma fetch_writes_verified_witness :
  exists q a, demo_http Web.demo_response q [] = Some a /\ [str "alice"] = [Query.Name q]
    /\ header a (str "X-DDNS-SHA256") = hex_encode (Pki.demo_sum (str "hi")).
Proof.
  destruct (fetch_writes_verified (EdPriv := bytes) Pki.demo_sum Web.demo_sniff (fun _ => None) [str "alice"] [] [] [] true
    (demo_http Web.demo_response) (str "hi")) as (q & a & H1 & H2 & _ & _ & _ & H3 & _).
  - vm_refl.
  - exists q, a. done.
Defined.

Lemma fetch_gets_resource_witness :
  written (check_response (EdPriv := bytes) Pki.demo_sum Web.demo_sniff (fun _ => None)
    (mkAnswer 200 (Web.headers Web.demo_response) (str "hi")) [] true) = Some (str "hi").
Proof.
  pose proof (fetch_gets_resource (EC := Pki.toy_eth) (CR := Web.demo_ref_chain) (L := Handle.demo_lru) (RF := Web.demo_fetcher)
    (EdPriv := bytes) Handle.demo_artifact (fun n => n) (fun a => a) Pki.demo_sum (Pki.mkIdentity Pki.demo_seed)
    (fun _ => []) (fun _ => []) Web.demo_sniff (fun _ => None) (fun _ => false) true false true Web.demo_request 0 1 true
    Web.demo_server Web.demo_response (str "hi") []) as H.
  assert (bool_decide (Web.hget Web.demo_response (str "X-DDNS-SHA256") = hex_encode (Pki.demo_sum (str "hi"))) = true) as Hb
    by vm_refl.
  rewrite Hb in H. apply H; [exact Web.demo_response_run|exact Web.demo_response_body|by vm_compute].
Defined.

(** The resolver decodes the digest of a record in either case, ddns-fetch compares
    it with lower case: a file anchored with a capital is served, and rejected. *)
Definition demo_capital : Web.verifiedResource :=
  Web.mkVerified (str "jk") [] [] (str "ab12") (hex_encode (replicate 30 x00) ++ str "6A6B") (str "text/plain") []
    (ContentType.mkResult [] [] true []) 300.
Lemma fetch_rejects_capitals :
  hex_decode (Web.vr_sha demo_capital) = Some (Pki.demo_sum (Web.vr_body demo_capital))
  /\ check_response Pki.demo_sum Web.demo_sniff (fun _ => None)
       (mkAnswer 200 (Web.resource_headers Pki.demo_sum (Pki.mkIdentity Pki.demo_seed) demo_capital) (str "jk")) [] true = fatal.
Proof. split; vm_refl. Qed.
End Fetch.
