(* ===== verification/Config.v ===== *)
(** Package [config] (src/resolver/internal/config/config.go): the resolver's
    settings from the environment, a .env file and the deployment artifact.

    The process environment is a map; the file system is what the code asks of it
    (the contents of .env, which candidate files exist, what a path reads as) and
    JSON decoding of the artifact is a parameter. *)
From S2P Require Import Prelude GoStrings Net Cli.

Local Open Scope Z_scope.

Module Config.

(** type Config struct *)
Record Config := mkConfig {
  RPCURL : bytes; ContractAddress : bytes; RegistryAddress : bytes; KeystorePath : bytes;
  RESTPort : Z; UDPPort : Z; BTListenPort : Z; CacheSize : Z; RateRPS : Z; RateBurst : Z;
  DataDir : bytes; AllowPeerHints : bool; EnforceType : bool; EnableShowcase : bool;
  ResolverRegistryAddress : bytes; ResolverIncentivesAddress : bytes }.

Abbreviation environ := (gmap bytes bytes) (only parsing).

Definition Getenv (env : environ) (k : bytes) : bytes := default [] (env !! k).
Definition getEnv (env : environ) (k def : bytes) : bytes :=
  if bool_decide (Getenv env k = []) then def else Getenv env k.

Inductive config_error :=
| NotInteger (key v : bytes) | PortRange (key : bytes) (n : Z) | BTRange (n : Z) | CacheNotPositive (n : Z)
| RateNotPositive (rps burst : Z).

Definition getEnvInt (env : environ) (k : bytes) (def : Z) : go config_error Z :=
  let v := Getenv env k in
  if bool_decide (v = []) then Ret def
  else match Atoi v with Some n => Ret n | None => Err (NotInteger k v) end.

Definition getEnvPort (env : environ) (k : bytes) (def : Z) : go config_error Z :=
  n ← getEnvInt env k def;
  if (n <? 1) || (65535 <? n) then Err (PortRange k n) else Ret n.

(** * The .env file *)

(** bufio.Scanner's lines: split at newlines, without a final empty one, a
    trailing carriage return removed; it gives up at the first line that does not
    fit its 64 KiB buffer. *)
Definition drop_cr (l : bytes) : bytes :=
  match reverse l with x0d :: r => reverse r | _ => l end.
Fixpoint scan_lines (ls : list bytes) : list bytes :=
  match ls with
  | [] => []
  | [last] => if bool_decide (last = []) || (65535 <? Z.of_nat (length last)) then [] else [drop_cr last]
  | l :: ls => if 65535 <? Z.of_nat (length l) then [] else drop_cr l :: scan_lines ls
  end.

Definition is_quote (b : byte) : bool := bool_decide (b = x22) || bool_decide (b = x27).
Fixpoint drop_quotes (s : bytes) : bytes :=
  match s with b :: r => if is_quote b then drop_quotes r else s | [] => [] end.
(** strings.Trim with both quotes as the cutset *)
Definition trim_quotes (s : bytes) : bytes := reverse (drop_quotes (reverse (drop_quotes s))).

Definition TrimPrefix (s p : bytes) : bytes := match drop_prefix p s with Some r => r | None => s end.

(** The variable a line sets, if any. *)
Definition dotenv_line (text : bytes) : option (bytes * bytes) :=
  let line := TrimSpace text in
  if bool_decide (line = []) || Net.HasPrefix line (str "#") then None
  else
    match Cut (TrimPrefix line (str "export ")) "=" with
    | None => None
    | Some (k, v) =>
        let k := TrimSpace k in
        let v := trim_quotes (TrimSpace v) in
        if bool_decide (k = []) then None else Some (k, v)
    end.

(** os.Setenv refuses a zero byte. *)
Definition Setenv (env : environ) (k v : bytes) : environ :=
  if Net.has_byte k x00 || Net.has_byte v x00 then env else <[k := v]> env.

Definition dotenv_step (env : environ) (text : bytes) : environ :=
  match dotenv_line text with
  | Some (k, v) => if bool_decide (is_Some (env !! k)) then env else Setenv env k v
  | None => env
  end.

(** loadDotEnv; [None]: the file cannot be opened. *)
Definition loadDotEnv (file : option bytes) (env : environ) : environ :=
  match file with
  | None => env
  | Some data => fold_left dotenv_step (scan_lines (Split data x0a)) env
  end.

Section FromEnv.
Context {UC : UnicodeCase}.
Variable ReadFile : bytes -> option bytes.
Variable exists_ : bytes -> bool.                          (* os.Stat(path) succeeds *)
Variable Unmarshal : bytes -> option Cli.contracts.        (* the artifact's "contracts" object *)

Definition getEnvBool (env : environ) (k : bytes) (def : bool) : bool :=
  let v := TrimSpace (ToLower (Getenv env k)) in
  if bool_decide (v = []) then def
  else bool_decide (v ∈ [str "1"; str "true"; str "yes"; str "on"]).

Definition no_contracts : Cli.contracts := Cli.mkContracts [] [] [] [].

Definition loadDeployments (path : bytes) : Cli.contracts :=
  if bool_decide (path = []) then no_contracts
  else
    let data :=
      match ReadFile path with
      | Some d => Some d
      | None =>
          if Net.HasPrefix path (str "../") then ReadFile (TrimPrefix path (str "../")) else ReadFile (str "../" ++ path)
      end in
    match data with
    | None => no_contracts
    | Some d => default no_contracts (Unmarshal d)
    end.

Definition sepolia_paths : list bytes := [str "contracts/deployments/sepolia.json"; str "../contracts/deployments/sepolia.json"].
Definition localhost_paths : list bytes := [str "contracts/deployments/localhost.json"; str "../contracts/deployments/localhost.json"].

Definition deployments_path (env : environ) (rpc : bytes) : bytes :=
  let p := getEnv env (str "DEPLOYMENTS") (getEnv env (str "DDNS_DEPLOYMENTS") []) in
  if negb (bool_decide (p = [])) then p
  else
    let candidates :=
      if Net.Contains (ToLower rpc) (str "sepolia") || bool_decide (Getenv env (str "DDNS_NETWORK") = str "sepolia")
      then sepolia_paths ++ localhost_paths else localhost_paths ++ sepolia_paths in
    default [] (List.find exists_ candidates).

(** FromEnv after loadDotEnv. *)
Definition from_env (env : environ) : go config_error Config :=
  let rpc := getEnv env (str "RPC_URL") (str "http://127.0.0.1:8545") in
  let ca := Getenv env (str "CONTRACT_ADDRESS") in
  let ra := Getenv env (str "REGISTRY_ADDRESS") in
  let showcase := getEnvBool env (str "ENABLE_SHOWCASE") false in
  let '(ca, ra, rr, ri) :=
    if bool_decide (ca = []) || bool_decide (ra = []) || showcase then
      let d := loadDeployments (deployments_path env rpc) in
      (if bool_decide (ca = []) then Cli.NamespaceDApp d else ca,
       if bool_decide (ra = []) then Cli.RecordSchemaRegistry d else ra,
       Cli.ResolverRegistry d, Cli.ResolverIncentives d)
    else (ca, ra, [], []) in
  rest ← getEnvPort env (str "REST_PORT") 8080;
  udp ← getEnvPort env (str "UDP_PORT") 5354;
  bt ← getEnvInt env (str "BT_LISTEN_PORT") 42069;
  if (bt <? 0) || (65535 <? bt) then Err (BTRange bt) else
  cs ← getEnvInt env (str "CACHE_SIZE") 4096;
  if cs <=? 0 then Err (CacheNotPositive cs) else
  rps ← getEnvInt env (str "RATE_RPS") 20;
  burst ← getEnvInt env (str "RATE_BURST") 40;
  if (rps <=? 0) || (burst <=? 0) then Err (RateNotPositive rps burst) else
  mret (mkConfig rpc ca ra (getEnv env (str "RESOLVER_KEYSTORE") (str "resolver.key")) rest udp bt cs rps burst
          (getEnv env (str "DATA_DIR") (str "./data")) (getEnvBool env (str "ALLOW_PEER_HINTS") false)
          (getEnvBool env (str "ENFORCE_CONTENT_TYPE") false) showcase rr ri).

Definition FromEnv (env : environ) : go config_error Config := from_env (loadDotEnv (ReadFile (str ".env")) env).

(** * What a configuration guarantees *)

(** The integer a variable stands for lies in a range. *)
Definition setting (env : environ) (k : bytes) (def lo hi : Z) : Prop :=
  exists n, getEnvInt env k def = Ret n /\ lo <= n <= hi.

Definition settings_ok (env : environ) : Prop :=
  setting env (str "REST_PORT") 8080 1 65535 /\ setting env (str "UDP_PORT") 5354 1 65535
  /\ setting env (str "BT_LISTEN_PORT") 42069 0 65535 /\ setting env (str "CACHE_SIZE") 4096 1 max_int
  /\ setting env (str "RATE_RPS") 20 1 max_int /\ setting env (str "RATE_BURST") 40 1 max_int.

Lemma getEnvInt_range env k def n : min_int <= def <= max_int -> getEnvInt env k def = Ret n -> min_int <= n <= max_int.
Proof.
  intros Hd. unfold getEnvInt. case_bool_decide; [by intros [= <-]|]. destruct (Atoi _) as [m|] eqn:E; [|done].
  intros [= <-]. unfold Atoi in E. destruct (match Getenv env k with [] => _ | _ => _ end) as [neg ds].
  destruct (_ && forallb _ _); [|done]. destruct (_ && _) eqn:Er; [|done]. injection E as <-.
  apply andb_true_iff in Er as [H1%Z.leb_le H2%Z.leb_le]. done.
Qed.

(** The two ways a numeric setting makes FromEnv fail. *)
Lemma getEnvInt_spec env k def lo hi :
  min_int <= def <= max_int ->
  match getEnvInt env k def with
  | Ret n => min_int <= n <= max_int /\ (setting env k def lo hi <-> lo <= n <= hi)
  | Err _ => ~ setting env k def lo hi
  | Panic => False
  end.
Proof.
  intros Hd. unfold setting. destruct (getEnvInt env k def) as [n|x|] eqn:E.
  - split; [by eapply getEnvInt_range|]. split; [intros (m & [= <-] & ?); done|by exists n].
  - by intros (m & ? & _).
  - unfold getEnvInt in E. case_bool_decide; [done|]. by destruct (Atoi _).
Qed.

Definition config_ok (cfg : Config) : Prop :=
  1 <= RESTPort cfg <= 65535 /\ 1 <= UDPPort cfg <= 65535 /\ 0 <= BTListenPort cfg <= 65535
  /\ 1 <= CacheSize cfg <= max_int /\ 1 <= RateRPS cfg <= max_int /\ 1 <= RateBurst cfg <= max_int.

Ltac read_setting n lo hi :=
  match goal with
  | |- context [getEnvInt ?env ?k ?def] =>
      let H := fresh "H" in
      pose proof (getEnvInt_spec env k def lo hi ltac:(unfold min_int, max_int; lia)) as H;
      destruct (getEnvInt env k def) as [n|?x|]; [|cbn; unfold settings_ok; tauto|done]; destruct H as [? H]; cbn
  end.

Ltac out_of_range :=
  let S := fresh "S" in
  cbn; intros S; unfold settings_ok in S; destruct_and? S;
  repeat match goal with H : setting _ _ _ _ _ <-> _, H' : setting _ _ _ _ _ |- _ => apply H in H'; clear H end; lia.

(** The settings, one after the other. *)
Lemma FromEnv_spec env :
  let e := loadDotEnv (ReadFile (str ".env")) env in
  match FromEnv env with
  | Ret cfg => settings_ok e /\ config_ok cfg
  | Err _ => ~ settings_ok e
  | Panic => False
  end.
Proof.
  cbv zeta. unfold FromEnv. generalize (loadDotEnv (ReadFile (str ".env")) env). clear env. intros env. unfold from_env.
  destruct (if _ || _ || _ then _ else _) as [[[ca ra] rr] ri]. unfold getEnvPort.
  read_setting rest 1 65535. destruct ((rest <? 1) || (65535 <? rest)) eqn:E1; [by out_of_range|]. cbn.
  read_setting udp 1 65535. destruct ((udp <? 1) || (65535 <? udp)) eqn:E2; [by out_of_range|]. cbn.
  read_setting bt 0 65535. destruct ((bt <? 0) || (65535 <? bt)) eqn:E3; [by out_of_range|].
  read_setting cs 1 max_int. destruct (cs <=? 0) eqn:E4; [by out_of_range|].
  read_setting rps 1 max_int. read_setting burst 1 max_int.
  destruct ((rps <=? 0) || (burst <=? 0)) eqn:E5; [by out_of_range|]. unfold settings_ok, config_ok. cbn.
  apply orb_false_iff in E1 as [? ?], E2 as [? ?], E3 as [? ?], E5 as [? ?].
  split; [|lia]. repeat match goal with H : ?P <-> _ |- context [?P] => rewrite H; clear H end. lia.
Qed.

(** C39. FromEnv accepts an environment exactly if every numeric setting parses and is
    in range, and what it returns is in range: listeners can bind, the cache and
    the rate limiter can be built. *)
Theorem FromEnv_validates env :
  let e := loadDotEnv (ReadFile (str ".env")) env in
  match FromEnv env with
  | Ret cfg => settings_ok e /\ config_ok cfg
  | Err _ => ~ settings_ok e
  | Panic => False
  end.
Proof. exact (FromEnv_spec env). Qed.
End FromEnv.

(** The first line that sets a variable. *)
Fixpoint first_setting (k : bytes) (ls : list bytes) : option bytes :=
  match ls with
  | [] => None
  | l :: ls =>
      match dotenv_line l with
      | Some (k', v) =>
          if bool_decide (k' = k) && negb (Net.has_byte k x00) && negb (Net.has_byte v x00) then Some v
          else first_setting k ls
      | None => first_setting k ls
      end
  end.

(** loadDotEnv leaves every variable that is set as it is, and gives the others the
    value of the first line of the file that sets them. *)
Theorem loadDotEnv_spec data env k :
  loadDotEnv (Some data) env !! k =
  match env !! k with Some v => Some v | None => first_setting k (scan_lines (Split data x0a)) end.
Proof.
  cbn. generalize (scan_lines (Split data x0a)). intros ls. revert env.
  induction ls as [|l ls IH]; intros env; cbn [fold_left first_setting]; [by destruct (env !! k)|].
  rewrite IH. unfold dotenv_step. destruct (dotenv_line l) as [[k' v]|]; [|done].
  case_bool_decide as Hs.
  - destruct (decide (k' = k)) as [->|Hne]; [destruct Hs as [x ->]; done|].
    by rewrite (bool_decide_eq_false_2 (k' = k)) by done.
  - unfold Setenv. destruct (decide (k' = k)) as [->|Hne].
    + rewrite (bool_decide_eq_true_2 (k = k)) by done. cbn [andb].
      assert (env !! k = None) as Hn by (destruct (env !! k); [exfalso; eauto|done]).
      destruct (Net.has_byte k x00); cbn [negb orb andb]; [done|]. destruct (Net.has_byte v x00); cbn [negb]; [done|].
      by rewrite lookup_insert_eq, Hn.
    + rewrite (bool_decide_eq_false_2 (k' = k)) by done. cbn [andb].
      destruct (_ || _); [done|]. by rewrite lookup_insert_ne by done.
Qed.

(** The file of the package's test. *)
Definition demo_dotenv : bytes :=
  str "# a comment" ++ [x0a] ++ str "export FOO=bar" ++ [x0a] ++ str "QUOTED=" ++ [x22] ++ str "baz" ++ [x22; x0a; x0a]
  ++ str "PRESET=fromfile" ++ [x0a].
Example demo_dotenv_loads :
  let e := loadDotEnv (Some demo_dotenv) {[str "PRESET" := str "fromenv"]} in
  (Getenv e (str "FOO"), Getenv e (str "QUOTED"), Getenv e (str "PRESET")) = (str "bar", str "baz", str "fromenv").
Proof. vm_compute. reflexivity. Qed.
End Config.
