(* ===== verification/Boot.v ===== *)
(** Starting the resolver: Dial of package [chain] (chain/client.go) and New and
    registerRoutes of package [server] (src/resolver/internal/server/server.go),
    on a configuration that FromEnv returned.

    The connections and the torrent client are libraries: whether each of their
    constructors succeeds is an input. Connections are counted, so that what a
    failed boot leaves open is visible. *)
From S2P Require Import Prelude GoStrings Encoding Query Chain Cache RateLimit Pki Handle Torrent Seed Config.
Import Chain.

Local Open Scope Z_scope.

Module Boot.

Definition maxConcurrentResourceFetches : Z := 8.

Inductive dial_error := DialRPC | BindNamespace | BindRegistry.
Inductive boot_error :=
| BadContractAddress | BadRegistryAddress
| DialError (e : dial_error) | CacheError | IdentityError (e : Pki.identity_error) | TorrentError.

(** What the environment answers while the server boots. *)
Record world := mkWorld {
  w_dial : bool; w_bind_dapp : bool; w_bind_registry : bool;  (* ethclient.DialContext, the two bindings *)
  w_fs : Pki.fs;                                              (* the keystore *)
  w_torrent : bool;                                           (* torrent.New *)
  w_disk : gmap bytes bytes;
  w_readdir : option (list (bytes * bool));                   (* os.ReadDir of the uploads directory *)
  w_got : bytes -> bool;
}.

Section Boot.
Context {L : Type} {LO : LruOps Cache.Key (Cache.entry ResolveResult) L}.
Context {Lim : Type} {EdPriv : Type} {ED : Pki.Ed25519 EdPriv}.
Variable IsHexAddress : bytes -> bool.
Variable Sum256 : bytes -> bytes.
Variable build_info : bytes -> bytes -> option bytes.
Variable HashInfoBytes : bytes -> bytes.
Variable uploads : bytes.    (* filepath.Join(cfg.DataDir, "uploads") *)

(** type Server struct, once New has returned it. *)
Record server := mkServer {
  s_cache : Cache.TTLCache L;
  s_identity : Pki.Identity EdPriv;
  s_limiter : RateLimit.ipLimiter Lim;
  s_resourceSem : Z;                       (* the capacity of the channel *)
  s_bt : Seed.state;
  s_allowPeerHints : bool; s_enforceType : bool;
  s_showcase : bool;                       (* whether registerRoutes mounted the showcase *)
}.

(** Dial, with the change to the number of open RPC connections. *)
Definition Dial (w : world) : option dial_error * Z :=
  if negb (w_dial w) then (Some DialRPC, 0)
  else if negb (w_bind_dapp w) then (Some BindNamespace, 1)
  else if negb (w_bind_registry w) then (Some BindRegistry, 1)
  else (None, 1).

(** New, with the RPC connections left open. *)
Definition New (cfg : Config.Config) (w : world) : (server + boot_error) * Z :=
  if negb (IsHexAddress (Config.ContractAddress cfg)) then (inr BadContractAddress, 0)
  else if negb (IsHexAddress (Config.RegistryAddress cfg)) then (inr BadRegistryAddress, 0)
  else
    let '(e, conns) := Dial w in
    match e with
    | Some e => (inr (DialError e), conns)
    | None =>
        match Cache.New (Config.CacheSize cfg) with
        | None => (inr CacheError, conns)
        | Some c =>
            match Pki.LoadOrCreateIdentity (w_fs w) with
            | Err e => (inr (IdentityError e), conns)
            | Panic => (inr (IdentityError Pki.ReadFailed), conns)
            | Ret (id, _) =>
                if negb (w_torrent w) then (inr TorrentError, conns - 1)   (* chainClient.Close() *)
                else
                  let bt := Seed.autoSeedUploads Sum256 build_info HashInfoBytes true uploads (w_readdir w) (w_got w)
                              (Seed.mkState (w_disk w) Torrent.new_engine ∅) in
                  (inl (mkServer c id (RateLimit.newIPLimiter (Config.RateRPS cfg) (Config.RateBurst cfg))
                          maxConcurrentResourceFetches bt (Config.AllowPeerHints cfg) (Config.EnforceType cfg)
                          (Config.EnableShowcase cfg)), conns)
            end
        end
    end.

Context {LL : LruLaws Cache.Key (Cache.entry ResolveResult) L}.
Variable nameHash : bytes -> bytes.
Variable U : bytes -> Prop.

Lemma LoadOrCreateIdentity_no_panic f : Pki.LoadOrCreateIdentity f <> Panic.
Proof.
  unfold Pki.LoadOrCreateIdentity. by repeat case_match.
Qed.

(** What a fresh server holds. *)
Definition fresh (cfg : Config.Config) (w : world) (s : server) : Prop :=
  Cache.cache_inv nameHash U (s_cache s) /\ Cache.entries (s_cache s) = ∅
  /\ Cache.capacity (s_cache s) = Config.CacheSize cfg
  /\ RateLimit.entries (s_limiter s) = ∅ /\ RateLimit.rps (s_limiter s) = Config.RateRPS cfg
  /\ RateLimit.burst (s_limiter s) = Config.RateBurst cfg
  /\ (exists out, Pki.LoadOrCreateIdentity (w_fs w) = Ret (s_identity s, out))
  /\ Torrent.inUse (Seed.engine (s_bt s)) = ∅ /\ Seed.disk (s_bt s) = w_disk w.

Lemma autoSeed_idle bt dir rd got st :
  Torrent.inUse (Seed.engine (Seed.autoSeedUploads Sum256 build_info HashInfoBytes bt dir rd got st))
    = Torrent.inUse (Seed.engine st)
  /\ Seed.disk (Seed.autoSeedUploads Sum256 build_info HashInfoBytes bt dir rd got st) = Seed.disk st.
Proof using Type.
  clear LL. unfold Seed.autoSeedUploads. destruct bt; cbn [negb]; [|done]. destruct rd as [es|]; [|done].
  rewrite Seed.seed_loop_disk. split; [|done]. revert st. induction es as [|[n d] es IH]; intros st; cbn [Seed.seed_loop]; [done|].
  destruct (d || Seed.hidden n); rewrite IH; [done|].
  by destruct (Seed.SeedFile_keeps Sum256 build_info HashInfoBytes (Seed.in_dir dir n) (got n) st) as (_ & _ & _ & H & _).
Qed.

(** On a configuration FromEnv returns, New fails only for an address that is
    not hexadecimal, an RPC end point that cannot be dialed, a bad identity or a
    torrent client that does not start, never for its cache; otherwise it returns
    an idle server, with an empty cache and limiter of the configured sizes. *)
Theorem New_boots cfg w :
  Config.config_ok cfg ->
  match New cfg w with
  | (inl s, conns) =>
      fresh cfg w s /\ conns = 1 /\ IsHexAddress (Config.ContractAddress cfg) = true
      /\ IsHexAddress (Config.RegistryAddress cfg) = true /\ (Dial w).1 = None /\ w_torrent w = true
  | (inr BadContractAddress, _) => IsHexAddress (Config.ContractAddress cfg) = false
  | (inr BadRegistryAddress, _) => IsHexAddress (Config.RegistryAddress cfg) = false
  | (inr (DialError e), _) => (Dial w).1 = Some e
  | (inr (IdentityError e), _) => Pki.LoadOrCreateIdentity (w_fs w) = Err e
  | (inr TorrentError, conns) => w_torrent w = false /\ conns = 0
  | (inr CacheError, _) => False
  end.
Proof.
  intros (_ & _ & _ & Hcap & _). unfold New.
  destruct (IsHexAddress (Config.ContractAddress cfg)); cbn [negb]; [|done].
  destruct (IsHexAddress (Config.RegistryAddress cfg)); cbn [negb]; [|done].
  assert ((Dial w).1 = None -> (Dial w).2 = 1) as Hd.
  { unfold Dial. by destruct (w_dial w), (w_bind_dapp w), (w_bind_registry w). }
  destruct (Dial w) as [[e|] conns]; cbn [fst snd] in *; [done|]. specialize (Hd eq_refl) as ->.
  destruct (Cache.New (Config.CacheSize cfg)) as [c|] eqn:Ec.
  2: { destruct (lru_new_ok (Config.CacheSize cfg) ltac:(lia)) as (l & Hl & _). unfold Cache.New in Ec. by rewrite Hl in Ec. }
  pose proof (LoadOrCreateIdentity_no_panic (w_fs w)) as Hp.
  destruct (Pki.LoadOrCreateIdentity (w_fs w)) as [[id out]|e|] eqn:Ei; [|done..].
  destruct (w_torrent w); cbn [negb]; [|done].
  apply (Cache.New_inv nameHash U) in Ec as (H1 & H2 & H3).
  destruct (autoSeed_idle true uploads (w_readdir w) (w_got w) (Seed.mkState (w_disk w) Torrent.new_engine ∅)) as [H4 H5].
  unfold fresh. cbn [s_cache s_limiter s_identity s_bt RateLimit.newIPLimiter RateLimit.entries RateLimit.rps RateLimit.burst].
  split_and!; try done. by exists out.
Qed.

(** The RPC connection of a boot that fails at the identity stays open; only the
    failure of the torrent client closes it. *)
Lemma New_leaks_connection cfg w e conns :
  New cfg w = (inr (IdentityError e), conns) -> conns = 1.
Proof.
  unfold New. destruct (negb _); [done|]. destruct (negb _); [done|].
  unfold Dial. destruct (w_dial w), (w_bind_dapp w), (w_bind_registry w); try done. cbn [negb].
  destruct (Cache.New _); [|done]. destruct (Pki.LoadOrCreateIdentity _) as [[id out]| |]; try (by intros [= _ <-]).
  by destruct (negb _).
Qed.
End Boot.

(** * A concrete boot *)
Definition demo_config : Config.Config :=
  Config.mkConfig (str "http://127.0.0.1:8545") (str "0xaa") (str "0xbb") (str "key") 8053 5354 42069 1024 20 40
    (str "data") false false true [] [].
Definition demo_seed : bytes := be_bytes 32 7.
Definition demo_world (torrent : bool) : world :=
  mkWorld true true true (Pki.mkFs (Pki.FileData (hex_encode demo_seed)) None false true true) torrent
    (Seed.disk Seed.demo_state) (Some [(str "a.html", false)]) (fun _ => true).

Lemma demo_boots :
  match (New (L := Handle.demo_lru) (Lim := RateLimit.bucket) (ED := Pki.toy_ed) (fun _ => true) Torrent.demo_sum256
    Seed.demo_info Seed.demo_infohash (str "up") demo_config (demo_world true)).1 with inl _ => true | inr _ => false end = true.
Proof. vm_refl. Qed.

Lemma New_boots_witness :
  exists s, (New (L := Handle.demo_lru) (Lim := RateLimit.bucket) (ED := Pki.toy_ed) (fun _ => true) Torrent.demo_sum256
      Seed.demo_info Seed.demo_infohash (str "up") demo_config (demo_world true)).1 = inl s
    /\ Cache.capacity (s_cache s) = 1024.
Proof.
  pose proof (New_boots (L := Handle.demo_lru) (Lim := RateLimit.bucket) (ED := Pki.toy_ed) (fun _ => true) Torrent.demo_sum256
    Seed.demo_info Seed.demo_infohash (str "up") (fun n => n) (fun _ => True) demo_config (demo_world true)
    ltac:(unfold Config.config_ok, max_int; cbn; lia)) as H.
  pose proof demo_boots as E.
  destruct (New _ _ _ _ _ _ _) as [[s|e] conns]; [|discriminate E].
  exists s. split; [reflexivity|]. destruct H as ((_ & _ & H & _) & _). exact H.
Defined.
End Boot.
