(* ===== verification/Showcase.v ===== *)
(** The showcase API of package [server] (src/resolver/internal/server/showcase.go):
    the commitment endpoint, publishing a page, and the cache invalidation.

    Decoding the JSON bodies, the error texts and the file system's outcomes are
    inputs of the handlers. *)
From S2P Require Import Prelude GoStrings Net Encoding Query Chain Cache Pki Zk Handle Torrent Seed Web Config.
Import Chain.

Local Open Scope Z_scope.

Module Showcase.

(** type commitRequest struct; the widths are those of its fields. *)
Record commitRequest := mkCommitRequest {
  c_Name : bytes; c_Type : bytes; c_Selector : bytes; c_TTL : Z; c_Generation : Z;
  c_FieldNames : list bytes; c_FieldValues : list bytes }.

(** type publishRequest struct *)
Record publishRequest := mkPublishRequest { p_Name : bytes; p_Selector : bytes; p_ContentType : bytes; p_Body : bytes }.

(** handleShowcaseConfig; an empty registry or incentives address is left out. *)
Definition omitempty (k v : bytes) : list (bytes * bytes) := if bool_decide (v = []) then [] else [(k, v)].
Definition handleShowcaseConfig (cfg : Config.Config) : Web.response :=
  Web.mkResponse 200 Web.json_headers (Web.PObject
    ([(str "namespaceDApp", Config.ContractAddress cfg); (str "recordSchemaRegistry", Config.RegistryAddress cfg)]
     ++ omitempty (str "resolverRegistry") (Config.ResolverRegistryAddress cfg)
     ++ omitempty (str "resolverIncentives") (Config.ResolverIncentivesAddress cfg)
     ++ [(str "rpcUrl", Config.RPCURL cfg); (str "restBase", [])])).

(** The record the handler commits to. *)
Definition commit_record (r : commitRequest) : Record :=
  mkRecord (c_Type r) (c_Selector r) (c_FieldNames r) (c_FieldValues r) (c_TTL r) (c_Generation r) [] zero_hash false.

Section Commit.
Context {SP : Pki.SortPairs} {St : Type} {MI : Zk.Mimc St}.
Variable zk_error_text : Zk.zk_error -> bytes.

(** handleShowcaseCommit *)
Definition handleShowcaseCommit (req : commitRequest + bytes) : go Empty_set Web.response :=
  match req with
  | inr msg => Ret (Web.writeError 400 (str "invalid_json") msg)
  | inl req =>
      if negb (Nat.eqb (length (c_FieldNames req)) (length (c_FieldValues req)))
      then Ret (Web.writeError 400 (str "field_mismatch") (str "fieldNames/fieldValues length mismatch"))
      else
        msg ← Pki.RecordMessage (c_Name req) (commit_record req);
        match Zk.Commitment msg with
        | Panic => Panic
        | Err e => Ret (Web.writeError 400 (str "commitment_error") (zk_error_text e))
        | Ret com =>
            Ret (Web.mkResponse 200 Web.json_headers
              (Web.PObject [(str "commitment", str "0x" ++ hex_encode com)]))
        end
  end.
End Commit.

(** showcaseUnsafeFilenameChars.ReplaceAllString(s, "_"): one rune at a time. *)
Definition safe_rune (r : Z) : bool :=
  in_range 97 122 r || in_range 65 90 r || in_range 48 57 r || (r =? 95) || (r =? 45).
Definition replace_unsafe (s : bytes) : bytes := map (fun r => if safe_rune r then z2b r else x5f) (runes s).

(** The file name: fmt.Sprintf("%s-%d.html", safeName, time.Now().UnixNano()). *)
Definition file_name (name selector : bytes) (nanos : Z) : bytes :=
  replace_unsafe (name ++ str "-" ++ selector) ++ str "-" ++ Itoa nanos ++ str ".html".

(** The state the handlers share: the cache, and the disk with the engine. *)
Record state (L : Type) := mkState { cache : Cache.TTLCache L; seeds : Seed.state }.
Arguments mkState {L} cache seeds.
Arguments cache {L} s.
Arguments seeds {L} s.

(** What os.WriteFile does: it writes the file, or fails and leaves something. *)
Inductive write_outcome := Written | WriteFailed (msg : bytes) (part : option bytes).

Definition with_disk (d : gmap bytes bytes) (st : Seed.state) : Seed.state :=
  Seed.mkState d (Seed.engine st) (Seed.client st).

Section Publish.
Context {L : Type} {LO : Cache.LruOps Cache.Key (Cache.entry ResolveResult) L}.
Variable nameHash : bytes -> bytes.
Variable Sum256 : bytes -> bytes.
Variable build_info : bytes -> bytes -> option bytes.
Variable HashInfoBytes : bytes -> bytes.
Variable seed_error_text : Seed.seed_error -> bytes.
Variable uploads : bytes.    (* filepath.Join(s.cfg.DataDir, "uploads") *)

(** handleShowcasePublish; [mkdir] is the error of os.MkdirAll. *)
Definition handleShowcasePublish (bt : bool) (req : publishRequest + bytes) (mkdir : option bytes) (nanos : Z)
    (write : write_outcome) (got : bool) (s : state L) : Web.response * state L :=
  if negb bt
  then (Web.writeError 503 (str "resource_engine_unavailable") (str "BitTorrent engine is not enabled"), s)
  else
    match req with
    | inr msg => (Web.writeError 400 (str "invalid_json") msg, s)
    | inl req =>
        if bool_decide (p_Name req = []) || bool_decide (p_Body req = [])
        then (Web.writeError 400 (str "missing_fields") (str "name and body are required"), s)
        else
          match mkdir with
          | Some msg => (Web.writeError 500 (str "storage_error") msg, s)
          | None =>
              let path := Seed.in_dir uploads (file_name (p_Name req) (p_Selector req) nanos) in
              match write with
              | WriteFailed msg part =>
                  (Web.writeError 500 (str "storage_error") msg,
                   mkState (cache s)
                     (match part with Some b => with_disk (<[path := b]> (Seed.disk (seeds s))) (seeds s) | None => seeds s end))
              | Written =>
                  let st := with_disk (<[path := p_Body req]> (Seed.disk (seeds s))) (seeds s) in
                  let '(res, st) := Seed.SeedFile Sum256 build_info HashInfoBytes path got st in
                  match res with
                  | inr e => (Web.writeError 502 (str "seed_failed") (seed_error_text e), mkState (cache s) st)
                  | inl (infoHash, sha) =>
                      (Web.mkResponse 200 Web.json_headers
                         (Web.PObject [(str "infoHash", infoHash); (str "sha256", sha)]),
                       mkState (Cache.InvalidateName nameHash (p_Name req) (cache s)) st)
                  end
              end
          end
    end.

(** handleShowcaseInvalidate *)
Definition handleShowcaseInvalidate (p : Web.values) (s : state L) : Web.response * state L :=
  let name := Web.vget p (str "name") in
  let c := if negb (bool_decide (name = [])) then Cache.InvalidateName nameHash name (cache s)
           else Cache.Flush nameHash (cache s) in
  (Web.mkResponse 200 Web.json_headers (Web.PObject [(str "status", str "ok")]), mkState c (seeds s)).
End Publish.

(** * File names *)

(** The bytes of a published file's name: no path separator among them. *)
Definition file_byte (b : byte) : bool := safe_rune (b2z b) || bool_decide (b = x2e).

Lemma replace_unsafe_safe s : Forall (fun b => safe_rune (b2z b) = true) (replace_unsafe s).
Proof.
  unfold replace_unsafe. apply Forall_map, Forall_true. intros r. destruct (safe_rune r) eqn:E; [|done].
  rewrite b2z_z2b, Z.mod_small; [done|]. unfold safe_rune, in_range in E.
  repeat apply orb_true_iff in E as [E|E]; try apply andb_true_iff in E; lia.
Qed.

Lemma digit_safe b : is_digit b = true -> file_byte b = true.
Proof. by destruct b. Qed.

Lemma replace_unsafe_head b s : exists c t, replace_unsafe (b :: s) = c :: t /\ safe_rune (b2z c) = true.
Proof.
  pose proof (replace_unsafe_safe (b :: s)) as H. unfold replace_unsafe, runes in *. cbn [runes_skip] in *.
  destruct (decode_rune b s) as [r w]. cbn [map] in *. apply Forall_cons in H as [H _]. eauto.
Qed.

Lemma file_name_ok name selector nanos :
  name <> [] -> 0 <= nanos <= max_int ->
  x2f ∉ file_name name selector nanos /\ Seed.hidden (file_name name selector nanos) = false.
Proof.
  intros Hname Hn. unfold file_name. split.
  - intros Hin. cut (Forall (fun b => file_byte b = true) (replace_unsafe (name ++ str "-" ++ selector) ++ str "-" ++ Itoa nanos ++ str ".html")).
    { rewrite Forall_forall. intros Hf. by apply Hf in Hin. }
    apply Forall_app. split; [|apply Forall_app; split; [by repeat constructor|]; apply Forall_app; split; [|by repeat constructor]].
    + eapply Forall_impl; [apply replace_unsafe_safe|]. intros b Hb. unfold file_byte. cbn in Hb. by rewrite Hb.
    + unfold Itoa, max_int in *. rewrite (proj2 (Z.ltb_ge _ _)) by lia.
      destruct (dec_digits_ok 19 nanos) as (_ & Hd & _); [change (10 ^ Z.of_nat 19) with 10000000000000000000; lia|lia|].
      rewrite forallb_forall in Hd. apply Forall_forall. intros b Hb. apply digit_safe, Hd. by apply list_elem_of_In.
  - destruct name as [|b name]; [done|]. destruct (replace_unsafe_head b (name ++ str "-" ++ selector)) as (c & t & E & Hc).
    cbn [app]. rewrite E. cbn [app Seed.hidden]. apply bool_decide_eq_false_2. by intros ->.
Qed.

(** * What the endpoints promise *)

(** The message of a request: what the owner would sign for such a record. *)
Definition request_message {SP : Pki.SortPairs} (r : commitRequest) : bytes :=
  Pki.message_of (c_Name r) (commit_record r) (Pki.sort_pairs (Pki.fields (commit_record r))).

(** The record on chain has the payload of the request. *)
Definition same_payload (r : commitRequest) (rec : Record) : Prop :=
  Type_ rec = c_Type r /\ Selector rec = c_Selector r /\ FieldNames rec = c_FieldNames r
  /\ FieldVals rec = c_FieldValues r /\ TTL rec = c_TTL r /\ Generation rec = c_Generation r.

Lemma same_payload_message {SP : Pki.SortPairs} {E} r rec :
  length (c_FieldNames r) = length (c_FieldValues r) -> same_payload r rec ->
  Pki.RecordMessage (E := E) (c_Name r) rec = Ret (request_message r).
Proof.
  intros Hl (H1 & H2 & H3 & H4 & H5 & H6). apply Pki.RecordMessage_Ret. unfold request_message, Pki.message_of, Pki.fields.
  cbn [commit_record FieldNames FieldVals Type_ Selector TTL Generation]. rewrite H1, H2, H3, H4, H5, H6. split; [lia|done].
Qed.

(** A commitment handed out by the showcase is one the resolver can prove: for
    every record on chain with the requested payload that carries it, whatever its
    signature, proveRecord goes on to the prover. A request that decodes is refused,
    with 400, exactly if its fields do not pair up or its payload is longer than
    496 bytes; the handler never panics. *)
Theorem commitment_is_provable {SP : Pki.SortPairs} {St : Type} {MI : Zk.Mimc St} {MIL : Zk.MimcLaws St}
    {CCS PK VK Wit PubWit : Type} {GR : Zk.Groth16 CCS PK VK Wit PubWit} artifact zk_error_text r :
  let ok := length (c_FieldNames r) = length (c_FieldValues r) /\ (length (request_message r) <= 496)%nat in
  exists resp, handleShowcaseCommit zk_error_text (inl r) = Ret resp
    /\ (Web.status resp = 200 <-> ok) /\ (Web.status resp = 400 <-> ~ ok)
    /\ (ok -> exists com,
         Web.body_of resp = Web.PObject [(str "commitment", str "0x" ++ hex_encode com)]
         /\ forall rec, same_payload r rec -> Commitment rec = com -> com <> zero_hash ->
              Handle.proveRecord artifact (c_Name r) rec
              = match (Zk.Prove artifact (request_message r) ≫= Zk.SolidityCalldata) with Ret data => data | _ => [] end).
Proof.
  cbv zeta. cbn [handleShowcaseCommit].
  destruct (Nat.eqb_spec (length (c_FieldNames r)) (length (c_FieldValues r))) as [Hl|Hl]; cbn [negb].
  2: { eexists. split; [done|]. cbn. naive_solver. }
  rewrite (same_payload_message r (commit_record r) Hl) by done. cbn [mbind go_bind].
  pose proof (Zk.Commitment_cases (request_message r)) as Hc. case_decide as Hlen.
  2: { rewrite Hc. eexists. split; [done|]. cbn. naive_solver. }
  destruct Hc as [com Hc]. rewrite Hc. eexists. split; [done|]. split; [done|]. split; [cbn; naive_solver|].
  intros _. exists com. split; [done|]. intros rec Hrec Hcom Hz.
  unfold Handle.proveRecord. rewrite bool_decide_eq_false_2 by congruence.
  destruct (decide _) as [same|Hne]; [|exfalso; apply Hne; by destruct Hrec as (_ & _ & -> & -> & _)].
  pose proof (no_panic_spec (Handle.record_proof artifact (c_Name r) rec) (Handle.record_proof_no_panic artifact (c_Name r) rec same)) as H0.
  unfold Handle.record_proof in H0 at 1. rewrite (same_payload_message r rec Hl Hrec) in H0. cbn [mbind go_bind] in H0.
  rewrite Hc in H0. cbn [mbind go_bind] in H0. rewrite bool_decide_eq_true_2 in H0 by done. cbn [negb] in H0.
  transitivity (match (match no_panic (Handle.record_proof artifact (c_Name r) rec) (Handle.record_proof_no_panic artifact (c_Name r) rec same) with
    | inl a => Ret a | inr e => Err e end) with Ret data => data | _ => [] end); [by destruct (no_panic _ _)|by rewrite <- H0].
Qed.

(** C37. Publishing a page writes one file, whose name holds no path separator and is
    not hidden whatever name and selector the request has; the SHA-256 it returns
    is that of the page, the page is seeded and every boot seeds it again; every
    cached answer of the domain is dropped and no other. When publishing fails the
    cache is as before. *)
Theorem publish_page {L : Type} {LO : Cache.LruOps Cache.Key (Cache.entry ResolveResult) L}
    {LL : Cache.LruLaws Cache.Key (Cache.entry ResolveResult) L} nameHash U Sum256 build_info HashInfoBytes seed_error_text
    uploads bt req mkdir nanos write got (s s' : state L) resp :
  (forall a b, U a -> U b -> nameHash a = nameHash b -> a = b) -> 0 <= nanos <= max_int ->
  Cache.cache_inv nameHash U (cache s) ->
  handleShowcasePublish nameHash Sum256 build_info HashInfoBytes seed_error_text uploads bt req mkdir nanos write got s
    = (resp, s') ->
  if Web.status resp =? 200 then
    exists r f ih, req = inl r /\ f = file_name (p_Name r) (p_Selector r) nanos
      /\ x2f ∉ f /\ Seed.hidden f = false
      /\ Seed.disk (seeds s') = <[Seed.in_dir uploads f := p_Body r]> (Seed.disk (seeds s))
      /\ Web.body_of resp = Web.PObject [(str "infoHash", ih); (str "sha256", hex_encode (Sum256 (p_Body r)))]
      /\ Seed.seeded build_info HashInfoBytes (Seed.in_dir uploads f) (p_Body r) (seeds s')
      /\ (forall k, Cache.entries (cache s') !! k
           = if decide (Cache.Name k = p_Name r) then None else Cache.entries (cache s) !! k)
      /\ (forall boot es got', Seed.disk boot = Seed.disk (seeds s') -> (f, false) ∈ es -> got' f = true ->
           Seed.seeded build_info HashInfoBytes (Seed.in_dir uploads f) (p_Body r)
             (Seed.autoSeedUploads Sum256 build_info HashInfoBytes true uploads (Some es) got' boot))
  else cache s' = cache s.
Proof.
  intros Hinj Hn Hc. unfold handleShowcasePublish. destruct bt; cbn [negb]; [|by intros [= <- <-]].
  destruct req as [r|msg]; [|by intros [= <- <-]].
  destruct (bool_decide_reflect (p_Name r = [])) as [|Hname]; [by intros [= <- <-]|].
  destruct (bool_decide (p_Body r = [])); cbn [orb]; [by intros [= <- <-]|].
  destruct mkdir; [by intros [= <- <-]|]. destruct write; [|by intros [= <- <-]].
  set (f := file_name (p_Name r) (p_Selector r) nanos).
  set (st := with_disk (<[Seed.in_dir uploads f := p_Body r]> (Seed.disk (seeds s))) (seeds s)).
  destruct (Seed.SeedFile Sum256 build_info HashInfoBytes (Seed.in_dir uploads f) got st) as [[[ih sha]|e] st'] eqn:Es;
    [|by intros [= <- <-]].
  intros [= <- <-]. cbn [Web.status Z.eqb Pos.eqb cache seeds].
  destruct (Seed.SeedFile_ok Sum256 build_info HashInfoBytes (Seed.in_dir uploads f) got st ih sha) as (content & info & Hd & Hi & -> & -> & Hs);
    [by rewrite Es|]. rewrite Es in Hs. cbn [snd] in Hs.
  destruct (Seed.SeedFile_keeps Sum256 build_info HashInfoBytes (Seed.in_dir uploads f) got st) as [Hdisk _].
  rewrite Es in Hdisk. cbn [snd] in Hdisk.
  assert (content = p_Body r) as -> by (unfold st in Hd; cbn in Hd; rewrite lookup_insert_eq in Hd; by injection Hd).
  destruct (file_name_ok (p_Name r) (p_Selector r) nanos Hname Hn) as [Hf1 Hf2].
  destruct (Cache.InvalidateName_inv nameHash U Hinj (p_Name r) (cache s) Hc) as (_ & _ & Hk).
  exists r, f, (hex_encode (HashInfoBytes info)). split_and!; try done.
  intros boot es got' Hb Hin Hg. apply (Seed.autoSeedUploads_seeds _ _ _ uploads es got' boot f (p_Body r)); try done.
  rewrite Hb, Hdisk. apply lookup_insert_eq.
Qed.

(** * Concrete requests *)
#[local] Existing Instances Pki.merge_sort_pairs Zk.toy_mimc Zk.toy_mimc_laws Zk.toy_groth.
Definition demo_commit : commitRequest :=
  mkCommitRequest (str "alice") (str "A") [] 300 2 [str "ttl-hint"; str "ip"] [str "1"; str "10.0.0.1"].

Lemma commitment_is_provable_witness :
  exists resp, handleShowcaseCommit (fun _ => []) (inl demo_commit) = Ret resp
    /\ exists com, Web.body_of resp = Web.PObject [(str "commitment", str "0x" ++ hex_encode com)].
Proof.
  destruct (commitment_is_provable (GR := Zk.toy_groth) Handle.demo_artifact (fun _ => []) demo_commit)
    as (resp & H1 & _ & _ & H2).
  exists resp. split; [exact H1|]. destruct H2 as (com & H2 & _); [|by exists com].
  split; [reflexivity|]. vm_compute. lia.
Defined.

Definition demo_publish : publishRequest := mkPublishRequest (str "../alice") (str "lang=en") (str "text/html") (str "<html>").
Definition demo_store : state Handle.demo_lru := mkState Handle.demo_cache (Seed.mkState ∅ Torrent.new_engine ∅).
Definition demo_published :=
  handleShowcasePublish (fun n => n) Torrent.demo_sum256 Seed.demo_info Seed.demo_infohash (fun _ => []) (str "data/uploads")
    true (inl demo_publish) None 1700000000000000000 Written true demo_store.

Example demo_published_path :
  map fst (map_to_list (Seed.disk (seeds demo_published.2))) = [str "data/uploads/___alice-lang_en-1700000000000000000.html"].
Proof. vm_compute. reflexivity. Qed.

Lemma demo_published_pair : demo_published = (demo_published.1, demo_published.2).
Proof. apply surjective_pairing. Qed.

Lemma demo_published_status : (Web.status demo_published.1 =? 200) = true.
Proof. vm_refl. Qed.

Lemma demo_file_name :
  file_name (p_Name demo_publish) (p_Selector demo_publish) 1700000000000000000 = str "___alice-lang_en-1700000000000000000.html".
Proof. vm_refl. Qed.

Lemma publish_page_witness :
  Seed.seeded Seed.demo_info Seed.demo_infohash
    (str "data/uploads/___alice-lang_en-1700000000000000000.html") (str "<html>") (seeds demo_published.2).
Proof.
  assert (Cache.New 8 = Some Handle.demo_cache) as Hn by reflexivity.
  apply (Cache.New_inv (fun n => n) (fun _ => True)) in Hn as [Hc _].
  pose proof (publish_page (fun n => n) (fun _ => True) Torrent.demo_sum256 Seed.demo_info Seed.demo_infohash (fun _ => [])
    (str "data/uploads") true (inl demo_publish) None 1700000000000000000 Written true demo_store demo_published.2 demo_published.1
    (fun _ _ _ _ e => e) ltac:(unfold max_int; lia) Hc demo_published_pair) as H.
  rewrite demo_published_status in H. destruct H as (r & f & ih & [= <-] & -> & _ & _ & _ & _ & H & _).
  rewrite demo_file_name in H. exact H.
Defined.
End Showcase.
