(* ===== verification/System.v ===== *)
(** The resolver with its queries running concurrently: HandleQuery of
    src/resolver/internal/server/handle.go split at the points where another
    goroutine can run, next to the event watcher that Server.Run (server.go) feeds
    into the cache, and the invalidations of the showcase (showcase.go).

    A query looks its key up, asks the chain, and stores the answer: three atomic
    steps, since the cache takes its mutex in Get and in Set and not in between.
    The steps of all goroutines interleave in any order; [step] is the transition
    relation, labelled with what each step did, and [exec] the scheduler that
    computes it. *)
From S2P Require Import Prelude GoStrings Encoding Query Chain Cache Pki Zk Handle.
Import Chain.

Local Open Scope Z_scope.

(** The elements [f] keeps, located in the list they come from. *)
Lemma omap_app_cons_inv {A B} (f : A -> option B) l l1 b l2 :
  omap f l = l1 ++ b :: l2 ->
  exists k1 a k2, l = k1 ++ a :: k2 /\ f a = Some b /\ omap f k1 = l1 /\ omap f k2 = l2.
Proof.
  revert l1. induction l as [|x l IH]; intros l1 H; cbn in H; [by destruct l1|].
  destruct (f x) as [y|] eqn:Ef; [destruct l1 as [|y1 l1]|]; cbn in H.
  - injection H as -> <-. by exists [], x, l.
  - injection H as -> H. destruct (IH _ H) as (k1 & a & k2 & -> & Ha & <- & <-).
    exists (x :: k1), a, k2. cbn. by rewrite Ef.
  - destruct (IH _ H) as (k1 & a & k2 & -> & Ha & <- & <-). exists (x :: k1), a, k2. cbn. by rewrite Ef.
Qed.

(** Where one element of a list stands with respect to two others. *)
Lemma app_cons_three {A} (l1 : list A) l l2 pre a mid b post :
  l1 ++ l :: l2 = pre ++ a :: mid ++ b :: post -> l <> a -> l <> b -> l ∉ post ->
  (exists k, pre = l1 ++ l :: k /\ l2 = k ++ a :: mid ++ b :: post)
  \/ (exists m1 m2, mid = m1 ++ l :: m2 /\ l1 = pre ++ a :: m1 /\ l2 = m2 ++ b :: post).
Proof.
  intros H Ha Hb Hpost. apply app_eq_inv in H as [(k & -> & H)|(k & -> & H)].
  2: { destruct k as [|x k]; [by injection H as ->|]. injection H as -> ->. left. eauto. }
  destruct k as [|x k]; [by injection H as ->|]. injection H as -> H. right.
  apply app_eq_inv in H as [(k' & -> & H)|(k' & -> & H)].
  - destruct k' as [|y k']; simplify_eq/=. eauto.
  - destruct k' as [|y k']; simplify_eq/=. exfalso. apply Hpost. set_solver.
Qed.

Module System.

(** Where a goroutine serving a query stands: it missed the cache, it holds an
    answer it is about to store, or it has returned. *)
Inductive phase (Er : Type) :=
| Missed (q : Query.Query)
| Pending (q : Query.Query) (res : ResolveResult)
| Done (q : Query.Query) (ans : Handle.QueryResult + Er).
Arguments Missed {Er} q.
Arguments Pending {Er} q res.
Arguments Done {Er} q ans.

Lemma query_key_inj q1 q2 : Handle.query_key q1 = Handle.query_key q2 -> q1 = q2.
Proof. destruct q1, q2. by intros [= -> -> ->]. Qed.

Definition query_of {Er} (p : phase Er) : Query.Query :=
  match p with Missed q | Pending q _ | Done q _ => q end.

Section System.
Context {SP : Pki.SortPairs} {Priv Pub : Type} {EC : Pki.EthCrypto Priv Pub}.
Context {St : Type} {MI : Zk.Mimc St} {CCS PK VK Wit PubWit : Type} {GR : Zk.Groth16 CCS PK VK Wit PubWit}.
Context {L : Type} {LO : Cache.LruOps Cache.Key (Cache.entry ResolveResult) L}.
Context {W Er : Type} {CR : ChainReader W Er} {HX : Encoding.Hexutil}.
Variable artifact : bytes -> option bytes.
Variable nameHash : bytes -> bytes.

Abbreviation vet := (Handle.vet artifact).
Abbreviation HandleQuery := (Handle.HandleQuery artifact nameHash).
Abbreviation vetted := (Handle.vetted artifact).

(** The shared state and the goroutines, by number. *)
Record sys := mkSys {
  sys_cache : Cache.TTLCache L;
  sys_world : W;
  sys_threads : gmap nat (phase Er);
}.
Definition boot (c : Cache.TTLCache L) (w : W) : sys := mkSys c w ∅.
Definition set_thread (t : nat) (p : phase Er) (s : sys) : sys :=
  mkSys (sys_cache s) (sys_world s) (<[t := p]> (sys_threads s)).
Definition with_cache (c : Cache.TTLCache L) (s : sys) : sys := mkSys c (sys_world s) (sys_threads s).

(** HandleQuery from the answer of the chain up to the Set, if it comes to one. *)
Definition after_read (q : Query.Query) (ans : ResolveResult + Er) : phase Er :=
  match ans with
  | inr e => Done q (inr e)
  | inl res =>
      if Exists (RR_Record res) then
        let res := vet (Query.Name q) res in
        if 0 <? TTL (RR_Record res) then Pending q res else Done q (inl (Handle.mkQueryResult res false))
      else Done q (inl (Handle.mkQueryResult res false))
  end.

Lemma after_read_inl q res :
  after_read q (inl res) =
    if Exists (RR_Record res) && (0 <? TTL (RR_Record res)) then Pending q (vet (Query.Name q) res)
    else Done q (inl (Handle.mkQueryResult (if Exists (RR_Record res) then vet (Query.Name q) res else res) false)).
Proof. unfold after_read. by destruct (Exists (RR_Record res)). Qed.

(** What one step did. *)
Inductive label :=
| LLookup (t : nat) (q : Query.Query) (now : Z) (hit : option ResolveResult)   (* s.cache.Get *)
| LRead (t : nat) (q : Query.Query) (ans : ResolveResult + Er)                  (* s.chain.Resolve *)
| LStore (t : nat) (q : Query.Query) (res : ResolveResult) (now : Z)            (* s.cache.Set, return *)
| LEvent (ev : RecordEvent)                                                     (* the watcher's handler *)
| LInvalidate (name : bytes)                                                    (* showcase: one name *)
| LFlush                                                                        (* showcase: everything *)
| LWorld (w : W).                                                               (* the chain moves *)

Inductive step (s : sys) : label -> sys -> Prop :=
| step_hit t q now res c :
    sys_threads s !! t = None ->
    Cache.Get nameHash (Handle.query_key q) now (sys_cache s) = (Some res, c) ->
    step s (LLookup t q now (Some res))
      (set_thread t (Done q (inl (Handle.mkQueryResult res true))) (with_cache c s))
| step_miss t q now c :
    sys_threads s !! t = None ->
    Cache.Get nameHash (Handle.query_key q) now (sys_cache s) = (None, c) ->
    step s (LLookup t q now None) (set_thread t (Missed q) (with_cache c s))
| step_read t q ans w :
    sys_threads s !! t = Some (Missed q) ->
    cr_Resolve (Query.Name q) (Query.Type_ q) (Query.Selector q) (sys_world s) = (ans, w) ->
    step s (LRead t q ans) (set_thread t (after_read q ans) (mkSys (sys_cache s) w (sys_threads s)))
| step_store t q res now :
    sys_threads s !! t = Some (Pending q res) ->
    step s (LStore t q res now)
      (set_thread t (Done q (inl (Handle.mkQueryResult res false)))
        (with_cache (Cache.Set_ nameHash (Handle.query_key q) res (Handle.ttl_duration (TTL (RR_Record res))) now
           (sys_cache s)) s))
| step_event ev : step s (LEvent ev) (with_cache (Cache.HandleEvent nameHash ev (sys_cache s)) s)
| step_invalidate n : step s (LInvalidate n) (with_cache (Cache.InvalidateName nameHash n (sys_cache s)) s)
| step_flush : step s LFlush (with_cache (Cache.Flush nameHash (sys_cache s)) s)
| step_world w : step s (LWorld w) (mkSys (sys_cache s) w (sys_threads s)).

(** Runs, the last step last. *)
Inductive steps (s : sys) : list label -> sys -> Prop :=
| steps_nil : steps s [] s
| steps_snoc ls s1 l s2 : steps s ls s1 -> step s1 l s2 -> steps s (ls ++ [l]) s2.

(** * The scheduler *)
Inductive action :=
| ALookup (t : nat) (q : Query.Query) (now : Z)
| AAdvance (t : nat) (now : Z)
| AEvent (ev : RecordEvent) | AInvalidate (name : bytes) | AFlush | AWorld (w : W).

Definition exec (a : action) (s : sys) : option (label * sys) :=
  match a with
  | ALookup t q now =>
      match sys_threads s !! t with
      | Some _ => None
      | None =>
          let '(hit, c) := Cache.Get nameHash (Handle.query_key q) now (sys_cache s) in
          Some (LLookup t q now hit,
                set_thread t (match hit with Some res => Done q (inl (Handle.mkQueryResult res true)) | None => Missed q end)
                  (with_cache c s))
      end
  | AAdvance t now =>
      match sys_threads s !! t with
      | Some (Missed q) =>
          let '(ans, w) := cr_Resolve (Query.Name q) (Query.Type_ q) (Query.Selector q) (sys_world s) in
          Some (LRead t q ans, set_thread t (after_read q ans) (mkSys (sys_cache s) w (sys_threads s)))
      | Some (Pending q res) =>
          Some (LStore t q res now,
            set_thread t (Done q (inl (Handle.mkQueryResult res false)))
              (with_cache (Cache.Set_ nameHash (Handle.query_key q) res
                 (Handle.ttl_duration (TTL (RR_Record res))) now (sys_cache s)) s))
      | _ => None
      end
  | AEvent ev => Some (LEvent ev, with_cache (Cache.HandleEvent nameHash ev (sys_cache s)) s)
  | AInvalidate n => Some (LInvalidate n, with_cache (Cache.InvalidateName nameHash n (sys_cache s)) s)
  | AFlush => Some (LFlush, with_cache (Cache.Flush nameHash (sys_cache s)) s)
  | AWorld w => Some (LWorld w, mkSys (sys_cache s) w (sys_threads s))
  end.

Definition exec_all (acts : list action) (s : sys) : option (list label * sys) :=
  fold_left (fun o a => '(ls, s) ← o; '(l, s) ← exec a s; Some (ls ++ [l], s)) acts (Some ([], s)).

Lemma exec_step a s l s' : exec a s = Some (l, s') -> step s l s'.
Proof.
  destruct a as [t q now|t now|ev|n| |w]; cbn [exec].
  - destruct (sys_threads s !! t) eqn:Et; [done|].
    destruct (Cache.Get _ _ _ _) as [[res|] c] eqn:Eg; intros [= <- <-]; by constructor.
  - destruct (sys_threads s !! t) as [[q|q res|q ans]|] eqn:Et; [|intros [= <- <-]; by constructor|done..].
    destruct (cr_Resolve _ _ _ _) as [ans w] eqn:Ers. intros [= <- <-]. by constructor.
  - intros [= <- <-]. constructor.
  - intros [= <- <-]. constructor.
  - intros [= <- <-]. constructor.
  - intros [= <- <-]. constructor.
Qed.

Lemma exec_all_steps acts s ls s' : exec_all acts s = Some (ls, s') -> steps s ls s'.
Proof.
  unfold exec_all. revert ls s'. induction acts as [|a acts IH] using rev_ind; intros ls s'; cbn [fold_left].
  - intros [= <- <-]. constructor.
  - rewrite fold_left_app. cbn [fold_left].
    destruct (fold_left _ acts _) as [[ls1 s1]|]; [|done]. cbn.
    destruct (exec a s1) as [[l s2]|] eqn:E; [|done]. cbn. intros [= <- <-].
    econstructor; [by apply IH|by eapply exec_step].
Qed.

(** The state a schedule ends in. *)
Definition end_of (acts : list action) (s : sys) : sys := default s (snd <$> exec_all acts s).

Lemma end_of_steps acts s ls : fst <$> exec_all acts s = Some ls -> steps s ls (end_of acts s).
Proof.
  unfold end_of. destruct (exec_all acts s) as [[ls' s']|] eqn:E; [|done]. intros [= <-]. by eapply exec_all_steps.
Qed.

Lemma exec_fst_step a s l : fst <$> exec a s = Some l -> step s l (default s (snd <$> exec a s)).
Proof. destruct (exec a s) as [[l' s']|] eqn:E; [|done]. intros [= <-]. by eapply exec_step. Qed.

(** * Runs as traces of the cache *)

Definition thread_of (l : label) : option nat :=
  match l with LLookup t _ _ _ | LRead t _ _ | LStore t _ _ _ => Some t | _ => None end.

Definition cache_op (l : label) : option (Cache.op ResolveResult) :=
  match l with
  | LLookup _ q now _ => Some (Cache.OGet (Handle.query_key q) now)
  | LStore _ q res now =>
      Some (Cache.OSet (Handle.query_key q) res (Handle.ttl_duration (TTL (RR_Record res))) now)
  | LEvent ev => Some (Cache.OEvent ev)
  | LInvalidate n => Some (Cache.OInvalidate n)
  | LFlush => Some Cache.OFlush
  | LRead _ _ _ | LWorld _ => None
  end.

(** The labels that take the entry of [k] out of the cache for being stale. *)
Definition invalidates (l : label) (k : Cache.Key) : bool :=
  match l with
  | LEvent ev => Cache.event_hits nameHash ev k
  | LInvalidate n => bool_decide (Cache.Name k = n)
  | LFlush => true
  | _ => false
  end.

Lemma step_cache s l s' :
  step s l s' ->
  sys_cache s' = match cache_op l with Some o => Cache.step nameHash o (sys_cache s) | None => sys_cache s end.
Proof. intros H. inversion H as [? ? ? ? ? ? Hg|? ? ? ? ? Hg| | | | | |]; subst; cbn; by rewrite ?Hg. Qed.

Lemma steps_cache s ls s' :
  steps s ls s' -> sys_cache s' = Cache.run nameHash (omap cache_op ls) (sys_cache s).
Proof.
  induction 1 as [|ls s1 l s2 _ IH Hl]; [done|]. rewrite (step_cache _ _ _ Hl), IH.
  unfold Cache.run. rewrite omap_app, fold_left_app. cbn. by destruct (cache_op l).
Qed.

Lemma step_det s l s1 s2 : step s l s1 -> step s l s2 -> s1 = s2.
Proof.
  destruct 1; inversion 1; subst; try done; congruence.
Qed.

Lemma steps_nil_inv s s' : steps s [] s' -> s' = s.
Proof.
  intros H. remember ([] : list label) as ls eqn:E. destruct H as [|ls ? ? ? _ _]; [done|by destruct ls].
Qed.

Lemma steps_snoc_inv s ls l s' : steps s (ls ++ [l]) s' -> exists s1, steps s ls s1 /\ step s1 l s'.
Proof.
  intros H. remember (ls ++ [l]) as ls' eqn:E. destruct H as [|ls0 s1 l0 s2 Hs Hl]; [by destruct ls|].
  apply app_inj_tail in E as [-> ->]. eauto.
Qed.

Lemma steps_app_inv s ls1 ls2 s' :
  steps s (ls1 ++ ls2) s' -> exists s1, steps s ls1 s1 /\ steps s1 ls2 s'.
Proof.
  revert s'. induction ls2 as [|l ls2 IH] using rev_ind; intros s' H.
  - rewrite app_nil_r in H. exists s'. split; [done|constructor].
  - rewrite app_assoc in H. apply steps_snoc_inv in H as (s2 & Hs & Hl).
    destruct (IH _ Hs) as (s1 & Ha & Hb). exists s1. split; [done|]. by econstructor.
Qed.

Lemma steps_cons_inv s l ls s' : steps s (l :: ls) s' -> exists s1, step s l s1 /\ steps s1 ls s'.
Proof.
  intros H. change (l :: ls) with ([l] ++ ls) in H. apply steps_app_inv in H as (s1 & H1 & H2).
  exists s1. split; [|done]. by apply (steps_snoc_inv s []) in H1 as (s0 & ->%steps_nil_inv & Hl).
Qed.

Lemma steps_det s ls s1 s2 : steps s ls s1 -> steps s ls s2 -> s1 = s2.
Proof.
  intros H. revert s2. induction H as [|ls s1 l s1' _ IH Hl]; intros s2 H2.
  - by apply steps_nil_inv in H2.
  - apply steps_snoc_inv in H2 as (s3 & <-%IH & Hl2). by eapply step_det.
Qed.

(** A step moves no thread but its own. *)
Lemma step_frame s l s' t : step s l s' -> thread_of l <> Some t -> sys_threads s' !! t = sys_threads s !! t.
Proof. intros H Ht. inversion H; subst; cbn in *; rewrite ?lookup_insert_ne by congruence; done. Qed.

Lemma steps_frame s ls s' t :
  steps s ls s' -> Forall (fun l => thread_of l <> Some t) ls -> sys_threads s' !! t = sys_threads s !! t.
Proof.
  induction 1 as [|ls s1 l s2 _ IH Hl]; intros Hf; [done|]. apply Forall_app in Hf as [Hf [Ht _]%Forall_cons].
  rewrite (step_frame _ _ _ _ Hl Ht). by apply IH.
Qed.

(** * One query on its own *)

(** A query that no other goroutine interleaves with does what HandleQuery
    does: from any state, its own steps lead to the answer, the cache and the
    world that HandleQuery computes. *)
Theorem query_alone s t q t_get t_set :
  sys_threads s !! t = None ->
  exists ls s', steps s ls s' /\ Forall (fun l => thread_of l = Some t) ls /\
    let '(ans, sv) := HandleQuery q t_get t_set (Handle.mkServer (sys_cache s) (sys_world s)) in
    s' = mkSys (Handle.sv_cache sv) (Handle.sv_world sv) (<[t := Done q ans]> (sys_threads s)).
Proof.
  intros Ht. unfold Handle.HandleQuery. cbn [Handle.sv_cache Handle.sv_world].
  destruct (Cache.Get nameHash (Handle.query_key q) t_get (sys_cache s)) as [[res|] c] eqn:Eg.
  { eexists ([] ++ [_]), _. split; [econstructor; [constructor|by apply (step_hit s t q t_get res c)]|]. by repeat constructor. }
  destruct (cr_Resolve (Query.Name q) (Query.Type_ q) (Query.Selector q) (sys_world s)) as [ans w] eqn:Ers.
  set (s1 := set_thread t (Missed q) (with_cache c s)).
  set (s2 := set_thread t (after_read q ans) (mkSys (sys_cache s1) w (sys_threads s1))).
  assert (steps s [LLookup t q t_get None; LRead t q ans] s2) as H2.
  { apply (steps_snoc _ [_] s1); [apply (steps_snoc _ [] s); [constructor|by constructor]|].
    constructor; [apply lookup_insert_eq|done]. }
  assert (forall p, after_read q ans = p -> s2 = mkSys c w (<[t := p]> (sys_threads s))) as Hend.
  { intros p <-. unfold s2, s1, set_thread, with_cache. cbn [sys_cache sys_world sys_threads]. by rewrite insert_insert_eq. }
  assert (Forall (fun l => thread_of l = Some t) [LLookup t q t_get None; LRead t q ans]) as Hth by (by repeat constructor).
  destruct ans as [res|e]; [|exists [LLookup t q t_get None; LRead t q (inr e)], s2; split; [exact H2|]; split; [done|by apply Hend]].
  destruct (Exists (RR_Record res)) eqn:Ex.
  2: { exists [LLookup t q t_get None; LRead t q (inl res)], s2. split; [exact H2|]. split; [done|]. apply Hend. cbn. by rewrite Ex. }
  cbv zeta. change (RR_Record (vet (Query.Name q) res)) with (RR_Record res).
  pose proof (after_read_inl q res) as Ha. rewrite Ex in Ha.
  destruct (0 <? TTL (RR_Record res)) eqn:Et; cbn [andb] in Ha.
  2: { exists [LLookup t q t_get None; LRead t q (inl res)], s2. split; [exact H2|]. split; [done|by apply Hend]. }
  eexists ([LLookup t q t_get None; LRead t q (inl res)] ++ [LStore t q (vet (Query.Name q) res) t_set]), _.
  split; [econstructor; [exact H2|apply step_store]|split; [by repeat constructor|]].
  - rewrite (Hend _ Ha). apply lookup_insert_eq.
  - rewrite (Hend _ Ha). unfold set_thread, with_cache. cbn [sys_cache sys_world sys_threads]. by rewrite insert_insert_eq.
Qed.

(** * Any interleaving *)

Context {LL : Cache.LruLaws Cache.Key (Cache.entry ResolveResult) L}.
Variable U : bytes -> Prop.
Hypothesis nameHash_inj : forall a b, U a -> U b -> nameHash a = nameHash b -> a = b.

(** The names queried are among those keccak256 keeps apart. *)
Definition label_ok (l : label) : Prop :=
  match l with LLookup _ q _ _ => U (Query.Name q) | _ => True end.

Lemma query_of_after_read q ans : query_of (after_read q ans) = q.
Proof using Type. clear nameHash_inj. destruct ans as [res|e]; [rewrite after_read_inl; by case_match|done]. Qed.

(** The queries of the threads are queries that were looked up. *)
Lemma steps_names c w ls s t p :
  steps (boot c w) ls s -> Forall label_ok ls -> sys_threads s !! t = Some p -> U (Query.Name (query_of p)).
Proof using Type.
  clear nameHash_inj. intros H. revert t p. induction H as [|ls s1 l s2 _ IH Hl]; intros t p; [done|].
  intros [Hls [Hok _]%Forall_cons]%Forall_app. specialize (IH).
  assert (forall t' p', sys_threads s1 !! t' = Some p' -> U (Query.Name (query_of p'))) as IH' by eauto. clear IH.
  inversion Hl; subst; cbn [set_thread with_cache sys_threads label_ok] in *; try (by apply IH').
  all: rewrite lookup_insert; case_decide; [intros [= <-]|by apply IH'].
  all: rewrite ?query_of_after_read; try done; by eapply (IH' _ _ ltac:(eassumption)).
Qed.

Lemma steps_ops_ok c w ls s :
  steps (boot c w) ls s -> Forall label_ok ls -> Forall (Cache.op_ok U) (omap cache_op ls).
Proof using Type.
  clear nameHash_inj. intros H Hok. remember (boot c w) as s0 eqn:E0.
  induction H as [|ls s1 l s2 H IH Hl]; [constructor|]. subst s0.
  apply Forall_app in Hok as [Hls Hl']. rewrite omap_app. apply Forall_app. split; [by apply IH|].
  inversion Hl; subst; cbn; repeat constructor.
  eapply (steps_names _ _ _ _ _ (Pending q res)); eauto.
Qed.

(** A pending answer was read from the chain by its own thread, which has done
    nothing since. *)
Lemma pending_origin c w ls s t q v :
  steps (boot c w) ls s -> sys_threads s !! t = Some (Pending q v) ->
  exists pre mid res s1, ls = pre ++ LRead t q (inl res) :: mid
    /\ steps (boot c w) pre s1
    /\ (cr_Resolve (Query.Name q) (Query.Type_ q) (Query.Selector q) (sys_world s1)).1 = inl res
    /\ v = vet (Query.Name q) res /\ Exists (RR_Record res) = true /\ 0 < TTL (RR_Record res)
    /\ Forall (fun l => thread_of l <> Some t) mid.
Proof using Type.
  clear nameHash_inj. intros H. induction H as [|ls s1 l s2 H IH Hl]; [done|]. intros Ht.
  destruct (decide (thread_of l = Some t)) as [Hth|Hth].
  - inversion Hl; subst; cbn in Hth; try done; injection Hth as ->; cbn in Ht; rewrite lookup_insert_eq in Ht; try done.
    injection Ht as Ha. destruct ans as [res|e]; [|done]. rewrite after_read_inl in Ha.
    destruct (Exists (RR_Record res)) eqn:Ex; [|done]. destruct (Z.ltb_spec 0 (TTL (RR_Record res))); [|done].
    injection Ha as -> <-. exists ls, [], res, s1. split_and!; try done.
    by match goal with E : cr_Resolve _ _ _ _ = _ |- _ => rewrite E end.
  - rewrite (step_frame _ _ _ _ Hl Hth) in Ht.
    destruct (IH Ht) as (pre & mid & res & s0 & -> & H1 & H2 & H3 & H4 & H5 & H6).
    exists pre, (mid ++ [l]), res, s0. rewrite <- app_assoc. split_and!; try done. apply Forall_app. auto.
Qed.

Lemma cache_op_supersedes l k :
  invalidates l k = true -> exists o, cache_op l = Some o /\ Cache.supersedes nameHash o k = true.
Proof using Type. clear nameHash_inj. destruct l; cbn; try done; intros H; by eexists. Qed.

Lemma not_superseded ls k :
  Forall (fun o => Cache.supersedes nameHash o k = false) (omap cache_op ls) ->
  Forall (fun l => invalidates l k = false) ls.
Proof using Type.
  clear nameHash_inj. rewrite !Forall_forall. intros H l Hl. destruct (invalidates l k) eqn:E; [|done].
  apply cache_op_supersedes in E as (o & Ho & Hs). rewrite H in Hs; [done|].
  apply list_elem_of_omap. eauto.
Qed.

(** The origin of an answer served from the cache. *)
Definition origin (c : Cache.TTLCache L) (w : W) (ls : list label) (q : Query.Query) (now : Z) (v : ResolveResult)
    (pre : list label) (t : nat) (res : ResolveResult) (mid : list label) (stored : Z) (post : list label) : Prop :=
  ls = pre ++ LRead t q (inl res) :: mid ++ LStore t q v stored :: post
  /\ (exists s1, steps (boot c w) pre s1
       /\ (cr_Resolve (Query.Name q) (Query.Type_ q) (Query.Selector q) (sys_world s1)).1 = inl res)
  /\ v = vet (Query.Name q) res /\ Exists (RR_Record res) = true /\ 0 < TTL (RR_Record res)
  /\ now <= stored + Handle.ttl_duration (TTL (RR_Record res))
  /\ Forall (fun l => thread_of l <> Some t) mid
  /\ Forall (fun l => invalidates l (Handle.query_key q) = false) post.

Lemma hit_origin cap c w ls s q now v c' :
  Cache.New cap = Some c -> steps (boot c w) ls s -> Forall label_ok ls ->
  Cache.Get nameHash (Handle.query_key q) now (sys_cache s) = (Some v, c') ->
  exists pre t res mid stored post, origin c w ls q now v pre t res mid stored post.
Proof.
  intros Hn Hs Hok Hg. pose proof (steps_cache _ _ _ Hs) as Hc. cbn [boot sys_cache] in Hc.
  destruct (Cache.run_New_sim nameHash U nameHash_inj cap c (omap cache_op ls) Hn (steps_ops_ok _ _ _ _ Hs Hok)) as (Hinv & _ & Hsub).
  rewrite <- Hc in Hinv, Hsub.
  destruct (Cache.Get_inv nameHash U nameHash_inj (Handle.query_key q) now _ Hinv) as (_ & _ & Hv & _).
  rewrite Hg in Hv. cbn [fst] in Hv.
  destruct (Cache.entries (sys_cache s) !! Handle.query_key q) as [e|] eqn:E; [|done].
  destruct (Z.ltb_spec (Cache.expiresAt e) now) as [|Hle]; [done|]. injection Hv as ->.
  eapply lookup_weaken in E; [|exact Hsub].
  apply Cache.spec_run_origin in E as [(pre' & v & ttl & t' & post' & Hls & -> & Hf)|[Hm _]]; [|by rewrite lookup_empty in Hm].
  apply omap_app_cons_inv in Hls as (k1 & l & k2 & -> & Hl & _ & <-).
  apply steps_app_inv in Hs as (s1 & Hs1 & Hs2). apply steps_cons_inv in Hs2 as (s2 & Hst & _).
  destruct l as [| |t q' res now'| | | |]; try done. cbn [cache_op] in Hl.
  assert (q' = q) as -> by (apply query_key_inj; congruence). injection Hl as -> <- ->. cbn [Cache.value Cache.expiresAt] in *.
  inversion Hst as [| | |? ? ? ? Hp| | | |]; subst.
  destruct (pending_origin _ _ _ _ _ _ _ Hs1 Hp) as (pre & mid & res0 & s0 & -> & H1 & H2 & -> & H4 & H5 & H6).
  exists pre, t, res0, mid, t', k2. unfold origin. rewrite <- app_assoc. split_and!; try done; [eauto|].
  by apply not_superseded.
Qed.

(** C27. However queries, contract events and invalidations interleave, an answer
    served from the cache is what the contract answered to an earlier query for
    the same key: the query's own goroutine read it from the chain, vetted it and
    stored it, its TTL has not run out since it was stored, and nothing that
    invalidates the name has happened since it was stored. *)
Theorem cached_answer_origin cap c w ls s t q now v s' :
  Cache.New cap = Some c -> steps (boot c w) ls s -> Forall label_ok ls ->
  step s (LLookup t q now (Some v)) s' ->
  exists pre t' res mid stored post, origin c w ls q now v pre t' res mid stored post.
Proof.
  intros Hn Hs Hok Hl. inversion Hl as [? ? ? ? ? _ Hg| | | | | | |]; subst. by eapply hit_origin.
Qed.

(** C4. Push invalidation: after an event, an invalidation or a flush that concerns
    the key of a query, and unless a goroutine was at that moment between reading
    the chain for this key and storing the answer, an answer served from the cache
    was read from the chain after it. *)
Theorem push_invalidation_effective cap c w l1 s1 l l2 s t q now v s' :
  Cache.New cap = Some c -> steps (boot c w) (l1 ++ l :: l2) s -> Forall label_ok (l1 ++ l :: l2) ->
  invalidates l (Handle.query_key q) = true ->
  steps (boot c w) l1 s1 -> (forall t' res, sys_threads s1 !! t' <> Some (Pending q res)) ->
  step s (LLookup t q now (Some v)) s' ->
  exists l2a t' res l2b sr, l2 = l2a ++ LRead t' q (inl res) :: l2b /\ v = vet (Query.Name q) res
    /\ steps (boot c w) (l1 ++ l :: l2a) sr
    /\ (cr_Resolve (Query.Name q) (Query.Type_ q) (Query.Selector q) (sys_world sr)).1 = inl res.
Proof.
  intros Hn Hs Hok Hinv Hs1 Hquiet Hl. inversion Hl as [? ? ? ? ? _ Hg| | | | | | |]; subst.
  destruct (hit_origin cap c w _ s q now v _ Hn Hs Hok Hg)
    as (pre & t' & res & mid & stored & post & Hls & (sr & Hsr & Hread) & -> & _ & _ & _ & Hmid & Hpost).
  apply app_cons_three in Hls as [(k & -> & ->)|(m1 & m2 & -> & -> & ->)].
  - exists k, t', res, (mid ++ LStore t' q (vet (Query.Name q) res) stored :: post), sr. done.
  - (* the goroutine held its answer during the invalidation *)
    exfalso. apply steps_app_inv in Hs as (s1' & Hs1' & Hs2). rewrite (steps_det _ _ _ _ Hs1' Hs1) in Hs2.
    change (steps s1 ((l :: m2) ++ LStore t' q (vet (Query.Name q) res) stored :: post) s) in Hs2.
    apply steps_app_inv in Hs2 as (s2 & Hm & (s3 & Hst & _)%steps_cons_inv).
    apply (Hquiet t' (vet (Query.Name q) res)). apply Forall_app in Hmid as [_ Hmid].
    rewrite <- (steps_frame _ _ _ _ Hm Hmid). by inversion Hst.
  - by intros ->.
  - by intros ->.
  - intros Hin. rewrite Forall_forall in Hpost. specialize (Hpost l Hin). congruence.
Qed.

(** The chain's answers carry no verdict yet. *)
Hypothesis Resolve_unvetted : forall n t sel w res w',
  cr_Resolve n t sel w = (inl res, w') -> OwnerSigValid res = false.

Lemma read_unvetted q (w : W) res :
  (cr_Resolve (Query.Name q) (Query.Type_ q) (Query.Selector q) w).1 = inl res -> OwnerSigValid res = false.
Proof using Resolve_unvetted.
  intros H. destruct (cr_Resolve (Query.Name q) (Query.Type_ q) (Query.Selector q) w) as [ans w'] eqn:E.
  cbn in H. subst ans. by eapply Resolve_unvetted.
Qed.

(** A finished query's positive answer was vetted. *)
Lemma done_vetted cap c w ls s t q r :
  Cache.New cap = Some c -> steps (boot c w) ls s -> Forall label_ok ls ->
  sys_threads s !! t = Some (Done q (inl r)) -> Handle.Found r = true ->
  vetted (Query.Name q) (Handle.Result r).
Proof.
  intros Hn Hs Hok Ht Hf. unfold Handle.Found in Hf. apply andb_true_iff in Hf as [Hex _].
  induction Hs as [|ls s1 l s2 Hs IH Hl]; [done|]. apply Forall_app in Hok as [Hok _].
  destruct (decide (thread_of l = Some t)) as [Hth|Hth]; [|apply IH; [done|by rewrite <- (step_frame _ _ _ _ Hl Hth)]].
  inversion Hl as [? ? ? v ? _ Hg|? ? ? ? _ _|? ? ? ? _ Hr|? ? v ? Hp| | | |]; subst; cbn in Hth; try done;
    injection Hth as ->; cbn in Ht; rewrite lookup_insert_eq in Ht; try done.
  - injection Ht as -> <-. cbn [Handle.Result].
    destruct (hit_origin _ _ _ _ _ _ _ _ _ Hn Hs Hok Hg) as (? & ? & res & ? & ? & ? & _ & (s0 & _ & Hr) & -> & _).
    by eapply Handle.vet_vetted, read_unvetted.
  - destruct ans as [res|e]; [|done]. rewrite after_read_inl in Ht. injection Ht as Ht.
    destruct (Exists (RR_Record res)) eqn:Ex; cbn [andb] in Ht.
    + destruct (0 <? TTL (RR_Record res)); [done|]. injection Ht as -> <-.
      by eapply Handle.vet_vetted, Resolve_unvetted.
    + injection Ht as -> <-. cbn [Handle.Result] in Hex. congruence.
  - injection Ht as -> <-. cbn [Handle.Result].
    destruct (pending_origin _ _ _ _ _ _ _ Hs Hp) as (? & ? & res & s0 & _ & _ & Hr & -> & _).
    by eapply Handle.vet_vetted, read_unvetted.
Qed.

(** C28. However the goroutines interleave, every positive answer a query returns
    carries the verdict VerifyOwnerSig gives for that name and record, and a proof
    only if it was made from the record's own message and commitment. *)
Theorem concurrent_answers_vetted cap c w ls s t q r :
  Cache.New cap = Some c -> steps (boot c w) ls s -> Forall label_ok ls ->
  sys_threads s !! t = Some (Done q (inl r)) -> Handle.Found r = true ->
  vetted (Query.Name q) (Handle.Result r).
Proof. apply done_vetted. Qed.

End System.

(** * Concrete schedules

    A domain whose record has one generation per world; the owner moves it from
    generation 1 to generation 2. *)
#[local] Existing Instances Pki.merge_sort_pairs Zk.toy_mimc Zk.toy_groth.
Definition demo_record (g : Z) : Record :=
  mkRecord (str "A") [] [str "ip"] [str "10.0.0.1"] 300 g [] zero_hash true.
Definition moving_chain : ChainReader Z () := {|
  cr_Resolve n t sel w := (inl (mkResolveResult (demo_record w) (be_bytes 20 77) [] false []), w);
  cr_GetDomain n w := (inr (), w);
  cr_ListRecords n w := (inl [demo_record w], w);
  cr_ListTypes w := (inl [], w);
  cr_ChainHead w := (inl w, w);
|}.
Definition demo_query : Query.Query := Query.mkQuery (str "alice") (str "A") [].
Definition demo_event : RecordEvent := mkRecordEvent EventRecordSet (str "alice") (str "alice") (str "A") [] 2.
Definition demo_sys : Type := sys (L := Handle.demo_lru) (W := Z) (Er := ()).
Definition demo_boot : demo_sys := boot Handle.demo_cache 1.
Definition demo_end : list (action (W := Z)) -> demo_sys :=
  fun acts => end_of (EC := Pki.toy_eth) (CR := moving_chain) Handle.demo_artifact (fun n => n) acts demo_boot.
Definition demo_steps := steps (EC := Pki.toy_eth) (CR := moving_chain) (L := Handle.demo_lru) Handle.demo_artifact (fun n => n).
Definition demo_step := step (EC := Pki.toy_eth) (CR := moving_chain) (L := Handle.demo_lru) Handle.demo_artifact (fun n => n).
Definition demo_vet := Handle.vet (EC := Pki.toy_eth) Handle.demo_artifact (str "alice").
Definition demo_answer (g : Z) : ResolveResult := demo_vet (mkResolveResult (demo_record g) (be_bytes 20 77) [] false []).

(** The event arrives between the read of one query and its store; the entry
    stored then is served until its TTL ends, long after the event. *)
Definition race_before : list (label (W := Z) (Er := ())) :=
  [LLookup 1 demo_query 0 None; LRead 1 demo_query (inl (mkResolveResult (demo_record 1) (be_bytes 20 77) [] false [])); LWorld 2].
Definition race_after : list (label (W := Z) (Er := ())) := [LStore 1 demo_query (demo_answer 1) 5].
Definition race_schedule : list (action (W := Z)) :=
  [ALookup 1 demo_query 0; AAdvance 1 0; AWorld 2; AEvent demo_event; AAdvance 1 5].

Theorem invalidation_race :
  exists s s',
    demo_steps demo_boot (race_before ++ LEvent demo_event :: race_after) s
    /\ invalidates (fun n => n) (LEvent (W := Z) (Er := ()) demo_event) (Handle.query_key demo_query) = true
    /\ demo_step s (LLookup 2 demo_query (5 + 300 * 10 ^ 9) (Some (demo_answer 1))) s'
    /\ Generation (RR_Record (demo_answer 1)) = 1
    /\ (cr_Resolve (ChainReader := moving_chain) (str "alice") (str "A") [] (sys_world s)).1
       = inl (mkResolveResult (demo_record 2) (be_bytes 20 77) [] false []).
Proof.
  exists (demo_end race_schedule). eexists. split_and!; [| | |reflexivity..].
  - apply end_of_steps. vm_compute. reflexivity.
  - reflexivity.
  - apply (exec_fst_step _ _ (ALookup 2 demo_query (5 + 300 * 10 ^ 9))). vm_compute. reflexivity.
Qed.

(** The event arrives while no query is in flight: the next answers are new. *)
Definition demo_chain_answer (g : Z) : ResolveResult := mkResolveResult (demo_record g) (be_bytes 20 77) [] false [].
Definition demo_filled (t : nat) (g now : Z) : list (label (W := Z) (Er := ())) :=
  [LLookup t demo_query now None; LRead t demo_query (inl (demo_chain_answer g)); LStore t demo_query (demo_answer g) (now + 1)].
Definition demo_fill (t : nat) (now : Z) : list (action (W := Z)) :=
  [ALookup t demo_query now; AAdvance t now; AAdvance t (now + 1)].
Definition calm_before : list (label (W := Z) (Er := ())) := demo_filled 1 1 0 ++ [LWorld 2].
Definition calm_labels : list (label (W := Z) (Er := ())) := calm_before ++ LEvent demo_event :: demo_filled 2 2 10.
Definition calm_schedule : list (action (W := Z)) := demo_fill 1 0 ++ [AWorld 2].
Definition calm_all : list (action (W := Z)) := calm_schedule ++ AEvent demo_event :: demo_fill 2 10.

Lemma calm_run : demo_steps demo_boot calm_labels (demo_end calm_all).
Proof. apply end_of_steps. vm_compute. reflexivity. Qed.

Lemma calm_ok : Forall (label_ok (W := Z) (Er := ()) (fun _ => True)) calm_labels.
Proof. repeat constructor. Qed.

Lemma calm_hit : exists s', demo_step (demo_end calm_all) (LLookup 3 demo_query 20 (Some (demo_answer 2))) s'.
Proof.
  eexists. apply (exec_fst_step _ _ (ALookup 3 demo_query 20)). vm_compute. reflexivity.
Qed.

Lemma cached_answer_origin_witness :
  exists pre t res mid stored post,
    origin (EC := Pki.toy_eth) (CR := moving_chain) (L := Handle.demo_lru) Handle.demo_artifact (fun n => n)
      Handle.demo_cache 1 calm_labels demo_query 20 (demo_answer 2) pre t res mid stored post.
Proof.
  destruct calm_hit as [s' Hs'].
  exact (cached_answer_origin (EC := Pki.toy_eth) (CR := moving_chain) (L := Handle.demo_lru) Handle.demo_artifact
    (fun n => n) (fun _ => True) (fun _ _ _ _ e => e) 8 Handle.demo_cache 1 calm_labels _ 3 demo_query 20 (demo_answer 2) s'
    Handle.demo_server_new calm_run calm_ok Hs').
Defined.

Lemma push_invalidation_effective_witness :
  exists l2a t' res l2b sr, demo_filled 2 2 10 = l2a ++ LRead t' demo_query (inl res) :: l2b
    /\ demo_answer 2 = demo_vet res
    /\ demo_steps demo_boot (calm_before ++ LEvent demo_event :: l2a) sr
    /\ (cr_Resolve (ChainReader := moving_chain) (str "alice") (str "A") [] (sys_world sr)).1 = inl res.
Proof.
  destruct calm_hit as [s' Hs'].
  refine (push_invalidation_effective (EC := Pki.toy_eth) (CR := moving_chain) (L := Handle.demo_lru) Handle.demo_artifact
    (fun n => n) (fun _ => True) (fun _ _ _ _ e => e) 8 Handle.demo_cache 1 calm_before (demo_end calm_schedule)
    (LEvent demo_event) (demo_filled 2 2 10) _ 3 demo_query 20 (demo_answer 2) s'
    Handle.demo_server_new calm_run calm_ok eq_refl _ _ Hs').
  - apply end_of_steps. vm_compute. reflexivity.
  - intros t' res. assert (map_Forall (fun _ p => match p with Pending _ _ => false | _ => true end = true)
      (sys_threads (demo_end calm_schedule))) as H by (apply (bool_decide_unpack _); vm_compute; exact I).
    intros Hp. by apply H in Hp.
Defined.

Lemma concurrent_answers_vetted_witness :
  Handle.vetted (EC := Pki.toy_eth) Handle.demo_artifact (str "alice") (demo_answer 2).
Proof.
  refine (concurrent_answers_vetted (EC := Pki.toy_eth) (CR := moving_chain) (L := Handle.demo_lru) Handle.demo_artifact
    (fun n => n) (fun _ => True) (fun _ _ _ _ e => e) _ 8 Handle.demo_cache 1 calm_labels (demo_end calm_all) 2 demo_query
    (Handle.mkQueryResult (demo_answer 2) false) Handle.demo_server_new calm_run calm_ok _ _).
  - by intros n t sel w res w' [= <- _].
  - vm_compute. reflexivity.
  - reflexivity.
Defined.

Lemma query_alone_witness :
  exists ls s', demo_steps demo_boot ls s' /\ Forall (fun l => thread_of l = Some 7%nat) ls /\
    sys_threads s' !! 7%nat = Some (Done demo_query (inl (Handle.mkQueryResult (demo_answer 1) false))).
Proof.
  destruct (query_alone (EC := Pki.toy_eth) (CR := moving_chain) (L := Handle.demo_lru) Handle.demo_artifact
    (fun n => n) demo_boot 7 demo_query 0 1 eq_refl) as (ls & s' & H1 & H2 & H3).
  exists ls, s'. split; [exact H1|]. split; [exact H2|].
  destruct (Handle.HandleQuery _ _ _ _ _ _) as [ans sv] eqn:E. rewrite H3. cbn [sys_threads]. rewrite lookup_insert_eq.
  f_equal. f_equal. apply (f_equal fst) in E. cbn [fst] in E. rewrite <- E. vm_compute. reflexivity.
Defined.
End System.
