(* ===== verification/Owner.v ===== *)
(** The owner's command-line tool (src/resolver/cmd/ddns/main.go and channels.go).

    A command runs on its parsed flags and positional arguments, against a world
    that answers contract reads, takes transactions and passes time; it returns
    normally, exits with a status ([Err]) or panics. The transactions it has
    submitted are part of the state. Printing, torrent seeding and the flag
    parser are left out; JSON decoding and the key parser are parameters. *)
From S2P Require Import Prelude GoStrings Net Encoding Query Chain Pki Zk Pay Cli Regex.
Import Chain.

Local Open Scope Z_scope.

(** The contracts as the tool uses them. *)
Inductive tx :=
| TxCommit (commitment : bytes)
| TxRegister (name pubKey secret : bytes) (value : Z)
| TxSetRecord (name recordType sel : bytes) (fieldNames fieldValues : list bytes) (ttl : Z) (sig commitment : bytes)
| TxRemoveRecord (name recordType sel : bytes)
| TxTransfer (name : bytes) (newOwner : address) (newPub : bytes)
| TxRenew (name : bytes) (value : Z)
| TxDeclareType (name : bytes) (mandatory optional : list bytes)
| TxWithdraw (dest : address)
| TxAnnounce (pk endpoint : bytes)
| TxOpenChannel (operator : address) (seconds : Z) (value : Z)
| TxClaim (id : bytes) (wei : Z) (sig : bytes)
| TxCloseChannel (id : bytes).

(** The outcome of submitting a transaction and waiting for its receipt. *)
Inductive receipt := NotSubmitted | NotMined | Reverted | Mined.

Class ChainWriter (W : Type) := {
  PriceOf : bytes -> W -> option Z * W;
  MakeCommitment : bytes -> address -> bytes -> bytes -> W -> option bytes * W;
  MINCOMMITMENTAGE : W -> option Z * W;
  GetDomain : bytes -> W -> option Domain * W;
  Submit : tx -> W -> receipt * W;
  RandRead : nat -> W -> option bytes * W;
  SleepSecond : W -> W;
}.

Module Owner.

(** * Small utilities *)

(** parsePairs; an argument without "=" is fatal *)
Fixpoint parsePairs (args : list bytes) : option (list bytes * list bytes) :=
  match args with
  | [] => Some ([], [])
  | a :: args =>
      match Cut a "=" with
      | None => None
      | Some (k, v) =>
          match parsePairs args with Some (ns, vs) => Some (k :: ns, v :: vs) | None => None end
      end
  end.

Definition splitCSV (s : bytes) : list bytes :=
  if bool_decide (TrimSpace s = []) then []
  else filter (fun p => p <> []) (map TrimSpace (Split s ",")).

Lemma parsePairs_lengths args ns vs : parsePairs args = Some (ns, vs) -> length ns = length vs /\ length ns = length args.
Proof.
  revert ns vs. induction args as [|a args IH]; intros ns vs; cbn; [by intros [= <- <-]|].
  destruct (Cut a "=") as [[k v]|]; [|done]. destruct (parsePairs args) as [[ns' vs']|]; [|done].
  intros [= <- <-]. destruct (IH _ _ eq_refl). cbn. lia.
Qed.

(** mustEth: a decimal amount of ETH in wei. The regular expression
    [^\d+(\.\d+)?$], then the exact rational times 10^18, floored. *)
Definition all_digits (s : bytes) : bool := negb (bool_decide (s = [])) && forallb is_digit s.
Definition decimalEth (s : bytes) : bool :=
  match Cut s "." with
  | Some (i, f) => all_digits i && all_digits f
  | None => all_digits s
  end.
(** The decimal as a fraction: numerator and power of ten of the denominator. *)
Definition parse_decimal (s : bytes) : Z * Z :=
  match Cut s "." with
  | Some (i, f) => (parse_digits (i ++ f), Z.of_nat (length f))
  | None => (parse_digits s, 0)
  end.
Definition mustEth (s : bytes) : option Z :=
  let s := TrimSpace s in
  if bool_decide (s = []) then None
  else if negb (decimalEth s) then None
  else
    let '(num, k) := parse_decimal s in
    let wei := num * 10 ^ 18 / 10 ^ k in
    if wei =? 0 then None else Some wei.

(** * Amounts *)

(** The decimal text of an amount in wei, with 18 decimals. *)
Fixpoint fixed_digits (n : nat) (z : Z) : bytes :=
  match n with O => [] | S n => fixed_digits n (z / 10) ++ [digit (z mod 10)] end.
Definition eth_text (wei : Z) : bytes := Itoa (wei / 10 ^ 18) ++ str "." ++ fixed_digits 18 (wei mod 10 ^ 18).

Lemma parse_digits_app a b :
  parse_digits (a ++ b) = fold_left (fun acc x => acc * 10 + (b2z x - 48)) b (parse_digits a).
Proof. unfold parse_digits. by rewrite fold_left_app. Qed.

Lemma fixed_digits_ok n z :
  0 <= z < 10 ^ Z.of_nat n ->
  Forall (fun b => is_digit b = true) (fixed_digits n z) /\ length (fixed_digits n z) = n
  /\ forall acc, fold_left (fun acc x => acc * 10 + (b2z x - 48)) (fixed_digits n z) acc = acc * 10 ^ Z.of_nat n + z.
Proof.
  revert z. induction n as [|n IH]; intros z Hz; [cbn in *; split; [constructor|]; split; [done|]; intros; lia|].
  rewrite Nat2Z.inj_succ, Z.pow_succ_r in Hz by lia.
  destruct (IH (z / 10)) as (H1 & H2 & H3).
  { split; [apply Z.div_pos; lia|apply Z.div_lt_upper_bound; lia]. }
  pose proof (Z.mod_pos_bound z 10 ltac:(lia)) as Hm. cbn [fixed_digits]. split.
  - apply Forall_app. split; [done|]. constructor; [by apply digit_is_digit|constructor].
  - split; [rewrite length_app, H2; cbn; lia|]. intros acc. rewrite fold_left_app, H3. cbn [fold_left].
    rewrite digit_b2z by done. rewrite Nat2Z.inj_succ, Z.pow_succ_r by lia.
    pose proof (Z.div_mod z 10 ltac:(lia)). lia.
Qed.

Lemma digit_solid b : is_digit b = true -> solid b = true /\ b <> "."%byte.
Proof. destruct b; done || (cbn; congruence). Qed.

(** The two parts of the text, as mustEth reads them. *)
Lemma eth_text_parts wei :
  0 < wei < 10 ^ 18 * 2 ^ 63 ->
  TrimSpace (eth_text wei) = eth_text wei /\ decimalEth (eth_text wei) = true
  /\ parse_decimal (eth_text wei) = (wei, 18).
Proof.
  intros Hw. assert (0 <= wei / 10 ^ 18 < 2 ^ 63) as Hi.
  { split; [apply Z.div_pos; lia|apply Z.div_lt_upper_bound; lia]. }
  pose proof (Z.mod_pos_bound wei (10 ^ 18) ltac:(lia)) as Hf.
  destruct (dec_digits_ok 19 (wei / 10 ^ 18)) as (Hne & Hd & Hp); [change (10 ^ Z.of_nat 19) with 10000000000000000000; lia|lia|].
  destruct (fixed_digits_ok 18 (wei mod 10 ^ 18)) as (Gd & Gl & Gp); [exact Hf|].
  unfold eth_text, Itoa. rewrite (proj2 (Z.ltb_ge _ _)) by lia.
  set (I := dec_digits 19 _) in *. set (F := fixed_digits 18 _) in *.
  apply forallb_True_eq in Hd as Hd'.
  assert (Forall (fun b => solid b = true /\ b <> "."%byte) I) as HI by (eapply Forall_impl; [exact Hd'|apply digit_solid]).
  assert (Forall (fun b => solid b = true /\ b <> "."%byte) F) as HF by (eapply Forall_impl; [exact Gd|apply digit_solid]).
  assert (Cut (I ++ str "." ++ F) "." = Some (I, F)) as Hcut.
  { apply Cut_app. intros Hin. rewrite Forall_forall in HI. by apply HI in Hin as [_ ?]. }
  split; [|split].
  - apply TrimSpace_fix, trimmed_all_solid. rewrite !Forall_app. split; [by eapply Forall_impl; [exact HI|intros ? [? _]]|].
    split; [by repeat constructor|by eapply Forall_impl; [exact HF|intros ? [? _]]].
  - unfold decimalEth. rewrite Hcut. unfold all_digits. rewrite bool_decide_eq_false_2, Hd by done.
    rewrite bool_decide_eq_false_2 by (intros HF0; by rewrite HF0 in Gl). cbn [negb andb].
    by apply forallb_True_eq.
  - unfold parse_decimal. rewrite Hcut, Gl. f_equal. rewrite parse_digits_app, Gp, Hp.
    change (Z.of_nat 18) with 18. pose proof (Z.div_mod wei (10 ^ 18) ltac:(lia)). lia.
Qed.

(** The amount typed in ETH is the amount paid, to the wei: mustEth inverts the
    decimal notation. *)
Theorem mustEth_exact wei : 0 < wei < 10 ^ 18 * 2 ^ 63 -> mustEth (eth_text wei) = Some wei.
Proof.
  intros Hw. destruct (eth_text_parts wei Hw) as (Ht & Hd & Hp). unfold mustEth. rewrite Ht, Hd, Hp. cbv zeta.
  rewrite bool_decide_eq_false_2 by (unfold eth_text; intros [_ [=]]%app_eq_nil). cbn [negb].
  rewrite Z.div_mul by lia. destruct (Z.eqb_spec wei 0); [lia|done].
Qed.

Section Tool.
Context {UC : UnicodeCase} {HX : Hexutil} {SP : Pki.SortPairs} {Priv Pub : Type} {EC : Pki.EthCrypto Priv Pub}.
Context {St : Type} {MI : Zk.Mimc St}.
Context {W : Type} {CW : ChainWriter W}.
Variable eth_public : Priv -> Pub.                    (* key.PublicKey *)
Variable HexToAddress : bytes -> address.
Variable IsHexAddress : bytes -> bool.
Variable FromHex : bytes -> bytes.                    (* common.FromHex *)
Variable HexToECDSA : bytes -> option Priv.
Variable Keccak256 : bytes -> bytes.
Variable LeftPadBytes : bytes -> nat -> bytes.
Variable TypeByExtension : bytes -> bytes.            (* mime.TypeByExtension(filepath.Ext(path)) *)
Variable DetectContentType : bytes -> bytes.          (* http.DetectContentType *)

(** * The monad of a command *)
Definition state : Type := W * list tx.
Definition cli (A : Type) : Type := state -> go Z A * state.
#[local] Instance cli_ret : MRet cli := fun A a s => (Ret a, s).
#[local] Instance cli_bind : MBind cli := fun A B f m s =>
  match m s with
  | (Ret a, s) => f a s
  | (Err c, s) => (Err c, s)
  | (Panic, s) => (Panic, s)
  end.
Definition exit {A} (code : Z) : cli A := fun s => (Err code, s).
Definition fatal {A} : cli A := exit 1.
Definition or_fatal {A} (o : option A) : cli A := match o with Some a => mret a | None => fatal end.
Definition go_fatal {E A} (m : go E A) : cli A := fun s =>
  match m with Ret a => (Ret a, s) | Err _ => (Err 1, s) | Panic => (Panic, s) end.
Definition lift_go {A} (m : go Z A) : cli A := fun s => (m, s).
(** A contract read that is fatal on errors. *)
Definition read {A} (f : W -> option A * W) : cli A := fun s =>
  match f s.1 with (Some a, w) => (Ret a, (w, s.2)) | (None, w) => (Err 1, (w, s.2)) end.

(** send *)
Definition send (t : tx) : cli () := fun s =>
  let '(r, w) := Submit t s.1 in
  match r with
  | Mined => (Ret (), (w, s.2 ++ [t]))
  | NotSubmitted => (Err 1, (w, s.2))
  | NotMined | Reverted => (Err 1, (w, s.2 ++ [t]))
  end.

Definition needArg (pos : list bytes) (i : nat) : cli bytes :=
  match pos !! i with Some a => mret a | None => exit 2 end.

(** canonical *)
Definition canonical (selector : bytes) : cli bytes := go_fatal (Query.ParseSelectorString selector).

(** * Connections *)

(** loadKey; [env] is DDNS_PRIVATE_KEY. *)
Definition loadKey (flagVal env : bytes) : cli Priv :=
  let raw := if bool_decide (flagVal = []) then env else flagVal in
  if bool_decide (raw = []) then fatal else or_fatal (HexToECDSA (Pki.TrimPrefix (TrimSpace raw) (str "0x"))).

(** resolveAddrs; [doc] is the deployment file if it can be read and decoded. *)
Definition resolveAddrs (deployments nsFlag regFlag : bytes) (doc : option Cli.contracts) (envNS envReg : bytes) :
    address * address :=
  let zero a := bool_decide (a = zero_address) in
  let from_flag f := if bool_decide (f = []) then zero_address else HexToAddress f in
  let ns := from_flag nsFlag in
  let reg := from_flag regFlag in
  let doc := if (zero ns || zero reg) && negb (bool_decide (deployments = [])) then doc else None in
  let pick a field := match doc with
    | Some d => if zero a && negb (bool_decide (field d = [])) then HexToAddress (field d) else a
    | None => a
    end in
  let ns := pick ns Cli.NamespaceDApp in
  let reg := pick reg Cli.RecordSchemaRegistry in
  let from_env a v := if zero a && negb (bool_decide (v = [])) then HexToAddress v else a in
  (from_env ns envNS, from_env reg envReg).

(** The flags and the environment every command shares. *)
Record common := mkCommon {
  co_key : bytes; co_deployments : bytes; co_namespace : bytes; co_registry : bytes;
  co_doc : option Cli.contracts; co_envKey : bytes; co_envNS : bytes; co_envReg : bytes;
  co_eth_ok : bool;              (* DialContext, ChainID and the transactor succeed *)
}.

(** type conn struct, without the clients *)
Record conn := mkConn { c_key : Priv; c_from : address; c_hasReg : bool }.

Definition dial (co : common) (needRegistry : bool) : cli conn :=
  key ← loadKey (co_key co) (co_envKey co);
  let '(ns, reg) := resolveAddrs (co_deployments co) (co_namespace co) (co_registry co) (co_doc co) (co_envNS co) (co_envReg co) in
  if bool_decide (ns = zero_address) then fatal
  else if needRegistry && bool_decide (reg = zero_address) then fatal
  else if negb (co_eth_ok co) then fatal
  else mret (mkConn key (Pki.PubkeyToAddress (eth_public key)) (negb (bool_decide (reg = zero_address)))).

(** generationOf *)
Definition generationOf (name : bytes) : cli Z :=
  dom ← read (GetDomain name);
  if bool_decide (D_Owner dom = zero_address) then fatal else mret (D_Generation dom).

(** * Commands *)

Definition uint32 (n : Z) : Z := n mod 2 ^ 32.

(** The part cmdSet and cmdPublishResource share: sign, commit, send. *)
Definition set_record (c : conn) (name recordType sel : bytes) (names vals : list bytes) (ttl : Z) : cli () :=
  gen ← generationOf name;
  let rec := mkRecord recordType sel names vals (uint32 ttl) gen [] zero_hash false in
  sig ← go_fatal (Pki.SignRecord name rec (c_key c));
  msg ← go_fatal (Pki.RecordMessage (E := ()) name rec);
  commitment ← go_fatal (Zk.Commitment msg);
  send (TxSetRecord name recordType sel names vals (uint32 ttl) sig commitment).

Definition cmdSet (co : common) (pos : list bytes) (selector : bytes) (ttl : Z) : cli () :=
  name ← needArg pos 0;
  recordType ← needArg pos 1;
  pairs ← or_fatal (parsePairs (drop 2 pos));
  sel ← canonical selector;
  c ← dial co false;
  set_record c name recordType sel pairs.1 pairs.2 ttl.

(** detectContentType; [data] is the file's contents, if it can be opened. *)
Definition detectContentType (path : bytes) (data : option bytes) : bytes :=
  if negb (bool_decide (TypeByExtension path = [])) then TypeByExtension path
  else match data with
       | Some d => DetectContentType (take 512 d)
       | None => str "application/octet-stream"
       end.

(** cmdPublishResource up to the anchoring; [seeded] is SeedFile's infohash and
    digest. *)
Definition cmdPublishResource (co : common) (pos : list bytes) (selector : bytes) (ttl : Z)
    (contentType : bytes) (data : option bytes) (seeded : option (bytes * bytes)) : cli () :=
  name ← needArg pos 0;
  file ← needArg pos 1;
  sel ← canonical selector;
  let ct := if bool_decide (contentType = []) then detectContentType file data else contentType in
  ihsha ← or_fatal seeded;
  c ← dial co false;
  set_record c name (str "ResourceRef") sel [str "infoHash"; str "sha256"; str "contentType"] [ihsha.1; ihsha.2; ct] ttl.

Definition cmdRemove (co : common) (pos : list bytes) (selector : bytes) : cli () :=
  name ← needArg pos 0;
  recordType ← needArg pos 1;
  sel ← canonical selector;
  _ ← dial co false;
  send (TxRemoveRecord name recordType sel).

(** int(minAge.Int64()) + 15; Int64 keeps the low 64 bits *)
Definition int64 (z : Z) : Z := (z + 2 ^ 63) mod 2 ^ 64 - 2 ^ 63.
Fixpoint sleep (n : nat) (w : W) : W := match n with O => w | S n => sleep n (SleepSecond w) end.
Definition wait (secs : Z) : cli () := fun s => (Ret (), (sleep (Z.to_nat secs) s.1, s.2)).

Definition cmdRegister (co : common) (pos : list bytes) : cli () :=
  name ← needArg pos 0;
  c ← dial co false;
  let pubKey := Pki.FromECDSAPub (eth_public (c_key c)) in
  price ← read (PriceOf name);
  secret ← read (RandRead 32);
  commitment ← read (MakeCommitment name (c_from c) pubKey secret);
  _ ← send (TxCommit commitment);
  minAge ← read MINCOMMITMENTAGE;
  _ ← wait (int64 (int64 minAge + 15));
  send (TxRegister name pubKey secret price).

Definition cmdTransfer (co : common) (pos : list bytes) (pubkey : bytes) : cli () :=
  name ← needArg pos 0;
  newOwner ← needArg pos 1;
  if negb (IsHexAddress newOwner) then fatal
  else if bool_decide (pubkey = []) then fatal
  else
    let newPub := FromHex pubkey in
    if (Nat.eqb (length newPub) 0) || (128 <? Z.of_nat (length newPub)) then fatal
    else
      _ ← dial co false;
      send (TxTransfer name (HexToAddress newOwner) newPub).

Definition cmdRenew (co : common) (pos : list bytes) : cli () :=
  name ← needArg pos 0;
  _ ← dial co false;
  price ← read (PriceOf name);
  send (TxRenew name price).

Definition cmdDeclareType (co : common) (pos : list bytes) (mandatory optional : bytes) : cli () :=
  name ← needArg pos 0;
  _ ← dial co true;
  send (TxDeclareType name (splitCSV mandatory) (splitCSV optional)).

Definition cmdWithdraw (co : common) (to : bytes) : cli () :=
  c ← dial co false;
  dest ← (if bool_decide (to = []) then mret (c_from c)
          else if negb (IsHexAddress to) then fatal else mret (HexToAddress to));
  send (TxWithdraw dest).

(** fetchResolverPubKey is [stats]: the "resolver" field of /admin/stats, if it can
    be read. *)
Definition cmdAnnounceResolver (co : common) (endpoint pubFlag rrFlag : bytes) (stats : option bytes) (envRR : bytes) : cli () :=
  if bool_decide (endpoint = []) then fatal
  else
    pubHex ← (if bool_decide (pubFlag = [])
              then match stats with Some (b :: p) => mret (b :: p) | _ => fatal end
              else mret pubFlag);
    pk ← or_fatal (hexutil_Decode pubHex);
    if negb (Nat.eqb (length pk) 32) then fatal
    else if bool_decide (Cli.resolverRegistryAddr HexToAddress (co_deployments co) rrFlag (co_doc co) envRR = zero_address)
    then fatal
    else
      _ ← loadKey (co_key co) (co_envKey co);
      if negb (co_eth_ok co) then fatal else send (TxAnnounce pk endpoint).

(** The listing of cmdResolvers: a key or an endpoint may be out of range. *)
Fixpoint list_resolvers (operators : list address) (endpoints keys : list bytes) : go Z (list (bytes * bytes * address)) :=
  match operators with
  | [] => Ret []
  | op :: operators =>
      ep ← or_panic (head endpoints);
      k ← or_panic (head keys);
      rest ← list_resolvers operators (tail endpoints) (tail keys);
      mret ((ep, hexutil_Encode k, op) :: rest)
  end.
Definition cmdResolvers (co : common) (rrFlag envRR : bytes) (active : option (list address * list bytes * list bytes)) :
    cli (list (bytes * bytes * address)) :=
  if bool_decide (Cli.resolverRegistryAddr HexToAddress (co_deployments co) rrFlag (co_doc co) envRR = zero_address) then fatal
  else
    out ← or_fatal active;
    lift_go (list_resolvers out.1.1 out.1.2 out.2).

(** * Payment channels (channels.go) *)

Definition mustChannelID (s : bytes) : cli bytes :=
  match hexutil_Decode s with
  | Some b => if Nat.eqb (length b) 32 then mret b else fatal
  | None => fatal
  end.

Definition incentivesAddr (deployments flagVal : bytes) (doc : option Cli.contracts) (env : bytes) : address :=
  Cli.lookup_addr HexToAddress deployments flagVal (Cli.ResolverIncentives <$> doc) env.

Definition dialIncentives (co : common) (incFlag envInc : bytes) : cli address :=
  let inc := incentivesAddr (co_deployments co) incFlag (co_doc co) envInc in
  if bool_decide (inc = zero_address) then fatal
  else
    _ ← loadKey (co_key co) (co_envKey co);
    if negb (co_eth_ok co) then fatal else mret inc.

(** cmdChannelOpen prints the id of the first ChannelOpened log; [seconds] is
    uint64(duration.Seconds()). *)
Definition cmdChannelOpen (co : common) (resolverOp amount incFlag envInc : bytes) (seconds : Z) (logs : list (option bytes)) :
    cli bytes :=
  if negb (IsHexAddress resolverOp) then fatal
  else
    wei ← or_fatal (mustEth amount);
    _ ← dialIncentives co incFlag envInc;
    _ ← send (TxOpenChannel (HexToAddress resolverOp) seconds wei);
    mret (default zero_hash (mjoin (List.find (fun l => bool_decide (is_Some l)) logs))).

Definition cmdVoucher (co : common) (channel amount incFlag envInc : bytes) : cli bytes :=
  id ← mustChannelID channel;
  wei ← or_fatal (mustEth amount);
  let inc := incentivesAddr (co_deployments co) incFlag (co_doc co) envInc in
  if bool_decide (inc = zero_address) then fatal
  else
    key ← loadKey (co_key co) (co_envKey co);
    sig ← go_fatal (Pay.SignVoucher Keccak256 LeftPadBytes key inc id wei);
    mret (hexutil_Encode sig).

Definition cmdChannelClaim (co : common) (channel amount voucher incFlag envInc : bytes) : cli () :=
  id ← mustChannelID channel;
  wei ← or_fatal (mustEth amount);
  sig ← or_fatal (hexutil_Decode voucher);
  _ ← dialIncentives co incFlag envInc;
  send (TxClaim id wei sig).

Definition cmdChannelClose (co : common) (channel incFlag envInc : bytes) : cli () :=
  id ← mustChannelID channel;
  _ ← dialIncentives co incFlag envInc;
  send (TxCloseChannel id).

(** * What the commands anchor *)
Context {SPL : Pki.SortPairsLaws} {ECL : Pki.EthCryptoLaws Priv Pub}.
Hypothesis eth_public_ok : forall k, eth_public k = Pki.eth_pub k.

Lemma cli_bind_ret {A B} (m : cli A) (f : A -> cli B) s b s' :
  (m ≫= f) s = (Ret b, s') -> exists a s1, m s = (Ret a, s1) /\ f a s1 = (Ret b, s').
Proof. unfold mbind, cli_bind. destruct (m s) as [[a| |] s1]; [|done..]. eauto. Qed.

Lemma or_fatal_ret {A} (o : option A) s a s' : or_fatal o s = (Ret a, s') -> o = Some a /\ s' = s.
Proof. destruct o; cbn; [by intros [= -> ->]|done]. Qed.
Lemma go_fatal_ret {E A} (m : go E A) s a s' : go_fatal m s = (Ret a, s') -> m = Ret a /\ s' = s.
Proof. unfold go_fatal. destruct m; [by intros [= -> ->]|done..]. Qed.
Lemma needArg_ret pos i s a s' : needArg pos i s = (Ret a, s') -> pos !! i = Some a /\ s' = s.
Proof. unfold needArg. destruct (pos !! i); [by intros [= -> ->]|done]. Qed.
Lemma read_ret {A} (f : W -> option A * W) s a s' : read f s = (Ret a, s') -> f s.1 = (Some a, s'.1) /\ s'.2 = s.2.
Proof. unfold read. destruct (f s.1) as [[x|] w]; [by intros [= -> <-]|done]. Qed.
Lemma send_ret t s a s' : send t s = (Ret a, s') -> Submit t s.1 = (Mined, s'.1) /\ s'.2 = s.2 ++ [t].
Proof. unfold send. destruct (Submit t s.1) as [[] w]; try done. by intros [= _ <-]. Qed.
(** The key the flags and the environment give. *)
Definition owner_key (co : common) : option Priv :=
  HexToECDSA (Pki.TrimPrefix (TrimSpace (if bool_decide (co_key co = []) then co_envKey co else co_key co)) (str "0x")).

Lemma loadKey_ret co s k s' : loadKey (co_key co) (co_envKey co) s = (Ret k, s') -> owner_key co = Some k /\ s' = s.
Proof. unfold loadKey, owner_key. cbv zeta. destruct (bool_decide (_ = [])) at 1; [done|]. apply or_fatal_ret. Qed.
Lemma dial_ret co need s c s' :
  dial co need s = (Ret c, s') ->
  s' = s /\ owner_key co = Some (c_key c) /\ c_from c = Pki.PubkeyToAddress (eth_public (c_key c)).
Proof.
  unfold dial. intros (k & s1 & [Hk ->]%loadKey_ret & H)%cli_bind_ret. destruct (resolveAddrs _ _ _ _ _ _) as [ns reg].
  case_bool_decide; [done|]. destruct (need && _); [done|]. destruct (negb (co_eth_ok co)); [done|].
  by injection H as <- <-.
Qed.

(** A stored record carries its owner's signature and its own commitment. *)
Definition authentic (name : bytes) (r : Record) (pub : Pub) : Prop :=
  Pki.VerifyOwnerSig name r (Pki.PubkeyToAddress pub) (Pki.FromECDSAPub pub) = Ret ()
  /\ exists msg, Pki.RecordMessage (E := ()) name r = Ret msg /\ Zk.Commitment msg = Ret (Commitment r).

(** The record the contract stores for a transaction, under the generation [gen]. *)
Definition stored (t : tx) (gen : Z) : option (bytes * Record) :=
  match t with
  | TxSetRecord name typ sel ns vs ttl sig com => Some (name, mkRecord typ sel ns vs ttl gen sig com true)
  | _ => None
  end.

Lemma set_record_ret c name typ sel ns vs ttl s s' :
  length ns = length vs -> set_record c name typ sel ns vs ttl s = (Ret (), s') ->
  exists t dom r, s'.2 = s.2 ++ [t] /\ (GetDomain name s.1).1 = Some dom /\ D_Owner dom <> zero_address
    /\ stored t (D_Generation dom) = Some (name, r) /\ Type_ r = typ /\ Selector r = sel /\ FieldNames r = ns
    /\ FieldVals r = vs /\ TTL r = uint32 ttl /\ authentic name r (Pki.eth_pub (c_key c))
    /\ Submit t (GetDomain name s.1).2 = (Mined, s'.1).
Proof.
  intros Hl. unfold set_record, generationOf.
  intros (gen & s1 & (dom & s2 & [Hd H2]%read_ret & Hg)%cli_bind_ret & H)%cli_bind_ret.
  case_bool_decide as Ho; [done|]. injection Hg as <- <-.
  apply cli_bind_ret in H as (sig & s3 & [Hsig ->]%go_fatal_ret & H).
  apply cli_bind_ret in H as (msg & s4 & [Hmsg ->]%go_fatal_ret & H).
  apply cli_bind_ret in H as (com & s5 & [Hcom ->]%go_fatal_ret & [Hsub Ht]%send_ret).
  exists (TxSetRecord name typ sel ns vs (uint32 ttl) sig com), dom,
    (mkRecord typ sel ns vs (uint32 ttl) (D_Generation dom) sig com true).
  rewrite Ht, H2, Hd. do 9 (split; [done|]). split; [|done]. split.
  - refine (Pki.SignRecord_verifies name _ _ sig _ _ Hsig (or_intror eq_refl)). exact Hl.
  - exists msg. done.
Qed.

(** "ddns set" and "ddns publish-resource" that succeed send one transaction; the
    record the contract stores for it, under the generation the domain had when it
    was read, is authentic: the owner signature verifies against the key the tool
    signed with, and the commitment is the one of the record's message. *)
Theorem set_commands_anchor co pos selector ttl ct data seeded w s' :
  cmdSet co pos selector ttl (w, []) = (Ret (), s')
  \/ cmdPublishResource co pos selector ttl ct data seeded (w, []) = (Ret (), s') ->
  exists key name t dom r,
    owner_key co = Some key /\ pos !! 0%nat = Some name /\ s'.2 = [t] /\ (GetDomain name w).1 = Some dom /\ D_Owner dom <> zero_address
    /\ stored t (D_Generation dom) = Some (name, r) /\ Query.ParseSelectorString selector = Ret (Selector r)
    /\ TTL r = uint32 ttl /\ authentic name r (Pki.eth_pub key).
Proof.
  intros [H|H].
  - apply cli_bind_ret in H as (name & s1 & [Hn ->]%needArg_ret & H).
    apply cli_bind_ret in H as (typ & s1 & [_ ->]%needArg_ret & H).
    apply cli_bind_ret in H as ([ns vs] & s1 & [Hp ->]%or_fatal_ret & H).
    apply cli_bind_ret in H as (sel & s1 & [Hsel ->]%go_fatal_ret & H).
    apply cli_bind_ret in H as (c & s1 & (-> & Hk & _)%dial_ret & H).
    apply parsePairs_lengths in Hp as [Hl _].
    apply set_record_ret in H as (t & dom & r & Ht & Hd & Ho & Hs & _ & Hr & _ & _ & Htl & Ha & _); [|done].
    exists (c_key c), name, t, dom, r. rewrite Hr. done.
  - apply cli_bind_ret in H as (name & s1 & [Hn ->]%needArg_ret & H).
    apply cli_bind_ret in H as (file & s1 & [_ ->]%needArg_ret & H).
    apply cli_bind_ret in H as (sel & s1 & [Hsel ->]%go_fatal_ret & H).
    apply cli_bind_ret in H as ([ih sha] & s1 & [_ ->]%or_fatal_ret & H).
    apply cli_bind_ret in H as (c & s1 & (-> & Hk & _)%dial_ret & H).
    apply set_record_ret in H as (t & dom & r & Ht & Hd & Ho & Hs & _ & Hr & _ & _ & Htl & Ha & _); [|done].
    exists (c_key c), name, t, dom, r. rewrite Hr. done.
Qed.

(** "ddns register" that succeeds is a commit and then a reveal: it commits to the
    contract's commitment for this name, this key and a fresh secret, waits the
    contract's minimum age and 15 seconds more, and only then registers with
    that secret and the price it read. *)
Theorem cmdRegister_commit_reveal co pos w s' :
  cmdRegister co pos (w, []) = (Ret (), s') ->
  exists name key price secret com w1 w2 w3 w4 minAge,
    owner_key co = Some key /\ pos !! 0%nat = Some name
    /\ (MakeCommitment name (Pki.PubkeyToAddress (Pki.eth_pub key)) (Pki.FromECDSAPub (Pki.eth_pub key)) secret w1) = (Some com, w2)
    /\ Submit (TxCommit com) w2 = (Mined, w3) /\ MINCOMMITMENTAGE w3 = (Some minAge, w4)
    /\ Submit (TxRegister name (Pki.FromECDSAPub (Pki.eth_pub key)) secret price)
         (sleep (Z.to_nat (int64 (int64 minAge + 15))) w4) = (Mined, s'.1)
    /\ (0 <= minAge < 2 ^ 62 -> int64 (int64 minAge + 15) = minAge + 15)
    /\ s'.2 = [TxCommit com; TxRegister name (Pki.FromECDSAPub (Pki.eth_pub key)) secret price].
Proof.
  intros H. apply cli_bind_ret in H as (name & s1 & [Hn ->]%needArg_ret & H).
  apply cli_bind_ret in H as (c & s1 & (-> & Hk & Hf)%dial_ret & H). cbv zeta in H.
  apply cli_bind_ret in H as (price & s1 & [_ H1]%read_ret & H).
  apply cli_bind_ret in H as (secret & s2 & [_ H2]%read_ret & H).
  apply cli_bind_ret in H as (com & s3 & [Hcom H3]%read_ret & H).
  apply cli_bind_ret in H as ([] & s4 & [Hsub H4]%send_ret & H).
  apply cli_bind_ret in H as (minAge & s5 & [Hage H5]%read_ret & H).
  apply cli_bind_ret in H as ([] & s6 & [= <-] & [Hreg H6]%send_ret).
  rewrite Hf, !eth_public_ok in *. cbn [fst snd] in *.
  exists name, (c_key c), price, secret, com, s2.1, s3.1, s4.1, s5.1, minAge. do 6 (split; [done|]). split.
  - intros Ha. unfold int64. rewrite (Z.mod_small (minAge + 2 ^ 63)) by lia. rewrite Z.mod_small; lia.
  - by rewrite H6, H5, H4, H3, H2, H1.
Qed.
End Tool.

(** * Concrete runs: a contract that takes every transaction, and a clock *)
#[local] Existing Instances Query.ascii_case Pki.merge_sort_pairs Pki.merge_sort_pairs_laws Zk.toy_mimc.
Definition demo_writer : ChainWriter Z := {|
  PriceOf _ w := (Some 5, w);
  MakeCommitment name from pub secret w := (Some (name ++ secret), w);
  MINCOMMITMENTAGE w := (Some 60, w);
  GetDomain _ w := (Some (mkDomain (be_bytes 20 77) [] 100 2), w);
  Submit _ w := (Mined, w);
  RandRead n w := (Some (replicate n x07), w);
  SleepSecond w := w + 1;
|}.
Definition demo_common : common := mkCommon (str "0x4d") [] (str "0x1") [] None [] [] [] true.
Definition demo_pub (k : Z) : Z := k mod 256 ^ 32.
Definition demo_args : list bytes := [str "alice"; str "A"; str "ip=10.0.0.1"].
Definition demo_set : go Z () * state (W := Z) :=
  cmdSet (EC := Pki.toy_eth) (CW := demo_writer) demo_pub (fun a => a) (fun _ => Some 77) demo_common demo_args [] 300 (0, []).
Definition demo_register : go Z () * state (W := Z) :=
  cmdRegister (EC := Pki.toy_eth) (CW := demo_writer) demo_pub (fun a => a) (fun _ => Some 77) demo_common [str "alice"] (0, []).

Lemma set_commands_anchor_witness :
  exists t r, demo_set.2.2 = [t] /\ stored t 2 = Some (str "alice", r)
    /\ authentic (EC := Pki.toy_eth) (str "alice") r (demo_pub 77).
Proof.
  destruct (set_commands_anchor (EC := Pki.toy_eth) (ECL := Pki.toy_eth_laws) (CW := demo_writer) demo_pub (fun a => a)
    (fun _ => Some 77) (fun _ => []) (fun _ => []) demo_common demo_args [] 300 [] None None 0 demo_set.2)
    as (key & name & t & dom & r & [= <-] & [= <-] & Ht & [= <-] & _ & Hs & _ & _ & Ha).
  - left. vm_compute. reflexivity.
  - exists t, r. split; [exact Ht|]. split; [exact Hs|exact Ha].
Defined.

Lemma cmdRegister_commit_reveal_witness :
  demo_register.2.1 = 75 /\ exists com secret, demo_register.2.2 = [TxCommit com; TxRegister (str "alice") (be_bytes 65 77) secret 5].
Proof.
  split; [vm_compute; reflexivity|].
  destruct (cmdRegister_commit_reveal (EC := Pki.toy_eth) (ECL := Pki.toy_eth_laws) (CW := demo_writer) demo_pub (fun a => a)
    (fun _ => Some 77) (fun _ => eq_refl) demo_common [str "alice"] 0 demo_register.2)
    as (name & key & price & secret & com & w1 & w2 & w3 & w4 & minAge & [= <-] & [= <-] & Hm & _ & _ & _ & _ & H).
  - vm_compute. reflexivity.
  - exists com, secret. rewrite H.
    assert (price = 5) as -> by (apply (f_equal (fun l => match l with [_; TxRegister _ _ _ v] => v | _ => 0 end)) in H;
      vm_compute in H; congruence). vm_compute. reflexivity.
Defined.

Lemma mustEth_exact_witness : mustEth (str "0.050000000000000000") = Some 50000000000000000.
Proof. apply (mustEth_exact 50000000000000000). split; reflexivity. Defined.
End Owner.
