(* ===== verification/Ddns.v ===== *)
(** The command line of the owner's tool (src/resolver/cmd/ddns/main.go): the
    dispatch of main, the flags of each command, the commands of Owner.v on what was
    parsed, and what publish-resource and seed do besides the contracts.

    What lies outside the contracts (the environment, files, the torrent engine, a
    running resolver) is the record [outside]; it does not depend on the contracts. *)
From S2P Require Import Prelude GoStrings Net Encoding Query Chain Pki Zk Cli Flags Web Owner.
Import Chain.

Local Open Scope Z_scope.

Module Ddns.

Inductive command :=
| CRegister | CSet | CRemove | CTransfer | CRenew | CDeclareType | CPublishResource | CSeed | CAnnounceResolver | CResolvers
| CWithdraw | CChannelOpen | CVoucher | CChannelClaim | CChannelClose.
Definition commands : list command :=
  [CRegister; CSet; CRemove; CTransfer; CRenew; CDeclareType; CPublishResource; CSeed; CAnnounceResolver; CResolvers;
   CWithdraw; CChannelOpen; CVoucher; CChannelClaim; CChannelClose].
Definition command_text (c : command) : bytes :=
  match c with
  | CRegister => str "register" | CSet => str "set" | CRemove => str "remove" | CTransfer => str "transfer"
  | CRenew => str "renew" | CDeclareType => str "declare-type" | CPublishResource => str "publish-resource"
  | CSeed => str "seed" | CAnnounceResolver => str "announce-resolver" | CResolvers => str "resolvers"
  | CWithdraw => str "withdraw" | CChannelOpen => str "channel-open" | CVoucher => str "voucher"
  | CChannelClaim => str "channel-claim" | CChannelClose => str "channel-close"
  end.
(** The cases of main's switch. *)
Definition command_of (a : bytes) : option command := List.find (fun c => bool_decide (command_text c = a)) commands.

Definition strings : list String.string -> list Flags.flag := map (fun n => Flags.mkFlag (str n) Flags.KString).
(** addCommon *)
Definition addCommon : list Flags.flag :=
  strings ["rpc"; "key"; "deployments"; "namespace"; "registry"]%string.
(** The flags each command declares. *)
Definition flags_of (c : command) : list Flags.flag :=
  match c with
  | CRegister | CRenew => addCommon
  | CSet => addCommon ++ strings ["selector"%string] ++ [Flags.mkFlag (str "ttl") Flags.KUint]
  | CRemove => addCommon ++ strings ["selector"%string]
  | CTransfer => addCommon ++ strings ["pubkey"%string]
  | CDeclareType => addCommon ++ strings ["mandatory"; "optional"]%string
  | CPublishResource =>
      addCommon ++ strings ["selector"%string] ++ [Flags.mkFlag (str "ttl") Flags.KUint]
      ++ strings ["content-type"; "data-dir"]%string
      ++ [Flags.mkFlag (str "bt-port") Flags.KInt; Flags.mkFlag (str "seconds") Flags.KInt;
          Flags.mkFlag (str "anchor-only") Flags.KBool]
  | CSeed => [Flags.mkFlag (str "bt-port") Flags.KInt; Flags.mkFlag (str "data-dir") Flags.KString]
  | CAnnounceResolver => addCommon ++ strings ["endpoint"; "pubkey"; "resolver-registry"]%string
  | CResolvers => addCommon ++ strings ["resolver-registry"%string]
  | CWithdraw => addCommon ++ strings ["to"%string]
  | CChannelOpen => addCommon ++ strings ["resolver-operator"; "amount"]%string
                    ++ [Flags.mkFlag (str "duration") Flags.KDuration] ++ strings ["incentives"%string]
  | CVoucher => addCommon ++ strings ["channel"; "amount"; "incentives"]%string
  | CChannelClaim => addCommon ++ strings ["channel"; "amount"; "voucher"; "incentives"]%string
  | CChannelClose => addCommon ++ strings ["channel"; "incentives"]%string
  end.
(** The flags each command tells reorder to be switches. *)
Definition switches_of (c : command) : list bytes :=
  match c with CPublishResource => [str "anchor-only"] | _ => [] end.

(** * Publishing and seeding *)

(** strings.TrimRight(s, "/") *)
Fixpoint trim_slashes (s : bytes) : bytes :=
  match s with
  | [] => []
  | b :: s => match trim_slashes s with
              | [] => if bool_decide (b = "/"%byte) then [] else [b]
              | t => b :: t
              end
  end.

(** The URL publish-resource asks the local resolver for, and what it does after the
    record is anchored. *)
Definition sync_query (name sel addr : bytes) : bytes :=
  str "name=" ++ name ++ str "&selector=" ++ sel ++ str "&peer=" ++ addr.
Definition sync_url (resolver name sel addr : bytes) : bytes :=
  trim_slashes (Cli.envOr resolver (str "http://127.0.0.1:8080")) ++ str "/resource?" ++ sync_query name sel addr.
Inductive after := Sync (url : bytes) | SeedFor (seconds : Z) | SeedUntilInterrupt.
Definition after_anchor (anchorOnly : bool) (addrs : list bytes) (resolver name sel : bytes) (seconds : Z) : list after :=
  if anchorOnly then []
  else match addrs with a :: _ => [Sync (sync_url resolver name sel a)] | [] => [] end
       ++ [if 0 <? seconds then SeedFor seconds else SeedUntilInterrupt].

(** What main runs on besides the contracts. *)
Record outside := mkOutside {
  o_env : bytes -> bytes;                            (* os.Getenv *)
  o_doc : bytes -> option Cli.contracts;             (* the deployment file, read and decoded *)
  o_rpc : bytes -> bool;                             (* DialContext and ChainID succeed *)
  o_file : bytes -> option bytes;                    (* the file's contents, if it opens *)
  o_seed : bytes -> bytes -> Z -> option (bytes * bytes);   (* the engine in a directory, on a port, seeds a file *)
  o_addrs : list bytes;                              (* engine.ListenAddrs() *)
  o_stats : bytes -> option bytes;                   (* the "resolver" field a URL answers *)
  o_active : option (list address * list bytes * list bytes);   (* ActiveResolvers *)
  o_logs : list (option bytes);                      (* the ChannelOpened logs of a receipt *)
}.

Section Tool.
Context {UC : UnicodeCase} {HX : Hexutil} {SP : Pki.SortPairs} {Priv Pub : Type} {EC : Pki.EthCrypto Priv Pub}.
Context {St : Type} {MI : Zk.Mimc St}.
Context {W : Type} {CW : ChainWriter W}.
Variable eth_public : Priv -> Pub.
Variable HexToAddress : bytes -> address.
Variable IsHexAddress : bytes -> bool.
Variable FromHex : bytes -> bytes.
Variable HexToECDSA : bytes -> option Priv.
Variable Keccak256 : bytes -> bytes.
Variable LeftPadBytes : bytes -> nat -> bytes.
Variable TypeByExtension : bytes -> bytes.
Variable DetectContentType : bytes -> bytes.
Variable ParseDuration : bytes -> option Z.
Variable uint64_Seconds : Z -> Z.                  (* uint64(d.Seconds()) *)
Variable o : outside.

Abbreviation cli := (Owner.cli (W := W)).
#[local] Existing Instances Owner.cli_ret Owner.cli_bind.

(** ** The values of parsed flags *)
Definition text (name def : bytes) (vs : list (bytes * bytes)) : bytes := Flags.last_value name def vs.
Definition number (parse : bytes -> option Z) (name : bytes) (def : Z) (vs : list (bytes * bytes)) : Z :=
  match Flags.last_value name [] vs with [] => def | v => default 0 (parse v) end.
Definition switch (name : bytes) (vs : list (bytes * bytes)) : bool :=
  default false (Flags.ParseBool (Flags.last_value name (str "false") vs)).
Definition selector_of := text (str "selector") [].
Definition ttl_of := number Flags.ParseUint0 (str "ttl") 3600.
Definition port_of := number Flags.ParseInt0 (str "bt-port") 42069.

(** commonOpts, with what dial and the address look-ups read. *)
Definition common_of (vs : list (bytes * bytes)) : Owner.common :=
  let deployments := text (str "deployments") (Cli.envOr (o_env o (str "DDNS_DEPLOYMENTS")) (str "contracts/deployments/localhost.json")) vs in
  let rpc := text (str "rpc") (Cli.envOr (o_env o (str "RPC_URL")) (str "http://127.0.0.1:8545")) vs in
  Owner.mkCommon (text (str "key") [] vs) deployments (text (str "namespace") [] vs) (text (str "registry") [] vs)
    (o_doc o deployments) (o_env o (str "DDNS_PRIVATE_KEY")) (o_env o (str "CONTRACT_ADDRESS")) (o_env o (str "REGISTRY_ADDRESS"))
    (o_rpc o rpc).

(** fetchResolverPubKey; what it returns is checked by cmdAnnounceResolver. *)
Definition fetchResolverPubKey (endpoint : bytes) : option bytes := o_stats o (trim_slashes endpoint ++ str "/admin/stats").

(** cmdPublishResource, with what it does after the anchoring. *)
Definition cmdPublishResource (vs : list (bytes * bytes)) (pos : list bytes) : cli (list after) :=
  let file := default [] (pos !! 1%nat) in
  _ ← Owner.cmdPublishResource eth_public HexToAddress HexToECDSA TypeByExtension DetectContentType (common_of vs) pos
        (selector_of vs) (ttl_of vs) (text (str "content-type") [] vs) (o_file o file)
        (o_seed o file (text (str "data-dir") [] vs) (port_of vs));
  sel ← Owner.canonical (selector_of vs);
  mret (after_anchor (switch (str "anchor-only") vs) (o_addrs o) (o_env o (str "DDNS_RESOLVER")) (default [] (pos !! 0%nat)) sel
          (number Flags.ParseInt0 (str "seconds") 0 vs)).
Definition cmdSeed (vs : list (bytes * bytes)) (pos : list bytes) : cli (list after) :=
  file ← Owner.needArg pos 0;
  _ ← Owner.or_fatal (o_seed o file (text (str "data-dir") [] vs) (port_of vs));
  mret [SeedUntilInterrupt].

Definition done_ {A} (m : cli A) : cli (list after) := _ ← m; mret [].

(** A command on its parsed line. *)
Definition run_command (c : command) (vs : list (bytes * bytes)) (pos : list bytes) : cli (list after) :=
  let co := common_of vs in
  let arg name := text (str name) [] vs in
  let envRR := o_env o (str "RESOLVER_REGISTRY_ADDRESS") in
  let envInc := o_env o (str "RESOLVER_INCENTIVES_ADDRESS") in
  match c with
  | CRegister => done_ (Owner.cmdRegister eth_public HexToAddress HexToECDSA co pos)
  | CSet => done_ (Owner.cmdSet eth_public HexToAddress HexToECDSA co pos (selector_of vs) (ttl_of vs))
  | CRemove => done_ (Owner.cmdRemove eth_public HexToAddress HexToECDSA co pos (selector_of vs))
  | CTransfer => done_ (Owner.cmdTransfer eth_public HexToAddress IsHexAddress FromHex HexToECDSA co pos (arg "pubkey"%string))
  | CRenew => done_ (Owner.cmdRenew eth_public HexToAddress HexToECDSA co pos)
  | CDeclareType => done_ (Owner.cmdDeclareType eth_public HexToAddress HexToECDSA co pos (arg "mandatory"%string) (arg "optional"%string))
  | CPublishResource => cmdPublishResource vs pos
  | CSeed => cmdSeed vs pos
  | CAnnounceResolver =>
      done_ (Owner.cmdAnnounceResolver HexToAddress HexToECDSA co (arg "endpoint"%string) (arg "pubkey"%string)
               (arg "resolver-registry"%string) (fetchResolverPubKey (arg "endpoint"%string)) envRR)
  | CResolvers => done_ (Owner.cmdResolvers HexToAddress co (arg "resolver-registry"%string) envRR (o_active o))
  | CWithdraw => done_ (Owner.cmdWithdraw eth_public HexToAddress IsHexAddress HexToECDSA co (arg "to"%string))
  | CChannelOpen =>
      done_ (Owner.cmdChannelOpen HexToAddress IsHexAddress HexToECDSA co (arg "resolver-operator"%string) (arg "amount"%string)
               (arg "incentives"%string) envInc (uint64_Seconds (number ParseDuration (str "duration") (86400 * 10 ^ 9) vs)) (o_logs o))
  | CVoucher => done_ (Owner.cmdVoucher HexToAddress HexToECDSA Keccak256 LeftPadBytes co (arg "channel"%string) (arg "amount"%string)
                         (arg "incentives"%string) envInc)
  | CChannelClaim => done_ (Owner.cmdChannelClaim HexToAddress HexToECDSA co (arg "channel"%string) (arg "amount"%string)
                              (arg "voucher"%string) (arg "incentives"%string) envInc)
  | CChannelClose => done_ (Owner.cmdChannelClose HexToAddress HexToECDSA co (arg "channel"%string) (arg "incentives"%string) envInc)
  end.

(** A command on its arguments: its flags, reordered and parsed. *)
Definition cmd (c : command) (args : list bytes) : cli (list after) :=
  match Flags.parse_line ParseDuration (flags_of c) (switches_of c) args with
  | Ret (vs, pos) => run_command c vs pos
  | Err e => Owner.exit (Flags.exit_status e)
  | Panic => Owner.lift_go Panic
  end.

(** main on os.Args; the usage texts are left out. *)
Definition main (argv : list bytes) : cli (list after) :=
  match argv with
  | _ :: name :: args =>
      match command_of name with
      | Some c => cmd c args
      | None => if bool_decide (name ∈ [str "-h"; str "--help"; str "help"]) then mret [] else Owner.exit 2
      end
  | _ => Owner.exit 2
  end.

(** ** Exit statuses *)

(** A program that fails only with status 1, and one that may also be refused with
    status 0 or 2, but then has done nothing. *)
Definition late {A} (m : cli A) : Prop := forall s c s', m s = (Err c, s') -> c = 1.
Definition tame {A} (m : cli A) : Prop := forall s c s', m s = (Err c, s') -> c = 1 \/ (c = 0 \/ c = 2) /\ s' = s.

Lemma late_tame {A} (m : cli A) : late m -> tame m.
Proof. intros H s c s' Hm. left. by eapply H. Qed.
Lemma late_bind {A B} (m : cli A) (f : A -> cli B) : late m -> (forall a, late (f a)) -> late (m ≫= f).
Proof.
  intros Hm Hf s c s'. unfold mbind, Owner.cli_bind. destruct (m s) as [[a|e|] s1] eqn:E; [apply Hf| |done].
  intros [= -> ->]. by eapply Hm.
Qed.
Lemma tame_needArg {B} pos i (f : bytes -> cli B) : (forall a, tame (f a)) -> tame (Owner.needArg pos i ≫= f).
Proof.
  intros Hf s c s'. unfold mbind, Owner.cli_bind, Owner.needArg. destruct (pos !! i); cbn; [apply Hf|].
  intros [= <- <-]. auto.
Qed.
Lemma tame_then {A B} (m : cli A) (f : A -> cli B) : tame m -> (forall a, late (f a)) -> tame (m ≫= f).
Proof.
  intros Hm Hf s c s'. unfold mbind, Owner.cli_bind. destruct (m s) as [[a|e|] s1] eqn:E; [|intros [= -> ->]; by eapply Hm|done].
  intros H. left. by eapply Hf.
Qed.
Lemma late_ret {A} (a : A) : late (mret a).
Proof. done. Qed.
Lemma late_fatal {A} : late (Owner.fatal (A := A)).
Proof. by intros s c s' [= <- _]. Qed.
Lemma late_or_fatal {A} (x : option A) : late (Owner.or_fatal x).
Proof. destruct x; [done|apply late_fatal]. Qed.
Lemma late_go_fatal {E A} (m : go E A) : late (Owner.go_fatal m).
Proof. intros s c s'. unfold Owner.go_fatal. destruct m; try done. by intros [= <- _]. Qed.
Lemma late_read {A} (f : W -> option A * W) : late (Owner.read f).
Proof. intros s c s'. unfold Owner.read. destruct (f s.1) as [[a|] w]; [done|]. by intros [= <- _]. Qed.
Lemma late_send t : late (Owner.send t).
Proof. intros s c s'. unfold Owner.send. destruct (Submit t s.1) as [[] w]; try done; by intros [= <- _]. Qed.
Lemma late_wait n : late (Owner.wait n).
Proof. done. Qed.
Lemma late_resolvers ops eps keys : late (Owner.lift_go (Owner.list_resolvers ops eps keys)).
Proof.
  intros s c s'. unfold Owner.lift_go. assert (forall c, Owner.list_resolvers ops eps keys <> Err c) as Hne; [|by intros [= H _]; destruct (Hne c)].
  clear. revert eps keys. induction ops as [|op ops IH]; intros eps keys c; cbn; [done|].
  destruct (head eps); [|done]. destruct (head keys); [|done]. cbn. destruct (Owner.list_resolvers _ _ _) eqn:E; [done|by apply IH in E|done].
Qed.

Ltac late_step :=
  first [apply late_ret | apply late_fatal | apply late_or_fatal | apply late_go_fatal | apply late_read | apply late_send
        | apply late_wait | apply late_resolvers | apply late_bind; [|intros ?]
        | progress unfold Owner.dial, Owner.loadKey, Owner.canonical, Owner.generationOf, Owner.set_record, Owner.dialIncentives,
            Owner.mustChannelID, done_
        | match goal with |- late (match ?x with _ => _ end) => destruct x end
        | progress cbv zeta beta].
Ltac tame_step :=
  first [apply tame_needArg; intros ? | match goal with |- tame (match ?x with _ => _ end) => destruct x end
        | progress unfold done_ | apply tame_then; [|intros ?; apply late_ret] | progress cbv zeta beta].

Lemma run_command_tame c vs pos : tame (run_command c vs pos).
Proof.
  assert (tame (cmdPublishResource vs pos)) as Hpub.
  { unfold cmdPublishResource. cbv zeta. apply tame_then; [|intros ?; repeat late_step].
    unfold Owner.cmdPublishResource. repeat tame_step. apply late_tame. repeat late_step. }
  destruct c; cbn [run_command]; [| | | | | |exact Hpub|..];
    unfold cmdSeed, Owner.cmdRegister, Owner.cmdSet, Owner.cmdRemove, Owner.cmdTransfer, Owner.cmdRenew, Owner.cmdDeclareType,
      Owner.cmdAnnounceResolver, Owner.cmdResolvers, Owner.cmdWithdraw, Owner.cmdChannelOpen, Owner.cmdVoucher,
      Owner.cmdChannelClaim, Owner.cmdChannelClose;
    repeat tame_step; apply late_tame; repeat late_step.
Qed.

(** The tool fails with status 1, or with status 0 or 2 before it has done
    anything: a usage error (an unknown command, a bad flag, a missing argument, a
    request for help) reads nothing from the chain and submits no transaction. *)
Theorem main_refusals_harmless argv s code s' :
  main argv s = (Err code, s') -> code = 1 \/ (code = 0 \/ code = 2) /\ s' = s.
Proof.
  assert (forall c : Z, c = 0 \/ c = 2 -> tame (Owner.exit (W := W) (A := list after) c)) as Hexit by (intros c Hc s0 ? ? [= <- <-]; auto).
  enough (tame (main argv)) as H by apply H. unfold main.
  destruct argv as [|prog [|name args]]; [by apply Hexit; right..|].
  destruct (command_of name) as [c|]; [|case_bool_decide; [done|by apply Hexit; right]].
  unfold cmd. destruct (Flags.parse_line _ _ _ _) as [[vs pos]|e|]; [apply run_command_tame| |done].
  apply Hexit. destruct e; cbn; auto.
Qed.

(** ** The command line *)

Lemma command_of_text c : command_of (command_text c) = Some c.
Proof. by destruct c. Qed.

#[local] Existing Instance Flags.kind_eq_dec.
Lemma switches_ok_dec fs boolFlags :
  forallb (fun f => Bool.eqb (bool_decide (Flags.f_name f ∈ boolFlags)) (bool_decide (Flags.f_kind f = Flags.KBool))) fs = true ->
  Flags.switches_ok fs boolFlags.
Proof.
  intros Hall n k H. apply List.find_some in H as [Hin _].
  rewrite forallb_forall in Hall. specialize (Hall _ Hin). cbn in Hall. apply eqb_prop in Hall.
  by rewrite <- (bool_decide_eq_true (n ∈ _)), Hall, bool_decide_eq_true.
Qed.
Lemma flags_switches c : Flags.switches_ok (flags_of c) (switches_of c).
Proof. apply switches_ok_dec. destruct c; vm_refl. Qed.

(** C22. Flags may stand anywhere: whatever the order in which a user types a command's
    positional arguments, its flags with their values in one word or in two, with one
    dash or two, and its switches, the command runs on exactly the values typed and
    the positional arguments in their order; what follows "--" is positional as
    well, unless it comes first and looks like a flag. *)
Theorem flags_anywhere prog c items rest :
  Forall (Flags.item_ok ParseDuration (flags_of c)) items ->
  let pos := concat (map Flags.positional items) ++ default [] rest in
  match pos with a :: _ => Cli.is_flag a = false | [] => True end ->
  main (prog :: command_text c :: concat (map Flags.render items) ++ match rest with Some e => str "--" :: e | None => [] end)
  = run_command c (concat (map Flags.assignment items)) pos.
Proof.
  intros Hok pos Hpos. cbn [main]. rewrite command_of_text. unfold cmd.
  by rewrite (Flags.parse_line_items ParseDuration _ _ _ _ (flags_switches c) Hok Hpos).
Qed.
End Tool.

(** * Findings *)

(** A selector of two pairs is put into the URL unescaped: its "&" ends the parameter. *)
Definition raw_param (query key : bytes) : bytes :=
  match List.find (fun p => bool_decide (p.1 = key))
          (map (fun s => default (s, []) (Cut s "=")) (Split query "&")) with
  | Some p => p.2
  | None => []
  end.
Theorem sync_cuts_selector :
  raw_param (sync_query (str "alice") (str "port=443&service=HTTP") (str "127.0.0.1:42069")) (str "selector") = str "port=443".
Proof. reflexivity. Qed.

(** The TTL is an unsigned 64-bit flag, cut to 32 bits without a check. *)
Theorem ttl_wraps : Owner.uint32 (ttl_of [(str "ttl", str "4294967297")]) = 1.
Proof. reflexivity. Qed.

(** * Concrete command lines *)
#[local] Existing Instances Query.ascii_case Pki.merge_sort_pairs Zk.toy_mimc.
Definition demo_outside : outside :=
  mkOutside (fun _ => []) (fun _ => None) (fun _ => true) (fun _ => None) (fun _ _ _ => None) [] (fun _ => None) None [].
Definition demo_main (argv : list bytes) : go Z (list after) * Owner.state (W := Z) :=
  main (EC := Pki.toy_eth) (CW := Owner.demo_writer) Owner.demo_pub (fun a => a) (fun _ => true) (fun b => b) (fun _ => Some 77)
    (fun b => b) (fun b _ => b) (fun _ => []) (fun _ => []) (fun _ => None) (fun d => d / 10 ^ 9) demo_outside argv (0, []).
Definition demo_items : list Flags.item :=
  [Flags.Positional (str "alice"); Flags.Separate true (str "key") (str "0x4d"); Flags.Positional (str "A");
   Flags.Joined false (str "namespace") (str "0x1"); Flags.Positional (str "ip=10.0.0.1"); Flags.Separate false (str "ttl") (str "300")].

Lemma flags_anywhere_witness :
  demo_main (str "ddns" :: str "set" :: concat (map Flags.render demo_items) ++ [str "--"; str "-x=1"])
  = run_command (EC := Pki.toy_eth) (CW := Owner.demo_writer) Owner.demo_pub (fun a => a) (fun _ => true) (fun b => b) (fun _ => Some 77)
      (fun b => b) (fun b _ => b) (fun _ => []) (fun _ => []) (fun _ => None) (fun d => d / 10 ^ 9) demo_outside CSet
      [(str "key", str "0x4d"); (str "namespace", str "0x1"); (str "ttl", str "300")]
      [str "alice"; str "A"; str "ip=10.0.0.1"; str "-x=1"] (0, []).
Proof.
  unfold demo_main. refine (f_equal (fun m => m (0, [])) (flags_anywhere (EC := Pki.toy_eth) (CW := Owner.demo_writer) Owner.demo_pub (fun a => a)
    (fun _ => true) (fun b => b) (fun _ => Some 77) (fun b => b) (fun b _ => b) (fun _ => []) (fun _ => []) (fun _ => None)
    (fun d => d / 10 ^ 9) demo_outside (str "ddns") CSet demo_items (Some [str "-x=1"]) _ _)); [|reflexivity].
  repeat constructor; try (eexists _, _; split; [reflexivity|discriminate]); try (apply (bool_decide_unpack _); vm_compute; exact I);
    eexists; (split; [reflexivity|]); try reflexivity; (split; [discriminate|reflexivity]).
Defined.

Lemma main_refusals_harmless_witness :
  (demo_main [str "ddns"; str "set"; str "alice"]).1 = Err 2 /\ (demo_main [str "ddns"; str "set"; str "alice"]).2 = (0, []).
Proof.
  split; [vm_compute; reflexivity|].
  destruct (main_refusals_harmless (EC := Pki.toy_eth) (CW := Owner.demo_writer) Owner.demo_pub (fun a => a)
    (fun _ => true) (fun b => b) (fun _ => Some 77) (fun b => b) (fun b _ => b) (fun _ => []) (fun _ => []) (fun _ => None)
    (fun d => d / 10 ^ 9) demo_outside [str "ddns"; str "set"; str "alice"] (0, []) 2 (demo_main [str "ddns"; str "set"; str "alice"]).2)
    as [H|[_ H]]; [vm_compute; reflexivity|discriminate H|exact H].
Defined.
End Ddns.
