(* ===== verification/Server.v ===== *)
(** The assembled server of package [server] (src/resolver/internal/server/server.go):
    the route table of registerRoutes and its dispatch, the two front ends over one
    cache and one rate limiter, and the life of Run and of cmd/resolver.

    A request is its method, the segments of its decoded path, and what the handlers
    of Web.v read; [Web.v], [Udp.v] and [Handle.v] give the handlers. net/http's
    ServeMux is modelled for the patterns of the table: literal segments, one
    wildcard segment, and a trailing slash for a subtree. *)
From S2P Require Import Prelude GoStrings Encoding Net Query Chain Cache RateLimit Pki Zk Torrent Seed Handle Web Udp Cli Config Boot.
Import Chain.

Local Open Scope Z_scope.

Module Server.

(** * Routes *)

Inductive target :=
| THealthz | TResolve | TResource | TWeb | TDomain | TTypes | TAdmin | TAdminStats
| TShowcase | TShowcaseFiles | TShowcaseConfig | TShowcaseCommit | TShowcasePublish | TShowcaseInvalidate | TFavicon.
#[export] Instance target_eq_dec : EqDecision target.
Proof. solve_decision. Defined.

Inductive segment := Lit (b : bytes) | Wild | Subtree.
Record route := mkRoute { r_method : bytes; r_path : list segment; r_limited : bool; r_target : target }.

Definition GET : bytes := str "GET".
Definition POST : bytes := str "POST".
Definition HEAD : bytes := str "HEAD".

(** registerRoutes; [r_limited] is whether the handler is wrapped in rateLimited. *)
Definition base_routes : list route :=
  [ mkRoute GET [Lit (str "healthz")] false THealthz;
    mkRoute GET [Lit (str "resolve")] true TResolve;
    mkRoute GET [Lit (str "resource")] true TResource;
    mkRoute GET [Lit (str "web"); Wild] true TWeb;
    mkRoute GET [Lit (str "domains"); Wild] true TDomain;
    mkRoute GET [Lit (str "types")] true TTypes;
    mkRoute GET [Lit (str "admin")] true TAdmin;
    mkRoute GET [Lit (str "admin"); Lit (str "stats")] true TAdminStats ].

(** registerShowcaseRoutes *)
Definition showcase_routes : list route :=
  [ mkRoute GET [Lit (str "showcase")] false TShowcase;
    mkRoute GET [Lit (str "showcase"); Subtree] false TShowcaseFiles;
    mkRoute GET [Lit (str "showcase"); Lit (str "config")] false TShowcaseConfig;
    mkRoute POST [Lit (str "showcase"); Lit (str "api"); Lit (str "commit")] false TShowcaseCommit;
    mkRoute POST [Lit (str "showcase"); Lit (str "api"); Lit (str "publish")] false TShowcasePublish;
    mkRoute POST [Lit (str "showcase"); Lit (str "api"); Lit (str "invalidate")] false TShowcaseInvalidate;
    mkRoute GET [Lit (str "favicon.ico")] false TFavicon ].

Definition registerRoutes (showcase : bool) : list route := base_routes ++ if showcase then showcase_routes else [].

(** ** ServeMux *)

(** The wildcards' values of a match; a wildcard takes one segment, not empty, and a
    subtree all that follows its slash. *)
Fixpoint match_path (p : list segment) (path : list bytes) : option (list bytes) :=
  match p, path with
  | [], [] => Some []
  | [Subtree], _ :: _ => Some []
  | Lit b :: p, s :: path => if bool_decide (s = b) then match_path p path else None
  | Wild :: p, s :: path => if bool_decide (s = []) then None else (s ::.) <$> match_path p path
  | _, _ => None
  end.
(** A GET pattern takes HEAD requests too. *)
Definition match_method (r : route) (m : bytes) : bool :=
  bool_decide (m = r_method r) || bool_decide (r_method r = GET) && bool_decide (m = HEAD).

Definition is_subtree (r : route) : bool :=
  existsb (fun s => match s with Subtree => true | _ => false end) (r_path r).

Inductive dispatched := Routed (r : route) (vals : list bytes) | NotFound | MethodNotAllowed.

(** The most specific pattern wins: one without a subtree before one with. *)
Definition dispatch (routes : list route) (method : bytes) (path : list bytes) : dispatched :=
  let hits := List.filter (fun r => bool_decide (is_Some (match_path (r_path r) path))) routes in
  match List.filter (fun r => match_method r method) hits with
  | [] => match hits with [] => NotFound | _ => MethodNotAllowed end
  | (r0 :: _) as rs =>
      let r := match List.filter (fun r => negb (is_subtree r)) rs with r :: _ => r | [] => r0 end in
      Routed r (default [] (match_path (r_path r) path))
  end.

(** Two patterns of which no path matches both, or of which one is the subtree the
    other lies in: ServeMux panics when it is given others. *)
Fixpoint apart (p q : list segment) : bool :=
  match p, q with
  | Lit a :: p, Lit b :: q => negb (bool_decide (a = b)) || apart p q
  | [], [] => false
  | [], Subtree :: _ | Subtree :: _, [] => true
  | [], _ :: _ | _ :: _, [] => true
  | Wild :: p, Wild :: q => apart p q
  | _, _ => false
  end.
Definition compatible (r1 r2 : route) : bool :=
  negb (bool_decide (r_method r1 = r_method r2)) || apart (r_path r1) (r_path r2)
  || (is_subtree r1 && negb (is_subtree r2)) || (is_subtree r2 && negb (is_subtree r1)).

Lemma apart_sound p q path v w : apart p q = true -> match_path p path = Some v -> match_path q path = Some w -> False.
Proof.
  revert q path v w. induction p as [|a p IH]; intros [|b q] [|s path] v w; cbn [apart match_path]; try done;
    try (destruct a; done); try (destruct b; done).
  - destruct b as [b| |]; [done|done|]. by destruct q.
  - destruct a as [a| |]; [done|done|]. by destruct p.
  - destruct a as [a| |], b as [b| |]; try done.
    + case_bool_decide; cbn [negb orb].
      * subst. case_bool_decide; [|done]. apply IH.
      * intros _. case_bool_decide; [|done]. case_bool_decide; [|done]. congruence.
    + case_bool_decide; [done|]. destruct (match_path p path) eqn:Ep; [|done]. destruct (match_path q path) eqn:Eq; [|done].
      intros Ha _ _. by eapply IH.
Qed.

Fixpoint pairwise {A} (f : A -> A -> bool) (l : list A) : bool :=
  match l with [] => true | a :: l => forallb (f a) l && pairwise f l end.

Lemma pairwise_lookup {A} (f : A -> A -> bool) l i j a b :
  pairwise f l = true -> (i < j)%nat -> l !! i = Some a -> l !! j = Some b -> f a b = true.
Proof.
  revert i j. induction l as [|x l IH]; intros i j; [done|]. cbn [pairwise]. intros [Hx Hl]%andb_true_iff Hij Hi Hj.
  destruct i as [|i], j as [|j]; [lia| |lia|].
  - injection Hi as ->. rewrite forallb_forall in Hx. apply Hx. apply list_elem_of_In. by eapply list_elem_of_lookup_2.
  - apply (IH i j); [done|lia|done|done].
Qed.

(** The table has no conflicting patterns, so registering it does not panic, and a
    request has at most one exact route of each method, whatever the order of
    registration. *)
Theorem routes_compatible showcase i j r1 r2 path v w :
  registerRoutes showcase !! i = Some r1 -> registerRoutes showcase !! j = Some r2 -> r_method r1 = r_method r2 ->
  is_subtree r1 = false -> is_subtree r2 = false ->
  match_path (r_path r1) path = Some v -> match_path (r_path r2) path = Some w -> i = j.
Proof.
  intros H1 H2 Hm S1 S2 V W.
  assert (forall i j r1 r2 v w, registerRoutes showcase !! i = Some r1 -> registerRoutes showcase !! j = Some r2 ->
    r_method r1 = r_method r2 -> is_subtree r1 = false -> is_subtree r2 = false ->
    match_path (r_path r1) path = Some v -> match_path (r_path r2) path = Some w -> ~ (i < j)%nat) as Hlt.
  { clear. intros i j r1 r2 v w H1 H2 Hm S1 S2 V W Hij.
    assert (pairwise compatible (registerRoutes showcase) = true) as Hp by (destruct showcase; vm_refl).
    pose proof (pairwise_lookup _ _ _ _ _ _ Hp Hij H1 H2) as Hc. unfold compatible in Hc.
    rewrite Hm, bool_decide_eq_true_2, S1, S2 in Hc by done. cbn in Hc. rewrite !orb_false_r in Hc.
    by eapply apart_sound. }
  destruct (Nat.lt_trichotomy i j) as [Hij|[->|Hij]]; [exfalso; by eapply (Hlt i j r1 r2)|done|exfalso; by eapply (Hlt j i r2 r1)].
Qed.

(** * The front ends *)
Section Front.
Context {UC : UnicodeCase}.
Context {SP : Pki.SortPairs} {Priv Pub : Type} {EC : Pki.EthCrypto Priv Pub}.
Context {St : Type} {MI : Zk.Mimc St} {CCS PK VK Wit PubWit : Type} {GR : Zk.Groth16 CCS PK VK Wit PubWit}.
Context {L : Type} {LO : Cache.LruOps Cache.Key (Cache.entry ResolveResult) L}.
Context {W Er : Type} {CR : ChainReader W Er} {HX : Encoding.Hexutil} {RF : Web.ResourceFetcher W}.
Context {EdPriv : Type} {ED : Pki.Ed25519 EdPriv} {Lim : Type} {RO : RateOps Lim}.
Variable artifact : bytes -> option bytes.
Variable nameHash : bytes -> bytes.
Variable address_Hex : address -> bytes.
Variable Sum256 : bytes -> bytes.
Variable identity : Pki.Identity EdPriv.
Context {JE : Type}.
Variable marshal : Web.answer -> go JE bytes.
Variable marshal_response : Handle.resolveResponse_t -> go JE bytes.
Variable marshal_envelope : Pki.Envelope -> go JE bytes.
Variable marshal_error : bytes -> bytes -> bytes.
Variable json_error_text : JE -> bytes.
Variable parse_error_text : Web.parse_error -> bytes.
Variable query_error_text : Query.error -> bytes.
Variable udp_error_text : Udp.udp_error -> bytes.
Variable chain_error_text : Er -> bytes.
Variable DetectContentType : bytes -> bytes.
Variable ParseMediaType : bytes -> option bytes.
Variable IsLoopbackIP : bytes -> bool.
Variable engine_enabled : bool.
Variable QueryEscape : bytes -> bytes.
Variable ListenAddrs : list bytes.
Variable cfg : Config.Config.
Variable adminTemplate : Web.adminStats -> bytes.    (* the page html/template renders *)

Abbreviation server := (Handle.server L W).

(** The handlers of the showcase, which Showcase.v models over a state of their own. *)
Variable showcase_handler : target -> Web.request -> server -> go Empty_set Web.response * server.

(** What a handler finds besides the request: the clock for the cache, whether the
    resource semaphore was acquired, the same for each pass of the gateway, the
    wall clock, the uptime and the swarm's statistics. *)
Record env := mkEnv {
  e_get : Z; e_set : Z; e_sem : bool; e_pass : nat -> Z * Z * bool; e_now : Z; e_uptime : Z; e_swarm : option Web.swarmStats;
}.

(** handleAdmin *)
Definition handleAdmin (e : env) (s : server) : Web.response * server :=
  let '(st, s) := Web.gatherStats identity (e_uptime e) (Config.RESTPort cfg) (Config.UDPPort cfg) (e_swarm e) s in
  (Web.mkResponse 200 {[str "Content-Type" := str "text/html; charset=utf-8"]} (Web.PBytes (adminTemplate st)), s).

Definition on_world {A} (f : W -> go Empty_set A * W) (s : server) : go Empty_set A * server :=
  let '(r, w) := f (Handle.sv_world s) in (r, Handle.mkServer (Handle.sv_cache s) w).

Definition handle (t : target) (r : Web.request) (e : env) (s : server) : go Empty_set Web.response * server :=
  match t with
  | THealthz => on_world (fun w => let '(resp, w) := Web.handleHealthz chain_error_text w in (Ret resp, w)) s
  | TResolve => Web.handleResolve artifact nameHash address_Hex identity marshal json_error_text parse_error_text chain_error_text
                  r (e_get e) (e_set e) s
  | TResource => Web.handleResource artifact nameHash address_Hex Sum256 identity parse_error_text chain_error_text
                   DetectContentType ParseMediaType IsLoopbackIP engine_enabled (Config.AllowPeerHints cfg) (Config.EnforceType cfg)
                   r (e_get e) (e_set e) (e_sem e) s
  | TWeb => Web.handleWeb artifact nameHash address_Hex chain_error_text DetectContentType ParseMediaType IsLoopbackIP
              engine_enabled (Config.AllowPeerHints cfg) (Config.EnforceType cfg) QueryEscape ListenAddrs (Config.BTListenPort cfg) r (e_pass e) s
  | TDomain => on_world (Web.handleDomain address_Hex identity marshal json_error_text query_error_text chain_error_text r (e_now e)) s
  | TTypes => on_world (Web.handleTypes identity marshal json_error_text chain_error_text) s
  | TAdmin => let '(resp, s) := handleAdmin e s in (Ret resp, s)
  | TAdminStats => let '(resp, s) := Web.handleAdminStats identity (e_uptime e) (Config.RESTPort cfg) (Config.UDPPort cfg) (e_swarm e) s in
                   (Ret resp, s)
  | _ => showcase_handler t r s
  end.

(** The wildcard of the pattern is PathValue("name"). *)
Definition with_vals (vals : list bytes) (r : Web.request) : Web.request :=
  Web.mkHttpRequest (default [] (head vals)) (Web.params r) (Web.host r).
Definition plain (st : Z) (text : bytes) : Web.response :=
  Web.mkResponse st {[str "Content-Type" := str "text/plain; charset=utf-8"]} (Web.PBytes text).

(** The front ends' state: the cache and the chain client, the limiter both front
    ends share, the UDP handlers in flight. *)
Record state := mkState { st_server : server; st_limiter : RateLimit.ipLimiter Lim; st_inflight : Z }.

(** One HTTP request; [clock] are the limiter's readings of the clock. *)
Definition serve (method : bytes) (path : list bytes) (r : Web.request) (e : env) (RemoteAddr : bytes) (clock : Z * Z * Z)
    (st : state) : go Empty_set Web.response * state :=
  match dispatch (registerRoutes (Config.EnableShowcase cfg)) method path with
  | NotFound => (Ret (plain 404 (str "404 page not found")), st)
  | MethodNotAllowed => (Ret (plain 405 (str "Method Not Allowed")), st)
  | Routed rt vals =>
      let next := handle (r_target rt) (with_vals vals r) e (st_server st) in
      if r_limited rt then
        let '(resp, s, l) := Web.rateLimited RemoteAddr clock.1.1 clock.1.2 clock.2 (st_limiter st) next (st_server st) in
        (resp, mkState s l (st_inflight st))
      else (next.1, mkState next.2 (st_limiter st) (st_inflight st))
  end.

(** One UDP datagram whose handler runs at once; handlers that overlap are those of
    System.v. *)
Definition receive (packet addr : bytes) (e : env) (clock : Z * Z * Z) (st : state) : option bytes * state :=
  let '(reply, l, n) := Udp.accept_packet marshal_error addr clock.1.1 clock.1.2 clock.2 (st_limiter st) (st_inflight st) in
  match reply with
  | Some reply => (Some reply, mkState (st_server st) l n)
  | None =>
      let '(reply, s) := Udp.handleUDPPacket artifact nameHash address_Hex marshal_response marshal_envelope marshal_error
                           udp_error_text chain_error_text json_error_text identity packet (e_get e) (e_set e) (st_server st) in
      (reply, mkState s l (n - 1))
  end.

Inductive input :=
| IHttp (method : bytes) (path : list bytes) (r : Web.request) (e : env) (RemoteAddr : bytes) (clock : Z * Z * Z)
| IUdp (packet addr : bytes) (e : env) (clock : Z * Z * Z)
| IEvent (ev : RecordEvent).

Definition input_step (i : input) (st : state) : state :=
  match i with
  | IHttp method path r e addr clock => (serve method path r e addr clock st).2
  | IUdp packet addr e clock => (receive packet addr e clock st).2
  | IEvent ev => mkState (Handle.mkServer (Cache.HandleEvent nameHash ev (Handle.sv_cache (st_server st))) (Handle.sv_world (st_server st)))
                   (st_limiter st) (st_inflight st)
  end.
Definition inputs (l : list input) (st : state) : state := fold_left (fun st i => input_step i st) l st.

(** * What the assembled server keeps *)
Context {LL : Cache.LruLaws Cache.Key (Cache.entry ResolveResult) L}.
Definition valid_name (n : bytes) : Prop := Query.ValidateName n = Ret ().
Hypothesis nameHash_inj : forall a b, valid_name a -> valid_name b -> nameHash a = nameHash b -> a = b.
Hypothesis Resolve_unvetted : forall n t sel w res w',
  cr_Resolve n t sel w = (inl res, w') -> OwnerSigValid res = false.
Abbreviation server_inv := (Handle.server_inv artifact nameHash valid_name).
Hypothesis showcase_inv : forall t r s, server_inv s -> server_inv (showcase_handler t r s).2.

(** Every front end parses its query before it asks: the name is valid. *)
Lemma New_valid name t pairs q : Query.New name t pairs = Ret q -> valid_name (Query.Name q).
Proof. by intros (Hn & _ & sel & _ & ->)%Query.New_Ret. Qed.
Lemma parseResolveQuery_valid p q : Web.parseResolveQuery p = Ret q -> valid_name (Query.Name q).
Proof.
  unfold Web.parseResolveQuery. intros (p1 & _ & (p2 & _ & H)%go_bind_ret)%go_bind_ret.
  destruct (Query.New _ _ _) as [q'| |] eqn:E; try done. injection H as <-. by eapply New_valid.
Qed.
Lemma parseResourceQuery_valid p q : Web.parseResourceQuery p = Ret q -> valid_name (Query.Name q).
Proof.
  unfold Web.parseResourceQuery. cbv zeta. destruct (negb _); [done|]. intros (p1 & _ & H)%go_bind_ret.
  destruct (Query.New _ _ _) as [q'| |] eqn:E; try done. injection H as <-. by eapply New_valid.
Qed.
Lemma decodeUDPQuery_valid packet q : Udp.decodeUDPQuery packet = Ret q -> valid_name (Query.Name q).
Proof.
  unfold Udp.decodeUDPQuery. intros (b & _ & H)%go_bind_ret. destruct (negb _); [done|].
  apply go_bind_ret in H as (f & _ & (p & _ & H)%go_bind_ret).
  destruct (Query.New _ _ _) as [q'| |] eqn:E; try done. injection H as <-. by eapply New_valid.
Qed.

Lemma HandleQuery_keeps q t_get t_set (s : server) :
  valid_name (Query.Name q) -> server_inv s -> server_inv (Handle.HandleQuery artifact nameHash q t_get t_set s).2.
Proof. intros Hq Hs. by apply Handle.HandleQuery_inv. Qed.

Lemma resolveResponse_keeps q t_get t_set (s : server) :
  valid_name (Query.Name q) -> server_inv s -> server_inv (Handle.resolveResponse artifact nameHash address_Hex q t_get t_set s).2.
Proof.
  intros Hq Hs. pose proof (HandleQuery_keeps q t_get t_set s Hq Hs) as H. unfold Handle.resolveResponse.
  by destruct (Handle.HandleQuery _ _ _ _ _ _) as [[r|e] s'].
Qed.

Lemma world_keeps (w : W) (s : server) : server_inv s -> server_inv (Handle.mkServer (Handle.sv_cache s) w).
Proof. by intros []. Qed.

Abbreviation fetchVerifiedResource := (Web.fetchVerifiedResource artifact nameHash address_Hex chain_error_text
  DetectContentType ParseMediaType engine_enabled (Config.EnforceType cfg)).

Lemma fetch_keeps q peers t_get t_set sem (s : server) :
  valid_name (Query.Name q) -> server_inv s -> server_inv (fetchVerifiedResource q peers t_get t_set sem s).2.
Proof.
  intros Hq Hs. pose proof (HandleQuery_keeps q t_get t_set s Hq Hs) as H. unfold Web.fetchVerifiedResource.
  destruct engine_enabled; cbn [negb]; [|done].
  destruct (Handle.HandleQuery _ _ _ _ _ _) as [[r|e] s']; cbn [snd] in *; [|done].
  destruct (negb (Handle.Found r)); [done|]. destruct (negb _); [done|]. destruct (Web.missing _); [done|].
  destruct (Web.missing _); [done|]. destruct (existsb _ _); [done|]. destruct (negb sem); [done|].
  destruct (Web.rf_Fetch _ _ _ _) as [[body|e] w]; cbv zeta; [|by apply world_keeps].
  destruct (negb _ && _); by apply world_keeps.
Qed.

Lemma web_loop_keeps name sels peers vr rerr (s : server) :
  server_inv s ->
  server_inv (Web.web_loop artifact nameHash address_Hex chain_error_text DetectContentType ParseMediaType engine_enabled
                (Config.EnforceType cfg) name sels peers vr rerr s).2.
Proof.
  revert vr rerr s. induction sels as [|[sel [[t_get t_set] sem]] sels IH]; intros vr rerr s Hs; cbn [Web.web_loop]; [done|].
  destruct (Query.ParsePairs sel) as [pairs| |]; [|by apply IH..].
  destruct (Query.New name (str "ResourceRef") pairs) as [q| |] eqn:Eq; [|by apply IH..].
  pose proof (fetch_keeps q peers t_get t_set sem s (New_valid _ _ _ _ Eq) Hs) as Hs'.
  destruct (Web.fetchVerifiedResource _ _ _ _ _ _ _ _ _ _ _ _ _ _) as [[v|e] s']; cbn [snd] in *; [done|].
  case_bool_decide; [by apply IH|done].
Qed.

Lemma handle_keeps t r e s : server_inv s -> server_inv (handle t r e s).2.
Proof.
  intros Hs. destruct t; cbn [handle]; try (by apply showcase_inv).
  - unfold on_world. destruct (Web.handleHealthz _ _). by apply world_keeps.
  - unfold Web.handleResolve. destruct (Web.parseResolveQuery _) as [q| |] eqn:Eq; [|done..].
    pose proof (resolveResponse_keeps q (e_get e) (e_set e) s (parseResolveQuery_valid _ _ Eq) Hs) as H.
    by destruct (Handle.resolveResponse _ _ _ _ _ _ _) as [[resp|x] s'].
  - unfold Web.handleResource. destruct (Web.parseResourceQuery _) as [q| |] eqn:Eq; [|done..].
    pose proof (fetch_keeps q (Web.peers_of IsLoopbackIP (Config.AllowPeerHints cfg) r) (e_get e) (e_set e) (e_sem e) s (parseResourceQuery_valid _ _ Eq) Hs) as H.
    by destruct (Web.fetchVerifiedResource _ _ _ _ _ _ _ _ _ _ _ _ _ _) as [[v|x] s'].
  - unfold Web.handleWeb.
    match goal with |- context [Web.web_loop ?a ?b ?c ?d ?e ?f ?g ?h ?n ?sels ?p None None s] =>
      pose proof (web_loop_keeps n sels p None None s Hs) as H;
      destruct (Web.web_loop a b c d e f g h n sels p None None s) as [[vr rerr] s'] end.
    destruct rerr; [done|]. by destruct vr.
  - unfold on_world. destruct (Web.handleDomain _ _ _ _ _ _ _ _ _). by apply world_keeps.
  - unfold on_world. destruct (Web.handleTypes _ _ _ _ _). by apply world_keeps.
  - unfold handleAdmin, Web.gatherStats. destruct (cr_ChainHead _). by apply world_keeps.
  - unfold Web.handleAdminStats, Web.gatherStats. destruct (cr_ChainHead _). by apply world_keeps.
Qed.

Lemma serve_keeps method path r e addr clock st :
  server_inv (st_server st) -> server_inv (st_server (serve method path r e addr clock st).2).
Proof.
  intros Hs. unfold serve. destruct (dispatch _ method path) as [rt vals| |]; [|done..].
  pose proof (handle_keeps (r_target rt) (with_vals vals r) e (st_server st) Hs) as H.
  destruct (r_limited rt); [|done]. unfold Web.rateLimited.
  destruct (RateLimit.allow _ _) as [[] l]; cbn [negb]; [|done].
  by destruct (handle _ _ _ _).
Qed.

Lemma receive_keeps packet addr e clock st :
  server_inv (st_server st) -> server_inv (st_server (receive packet addr e clock st).2).
Proof.
  intros Hs. unfold receive. destruct (Udp.accept_packet _ _ _ _ _ _ _) as [[[reply|] l] n]; [done|].
  assert (server_inv (Udp.handleUDPPacket artifact nameHash address_Hex marshal_response marshal_envelope marshal_error
    udp_error_text chain_error_text json_error_text identity packet (e_get e) (e_set e) (st_server st)).2) as H.
  { unfold Udp.handleUDPPacket. destruct (Udp.decodeUDPQuery packet) as [q| |] eqn:Eq; [|done..].
    pose proof (resolveResponse_keeps q (e_get e) (e_set e) _ (decodeUDPQuery_valid _ _ Eq) Hs) as H.
    by destruct (Handle.resolveResponse _ _ _ _ _ _ _) as [resp s']. }
  by destruct (Udp.handleUDPPacket _ _ _ _ _ _ _ _ _ _ _ _ _ _).
Qed.

Lemma inputs_keep l st : server_inv (st_server st) -> server_inv (st_server (inputs l st)).
Proof.
  unfold inputs. revert st. induction l as [|i l IH]; intros st Hs; cbn [fold_left]; [done|]. apply IH.
  destruct i as [method path r e addr clock|packet addr e clock|ev]; cbn [input_step].
  - by apply serve_keeps.
  - by apply receive_keeps.
  - by apply (Handle.sstep_inv artifact nameHash valid_name nameHash_inj Resolve_unvetted (Handle.SEvent ev) (st_server st) I).
Qed.

(** Whatever HTTP requests, UDP datagrams and contract events the server has
    handled, in whatever order, every positive answer a query gets from the one cache
    they share is vetted: the owner-signature verdict is the verifier's, and a proof is
    one made from the record's own message. *)
Theorem front_ends_vetted cap c w l limiter q t_get t_set r :
  Cache.New cap = Some c -> valid_name (Query.Name q) ->
  let st := inputs l (mkState (Handle.mkServer c w) limiter 0) in
  (Handle.HandleQuery artifact nameHash q t_get t_set (st_server st)).1 = inl r -> Handle.Found r = true ->
  Handle.vetted artifact (Query.Name q) (Handle.Result r).
Proof.
  intros Hn Hq st Hr Hf. assert (server_inv (st_server st)) as Hs.
  { apply inputs_keep. by apply (Handle.boot_inv artifact nameHash valid_name cap). }
  destruct (Handle.HandleQuery_inv artifact nameHash valid_name nameHash_inj Resolve_unvetted q t_get t_set _ Hq Hs) as [_ H].
  apply H; [done|]. unfold Handle.Found in Hf. by apply andb_true_iff in Hf as [? _].
Qed.

(** * Rate limiting *)

(** The requests that reach a handler without asking the limiter. *)
Definition unlimited (t : target) : bool :=
  match t with
  | THealthz | TShowcase | TShowcaseFiles | TShowcaseConfig | TShowcaseCommit | TShowcasePublish | TShowcaseInvalidate | TFavicon => true
  | _ => false
  end.

Lemma pick_in {A} (f : A -> bool) x l : x ∈ l -> (match List.filter f l with r :: _ => r | [] => x end) ∈ l.
Proof.
  intros Hx. destruct (List.filter f l) as [|r rs] eqn:E; [done|].
  assert (r ∈ List.filter f l) as Hr by (rewrite E; by left). rewrite list_elem_of_In, filter_In in Hr. by apply list_elem_of_In, Hr.
Qed.

Lemma dispatch_in routes method path r vals : dispatch routes method path = Routed r vals -> r ∈ routes.
Proof.
  unfold dispatch. set (hits := List.filter (fun r => bool_decide (is_Some (match_path (r_path r) path))) routes).
  destruct (List.filter (fun r => match_method r method) hits) as [|r0 rs] eqn:E; [by destruct hits|].
  intros [= <- _]. assert (forall x, x ∈ r0 :: rs -> x ∈ routes) as H.
  { intros x Hx. rewrite <- E, list_elem_of_In, filter_In in Hx. destruct Hx as [Hx _]. unfold hits in Hx.
    rewrite filter_In in Hx. by apply list_elem_of_In, Hx. }
  apply H. exact (pick_in (fun r => negb (is_subtree r)) r0 (r0 :: rs) (list_elem_of_here _ _)).
Qed.

Lemma routes_limited showcase : forallb (fun r => Bool.eqb (r_limited r) (negb (unlimited (r_target r)))) (registerRoutes showcase) = true.
Proof. by destruct showcase. Qed.

(** C26. The one limiter guards every front end: a client it refuses gets a 429 from
    every route but the health probe and the showcase's, and a rate-limit reply over
    UDP, and nothing else happens: no handler runs, so neither the chain nor the cache
    is touched. *)
Theorem refused_client_costs_nothing method path r e addr packet clock st l :
  let host := match Net.SplitHostPort addr with Some (h, _) => h | None => addr end in
  RateLimit.allow (RateLimit.mkRequest host clock.1.1 clock.1.2 clock.2) (st_limiter st) = (false, l) ->
  (forall rt vals, dispatch (registerRoutes (Config.EnableShowcase cfg)) method path = Routed rt vals ->
     if unlimited (r_target rt) then st_limiter (serve method path r e addr clock st).2 = st_limiter st
     else serve method path r e addr clock st
          = (Ret (Web.writeError 429 (str "rate_limited") (str "too many requests from this address")),
             mkState (st_server st) l (st_inflight st)))
  /\ receive packet addr e clock st
     = (Some (Udp.encodeUDPError marshal_error Udp.udpStatusRateLimited (str "rate_limited") (str "too many requests from this address")),
        mkState (st_server st) l (st_inflight st)).
Proof.
  intros host Hl. split.
  - intros rt vals Hd. pose proof (routes_limited (Config.EnableShowcase cfg)) as Hr. rewrite forallb_forall in Hr.
    specialize (Hr rt ltac:(apply list_elem_of_In; by eapply dispatch_in)). apply Bool.eqb_prop in Hr.
    unfold serve. rewrite Hd, Hr. destruct (unlimited (r_target rt)); cbn [negb]; [done|].
    unfold Web.rateLimited. fold host. by rewrite Hl.
  - unfold receive, Udp.accept_packet, Udp.udpHost. fold host. by rewrite Hl.
Qed.

(** * Panics *)

Lemma map_err_panic {E F A} (f : E -> F) (m : go E A) : map_err f m = Panic -> m = Panic.
Proof. by destruct m. Qed.

Lemma merge_params_no_panic ks p pairs : Web.merge_params ks p pairs <> Panic.
Proof.
  revert pairs. induction ks as [|k ks IH]; intros pairs; cbn [Web.merge_params]; [done|].
  case_bool_decide; [apply IH|]. case_bool_decide; [done|apply IH].
Qed.

Lemma parseResolveQuery_no_panic p : Web.parseResolveQuery p <> Panic.
Proof.
  unfold Web.parseResolveQuery. destruct (map_err _ (Query.ParsePairs _)) as [p1|x|] eqn:E1; cbn [mbind go_bind]; [|done|].
  2: { apply map_err_panic, Query.ParsePairs_no_panic in E1. done. }
  destruct (Web.merge_params _ p p1) as [p2|x|] eqn:E2; cbn [mbind go_bind]; [|done|by apply merge_params_no_panic in E2].
  intros H%map_err_panic. by apply Query.New_no_panic in H.
Qed.

Lemma parseResourceQuery_no_panic p : Web.parseResourceQuery p <> Panic.
Proof.
  unfold Web.parseResourceQuery. cbv zeta. destruct (negb _); [done|].
  destruct (map_err _ (Query.ParsePairs _)) as [p1|x|] eqn:E1; cbn [mbind go_bind]; [|done|].
  2: { apply map_err_panic, Query.ParsePairs_no_panic in E1. done. }
  intros H%map_err_panic. by apply Query.New_no_panic in H.
Qed.

(** No request makes a handler panic but those to /web/{name} whose name or
    selector is not valid, as long as the answers can be encoded. *)
Theorem only_web_panics method path r e addr clock st :
  Config.EnableShowcase cfg = false -> (forall a, marshal a <> Panic) ->
  (serve method path r e addr clock st).1 = Panic ->
  exists rt vals, dispatch (registerRoutes false) method path = Routed rt vals /\ r_target rt = TWeb.
Proof.
  intros Hsc Hm. unfold serve. rewrite Hsc.
  assert (forall code v, Web.writeSigned identity marshal json_error_text code v <> Panic) as Hw.
  { intros code v. unfold Web.writeSigned, Pki.SealEnvelope. specialize (Hm v). by destruct (marshal v). }
  destruct (dispatch _ method path) as [rt vals| |] eqn:Ed; [|done..].
  assert ((handle (r_target rt) (with_vals vals r) e (st_server st)).1 = Panic -> r_target rt = TWeb) as Hh.
  { pose proof (dispatch_in _ _ _ _ _ Ed) as Hin. clear Ed.
    assert (forall t, t ∈ map r_target (registerRoutes false) -> t <> TWeb ->
      (handle t (with_vals vals r) e (st_server st)).1 <> Panic) as Hall.
    { intros t Ht Hne. destruct t; cbn [handle]; try done; try (exfalso; revert Ht; clear; vm_compute; set_solver).
      - unfold on_world. by destruct (Web.handleHealthz _ _).
      - unfold Web.handleResolve. destruct (Web.parseResolveQuery _) as [q| |] eqn:Eq; [|done|by apply parseResolveQuery_no_panic in Eq].
        destruct (Handle.resolveResponse _ _ _ _ _ _ _) as [[resp|x] s']; [apply Hw|done].
      - unfold Web.handleResource. destruct (Web.parseResourceQuery _) as [q| |] eqn:Eq; [|done|by apply parseResourceQuery_no_panic in Eq].
        by destruct (Web.fetchVerifiedResource _ _ _ _ _ _ _ _ _ _ _ _ _ _) as [[v|x] s'].
      - unfold on_world, Web.handleDomain. destruct (Query.ValidateName _) as [[]| |] eqn:Ev; [|done|].
        2: { unfold Query.ValidateName in Ev. by destruct (Regex.MatchString _ _). }
        destruct (cr_GetDomain _ _) as [[dom|x] w]; [|done]. case_bool_decide; [done|]. cbv zeta. destruct (_ <? _); [|apply Hw].
        destruct (cr_ListRecords _ _) as [[recs|x] w']; [apply Hw|done].
      - unfold on_world, Web.handleTypes. destruct (cr_ListTypes _) as [[ts|x] w]; [apply Hw|done].
      - by destruct (handleAdmin e (st_server st)).
      - by destruct (Web.handleAdminStats _ _ _ _ _ _). }
    intros Hp. apply dec_stable. intros Hne. eapply Hall; [|exact Hne|exact Hp]. by apply list_elem_of_fmap_2. }
  destruct (r_limited rt); [|intros Hp; naive_solver].
  unfold Web.rateLimited. destruct (RateLimit.allow _ _) as [[] l]; cbn [negb]; [|done].
  destruct (handle _ _ _ _) as [resp s]; cbn [fst snd] in *. intros ->. eauto.
Qed.
End Front.

(** * Run and the resolver command *)

(** What ends Run: the context, or the HTTP server, with ErrServerClosed or not. *)
Inductive cause := CtxDone | HttpEnded (closed : bool).
Inductive effect :=
| ListenUDP (ok : bool) | StartWatcher | ListenHTTP | ShutdownHTTP | CloseChain | CloseUDP | CloseTorrent.

(** Run, with its effects in order; the deferred closes run last to first. [udp] is
    whether the UDP socket could be opened, [c] what the select receives. *)
Definition Run (udp : bool) (c : cause) : list effect * bool :=
  let deferred := (if udp then [CloseUDP] else []) ++ [CloseTorrent] in
  let started := [ListenUDP udp; StartWatcher; ListenHTTP] in
  match c with
  | CtxDone => (started ++ [ShutdownHTTP; CloseChain] ++ deferred, true)
  | HttpEnded closed => (started ++ [CloseChain] ++ deferred, closed)
  end.

Section Main.
Context {L : Type} {LO : Cache.LruOps Cache.Key (Cache.entry ResolveResult) L}.
Context {Lim : Type} {EdPriv : Type} {ED : Pki.Ed25519 EdPriv}.
Variable IsHexAddress : bytes -> bool.
Variable Sum256 : bytes -> bytes.
Variable build_info : bytes -> bytes -> option bytes.
Variable HashInfoBytes : bytes -> bytes.
Variable uploads : Config.Config -> bytes.
Variable ReadFile : bytes -> option bytes.            (* os.ReadFile *)
Variable exists_ : bytes -> bool.                     (* os.Stat succeeds *)
Variable Unmarshal : bytes -> option Cli.contracts.
Context {UC : UnicodeCase}.
Abbreviation New cfg := (Boot.New (L := L) (Lim := Lim) (ED := ED) IsHexAddress Sum256 build_info HashInfoBytes (uploads cfg) cfg).

(** main of cmd/resolver: the exit status, and what Run did if it came to it. *)
Definition main (env : gmap bytes bytes) (w : Boot.world) (udp : bool) (c : cause) : Z * list effect :=
  match Config.FromEnv ReadFile exists_ Unmarshal env with
  | Ret cfg =>
      match (New cfg w).1 with
      | inl _ => let '(effects, ok) := Run udp c in (if ok then 0 else 1, effects)
      | inr _ => (1, [])
      end
  | _ => (1, [])
  end.
Context {LL : Cache.LruLaws Cache.Key (Cache.entry ResolveResult) L}.
Variable nameHash : bytes -> bytes.
Variable U : bytes -> Prop.

(** The resolver ends with status 0 only if its environment was valid, it booted
    into a fresh server, and it was asked to stop or its HTTP server was closed; and
    however Run ends, the chain client is closed once, before the torrent engine, which
    is the last thing closed, and the UDP socket is closed exactly if it was opened. *)
Theorem main_status env w udp c status effects :
  main env w udp c = (status, effects) ->
  (status = 0 <->
     exists cfg s, Config.FromEnv ReadFile exists_ Unmarshal env = Ret cfg /\ (New cfg w).1 = inl s
       /\ (c = CtxDone \/ c = HttpEnded true))
  /\ (status = 0 \/ status = 1)
  /\ (status = 0 -> exists cfg s, Config.config_ok cfg /\ Boot.fresh (Lim := Lim) nameHash U cfg w s)
  /\ (effects <> [] ->
      exists pre, effects = pre ++ [CloseTorrent] /\ CloseTorrent ∉ pre
        /\ List.filter (fun e => match e with CloseChain => true | _ => false end) pre = [CloseChain]
        /\ (CloseUDP ∈ pre <-> ListenUDP true ∈ pre)).
Proof.
  unfold main. destruct (Config.FromEnv _ _ _ env) as [cfg| |] eqn:Ef.
  2,3: intros [= <- <-]; split; [split; [done|by intros (? & ? & [=] & _)]|]; split; [by right|done].
  destruct ((New cfg w).1) as [s|x] eqn:En.
  2: { intros [= <- <-]. split; [split; [done|intros (? & ? & [= <-] & H & _); congruence]|]. split; [by right|done]. }
  assert (forall ok, (exists cfg' s', Ret cfg = Ret (E := Config.config_error) cfg' /\ (New cfg' w).1 = inl s' /\ ok) <-> ok) as Hex.
  { intros ok. split; [by intros (? & ? & _ & _ & ?)|]. intros Hok. by exists cfg, s. }
  intros Hrun. split; [|split; [|split]].
  - rewrite Hex. destruct c as [|[]]; cbn in Hrun; injection Hrun as <- _; naive_solver.
  - destruct c as [|[]]; cbn in Hrun; injection Hrun as <- _; auto.
  - intros _. exists cfg, s. pose proof (Config.FromEnv_spec ReadFile exists_ Unmarshal env) as Hv. rewrite Ef in Hv.
    split; [apply Hv|]. pose proof (Boot.New_boots (Lim := Lim) IsHexAddress Sum256 build_info HashInfoBytes (uploads cfg) nameHash U cfg w ltac:(apply Hv)) as Hb.
    destruct (New cfg w) as [[s'|x] conns]; cbn in En; [|done]. injection En as ->. apply Hb.
  - intros _. assert (effects = (Run udp c).1) as -> by (destruct c; cbn in Hrun; by injection Hrun as _ <-).
    exists (removelast (Run udp c).1). destruct udp, c as [|[]]; cbn; (split; [done|]; split; [set_solver|]; split; [done|set_solver]).
Qed.
End Main.

(** * A concrete server *)
#[local] Existing Instances Query.ascii_case Pki.merge_sort_pairs Zk.toy_mimc Zk.toy_groth Pki.toy_ed
  Encoding.std_hexutil_laws Cache.ListLruLaws RateLimit.bucket_ops.
Definition demo_cfg : Config.Config :=
  Config.mkConfig (str "http://127.0.0.1:8545") (str "0xaa") (str "0xbb") (str "key") 8053 5354 42069 1024 1 1
    (str "data") false true false [] [].
Definition demo_marshal (a : Web.answer) : go () bytes :=
  Ret (match a with Web.AResolve r => Handle.rr_Owner r | Web.ADomain d => Web.dr_Name d | Web.ATypes ts => concat ts end).
Definition demo_no_showcase (t : target) (r : Web.request) (s : Handle.server Handle.demo_lru Z) :
    go Empty_set Web.response * Handle.server Handle.demo_lru Z := (Ret (plain 404 []), s).
Definition demo_state : Type := state (L := Handle.demo_lru) (W := Z) (Lim := RateLimit.bucket).
Definition demo_serve : bytes -> list bytes -> Web.request -> env -> bytes -> Z * Z * Z -> demo_state -> go Empty_set Web.response * demo_state :=
  serve (EC := Pki.toy_eth) (CR := Web.demo_ref_chain) (RF := Web.demo_fetcher) (EdPriv := bytes)
    Handle.demo_artifact (fun n => n) (fun a => a) Pki.demo_sum (Pki.mkIdentity Pki.demo_seed) demo_marshal (fun _ => [])
    (fun _ => []) (fun _ => []) (fun _ => []) Web.demo_sniff (fun _ => None) (fun _ => false) true (fun b => b) [] demo_cfg
    (fun _ => []) demo_no_showcase.
Definition demo_inputs : list input -> demo_state -> demo_state :=
  inputs (EC := Pki.toy_eth) (CR := Web.demo_ref_chain) (RF := Web.demo_fetcher) (EdPriv := bytes)
    Handle.demo_artifact (fun n => n) (fun a => a) Pki.demo_sum (Pki.mkIdentity Pki.demo_seed) demo_marshal
    (fun r => Ret (Handle.rr_Owner r)) (fun e => Ret (Pki.Data e)) (fun c m => c ++ m) (fun _ => [])
    (fun _ => []) (fun _ => []) (fun _ => []) (fun _ => []) Web.demo_sniff (fun _ => None) (fun _ => false) true (fun b => b) [] demo_cfg
    (fun _ => []) demo_no_showcase.
Definition demo_boot : demo_state := mkState Handle.demo_boot (RateLimit.newIPLimiter 1 1) 0.
Definition demo_env : env := mkEnv 0 1 true (fun _ => (0, 1, true)) 0 0 None.
Definition demo_req (name : bytes) : Web.request :=
  Web.mkHttpRequest [] {[str "name" := [name]; str "type" := [str "ResourceRef"]]} (str "resolver.example").
Definition demo_addr : bytes := str "192.0.2.1:4242".
Definition demo_query : Query.Query := Query.mkQuery (str "alice") (str "ResourceRef") [].

(** A query over HTTP, an event about another name, and an unreadable datagram. *)
Definition demo_traffic : list input :=
  [ IHttp GET [str "resolve"] (demo_req (str "alice")) demo_env demo_addr (0, 0, 0);
    IEvent (mkRecordEvent EventRecordSet (str "bob") (str "bob") (str "A") [] 3);
    IUdp (str "hello") (str "192.0.2.9:53") demo_env (1, 1, 1) ].

Lemma demo_hit : exists r,
  (Handle.HandleQuery (EC := Pki.toy_eth) (CR := Web.demo_ref_chain) Handle.demo_artifact (fun n => n) demo_query 5 6
     (st_server (demo_inputs demo_traffic demo_boot))).1 = inl r /\ Handle.Cached r = true /\ Handle.Found r = true.
Proof.
  assert (match (Handle.HandleQuery (EC := Pki.toy_eth) (CR := Web.demo_ref_chain) Handle.demo_artifact (fun n => n) demo_query 5 6
     (st_server (demo_inputs demo_traffic demo_boot))).1 with inl r => Handle.Cached r && Handle.Found r | inr _ => false end = true) as H by vm_refl.
  destruct (Handle.HandleQuery _ _ _ _ _ _).1 as [r|]; [|discriminate H]. exists r. apply andb_true_iff in H as [H1 H2]. done.
Qed.

Lemma front_ends_vetted_witness : exists r,
  (Handle.HandleQuery (EC := Pki.toy_eth) (CR := Web.demo_ref_chain) Handle.demo_artifact (fun n => n) demo_query 5 6
     (st_server (demo_inputs demo_traffic demo_boot))).1 = inl r
  /\ Handle.vetted (EC := Pki.toy_eth) Handle.demo_artifact (str "alice") (Handle.Result r).
Proof.
  destruct demo_hit as (r & Hr & _ & Hf). exists r. split; [exact Hr|].
  apply (front_ends_vetted (EC := Pki.toy_eth) (CR := Web.demo_ref_chain) (RF := Web.demo_fetcher) (EdPriv := bytes)
    Handle.demo_artifact (fun n => n) (fun a => a) Pki.demo_sum (Pki.mkIdentity Pki.demo_seed) demo_marshal
    (fun r => Ret (Handle.rr_Owner r)) (fun e => Ret (Pki.Data e)) (fun c m => c ++ m) (fun _ => [])
    (fun _ => []) (fun _ => []) (fun _ => []) (fun _ => []) Web.demo_sniff (fun _ => None) (fun _ => false) true (fun b => b) [] demo_cfg
    (fun _ => []) demo_no_showcase (fun _ _ _ _ e => e) Web.demo_ref_unvetted (fun t r s H => H) 8 Handle.demo_cache 0 demo_traffic
    (RateLimit.newIPLimiter 1 1) demo_query 5 6 r).
  - reflexivity.
  - unfold valid_name; vm_refl.
  - exact Hr.
  - exact Hf.
Defined.

(** A burst of one: the second request of an address in the same instant. *)
Definition demo_spent : demo_state := demo_inputs [IHttp GET [str "types"] (demo_req []) demo_env demo_addr (0, 0, 0)] demo_boot.
Lemma refused_client_costs_nothing_witness :
  (demo_serve GET [str "resolve"] (demo_req (str "alice")) demo_env demo_addr (0, 0, 0) demo_spent).1
    = Ret (Web.writeError 429 (str "rate_limited") (str "too many requests from this address"))
  /\ st_server (demo_serve GET [str "resolve"] (demo_req (str "alice")) demo_env demo_addr (0, 0, 0) demo_spent).2 = st_server demo_spent.
Proof.
  destruct (RateLimit.allow (RateLimit.mkRequest (str "192.0.2.1") 0 0 0) (st_limiter demo_spent)) as [b l] eqn:El.
  assert (b = false) as -> by (apply (f_equal fst) in El; cbn [fst] in El; rewrite <- El; vm_refl).
  destruct (refused_client_costs_nothing (EC := Pki.toy_eth) (CR := Web.demo_ref_chain) (RF := Web.demo_fetcher) (EdPriv := bytes)
    Handle.demo_artifact (fun n => n) (fun a => a) Pki.demo_sum (Pki.mkIdentity Pki.demo_seed) demo_marshal
    (fun r => Ret (Handle.rr_Owner r)) (fun e => Ret (Pki.Data e)) (fun c m => c ++ m) (fun _ => [])
    (fun _ => []) (fun _ => []) (fun _ => []) (fun _ => []) Web.demo_sniff (fun _ => None) (fun _ => false) true (fun b => b) [] demo_cfg
    (fun _ => []) demo_no_showcase GET [str "resolve"] (demo_req (str "alice")) demo_env demo_addr [] (0, 0, 0) demo_spent l El) as [H _].
  specialize (H (mkRoute GET [Lit (str "resolve")] true TResolve) [] eq_refl). cbn [unlimited r_target] in H.
  unfold demo_serve. rewrite H. split; reflexivity.
Defined.

Lemma only_web_panics_witness :
  exists rt vals, dispatch (registerRoutes false) GET [str "web"; str "BAD NAME"] = Routed rt vals /\ r_target rt = TWeb.
Proof.
  apply (only_web_panics (EC := Pki.toy_eth) (CR := Web.demo_ref_chain) (RF := Web.demo_fetcher) (EdPriv := bytes) (L := Handle.demo_lru)
    Handle.demo_artifact (fun n => n) (fun a => a) Pki.demo_sum (Pki.mkIdentity Pki.demo_seed) demo_marshal (fun c m => c ++ m) (fun _ => [])
    (fun _ => []) (fun _ => []) (fun _ => []) Web.demo_sniff (fun _ => None) (fun _ => false) true (fun b => b) [] demo_cfg
    (fun _ => []) demo_no_showcase GET [str "web"; str "BAD NAME"] (demo_req []) demo_env demo_addr (0, 0, 0) demo_boot).
  - reflexivity.
  - intros a. discriminate.
  - vm_refl.
Defined.

Definition demo_main (udp : bool) (c : cause) : Z * list effect :=
  main (L := Handle.demo_lru) (Lim := RateLimit.bucket) (fun _ => true) Torrent.demo_sum256 Seed.demo_info Seed.demo_infohash
    (fun _ => str "up") (fun _ => None) (fun _ => false) (fun _ => None) ∅ (Boot.demo_world true) udp c.
Lemma demo_main_runs : demo_main true CtxDone = (0, (Run true CtxDone).1).
Proof. vm_refl. Qed.

Lemma main_status_witness :
  demo_main true CtxDone = (0, (Run true CtxDone).1)
  /\ exists pre, (Run true CtxDone).1 = pre ++ [CloseTorrent] /\ (CloseUDP ∈ pre <-> ListenUDP true ∈ pre).
Proof.
  split; [exact demo_main_runs|].
  destruct (main_status (Lim := RateLimit.bucket) (fun _ => true) Torrent.demo_sum256 Seed.demo_info Seed.demo_infohash
    (fun _ => str "up") (fun _ => None) (fun _ => false) (fun _ => None) (fun n => n) (fun _ => True) ∅ (Boot.demo_world true) true CtxDone
    0 (Run true CtxDone).1 demo_main_runs) as (_ & _ & _ & H).
  destruct H as (pre & Hpre & _ & _ & Hudp); [discriminate|]. exists pre. split; [exact Hpre|exact Hudp].
Defined.
End Server.
