(* ===== verification/Load.v ===== *)
(** The UDP front end under load (serveUDP of src/resolver/internal/server/udp.go):
    packets arrive and are admitted by the limiter and the semaphore, their handlers
    run as goroutines that interleave with each other, with the queries of the HTTP
    front end, with contract events and with the chain (System.v), and reply.

    The scheduler is executable: [exec] performs one action, [run] a schedule. *)
From S2P Require Import Prelude GoStrings Net Encoding Query Chain Cache RateLimit Pki Zk Handle Udp System Server.
Import Chain.

Local Open Scope Z_scope.

Module Load.
#[local] Existing Instance Query.Query_eq_dec.

Section Load.
Context {UC : UnicodeCase}.
Context {SP : Pki.SortPairs} {Priv Pub : Type} {EC : Pki.EthCrypto Priv Pub}.
Context {St : Type} {MI : Zk.Mimc St} {CCS PK VK Wit PubWit : Type} {GR : Zk.Groth16 CCS PK VK Wit PubWit}.
Context {L : Type} {LO : Cache.LruOps Cache.Key (Cache.entry ResolveResult) L}.
Context {W Er : Type} {CR : ChainReader W Er} {HX : Encoding.Hexutil}.
Context {EdPriv : Type} {ED : Pki.Ed25519 EdPriv} {Lim : Type} {RO : RateOps Lim}.
Variable artifact : bytes -> option bytes.
Variable nameHash : bytes -> bytes.
Variable address_Hex : address -> bytes.
Context {JE : Type}.
Variable marshal_response : Handle.resolveResponse_t -> go JE bytes.
Variable marshal_envelope : Pki.Envelope -> go JE bytes.
Variable marshal_error : bytes -> bytes -> bytes.
Variable udp_error_text : Udp.udp_error -> bytes.
Variable chain_error_text : Er -> bytes.
Variable json_error_text : JE -> bytes.
Variable identity : Pki.Identity EdPriv.

Abbreviation sys := (System.sys (L := L) (W := W) (Er := Er)).
Abbreviation udp_reply := (Udp.udp_reply marshal_response marshal_envelope marshal_error chain_error_text json_error_text identity).
Abbreviation refuse_query := (Udp.refuse_query marshal_error udp_error_text).

(** A datagram: its bytes and its source. *)
Record datagram := mkDatagram { d_packet : bytes; d_addr : bytes }.

(** The shared state of System.v, the limiter, the handlers that hold a slot of the
    semaphore, by goroutine, and the replies sent, each with its datagram. *)
Record state := mkState {
  l_sys : sys;
  l_limiter : RateLimit.ipLimiter Lim;
  l_flight : gmap nat datagram;
  l_sent : list (datagram * bytes);
}.
Definition boot (c : Cache.TTLCache L) (w : W) (l : RateLimit.ipLimiter Lim) : state := mkState (System.boot c w) l ∅ [].

Inductive action :=
| AArrive (t : nat) (d : datagram) (t1 t2 t3 : Z)  (* ReadFrom; goroutine [t] if a handler starts *)
| ASys (a : System.action (W := W))                (* a step of System.v *)
| AReply (t : nat).                                (* the handler replies and frees its slot *)

(** The response of a finished query. *)
Definition response_of (q : Query.Query) (ans : Handle.QueryResult + Er) : Handle.resolveResponse_t + Er :=
  match ans with inl res => inl (Handle.build_response address_Hex q res) | inr e => inr e end.

(** The reply of handler [t], once it can be sent. *)
Definition reply_of (t : nat) (d : datagram) (s : state) : option bytes :=
  match Udp.decodeUDPQuery (d_packet d) with
  | Err e => Some (refuse_query e)
  | Ret q => match System.sys_threads (l_sys s) !! t with
             | Some (System.Done _ ans) => udp_reply (response_of q ans)
             | _ => None
             end
  | Panic => None
  end.

(** A query starts for the packet of its handler, or, of the HTTP front end, for a
    valid name. *)
Definition may_lookup (a : System.action (W := W)) (s : state) : bool :=
  match a with
  | System.ALookup t q _ =>
      match l_flight s !! t with
      | Some d => match Udp.decodeUDPQuery (d_packet d) with Ret q' => bool_decide (q' = q) | _ => false end
      | None => is_ret (Query.ValidateName (Query.Name q))
      end
  | _ => true
  end.

Definition exec (a : action) (s : state) : option state :=
  match a with
  | AArrive t d t1 t2 t3 =>
      let '(reply, l, _) := Udp.accept_packet marshal_error (d_addr d) t1 t2 t3 (l_limiter s) (Z.of_nat (size (l_flight s))) in
      match reply with
      | Some reply => Some (mkState (l_sys s) l (l_flight s) (l_sent s ++ [(d, reply)]))
      | None =>
          match l_flight s !! t, System.sys_threads (l_sys s) !! t with
          | None, None => Some (mkState (l_sys s) l (<[t := d]> (l_flight s)) (l_sent s))
          | _, _ => None
          end
      end
  | ASys a =>
      if may_lookup a s then
        '(_, sys) ← System.exec artifact nameHash a (l_sys s); Some (mkState sys (l_limiter s) (l_flight s) (l_sent s))
      else None
  | AReply t =>
      d ← l_flight s !! t;
      reply ← reply_of t d s;
      Some (mkState (l_sys s) (l_limiter s) (delete t (l_flight s)) (l_sent s ++ [(d, reply)]))
  end.
Definition run (acts : list action) (s : state) : option state := fold_left (fun o a => s ← o; exec a s) acts (Some s).
Definition arrived (acts : list action) : list datagram := omap (fun a => match a with AArrive _ d _ _ _ => Some d | _ => None end) acts.

Lemma run_snoc acts a s s' : run (acts ++ [a]) s = Some s' <-> exists s1, run acts s = Some s1 /\ exec a s1 = Some s'.
Proof.
  unfold run. rewrite fold_left_app. cbn. destruct (fold_left _ acts _) as [s1|]; cbn; [|split; [done|by intros (s1 & [=] & _)]].
  split; [eauto|by intros (? & [= ->] & ?)].
Qed.
Lemma run_cons a acts s s1 s' : exec a s = Some s1 -> run acts s1 = Some s' -> run (a :: acts) s = Some s'.
Proof. intros H. unfold run. cbn. by rewrite H. Qed.

Lemma arrived_snoc acts a : arrived (acts ++ [a]) = arrived acts ++ match a with AArrive _ d _ _ _ => [d] | _ => [] end.
Proof. unfold arrived. rewrite omap_app. by destruct a. Qed.

(** A handler alone does what handleUDPPacket does. *)
Lemma reply_is_handlers packet t_get t_set (sv : Handle.server L W) q :
  Udp.decodeUDPQuery packet = Ret q ->
  (Udp.handleUDPPacket artifact nameHash address_Hex marshal_response marshal_envelope marshal_error udp_error_text chain_error_text
     json_error_text identity packet t_get t_set sv).1
  = udp_reply (response_of q (Handle.HandleQuery artifact nameHash q t_get t_set sv).1).
Proof.
  intros Hq. unfold Udp.handleUDPPacket, Handle.resolveResponse. rewrite Hq.
  by destruct (Handle.HandleQuery _ _ _ _ _ _) as [[res|e] s'].
Qed.

(** * What holds under load *)
Context {LL : Cache.LruLaws Cache.Key (Cache.entry ResolveResult) L}.
Definition valid_name (n : bytes) : Prop := Query.ValidateName n = Ret ().
Hypothesis nameHash_inj : forall a b, valid_name a -> valid_name b -> nameHash a = nameHash b -> a = b.
Hypothesis Resolve_unvetted : forall n t sel w res w',
  cr_Resolve n t sel w = (inl res, w') -> OwnerSigValid res = false.
Hypothesis response_marshals : forall r, marshal_response r <> Panic.
Hypothesis envelope_marshals : forall env, marshal_envelope env <> Panic.
Abbreviation steps := (System.steps artifact nameHash).

(** A reply to a datagram that a client can rely on: an error, or the signed answer
    to the query that very datagram holds, vetted if it is positive. *)
Definition honest (x : datagram * bytes) : Prop :=
  Udp.reply_ok x.2
  /\ ((exists status code msg, status <> Udp.udpStatusOK /\ x.2 = Udp.encodeUDPError marshal_error status code msg)
      \/ exists q res env data, Udp.decodeUDPQuery (d_packet x.1) = Ret q
           /\ Pki.SealEnvelope marshal_response identity (Handle.build_response address_Hex q res) = Ret env /\ marshal_envelope env = Ret data
           /\ Z.of_nat (length data) <= Udp.udpMaxResp
           /\ x.2 = Udp.encodeUDPResponse Udp.udpStatusOK [Udp.mkTLV Udp.udpTLVEnvelope data]
           /\ (Handle.Found res = true -> Handle.vetted artifact (Query.Name q) (Handle.Result res))).

Lemma error_honest d status code msg : status <> Udp.udpStatusOK -> honest (d, Udp.encodeUDPError marshal_error status code msg).
Proof. intros Hs. split; [by apply Udp.error_reply_ok|]. left. by exists status, code, msg. Qed.

Record load_inv (c : Cache.TTLCache L) (w : W) (acts : list action) (s : state) : Prop := {
  li_steps : exists ls, steps (System.boot c w) ls (l_sys s) /\ Forall (System.label_ok valid_name) ls;
  li_slots : Z.of_nat (size (l_flight s)) <= Udp.udpMaxInFlight;
  li_query t d p : l_flight s !! t = Some d -> System.sys_threads (l_sys s) !! t = Some p ->
    Udp.decodeUDPQuery (d_packet d) = Ret (System.query_of p);
  li_count : arrived acts ≡ₚ map fst (l_sent s) ++ map snd (map_to_list (l_flight s));
  li_sent : Forall honest (l_sent s);
}.

(** The admission of a datagram: an error reply, or a free slot. *)
Lemma accept_packet_cases addr t1 t2 t3 (l : RateLimit.ipLimiter Lim) n reply l' n' :
  Udp.accept_packet marshal_error addr t1 t2 t3 l n = (reply, l', n') ->
  match reply with
  | Some r => exists status code msg, status <> Udp.udpStatusOK /\ r = Udp.encodeUDPError marshal_error status code msg
  | None => n < Udp.udpMaxInFlight
  end.
Proof.
  unfold Udp.accept_packet. destruct (RateLimit.allow _ l) as [[] l1]; cbn [negb].
  - destruct (Z.ltb_spec n Udp.udpMaxInFlight); intros [= <- _ _]; [done|]. eexists _, _, _. by split; [|reflexivity].
  - intros [= <- _ _]. eexists _, _, _. by split; [|reflexivity].
Qed.

Lemma arrive_inv c w acts s t d t1 t2 t3 s' :
  load_inv c w acts s -> exec (AArrive t d t1 t2 t3) s = Some s' -> load_inv c w (acts ++ [AArrive t d t1 t2 t3]) s'.
Proof.
  intros [Hls Hn Hq Hc Hh]. cbn [exec]. destruct (Udp.accept_packet _ _ _ _ _ _ _) as [[reply l] n] eqn:Ea.
  apply accept_packet_cases in Ea. destruct reply as [r|].
  - destruct Ea as (status & code & msg & Hs & ->). intros [= <-]. split; cbn [l_sys l_flight l_sent]; try done.
    + rewrite arrived_snoc, Hc, map_app. cbn. solve_Permutation.
    + apply Forall_app. split; [done|]. apply Forall_singleton. by apply error_honest.
  - destruct (l_flight s !! t) eqn:Ef; [done|]. destruct (System.sys_threads (l_sys s) !! t) eqn:Et; [done|].
    intros [= <-]. split; cbn [l_sys l_flight l_sent]; try done.
    + rewrite map_size_insert_None by done. lia.
    + intros t' d' p. rewrite lookup_insert. case_decide; [intros _ Hp; congruence|by apply Hq].
    + rewrite arrived_snoc, Hc, map_to_list_insert by done. cbn. solve_Permutation.
Qed.

(** A step keeps the query of a thread, or starts it. *)
Lemma step_query s l s' t p :
  System.step artifact nameHash s l s' -> System.sys_threads s' !! t = Some p ->
  (exists p0, System.sys_threads s !! t = Some p0 /\ System.query_of p0 = System.query_of p)
  \/ exists now hit, l = System.LLookup t (System.query_of p) now hit.
Proof.
  intros Hl Hp. destruct (decide (System.thread_of l = Some t)) as [Ht|Ht].
  2: { left. exists p. by rewrite <- (System.step_frame _ _ _ _ _ _ Hl Ht). }
  inversion Hl; subst; cbn in Ht; try done; injection Ht as ->; cbn in Hp; rewrite lookup_insert_eq in Hp; injection Hp as <-.
  - right. eauto.
  - right. eauto.
  - left. eexists. split; [eassumption|]. by rewrite System.query_of_after_read.
  - left. eexists. by split; [eassumption|].
Qed.

Lemma may_lookup_ok a s l sys' t q now hit :
  may_lookup a s = true -> System.exec artifact nameHash a (l_sys s) = Some (l, sys') -> l = System.LLookup t q now hit ->
  match l_flight s !! t with Some d => Udp.decodeUDPQuery (d_packet d) = Ret q | None => valid_name (Query.Name q) end.
Proof.
  intros Hm Hex ->. destruct a as [t' q' now'|t' now'|ev|n| |w]; cbn [System.exec may_lookup] in *; try done.
  - destruct (System.sys_threads (l_sys s) !! t'); [done|]. destruct (Cache.Get _ _ _ _) as [h c]. injection Hex as <- <- <- <-.
    destruct (l_flight s !! t').
    + destruct (Udp.decodeUDPQuery _) as [q0| |]; try done. by apply bool_decide_eq_true in Hm as ->.
    + unfold valid_name. by destruct (Query.ValidateName _) as [[]| |].
  - destruct (System.sys_threads (l_sys s) !! t') as [[]|]; try done. by destruct (cr_Resolve _ _ _ _).
Qed.

Lemma sys_inv c w acts s a s' :
  load_inv c w acts s -> exec (ASys a) s = Some s' -> load_inv c w (acts ++ [ASys a]) s'.
Proof.
  intros [(ls & Hls & Hok) Hn Hq Hc Hh]. cbn [exec]. destruct (may_lookup a s) eqn:Em; [|done].
  destruct (System.exec _ _ a (l_sys s)) as [[l sys']|] eqn:Ex; [|done]. intros [= <-].
  pose proof (System.exec_step _ _ _ _ _ _ Ex) as Hst. pose proof (may_lookup_ok a s l sys') as Hlook.
  split; cbn [l_sys l_flight l_sent]; try done.
  - exists (ls ++ [l]). split; [by econstructor|]. apply Forall_app. split; [done|]. apply Forall_singleton.
    destruct l as [t q now hit| | | | | |]; try done. specialize (Hlook t q now hit Em Ex eq_refl). cbn.
    destruct (l_flight s !! t); [by eapply Server.decodeUDPQuery_valid|done].
  - intros t d p Hd Hp. destruct (step_query _ _ _ _ _ Hst Hp) as [(p0 & Hp0 & <-)|(now & hit & ->)]; [by apply (Hq t)|].
    specialize (Hlook _ _ _ _ Em Ex eq_refl). by rewrite Hd in Hlook.
  - by rewrite arrived_snoc, app_nil_r.
Qed.

Lemma reply_of_honest cap c w acts s t d reply :
  Cache.New cap = Some c -> load_inv c w acts s -> l_flight s !! t = Some d -> reply_of t d s = Some reply -> honest (d, reply).
Proof.
  intros Hnew [(ls & Hls & Hok) _ Hq _ _] Hd. unfold reply_of. destruct (Udp.decodeUDPQuery (d_packet d)) as [q|e|] eqn:Eq; [| |done].
  2: { intros [= <-]. by apply error_honest. }
  destruct (System.sys_threads (l_sys s) !! t) as [[| |q' ans]|] eqn:Et; try done. intros Hr.
  assert (q' = q) as -> by (specialize (Hq t d _ Hd Et); cbn in Hq; congruence).
  destruct (Udp.udp_reply_ok marshal_response marshal_envelope marshal_error chain_error_text json_error_text identity
    response_marshals envelope_marshals (response_of q ans)) as (r & Hr' & Hrok & Hcase).
  rewrite Hr in Hr'. injection Hr' as <-. split; [exact Hrok|].
  destruct Hcase as [?|(resp & env & data & Hresp & He & Hm & Hle & ->)]; [by left|right].
  destruct ans as [res|e]; [|done]. injection Hresp as <-. exists q, res, env, data. split_and!; try done.
  intros Hf. by eapply (System.done_vetted artifact nameHash valid_name nameHash_inj Resolve_unvetted).
Qed.

Lemma reply_inv cap c w acts s t s' :
  Cache.New cap = Some c -> load_inv c w acts s -> exec (AReply t) s = Some s' -> load_inv c w (acts ++ [AReply t]) s'.
Proof.
  intros Hnew Hinv. pose proof Hinv as [Hls Hn Hq Hc Hh]. cbn [exec]. destruct (l_flight s !! t) as [d|] eqn:Ed; [|done]. cbn.
  destruct (reply_of t d s) as [r|] eqn:Hrep; [|done]. intros [= <-]. split; cbn [l_sys l_flight l_sent]; try done.
  - rewrite map_size_delete_Some by eauto. lia.
  - intros t' d' p. rewrite lookup_delete. case_decide; [done|]. apply Hq.
  - rewrite arrived_snoc, app_nil_r, Hc, map_app. cbn [map fst].
    rewrite <- (insert_delete_id (l_flight s) t d) at 1 by done. rewrite map_to_list_insert by apply lookup_delete_eq.
    cbn [map snd]. solve_Permutation.
  - apply Forall_app. split; [done|]. apply Forall_singleton. by eapply reply_of_honest.
Qed.

Lemma run_inv cap c w l acts s : Cache.New cap = Some c -> run acts (boot c w l) = Some s -> load_inv c w acts s.
Proof.
  intros Hnew. revert s. induction acts as [|a acts IH] using rev_ind; intros s.
  - intros [= <-]. split; cbn; try done. exists []. split; constructor.
  - intros (s1 & H1%IH & Ha)%run_snoc. destruct a; [by eapply arrive_inv|by eapply sys_inv|by eapply reply_inv].
Qed.

(** ** Every handler can finish *)
Definition can_finish (t : nat) (s : state) : Prop := exists acts s', run acts s = Some s' /\ l_flight s' = delete t (l_flight s).
Lemma can_finish_step t a s s1 : exec a s = Some s1 -> l_flight s1 = l_flight s -> can_finish t s1 -> can_finish t s.
Proof. intros Ha Hf (acts & s' & Hr & Hd). exists (a :: acts), s'. split; [by eapply run_cons|]. by rewrite Hd, Hf. Qed.
Lemma can_finish_reply t d reply s : l_flight s !! t = Some d -> reply_of t d s = Some reply -> can_finish t s.
Proof. intros Hd Hr. exists [AReply t]. eexists. unfold run. cbn. rewrite Hd. cbn. rewrite Hr. done. Qed.

Lemma can_finish_done t d q q' ans s :
  l_flight s !! t = Some d -> Udp.decodeUDPQuery (d_packet d) = Ret q -> System.sys_threads (l_sys s) !! t = Some (System.Done q' ans) ->
  can_finish t s.
Proof.
  intros Hd Hq Ht.
  destruct (Udp.udp_reply_ok marshal_response marshal_envelope marshal_error chain_error_text json_error_text identity
    response_marshals envelope_marshals (response_of q ans)) as (r & Hr & _).
  eapply can_finish_reply; [done|]. unfold reply_of. by rewrite Hq, Ht.
Qed.
Lemma can_finish_pending t d q q' res s :
  l_flight s !! t = Some d -> Udp.decodeUDPQuery (d_packet d) = Ret q -> System.sys_threads (l_sys s) !! t = Some (System.Pending q' res) ->
  can_finish t s.
Proof.
  intros Hd Hq Ht. eapply (can_finish_step t (ASys (System.AAdvance t 0))); [cbn; rewrite Ht; reflexivity|done|].
  eapply can_finish_done; [done..|apply lookup_insert_eq].
Qed.
Lemma can_finish_missed t d q q' s :
  l_flight s !! t = Some d -> Udp.decodeUDPQuery (d_packet d) = Ret q -> System.sys_threads (l_sys s) !! t = Some (System.Missed q') ->
  can_finish t s.
Proof.
  intros Hd Hq Ht. destruct (cr_Resolve (Query.Name q') (Query.Type_ q') (Query.Selector q') (System.sys_world (l_sys s))) as [ans w] eqn:Hans.
  eapply (can_finish_step t (ASys (System.AAdvance t 0))); [cbn; rewrite Ht, Hans; reflexivity|done|].
  destruct (System.after_read artifact q' ans) as [q0|q0 res|q0 a] eqn:Ea.
  - exfalso. destruct ans as [res|e]; [|done]. rewrite System.after_read_inl in Ea. by destruct (_ && _).
  - eapply can_finish_pending; [done..|apply lookup_insert_eq].
  - eapply can_finish_done; [done..|apply lookup_insert_eq].
Qed.
Lemma handler_finishes t d s : l_flight s !! t = Some d -> can_finish t s.
Proof.
  intros Hd. destruct (Udp.decodeUDPQuery (d_packet d)) as [q|e|] eqn:Eq.
  3: by apply Udp.decodeUDPQuery_no_panic in Eq.
  2: { eapply can_finish_reply; [done|]. unfold reply_of. by rewrite Eq. }
  destruct (System.sys_threads (l_sys s) !! t) as [[q'|q' res|q' ans]|] eqn:Et;
    [by eapply can_finish_missed|by eapply can_finish_pending|by eapply can_finish_done|].
  destruct (Cache.Get nameHash (Handle.query_key q) 0 (System.sys_cache (l_sys s))) as [hit c] eqn:Eg.
  eapply (can_finish_step t (ASys (System.ALookup t q 0))).
  - cbn. rewrite Hd, Eq, bool_decide_eq_true_2, Et, Eg by done. reflexivity.
  - done.
  - destruct hit; [eapply can_finish_done; [done..|apply lookup_insert_eq]|eapply can_finish_missed; [done..|apply lookup_insert_eq]].
Qed.

(** C20. The UDP front end under load: whatever datagrams arrive and however their
    handlers interleave with each other, with the queries of the HTTP front end,
    with contract events and with the chain, at most 256 handlers run; every
    datagram has been replied to once or its handler is running, and that handler
    can still reply; and every reply is one the client's decoder accepts: an error
    status (with its body, unless that is too long for a TLV and left out), or the
    signed answer to the query of that datagram, vetted if it is positive. *)
Theorem udp_under_load cap c w l acts s :
  Cache.New cap = Some c -> run acts (boot c w l) = Some s ->
  Z.of_nat (size (l_flight s)) <= Udp.udpMaxInFlight
  /\ arrived acts ≡ₚ map fst (l_sent s) ++ map snd (map_to_list (l_flight s))
  /\ Forall honest (l_sent s)
  /\ forall t, is_Some (l_flight s !! t) -> exists acts' s', run acts' s = Some s' /\ l_flight s' = delete t (l_flight s).
Proof.
  intros Hnew Hrun. destruct (run_inv _ _ _ _ _ _ Hnew Hrun) as [_ Hn _ Hc Hh]. split_and!; try done.
  intros t [d Hd]. by eapply handler_finishes.
Qed.
End Load.

(** * Two datagrams and a query over HTTP

    A client asks for alice's address; while its handler runs, a query over HTTP for
    the same record reads the chain, the owner's change of the record is announced,
    and somebody sends a datagram that is not a query. *)
#[local] Existing Instances Query.ascii_case Pki.merge_sort_pairs Zk.toy_mimc Zk.toy_groth Pki.toy_ed RateLimit.bucket_ops.
Definition demo_client : datagram := mkDatagram (Udp.encodeUDPQuery System.demo_query) (str "192.0.2.1:4242").
Definition demo_noise : datagram := mkDatagram (str "hello") (str "192.0.2.9:53").
Definition demo_later : datagram := mkDatagram (Udp.encodeUDPQuery System.demo_query) (str "192.0.2.7:99").
Definition demo_schedule : list (action (W := Z)) :=
  [AArrive 1 demo_client 0 0 0; ASys (System.ALookup 1 System.demo_query 0); ASys (System.AAdvance 1 0);
   ASys (System.ALookup 2 System.demo_query 0); AArrive 3 demo_noise 1 1 1; ASys (System.AWorld 2); ASys (System.AEvent System.demo_event);
   AReply 3; ASys (System.AAdvance 2 1); ASys (System.AAdvance 1 5); AReply 1; AArrive 4 demo_later 6 6 6].
Definition demo_state : Type := state (L := Handle.demo_lru) (W := Z) (Er := ()) (Lim := RateLimit.bucket).
Definition demo_boot : demo_state := boot Handle.demo_cache 1 (RateLimit.newIPLimiter 1 1).
Definition demo_run : option demo_state :=
  run (EC := Pki.toy_eth) (CR := System.moving_chain) Handle.demo_artifact (fun n => n) (fun a => a) Udp.demo_marshal Udp.demo_marshal_env
    Udp.demo_error (fun _ => []) (fun _ => []) (fun _ => []) (Pki.mkIdentity Pki.demo_seed) demo_schedule demo_boot.
Definition demo_end : demo_state := default demo_boot demo_run.
Lemma demo_ran : demo_run = Some demo_end.
Proof. unfold demo_end. assert (bool_decide (is_Some demo_run) = true) as H%bool_decide_eq_true by vm_refl. by destruct H as [s ->]. Qed.
Lemma moving_unvetted n t sel w res w' :
  cr_Resolve (ChainReader := System.moving_chain) n t sel w = (inl res, w') -> OwnerSigValid res = false.
Proof. by intros [= <- <-]. Qed.

Lemma udp_under_load_witness :
  map fst (l_sent demo_end) = [demo_noise; demo_client]
  /\ exists acts' s',
      run (EC := Pki.toy_eth) (CR := System.moving_chain) Handle.demo_artifact (fun n => n) (fun a => a) Udp.demo_marshal Udp.demo_marshal_env
        Udp.demo_error (fun _ => []) (fun _ => []) (fun _ => []) (Pki.mkIdentity Pki.demo_seed) acts' demo_end = Some s'
      /\ l_flight s' = delete 4%nat (l_flight demo_end).
Proof.
  destruct (udp_under_load (EC := Pki.toy_eth) (CR := System.moving_chain) Handle.demo_artifact (fun n => n) (fun a => a)
    Udp.demo_marshal Udp.demo_marshal_env Udp.demo_error (fun _ => []) (fun _ => []) (fun _ => []) (Pki.mkIdentity Pki.demo_seed)
    (fun _ _ _ _ e => e) moving_unvetted ltac:(discriminate) ltac:(discriminate)
    8 Handle.demo_cache 1 (RateLimit.newIPLimiter 1 1) demo_schedule demo_end) as (_ & _ & _ & H).
  - reflexivity.
  - exact demo_ran.
  - split; [vm_refl|]. apply H. apply (bool_decide_unpack _). vm_compute. exact I.
Defined.
End Load.
