(* ===== verification/Deployment.v ===== *)
(** The deployed system: the contracts of Contract.v as the world the resolver's
    chain client (src/resolver/internal/chain/client.go) reads and the owner's tool
    (src/resolver/cmd/ddns/main.go) writes.

    [reader] is the client of Chain.v over calls of the contract's views at the
    clock's time; [writer] executes the tool's transactions as the account of its
    key, one block per transaction, and lets other accounts act while it sleeps. *)
From S2P Require Import Prelude GoStrings Encoding Query Chain Cache Pki Zk Handle Web Lookup Contract Authority Owner.
Import Chain.

Local Open Scope Z_scope.

Module Deployment.

(** The contracts' storage, the time of the next block, and the tool's account and
    source of randomness. *)
Record world := mkWorld {
  w_store : Contract.store;
  w_now : Z;
  w_account : address;
  w_entropy : bytes;
}.
Definition with_store (st : Contract.store) (w : world) : world := mkWorld st (w_now w) (w_account w) (w_entropy w).

Section Deployment.
Context {K : Contract.Keccak} {IM : Contract.Immutables}.

(** * The resolver's side *)

Definition view {A} (f : world -> A) (w : world) : (A + Empty_set) * world := (inl (f w), w).
Definition dapp_Resolve (name typ sel : bytes) (w : world) : (NamespaceDAppRecord * address * bytes + Empty_set) * world :=
  view (fun w => Contract.resolve (w_now w) name typ sel (Contract.ns (w_store w))) w.
Definition dapp_GetDomain (name : bytes) (w : world) : (address * bytes * Z * Z + Empty_set) * world :=
  view (fun w => let d := Contract.getDomain name (Contract.ns (w_store w)) in
                 (D_Owner d, D_PubKey d, D_Expiry d, D_Generation d)) w.
Definition dapp_ListRecords (name : bytes) (w : world) : (list NamespaceDAppRecord + Empty_set) * world :=
  view (fun w => Contract.listRecords (w_now w) name (Contract.ns (w_store w))) w.
Definition registry_ListTypes (w : world) : (list bytes + Empty_set) * world :=
  view (fun w => Contract.typeNames (Contract.reg (w_store w))) w.
(** The number of a block is its time here: one block a second. *)
Definition eth_BlockNumber (w : world) : (Z + Empty_set) * world := view w_now w.
Definition no_wait (d : Z) (w : world) : bool * world := (true, w).
Definition no_ctx (w : world) : option Empty_set := None.

#[local] Instance reader : ChainReader world (retry_error Empty_set Empty_set) :=
  Client dapp_Resolve dapp_GetDomain dapp_ListRecords registry_ListTypes eth_BlockNumber no_wait no_ctx.

(** What the client makes of the contract's answer. *)
Definition answer (w : world) (name typ sel : bytes) : ResolveResult :=
  let '(rec, owner, pubKey) := Contract.resolve (w_now w) name typ sel (Contract.ns (w_store w)) in
  mkResolveResult (fromBinding rec) owner pubKey false [].

Lemma reader_Resolve name typ sel w : cr_Resolve name typ sel w = (inl (answer w name typ sel), w).
Proof.
  cbn. unfold Client_Resolve, retry, convert, answer. cbn.
  by destruct (Contract.resolve (w_now w) name typ sel (Contract.ns (w_store w))) as [[rec owner] pubKey].
Qed.

Lemma answer_record w name typ sel :
  RR_Record (answer w name typ sel) = fromBinding (Contract.lookup_record (w_now w) name typ sel (Contract.ns (w_store w))).
Proof. unfold answer, Contract.resolve. cbv zeta. by destruct (Contract.active _ _). Qed.

Lemma reader_GetDomain name w : cr_GetDomain name w = (inl (Contract.getDomain name (Contract.ns (w_store w))), w).
Proof. cbn. unfold Client_GetDomain, retry, convert. cbn. by destruct (Contract.getDomain _ _). Qed.

Lemma reader_ListRecords name w :
  cr_ListRecords name w = (inl (map fromBinding (Contract.listRecords (w_now w) name (Contract.ns (w_store w)))), w).
Proof. reflexivity. Qed.

(** * The owner's side *)

(** What other accounts do to the contracts in a second. *)
Variable others : Z -> Contract.store -> Contract.store.

(** The contract call of a transaction, with its value; those of the other contracts
    are not modelled. *)
Definition call_of (t : tx) : option (Contract.call * Z) :=
  match t with
  | TxCommit commitment => Some (Contract.Commit commitment, 0)
  | TxRegister name pubKey secret value => Some (Contract.Register name pubKey secret, value)
  | TxSetRecord name typ sel names vals ttl sig commitment =>
      Some (Contract.SetRecord name typ sel names vals ttl sig commitment, 0)
  | TxRemoveRecord name typ sel => Some (Contract.RemoveRecord name typ sel, 0)
  | TxTransfer name newOwner newPub => Some (Contract.Transfer name newOwner newPub, 0)
  | TxRenew name value => Some (Contract.Renew name, value)
  | TxDeclareType name mandatory optional => Some (Contract.DeclareType name mandatory optional, 0)
  | TxWithdraw dest => Some (Contract.Withdraw dest, 0)
  | _ => None
  end.

Definition Submit_ (t : tx) (w : world) : receipt * world :=
  match call_of t with
  | None => (NotSubmitted, w)
  | Some (c, value) =>
      match Contract.exec (Contract.mkMsg (w_account w) value (w_now w) true) c (w_store w) with
      | Ret (st, _) => (Mined, with_store st w)
      | _ => (Reverted, w)
      end
  end.

#[local] Instance writer : ChainWriter world := {
  PriceOf name w := (match Contract.priceOf name with Ret p => Some p | _ => None end, w);
  MakeCommitment name from pub secret w := (Some (Contract.makeCommitment name from pub secret), w);
  MINCOMMITMENTAGE w := (Some Contract.MIN_COMMITMENT_AGE, w);
  GetDomain name w := (Some (Contract.getDomain name (Contract.ns (w_store w))), w);
  Submit := Submit_;
  RandRead n w := (if Nat.eqb (length (w_entropy w)) n then Some (w_entropy w) else None, w);
  SleepSecond w := mkWorld (others (w_now w) (w_store w)) (w_now w + 1) (w_account w) (w_entropy w);
}.

Lemma Submit_mined t w w' :
  Submit t w = (Mined, w') ->
  exists c value st evs, call_of t = Some (c, value)
    /\ Contract.exec (Contract.mkMsg (w_account w) value (w_now w) true) c (w_store w) = Ret (st, evs) /\ w' = with_store st w.
Proof.
  cbn. unfold Submit_. destruct (call_of t) as [[c value]|]; [|done].
  destruct (Contract.exec _ c _) as [[st evs]| |] eqn:E; [|done..]. intros [= <-]. naive_solver.
Qed.

(** * The tool and the resolver together *)
Context {UC : UnicodeCase} {SP : Pki.SortPairs} {Priv Pub : Type} {EC : Pki.EthCrypto Priv Pub}.
Context {St : Type} {MI : Zk.Mimc St} {CCS PK VK Wit PubWit : Type} {GR : Zk.Groth16 CCS PK VK Wit PubWit}.
Context {L : Type} {LO : Cache.LruOps Cache.Key (Cache.entry ResolveResult) L}.
Context {SPL : Pki.SortPairsLaws} {ECL : Pki.EthCryptoLaws Priv Pub}.
Variable artifact : bytes -> option bytes.
Variable nameHash : bytes -> bytes.
Variable HexToAddress : bytes -> address.
Variable HexToECDSA : bytes -> option Priv.

Abbreviation dial := (Owner.dial (W := world) Pki.eth_pub HexToAddress HexToECDSA).
Abbreviation cmdRegister := (Owner.cmdRegister (W := world) Pki.eth_pub HexToAddress HexToECDSA).
Abbreviation cmdSet := (Owner.cmdSet (W := world) Pki.eth_pub HexToAddress HexToECDSA).
Abbreviation HandleQuery := (Handle.HandleQuery (W := world) artifact nameHash).

(** The domain as the tool registers it: its owner and key are the tool's key's. *)
Definition owned_by (pub : Pub) (d : Domain) : Prop :=
  D_Owner d = Pki.PubkeyToAddress pub /\ D_PubKey d = Pki.FromECDSAPub pub.

(** C6. What "ddns set" publishes is what the resolver answers: when the command
    succeeds for a name registered with the tool's key, the next query for the
    record that misses the cache finds exactly the fields, the selector and the TTL
    that were typed, owned by the tool's account, with the owner's signature
    verified and the commitment that of the record's own message. *)
Theorem set_then_resolve co name typ args selector ttl w s' c t_get t_set sel :
  (forall key, Owner.owner_key HexToECDSA co = Some key -> owned_by (Pki.eth_pub key) (Contract.getDomain name (Contract.ns (w_store w)))) ->
  cmdSet co (name :: typ :: args) selector ttl (w, []) = (Ret (), s') ->
  Query.ParseSelectorString selector = Ret sel ->
  (Cache.Get nameHash (Cache.mkKey name typ sel) t_get c).1 = None ->
  exists names vals r msg,
    Owner.parsePairs args = Some (names, vals)
    /\ (HandleQuery (Query.mkQuery name typ sel) t_get t_set (Handle.mkServer c s'.1)).1 = inl (Handle.mkQueryResult r false)
    /\ Handle.Found (Handle.mkQueryResult r false) = true
    /\ Type_ (RR_Record r) = typ /\ Selector (RR_Record r) = sel /\ FieldNames (RR_Record r) = names
    /\ FieldVals (RR_Record r) = vals /\ TTL (RR_Record r) = Owner.uint32 ttl
    /\ Owner r = w_account w /\ OwnerSigValid r = true
    /\ Pki.RecordMessage (E := ()) name (RR_Record r) = Ret msg /\ Zk.Commitment msg = Ret (Commitment (RR_Record r)).
Proof.
  intros Hown H Hsel Hmiss. unfold cmdSet in H.
  apply Owner.cli_bind_ret in H as (n0 & s1 & [[= <-] ->]%Owner.needArg_ret & H).
  apply Owner.cli_bind_ret in H as (t0 & s1 & [[= <-] ->]%Owner.needArg_ret & H).
  apply Owner.cli_bind_ret in H as ([names vals] & s1 & [Hp ->]%Owner.or_fatal_ret & H).
  apply Owner.cli_bind_ret in H as (sel' & s1 & [Hsel' ->]%Owner.go_fatal_ret & H).
  rewrite Hsel in Hsel'. injection Hsel' as <-. cbn [drop] in Hp.
  apply Owner.cli_bind_ret in H as (cn & s1 & (-> & Hk & _)%Owner.dial_ret & H).
  apply Owner.parsePairs_lengths in Hp as Hl. destruct Hl as [Hl _].
  apply Owner.set_record_ret in H
    as (t & dom & r & _ & Hd & _ & Hst & Hty & Hs & Hn & Hv & Httl & [Hsig Hcom] & Hsub); [|done..].
  cbn in Hd. injection Hd as <-. destruct t; try done. cbn in Hst. injection Hst as -> <-. cbn in Hty, Hs, Hn, Hv, Httl. subst.
  change (Submit (TxSetRecord name typ sel names vals (Owner.uint32 ttl) sig commitment) w = (Mined, s'.1)) in Hsub.
  apply Submit_mined in Hsub as (c1 & value & st & evs & [= <- <-] & Hex & Hw).
  apply Contract.exec_dispatch, go_bind_ret in Hex as ([ns' evs'] & Hset & [= <- <-]).
  pose proof Hset as (Ha & Hsender & _)%Authority.setRecord_ret. cbn [Contract.sender Contract.timestamp] in Ha, Hsender.
  destruct (Authority.setRecord_resolves _ _ _ _ _ _ _ _ _ _ _ _ _ _ Hset Ha) as [_ Hres].
  destruct (Hown _ Hk) as [Ho Hpk]. unfold Contract.getDomain in Ho, Hpk.
  destruct Hcom as (msg & Hmsg & Hcom).
  set (res := mkResolveResult (mkRecord typ sel names vals (Owner.uint32 ttl)
    (D_Generation (Contract.getDomain name (Contract.ns (w_store w)))) sig commitment true) (w_account w)
    (Pki.FromECDSAPub (Pki.eth_pub (Owner.c_key cn))) false []).
  assert (answer s'.1 name typ sel = res) as Hans.
  { rewrite Hw. unfold answer. cbn [with_store w_now w_store Contract.ns]. rewrite Hres. unfold res. by rewrite Hpk, Hsender. }
  exists names, vals, (Handle.vet artifact name res), msg. split; [done|]. split.
  - unfold Handle.HandleQuery, Handle.query_key. cbn [Query.Name Query.Type_ Query.Selector Handle.sv_cache Handle.sv_world].
    destruct (Cache.Get nameHash _ t_get c) as [hit c']. cbn [fst] in Hmiss. subst hit.
    rewrite reader_Resolve, Hans. done.
  - pose proof Ha as [Hreg _]%andb_true_iff. unfold Contract.registered in Hreg. rewrite <- Hsender in Hreg.
    apply negb_true_iff, bool_decide_eq_false in Hreg.
    split; [unfold Handle.Found; cbn; by rewrite bool_decide_eq_false_2|]. do 6 (split; [done|]).
    split; [|done]. unfold Handle.vet. cbn [OwnerSigValid RR_Record Owner PubKey res].
    rewrite Hsender, Ho, Hsig. done.
Qed.

(** * Registration *)

(** The key, the addresses and the RPC endpoint the flags give are good. *)
Definition connected (co : Owner.common) (key : Priv) : Prop :=
  forall s, exists hasReg, dial co false s = (Ret (Owner.mkConn key (Pki.PubkeyToAddress (Pki.eth_pub key)) hasReg), s).

Lemma sleep_world (Q : Contract.store -> Prop) n w :
  (forall t st, Q st -> Q (others t st)) -> Q (w_store w) ->
  exists st, Owner.sleep n w = mkWorld st (w_now w + Z.of_nat n) (w_account w) (w_entropy w) /\ Q st.
Proof.
  intros Hq. revert w. induction n as [|n IH]; intros w Hw; cbn [Owner.sleep].
  - exists (w_store w). rewrite Z.add_0_r. by destruct w.
  - destruct (IH (SleepSecond w)) as (st & -> & Hst); [by apply Hq|]. exists st. cbn [SleepSecond writer w_now w_account w_entropy].
    split; [f_equal; lia|done].
Qed.

(** C23. "ddns register" succeeds for every valid name that is free, unless others touch
    the commitment or the name while it waits: the wait of the contract's minimum age
    and 15 seconds puts the reveal inside the window the contract accepts, the price
    it pays is the price asked, and the name then belongs to the tool's key for a
    year. *)
Theorem cmdRegister_succeeds co name key w :
  connected co key ->
  let pub := Pki.eth_pub key in
  let com := Contract.makeCommitment name (w_account w) (Pki.FromECDSAPub pub) (w_entropy w) in
  let free st := Contract.commitments (Contract.ns st) !! com = Some (w_now w)
    /\ Contract.getDomain name (Contract.ns st) = Contract.getDomain name (Contract.ns (w_store w)) in
  Query.ValidateName name = Ret () -> w_account w = Pki.PubkeyToAddress pub -> length (w_entropy w) = 32%nat ->
  0 < Contract.len (Pki.FromECDSAPub pub) <= 128 -> 0 <= Contract.basePrice * 16 < 2 ^ 256 -> 0 < w_now w < 2 ^ 61 ->
  Contract.active (w_now w) (Contract.getDomain name (Contract.ns (w_store w))) = false ->
  (forall t st, free st -> free (others t st)) ->
  exists s', cmdRegister co [name] (w, []) = (Ret (), s')
    /\ owned_by pub (Contract.getDomain name (Contract.ns (w_store s'.1)))
    /\ D_Expiry (Contract.getDomain name (Contract.ns (w_store s'.1))) = w_now w + 45 + 365 * 86400
    /\ w_now s'.1 = w_now w + 45 /\ w_account s'.1 = w_account w.
Proof.
  intros Hdial pub com free Hv%Query.ValidateName_mirrors_contract Hacc Hent Hpk Hb Hnow Ha Hfree.
  destruct (Authority.priceOf_succeeds name Hv Hb) as (price & Hprice & _).
  unfold cmdRegister, Owner.cmdRegister, mbind, Owner.cli_bind. cbn [Owner.needArg lookup list_lookup mret Owner.cli_ret].
  destruct (Hdial (w, [])) as [hasReg ->]. cbv zeta. cbn [Owner.c_key Owner.c_from]. fold pub. rewrite <- Hacc.
  unfold Owner.read at 1. cbn [fst snd PriceOf writer]. rewrite Hprice.
  unfold Owner.read at 1. cbn [fst snd RandRead writer]. rewrite Hent. cbn [Nat.eqb].
  unfold Owner.read at 1. cbn [fst snd MakeCommitment writer]. fold com.
  unfold Owner.send at 1. cbn [fst snd Submit writer]. unfold Submit_ at 1. cbn [call_of]. rewrite Contract.exec_free by done.
  cbn [Contract.dispatch Contract.commit Contract.on_ns mbind go_bind mret go_ret].
  unfold Owner.read at 1. cbn [fst snd MINCOMMITMENTAGE writer].
  unfold Owner.wait. cbn [fst snd].
  change (Z.to_nat (Owner.int64 (Owner.int64 Contract.MIN_COMMITMENT_AGE + 15))) with 45%nat.
  set (w1 := with_store _ w).
  destruct (sleep_world free 45 w1 Hfree) as (st & Hsleep & Hc & Hd).
  { split; [apply lookup_insert_eq|done]. }
  change (w_account w1) with (w_account w) in Hsleep. change (w_entropy w1) with (w_entropy w) in Hsleep.
  change (w_now w1) with (w_now w) in Hsleep. rewrite Hsleep.
  unfold Owner.send. cbn [fst snd Submit writer]. unfold Submit_. cbn [call_of w_account w_now w_store].
  unfold Contract.exec. cbn [Contract.payable orb Contract.require mbind go_bind Contract.dispatch].
  set (m := Contract.mkMsg _ _ _ _).
  assert (is_ret (Contract.register m name (Pki.FromECDSAPub pub) (w_entropy w) (Contract.ns st)) = true) as [[s' evs] Hreg]%is_ret_ex.
  { unfold Contract.getDomain in Hd, Ha.
    apply (Authority.register_succeeds m name (Pki.FromECDSAPub pub) (w_entropy w) (w_now w)); cbn [m Contract.sender Contract.timestamp Contract.value];
      try done; unfold Contract.MIN_COMMITMENT_AGE, Contract.MAX_COMMITMENT_AGE; [lia..|].
    rewrite Hd. unfold Contract.active in *. destruct (Contract.registered _); [|done]. cbn [andb] in *.
    apply Z.leb_gt in Ha. apply Z.leb_gt. lia. }
  rewrite Hreg. cbn [Contract.on_ns mbind go_bind mret go_ret].
  eexists. split; [reflexivity|]. cbn [fst w_store w_now w_account with_store Contract.ns].
  apply Authority.register_ret in Hreg as (? & _ & _ & _ & _ & _ & _ & Hdom & _).
  unfold owned_by, Contract.getDomain, Contract.domain_of. rewrite Hdom, lookup_insert_eq. cbn [default from_option id D_Owner D_PubKey D_Expiry m Contract.sender Contract.timestamp].
  split; [done|]. split; [|done]. unfold Contract.uint64, Contract.REGISTRATION_PERIOD. rewrite Z.mod_small by lia. lia.
Qed.

(** * What the contract guarantees its readers *)

Lemma fields_length ps b :
  Forall (fun p => Contract.len p.1 <= 64 /\ Contract.len p.2 <= 1024) ps -> Z.of_nat (length ps) <= b ->
  Z.of_nat (length (concat (map Pki.field_bytes ps))) <= 1092 * b.
Proof.
  intros H. revert b. induction H as [|[n v] ps [Hn Hv] _ IH]; intros b; cbn [length map concat] in *; [lia|].
  intros Hb. specialize (IH (b - 1) ltac:(lia)). rewrite length_app. unfold Pki.field_bytes at 1. cbn [fst snd].
  rewrite length_app, !writeStr_length. unfold Contract.len in *. cbn [fst snd] in *. lia.
Qed.

(** An answer of the contracts is bounded. *)
Lemma answer_bounded P tr w name typ sel :
  (forall m c, P m c -> Contract.widths m c) -> Contract.reachable P tr (w_store w) ->
  (forall sc, Contract.schemas (Contract.reg (w_store w)) !! Contract.keccak256 (Type_ (RR_Record (answer w name typ sel))) = Some sc ->
     Contract.sc_name sc = Type_ (RR_Record (answer w name typ sel))) ->
  Contract.len name <= 63 -> Exists (RR_Record (answer w name typ sel)) = true ->
  Lookup.record_bounded name (RR_Record (answer w name typ sel)).
Proof.
  intros HP Hre Hcol Hname Hx. unfold answer in *.
  destruct (Contract.resolve (w_now w) name typ sel (Contract.ns (w_store w))) as [[b owner] pubKey] eqn:Eres.
  assert (b = Contract.lookup_record (w_now w) name typ sel (Contract.ns (w_store w))) as Hb.
  { unfold Contract.resolve in Eres. cbv zeta in Eres. destruct (Contract.active _ _); congruence. }
  cbn [RR_Record] in *. unfold fromBinding in Hx, Hcol. cbn [Exists Type_] in Hx, Hcol. rewrite Hb in Hx.
  pose proof Hx as (_ & Hl & _)%Authority.lookup_record_live. rewrite Hl in Hx, Hb.
  destruct (Authority.reachable_typed P HP tr (w_store w) _ _ Hre Hx)
    as [_ [Hf1 Hf2] Hsel Hnames Hvals Httl Hgen Hcom (sc & Hsc & _)]. rewrite <- Hb in *.
  pose proof (Authority.reachable_schemas P tr _ _ _ Hre Hsc) as [_ [_ Hty] _ _ _]. rewrite (Hcol sc Hsc) in Hty.
  assert (Contract.len (b_RecordType b) <= 32) as Htyp.
  { unfold Query.sol_validateTypeName in Hty. unfold Contract.len. destruct (Nat.eqb _ _); [done|]. cbn [orb] in Hty.
    destruct (Nat.ltb_spec 32 (length (b_RecordType b))); [done|lia]. }
  split; [|split; [exact Hf1|]].
  { unfold record_wf, fromBinding. cbn. split; [lia|done]. }
  unfold Pki.message_of, fromBinding. cbn [Type_ Selector TTL Generation]. rewrite !length_app, !writeStr_length, !be_bytes_length.
  unfold Contract.MAX_RECORD_FIELDS, Contract.MAX_FIELD_NAME_LENGTH, Contract.MAX_FIELD_VALUE_LENGTH, Contract.MAX_SELECTOR_LENGTH, Contract.len in *.
  set (fs := Pki.fields _). assert (Z.of_nat (length (concat (map Pki.field_bytes (Pki.sort_pairs fs)))) <= 1092 * 16) as Hlen.
  { apply fields_length; rewrite Pki.sort_pairs_perm; unfold fs, Pki.fields; cbn [FieldNames FieldVals]; [|rewrite length_zip; lia].
    apply Forall_forall. intros [n v] Hin. rewrite Forall_forall in Hnames, Hvals.
    apply elem_of_zip_l in Hin as Hn. apply elem_of_zip_r in Hin as Hv. split; [by apply Hnames|by apply Hvals]. }
  change (length (str "ddns-record-v2")) with 14%nat. lia.
Qed.

(** C40. Every record the resolver or a client reads from the contracts is within the
    widths the client tools rely on: the canonical message that its owner signs is
    shorter than 64 KiB, so none of its length prefixes wraps around. *)
Theorem chain_answers_bounded P tr w name typ sel :
  (forall m c, P m c -> Contract.widths m c) -> Contract.reachable P tr (w_store w) ->
  (forall sc, Contract.schemas (Contract.reg (w_store w)) !! Contract.keccak256 (Type_ (RR_Record (answer w name typ sel))) = Some sc ->
     Contract.sc_name sc = Type_ (RR_Record (answer w name typ sel))) ->
  Contract.len name <= 63 -> Exists (RR_Record (answer w name typ sel)) = true ->
  Lookup.record_bounded name (RR_Record (answer w name typ sel)).
Proof. apply answer_bounded. Qed.

(** GET /domains/{name} over the contract: a valid, registered name gets its domain
    and, at every second but one, exactly the live records the contract lists. At the
    second of the expiry the contract still resolves them, and the endpoint calls the
    domain inactive and shows none. *)
Theorem handleDomain_lists {HX : Hexutil} {EdPriv : Type} {ED : Pki.Ed25519 EdPriv} {JE : Type}
    (address_Hex : address -> bytes) (identity : Pki.Identity EdPriv) (marshal : Web.answer -> go JE bytes)
    (json_error_text : JE -> bytes) (query_error_text : Query.error -> bytes)
    (chain_error_text : retry_error Empty_set Empty_set -> bytes) (r : Web.request) (w : world) :
  let name := Web.path_name r in
  let s := Contract.ns (w_store w) in
  let d := Contract.getDomain name s in
  Query.ValidateName name = Ret () -> Contract.registered d = true ->
  Web.handleDomain address_Hex identity marshal json_error_text query_error_text chain_error_text r (w_now w) w
  = (Web.writeSigned identity marshal json_error_text 200 (Web.ADomain
       (Web.mkDomainResponse name (address_Hex (D_Owner d)) (hexutil_Encode (D_PubKey d)) (D_Expiry d) (D_Generation d)
          (w_now w <? D_Expiry d)
          (if w_now w =? D_Expiry d then []
           else map (fun b => Handle.toRecordJSON (fromBinding b)) (Contract.listRecords (w_now w) name s)))), w)
  /\ (w_now w = D_Expiry d -> Contract.active (w_now w) d = true).
Proof.
  intros name s d Hv Hreg. split.
  2: { intros ->. unfold Contract.active. rewrite Hreg. apply Z.leb_refl. }
  unfold Web.handleDomain. fold name. rewrite Hv, reader_GetDomain. fold s d.
  pose proof Hreg as Ho%negb_true_iff%bool_decide_eq_false. rewrite bool_decide_eq_false_2 by done.
  destruct (Z.ltb_spec (w_now w) (D_Expiry d)) as [Hlt|Hge].
  - rewrite reader_ListRecords, map_map, (proj2 (Z.eqb_neq _ _)) by lia. done.
  - destruct (Z.eqb_spec (w_now w) (D_Expiry d)); [done|]. unfold Contract.listRecords.
    change (Contract.domain_of s (Contract.keccak256 name)) with d. unfold Contract.active.
    rewrite Hreg, (proj2 (Z.leb_gt _ _)) by lia. done.
Qed.
End Deployment.

(** * A concrete deployment *)
#[local] Existing Instances Query.ascii_case Pki.merge_sort_pairs Pki.merge_sort_pairs_laws Zk.toy_mimc Zk.toy_groth Pki.toy_ed
  Authority.toy_keccak Authority.toy_immutables.
Definition quiet (t : Z) (st : Contract.store) : Contract.store := st.
(** Someone who repeats Alice's commitment every second. *)
Definition demo_com : bytes := Contract.makeCommitment (str "alice") (be_bytes 20 77) (be_bytes 65 77) (be_bytes 32 5).
Definition griefer (t : Z) (st : Contract.store) : Contract.store :=
  match Contract.exec (Contract.mkMsg Authority.bob 0 t true) (Contract.Commit demo_com) st with Ret (st, _) => st | _ => st end.
Definition demo_world : world := mkWorld (Authority.demo_after 0) 1000 (be_bytes 20 77) (be_bytes 32 5).
Definition demo_key (raw : bytes) : option Z := Some 77.
Definition demo_register (others : Z -> Contract.store -> Contract.store) : go Z () * Owner.state (W := world) :=
  Owner.cmdRegister (EC := Pki.toy_eth) (CW := writer others) (Pki.eth_pub (EthCryptoLaws := Pki.toy_eth_laws)) (fun a => a) demo_key
    Owner.demo_common [str "alice"] (demo_world, []).
Definition demo_registered : world := (demo_register quiet).2.1.
Definition demo_set : go Z () * Owner.state (W := world) :=
  Owner.cmdSet (EC := Pki.toy_eth) (CW := writer quiet) (Pki.eth_pub (EthCryptoLaws := Pki.toy_eth_laws)) (fun a => a) demo_key
    Owner.demo_common [str "alice"; str "A"; str "address=10.0.0.1"] [] 300 (demo_registered, []).

Lemma demo_connected :
  connected (EC := Pki.toy_eth) (ECL := Pki.toy_eth_laws) (fun a => a) demo_key Owner.demo_common 77.
Proof. intros s. exists false. reflexivity. Qed.

Lemma cmdRegister_succeeds_witness :
  exists s', demo_register quiet = (Ret (), s')
    /\ owned_by (EC := Pki.toy_eth) 77 (Contract.getDomain (str "alice") (Contract.ns (w_store s'.1))).
Proof.
  destruct (cmdRegister_succeeds (EC := Pki.toy_eth) (ECL := Pki.toy_eth_laws) quiet (fun a => a) demo_key
    Owner.demo_common (str "alice") 77 demo_world) as (s' & H & Ho & _).
  - exact demo_connected.
  - vm_refl.
  - reflexivity.
  - reflexivity.
  - split; reflexivity || discriminate.
  - cbn. lia.
  - cbn. lia.
  - vm_refl.
  - intros t st Hf. exact Hf.
  - exists s'. split; [exact H|exact Ho].
Defined.

Lemma set_then_resolve_witness :
  exists r, (Handle.HandleQuery (EC := Pki.toy_eth) (L := Handle.demo_lru) (CR := reader) Handle.demo_artifact (fun n => n)
      (Query.mkQuery (str "alice") (str "A") []) 0 1 (Handle.mkServer Handle.demo_cache demo_set.2.1)).1 = inl (Handle.mkQueryResult r false)
    /\ FieldVals (RR_Record r) = [str "10.0.0.1"] /\ OwnerSigValid r = true.
Proof.
  destruct (set_then_resolve (EC := Pki.toy_eth) (ECL := Pki.toy_eth_laws) (L := Handle.demo_lru) quiet Handle.demo_artifact
    (fun n => n) (fun a => a) demo_key Owner.demo_common (str "alice") (str "A") [str "address=10.0.0.1"] [] 300 demo_registered
    demo_set.2 Handle.demo_cache 0 1 []) as (names & vals & r & msg & [= <- <-] & Hq & _ & _ & _ & _ & Hv & _ & _ & Hsig & _).
  - intros key [= <-]. split; vm_refl.
  - vm_refl.
  - reflexivity.
  - reflexivity.
  - exists r. split; [exact Hq|]. split; [exact Hv|exact Hsig].
Defined.

(** The griefer keeps Alice's registration from going through. *)
Example demo_griefed : (demo_register griefer).1 = Err 1 /\ Contract.active 1045 (Contract.getDomain (str "alice")
  (Contract.ns (w_store (demo_register griefer).2.1))) = false.
Proof. split; vm_refl. Qed.

Lemma chain_answers_bounded_witness :
  Lookup.record_bounded (str "alice") (RR_Record (answer (mkWorld (Authority.demo_after 4) 1065 [] []) (str "alice") (str "A") [])).
Proof.
  apply (chain_answers_bounded Contract.widths (rev (take 4 Authority.demo_calls))).
  - intros m c H. exact H.
  - apply Authority.demo_reachable. lia.
  - intros sc Hs. apply (f_equal (fun o => default [] (Contract.sc_name <$> o))) in Hs. cbn [fmap option_fmap option_map default from_option id] in Hs.
    rewrite <- Hs. vm_refl.
  - vm_compute. discriminate.
  - vm_refl.
Defined.

Definition demo_domain_request : Web.request := Web.mkHttpRequest (str "alice") ∅ [].
Definition demo_listed (now : Z) : list Handle.recordJSON :=
  map (fun b => Handle.toRecordJSON (fromBinding b)) (Contract.listRecords now (str "alice") (Contract.ns (Authority.demo_after 4))).
Lemma handleDomain_lists_witness :
  let w := mkWorld (Authority.demo_after 4) 1065 [] [] in
  let d := Contract.getDomain (str "alice") (Contract.ns (Authority.demo_after 4)) in
  length (demo_listed 1065) = 2%nat
  /\ (Web.handleDomain (EdPriv := bytes) (CR := reader) (fun a => a) (Pki.mkIdentity Pki.demo_seed)
       (fun a => Ret (E := ()) (match a with Web.ADomain x => concat (map Handle.rj_Type (Web.dr_Records x)) | _ => [] end))
       (fun _ => []) (fun _ => []) (fun _ => []) demo_domain_request 1065 w).1
     = Web.writeSigned (Pki.mkIdentity Pki.demo_seed)
         (fun a => Ret (E := ()) (match a with Web.ADomain x => concat (map Handle.rj_Type (Web.dr_Records x)) | _ => [] end)) (fun _ => []) 200
         (Web.ADomain (Web.mkDomainResponse (str "alice") (D_Owner d) (hexutil_Encode (D_PubKey d)) (D_Expiry d) (D_Generation d)
            (1065 <? D_Expiry d) (if 1065 =? D_Expiry d then [] else demo_listed 1065))).
Proof.
  intros w d. split; [vm_refl|].
  destruct (handleDomain_lists (EdPriv := bytes) (fun a => a) (Pki.mkIdentity Pki.demo_seed)
    (fun a => Ret (E := ()) (match a with Web.ADomain x => concat (map Handle.rj_Type (Web.dr_Records x)) | _ => [] end))
    (fun _ => []) (fun _ => []) (fun _ => []) demo_domain_request w) as [H _].
  - vm_refl.
  - vm_refl.
  - exact (f_equal fst H).
Defined.
End Deployment.
