(* ===== verification/Coherence.v ===== *)
(** The resolver's cache against the contract: transactions, the passing of time,
    the delivery of the events the transactions emitted, and the resolver's
    goroutines, in any order.

    The resolver is the concurrent system of System.v, whose queries look the cache
    up, read the chain and store the answer in separate steps, over the contract of
    Contract.v; the watcher of events.go appears as the queue of events that were
    emitted and not yet delivered (Events.v shows that its windows skip none). An
    event that is delivered while a goroutine holds an answer for one of its keys
    misses that answer, which is stored after it (System.invalidation_race): [n_raced]
    keeps the keys this has happened to. *)
From S2P Require Import Prelude GoStrings Query Chain Cache Pki Zk Handle System Contract Authority Deployment.
Import Chain.

Local Open Scope Z_scope.

Module Coherence.

Section Coherence.
Context {K : Contract.Keccak} {IM : Contract.Immutables}.
Context {SP : Pki.SortPairs} {Priv Pub : Type} {EC : Pki.EthCrypto Priv Pub}.
Context {St : Type} {MI : Zk.Mimc St} {CCS PK VK Wit PubWit : Type} {GR : Zk.Groth16 CCS PK VK Wit PubWit}.
Context {L : Type} {LO : Cache.LruOps Cache.Key (Cache.entry ResolveResult) L}.
Context {LL : Cache.LruLaws Cache.Key (Cache.entry ResolveResult) L}.
Context {HX : Encoding.Hexutil}.
Variable artifact : bytes -> option bytes.
Variable U : bytes -> Prop.
Hypothesis keccak256_inj : forall a b, U a -> U b -> Contract.keccak256 a = Contract.keccak256 b -> a = b.

#[local] Existing Instance Deployment.reader.
Import Deployment.
Abbreviation chain_error := (retry_error Empty_set Empty_set).
Abbreviation sys := (System.sys (L := L) (W := world) (Er := chain_error)).
Abbreviation label := (System.label (W := world) (Er := chain_error)).
Abbreviation step := (System.step (W := world) artifact Contract.keccak256).
Abbreviation HandleQuery := (Handle.HandleQuery (W := world) artifact Contract.keccak256).

(** The resolver, the transactions so far (the last one first), the events on their
    way to it, and the keys an event of which was raced by a goroutine. *)
Record net := mkNet {
  n_sys : sys; n_trace : list (Contract.msg * Contract.call); n_queue : list RecordEvent; n_raced : Cache.Key -> bool }.
Definition n_world (n : net) : world := System.sys_world (n_sys n).
Definition n_cache (n : net) : Cache.TTLCache L := System.sys_cache (n_sys n).
Definition n_store (n : net) : Contract.store := w_store (n_world n).
Definition set_world (w : world) (s : sys) : sys := System.mkSys (System.sys_cache s) w (System.sys_threads s).
Definition at_time (t : Z) (w : world) : world := mkWorld (w_store w) t (w_account w) (w_entropy w).

(** A transaction any account may send. *)
Definition allowed (m : Contract.msg) (c : Contract.call) : Prop :=
  Contract.widths m c /\ Contract.sender m <> zero_address /\ forall name, Authority.call_name c = Some name -> U name.

(** The steps of the resolver that are not the watcher's: its goroutines' and the
    showcase's invalidations. *)
Definition local (l : label) : bool := match l with System.LEvent _ | System.LWorld _ => false | _ => true end.

(** A goroutine holds an answer for the key that it is about to store. *)
Definition pending_on (k : Cache.Key) (s : sys) : bool :=
  existsb (fun tp => match tp.2 with System.Pending q _ => bool_decide (Handle.query_key q = k) | _ => false end)
    (map_to_list (System.sys_threads s)).
Definition raced_after (ev : RecordEvent) (s : sys) (raced : Cache.Key -> bool) (k : Cache.Key) : bool :=
  if Cache.event_hits Contract.keccak256 ev k then pending_on k s else raced k.

Inductive net_step (n : net) : net -> Prop :=
| net_transaction m c st evs block :
    allowed m c -> Contract.timestamp m = w_now (n_world n) ->
    Contract.exec m c (n_store n) = Ret (st, evs) ->
    net_step n (mkNet (set_world (with_store st (n_world n)) (n_sys n)) ((m, c) :: n_trace n)
                  (n_queue n ++ omap (Authority.announced block) evs) (n_raced n))
| net_time t :
    w_now (n_world n) <= t ->
    net_step n (mkNet (set_world (at_time t (n_world n)) (n_sys n)) (n_trace n) (n_queue n) (n_raced n))
| net_local l s :
    local l = true -> System.label_ok U l -> step (n_sys n) l s ->
    net_step n (mkNet s (n_trace n) (n_queue n) (n_raced n))
| net_deliver ev queue s :
    n_queue n = ev :: queue -> step (n_sys n) (System.LEvent ev) s ->
    net_step n (mkNet s (n_trace n) queue (raced_after ev (n_sys n) (n_raced n))).

(** Boot: the contracts just deployed, an empty cache, no query yet. *)
Definition booted (n : net) : Prop :=
  exists cap c m r w, Cache.New cap = Some c /\ Contract.constructor m = Ret r
    /\ w_store w = Contract.mkStore Contract.empty_state r /\ n = mkNet (System.boot c w) [] [] (fun _ => false).
Inductive reached : net -> Prop :=
| reached_boot n : booted n -> reached n
| reached_step n n' : reached n -> net_step n n' -> reached n'.

(** What a query that asks the chain now is answered. *)
Definition fresh (w : world) (k : Cache.Key) : ResolveResult :=
  let res := answer w (Cache.Name k) (Cache.KType k) (Cache.KSelector k) in
  if Exists (RR_Record res) then Handle.vet artifact (Cache.Name k) res else res.

Definition queued (k : Cache.Key) (queue : list RecordEvent) : bool :=
  existsb (fun ev => Cache.event_hits Contract.keccak256 ev k) queue.
Definition name_active (w : world) (k : Cache.Key) : bool :=
  Contract.active (w_now w) (Contract.getDomain (Cache.Name k) (Contract.ns (w_store w))).

(** An answer for a key is current, or an event that concerns it is on its way, or its
    name has expired. *)
Definition current (w : world) (queue : list RecordEvent) (k : Cache.Key) (v : ResolveResult) : Prop :=
  queued k queue = true \/ name_active w k = false \/ v = fresh w k.

(** Unless a key was raced, what is cached and what is about to be are current. *)
Record net_inv (n : net) : Prop := {
  ni_store : Contract.reachable allowed (n_trace n) (n_store n);
  ni_cache : Cache.cache_inv Contract.keccak256 U (n_cache n);
  ni_names t p : System.sys_threads (n_sys n) !! t = Some p -> U (Query.Name (System.query_of p));
  ni_entries k e : Cache.entries (n_cache n) !! k = Some e ->
    U (Cache.Name k) /\ (n_raced n k = false -> current (n_world n) (n_queue n) k (Cache.value e));
  ni_pending t q res : System.sys_threads (n_sys n) !! t = Some (System.Pending q res) ->
    n_raced n (Handle.query_key q) = false -> current (n_world n) (n_queue n) (Handle.query_key q) res;
}.

Lemma allowed_widths m c : allowed m c -> Contract.widths m c.
Proof. by intros []. Qed.

(** The contract's answer is a function of its resolve. *)
Lemma fresh_same w w' k :
  Contract.resolve (w_now w') (Cache.Name k) (Cache.KType k) (Cache.KSelector k) (Contract.ns (w_store w'))
  = Contract.resolve (w_now w) (Cache.Name k) (Cache.KType k) (Cache.KSelector k) (Contract.ns (w_store w)) ->
  fresh w' k = fresh w k.
Proof. unfold fresh, answer. by intros ->. Qed.

Lemma queued_app k q1 q2 : queued k (q1 ++ q2) = queued k q1 || queued k q2.
Proof. apply existsb_app. Qed.

Lemma queued_announced k block evs : queued k (omap (Authority.announced block) evs) = Authority.hits k evs.
Proof.
  unfold Authority.hits, queued. induction evs as [|ev evs IH]; [done|]. cbn [omap list_omap existsb].
  destruct ev; cbn [Authority.announced existsb orb]; rewrite ?IH; done.
Qed.

Lemma pending_on_thread t q res (s : sys) :
  System.sys_threads s !! t = Some (System.Pending q res) -> pending_on (Handle.query_key q) s = true.
Proof.
  intros H. apply existsb_exists. exists (t, System.Pending q res). split; [by apply list_elem_of_In, elem_of_map_to_list|].
  by apply bool_decide_eq_true.
Qed.

(** ** What each step does to a current answer *)

Lemma transaction_current n m c st evs block k v :
  net_inv n -> Z.of_nat (length (n_trace n)) < 2 ^ 38 -> allowed m c -> Contract.timestamp m = w_now (n_world n) ->
  Contract.exec m c (n_store n) = Ret (st, evs) -> U (Cache.Name k) -> current (n_world n) (n_queue n) k v ->
  current (with_store st (n_world n)) (n_queue n ++ omap (Authority.announced block) evs) k v.
Proof.
  intros Hi Hn (Hw & _ & HU) Ht Hex Hk He. unfold current. rewrite queued_app, queued_announced.
  destruct (Authority.hits k evs) eqn:Hh; [left; apply orb_true_r|]. rewrite orb_false_r.
  set (w := n_world n) in *. set (r s := Contract.resolve (w_now w) (Cache.Name k) (Cache.KType k) (Cache.KSelector k) s).
  assert (r (Contract.ns st) = r (Contract.ns (w_store w))) as Hsame.
  { unfold r. rewrite <- Ht. destruct k as [name typ sel].
    by apply (Authority.exec_unannounced allowed allowed_widths U keccak256_inj (n_trace n) m c (n_store n) st evs);
      [apply Hi|..]. }
  destruct He as [Hq|[Ha|Hv]]; [by left|right; left|right; right].
  - rewrite <- Ha. unfold name_active. cbn [with_store w_now w_store]. by eapply Authority.resolve_active.
  - rewrite Hv. symmetry. by apply fresh_same.
Qed.

Lemma time_current w t queue k v : w_now w <= t -> current w queue k v -> current (at_time t w) queue k v.
Proof.
  intros Ht. unfold current. destruct (name_active (at_time t w) k) eqn:Ha; [|auto].
  destruct (Authority.resolve_time (w_now w) t (Cache.Name k) (Cache.KType k) (Cache.KSelector k) (Contract.ns (w_store w)) Ht Ha) as [Hw Hs].
  intros [?|[Hf|Hv]]; [by left|unfold name_active in Hf; congruence|]. right; right. rewrite Hv. symmetry. by apply fresh_same.
Qed.

(** A goroutine that reads the chain gets the fresh answer. *)
Lemma read_fresh q w ans w' :
  cr_Resolve (Query.Name q) (Query.Type_ q) (Query.Selector q) w = (ans, w') ->
  w' = w /\ (System.after_read artifact q ans = System.Pending q (fresh w (Handle.query_key q))
            \/ System.after_read artifact q ans = System.Done q (inl (Handle.mkQueryResult (fresh w (Handle.query_key q)) false))).
Proof.
  rewrite reader_Resolve. intros [= <- <-]. split; [done|]. rewrite System.after_read_inl. unfold fresh.
  cbn [Handle.query_key Cache.Name Cache.KType Cache.KSelector]. destruct (Exists _); cbn [andb]; [|by right].
  destruct (0 <? _); [by left|by right].
Qed.

(** A step of the resolver's keeps the world, and adds to the cache what was pending,
    and to what is pending a fresh answer. *)
Lemma local_step s l s' :
  Cache.cache_inv Contract.keccak256 U (System.sys_cache s) ->
  (forall t p, System.sys_threads s !! t = Some p -> U (Query.Name (System.query_of p))) ->
  local l = true -> System.label_ok U l -> step s l s' ->
  System.sys_world s' = System.sys_world s /\ Cache.cache_inv Contract.keccak256 U (System.sys_cache s')
  /\ (forall t p, System.sys_threads s' !! t = Some p -> U (Query.Name (System.query_of p)))
  /\ (forall k e, Cache.entries (System.sys_cache s') !! k = Some e ->
        Cache.entries (System.sys_cache s) !! k = Some e
        \/ exists t q, System.sys_threads s !! t = Some (System.Pending q (Cache.value e)) /\ k = Handle.query_key q)
  /\ (forall t q res, System.sys_threads s' !! t = Some (System.Pending q res) ->
        System.sys_threads s !! t = Some (System.Pending q res) \/ res = fresh (System.sys_world s) (Handle.query_key q)).
Proof.
  intros Hc Hn Hl Hok Hs.
  assert (forall t0 p, U (Query.Name (System.query_of p)) ->
    forall t p', <[t0 := p]> (System.sys_threads s) !! t = Some p' -> U (Query.Name (System.query_of p'))) as Hn'.
  { intros t0 p Hp t p'. rewrite lookup_insert. case_decide; [by intros [= <-]|apply Hn]. }
  assert (forall t0 p, (forall q res, p = System.Pending q res -> res = fresh (System.sys_world s) (Handle.query_key q)) ->
    forall t q res, <[t0 := p]> (System.sys_threads s) !! t = Some (System.Pending q res) ->
    System.sys_threads s !! t = Some (System.Pending q res) \/ res = fresh (System.sys_world s) (Handle.query_key q)) as Hp'.
  { intros t0 p Hp t q res. rewrite lookup_insert. case_decide; [intros [= ->]; right; by apply Hp|by left]. }
  inversion Hs as [t q now res c Ht Hg|t q now c Ht Hg|t q ans w Ht Hr|t q res now Ht|ev|name| |w]; subst; try done; clear Hl;
    cbn [System.set_thread System.with_cache System.sys_world System.sys_cache System.sys_threads System.label_ok] in *.
  1,2: pose proof (Cache.Get_inv Contract.keccak256 U keccak256_inj (Handle.query_key q) now _ Hc) as (Hc1 & _);
    pose proof (Handle.Get_entries_subset Contract.keccak256 U keccak256_inj (Handle.query_key q) now _ Hc) as Hsub;
    rewrite Hg in Hc1, Hsub; cbn [fst snd] in Hc1, Hsub; split; [done|]; split; [done|];
    split; [by apply Hn'|]; split; [intros k e He; left; by eapply lookup_weaken|by apply Hp'].
  - apply read_fresh in Hr as [-> Hr]. split; [done|]. split; [done|]. split; [|split; [by left|]].
    + apply Hn'. rewrite System.query_of_after_read. by apply (Hn _ _ Ht).
    + apply Hp'. intros q' res' E. rewrite E in Hr. destruct Hr as [[= -> ->]|]; done.
  - pose proof (Hn _ _ Ht) as HU. cbn in HU.
    match goal with |- context [Cache.Set_ _ ?k ?v ?d now ?c] =>
      destruct (Cache.Set_inv Contract.keccak256 U keccak256_inj k v d now c HU Hc) as (Hc2 & _ & _ & Hsub & _) end.
    split; [done|]. split; [done|]. split; [by apply Hn'|]. split; [|by apply Hp'].
    intros k e He. eapply lookup_weaken in He; [|exact Hsub]. rewrite lookup_insert in He.
    case_decide as Hk; [right|by left]. injection He as <-. by exists t, q.
  - destruct (Cache.InvalidateName_inv Contract.keccak256 U keccak256_inj name _ Hc) as (Hc1 & _ & He).
    split; [done|]. split; [done|]. split; [done|]. split; [|by left]. intros k e. rewrite He. case_decide; [done|by left].
  - destruct (Cache.Flush_inv Contract.keccak256 U keccak256_inj _ Hc) as (Hc1 & He & _).
    split; [done|]. split; [done|]. split; [done|]. split; [|by left]. intros k e. by rewrite He, lookup_empty.
Qed.

(** The delivery of an event drops the entries it concerns. *)
Lemma delivered_current ev queue raced (s : sys) w k v :
  queued k (ev :: queue) = true \/ name_active w k = false \/ v = fresh w k ->
  Cache.event_hits Contract.keccak256 ev k = false -> raced_after ev s raced k = raced k /\ current w queue k v.
Proof.
  intros H Hh. unfold raced_after. rewrite Hh. split; [done|]. destruct H as [Hq|H]; [left|by right].
  cbn [queued existsb] in Hq. by rewrite Hh in Hq.
Qed.

Lemma net_step_inv n n' :
  net_inv n -> Z.of_nat (length (n_trace n)) < 2 ^ 38 -> net_step n n' -> net_inv n'.
Proof.
  intros Hi Hn Hs. pose proof Hi as [Hst Hc Hnm He Hp].
  inversion Hs as [m c st evs block Ha Ht Hex| t Ht|l s Hl Hok Hs'|ev queue s Hq Hs']; subst n'.
  - split; [by eapply Contract.reach_exec|exact Hc|exact Hnm| |].
    + intros k e [HUk Hok]%He. split; [done|]. intros Hr. by apply (transaction_current n m c); auto.
    + intros t q res Hl Hr. apply (transaction_current n m c); auto; [apply (Hnm _ _ Hl)|by eapply Hp].
  - split; [exact Hst|exact Hc|exact Hnm| |].
    + intros k e [HUk Hok]%He. split; [done|]. intros Hr. by apply time_current; auto.
    + intros t' q res Hl Hr. apply time_current; [done|by eapply Hp].
  - destruct (local_step _ _ _ Hc Hnm Hl Hok Hs') as (Hw & Hc' & Hnm' & He' & Hp').
    split; unfold n_store, n_world, n_cache; cbn [n_sys n_trace n_queue n_raced]; rewrite ?Hw; [exact Hst|exact Hc'|exact Hnm'| |].
    + intros k e [Hl'|(t & q & Hl' & ->)]%He'; [by apply He|]. split; [apply (Hnm _ _ Hl')|]. intros Hr. by eapply Hp.
    + intros t q res [Hl'| ->]%Hp' Hr; [by eapply Hp|]. right; by right.
  - inversion Hs'; subst. destruct (Cache.HandleEvent_inv Contract.keccak256 U keccak256_inj ev _ Hc) as (Hc' & _ & Hl').
    split; [exact Hst|exact Hc'|exact Hnm| |].
    + intros k e. unfold n_cache. cbn [n_sys System.with_cache System.sys_cache]. rewrite Hl'.
      destruct (Cache.event_hits Contract.keccak256 ev k) eqn:Eh; [done|]. intros [HUk Hok]%He. split; [done|]. rewrite Hq in Hok.
      cbn [n_raced n_queue]. intros Hr. apply (delivered_current ev queue (n_raced n) (n_sys n)); [|done].
      apply Hok. unfold raced_after in Hr. by rewrite Eh in Hr.
    + intros t q res Hl Hr. cbn [n_sys System.with_cache System.sys_threads n_raced] in Hl, Hr. unfold raced_after in Hr.
      destruct (Cache.event_hits Contract.keccak256 ev (Handle.query_key q)) eqn:Eh.
      * by rewrite (pending_on_thread _ _ _ _ Hl) in Hr.
      * apply (delivered_current ev queue (n_raced n) (n_sys n)); [|done]. rewrite <- Hq. by eapply Hp.
Qed.

Lemma reached_inv n : reached n -> Z.of_nat (length (n_trace n)) < 2 ^ 38 -> net_inv n.
Proof.
  induction 1 as [n (cap & c & m & r & w & Hnew & Hr & Hst & ->)|n n' Hre IH Hs]; intros Hn.
  - apply (Cache.New_inv Contract.keccak256 U) in Hnew as (Hc & He & _).
    split; [unfold n_store, n_world; cbn; rewrite Hst; by eapply Contract.reach_init|done|done| |done].
    intros k e. unfold n_cache. cbn. by rewrite He, lookup_empty.
  - assert (length (n_trace n) <= length (n_trace n'))%nat as Hle by (inversion Hs; cbn; lia).
    eapply net_step_inv; [apply IH; lia|lia|exact Hs].
Qed.

(** A hit on a key is its entry. *)
Lemma hit_fresh n q now v c :
  net_inv n -> queued (Handle.query_key q) (n_queue n) = false -> name_active (n_world n) (Handle.query_key q) = true ->
  n_raced n (Handle.query_key q) = false ->
  Cache.Get Contract.keccak256 (Handle.query_key q) now (n_cache n) = (Some v, c) -> v = fresh (n_world n) (Handle.query_key q).
Proof.
  intros [_ Hc _ He _] Hq Ha Hr Hg.
  pose proof (Cache.Get_inv Contract.keccak256 U keccak256_inj (Handle.query_key q) now _ Hc) as (_ & _ & Hv & _).
  rewrite Hg in Hv. cbn [fst] in Hv. destruct (Cache.entries (n_cache n) !! Handle.query_key q) as [e|] eqn:E; [|done].
  destruct (Cache.expiresAt e <? now); [done|]. injection Hv as ->.
  destruct (He _ _ E) as [_ Hcur]. destruct (Hcur Hr) as [?|[?|?]]; congruence.
Qed.

(** C5. Cache coherence: whatever transactions were sent, however late their events
    arrive and however the resolver's goroutines interleave with them and with each
    other, an answer that any goroutine returns about an active name, for a key none
    of whose events is on its way and the last of which was not delivered while a
    goroutine held an answer for the key, is the answer the contract gives at that
    moment, with its owner's signature verified as of now, whether it comes from the
    cache, from the chain or from a store; and so is the answer of a query that runs
    alone. *)
Theorem cache_coherent n q :
  reached n -> Z.of_nat (length (n_trace n)) < 2 ^ 38 ->
  queued (Handle.query_key q) (n_queue n) = false -> name_active (n_world n) (Handle.query_key q) = true ->
  n_raced n (Handle.query_key q) = false ->
  (forall l s t r, step (n_sys n) l s -> System.thread_of l = Some t ->
     System.sys_threads s !! t = Some (System.Done q (inl r)) -> Handle.Result r = fresh (n_world n) (Handle.query_key q))
  /\ (forall t_get t_set r, (HandleQuery q t_get t_set (Handle.mkServer (n_cache n) (n_world n))).1 = inl r ->
        Handle.Result r = fresh (n_world n) (Handle.query_key q)).
Proof.
  intros Hre Hn Hq Ha Hr. pose proof (reached_inv n Hre Hn) as Hi. split.
  - intros l s t r Hs Ht Hd.
    inversion Hs as [t0 q0 now res c _ Hg|t0 q0 now c _ _|t0 q0 ans w _ Hread|t0 q0 res now Hp| | | |]; subst; try done;
      cbn in Ht, Hd; injection Ht as ->; rewrite lookup_insert_eq in Hd; try done.
    + injection Hd as -> <-. by eapply hit_fresh.
    + injection Hd as Hd. pose proof (System.query_of_after_read artifact q0 ans) as Hq0. rewrite Hd in Hq0. cbn in Hq0. subst q0.
      apply read_fresh in Hread as [_ [E|E]]; rewrite E in Hd; [done|]. by injection Hd as <-.
    + injection Hd as -> <-. cbn [Handle.Result]. destruct (ni_pending n Hi _ _ _ Hp Hr) as [?|[?|?]]; congruence.
  - intros t_get t_set r. unfold Handle.HandleQuery. cbn [Handle.sv_cache Handle.sv_world].
    destruct (Cache.Get _ (Handle.query_key q) t_get (n_cache n)) as [[res|] c] eqn:Eg.
    + intros [= <-]. by eapply hit_fresh.
    + rewrite reader_Resolve. unfold fresh. cbn [Handle.query_key Cache.Name Cache.KType Cache.KSelector].
      destruct (Exists _) eqn:Ex; by intros [= <-].
Qed.

(** * Runs *)
Inductive action :=
| ATransaction (m : Contract.msg) (c : Contract.call)
| ATime (t : Z)
| ALocal (a : System.action (W := world))
| ADeliver.

Definition act (a : action) (n : net) : option net :=
  match a with
  | ATransaction m c =>
      if Contract.timestamp m =? w_now (n_world n) then
        match Contract.exec m c (n_store n) with
        | Ret (st, evs) =>
            Some (mkNet (set_world (with_store st (n_world n)) (n_sys n)) ((m, c) :: n_trace n)
                    (n_queue n ++ omap (Authority.announced 0) evs) (n_raced n))
        | _ => None
        end
      else None
  | ATime t =>
      if w_now (n_world n) <=? t then Some (mkNet (set_world (at_time t (n_world n)) (n_sys n)) (n_trace n) (n_queue n) (n_raced n)) else None
  | ALocal a =>
      '(l, s) ← System.exec artifact Contract.keccak256 a (n_sys n);
      if local l then Some (mkNet s (n_trace n) (n_queue n) (n_raced n)) else None
  | ADeliver =>
      match n_queue n with
      | ev :: queue =>
          '(_, s) ← System.exec artifact Contract.keccak256 (System.AEvent ev) (n_sys n);
          Some (mkNet s (n_trace n) queue (raced_after ev (n_sys n) (n_raced n)))
      | [] => None
      end
  end.
Definition action_ok (a : action) : Prop :=
  match a with ATransaction m c => allowed m c | ALocal (System.ALookup _ q _) => U (Query.Name q) | _ => True end.
Fixpoint act_all (l : list action) (n : net) : option net :=
  match l with [] => Some n | a :: l => n ← act a n; act_all l n end.

Lemma exec_label_ok a s l s' :
  action_ok (ALocal a) -> System.exec artifact Contract.keccak256 a s = Some (l, s') -> System.label_ok U l.
Proof.
  intros Ha Hex. apply System.exec_step in Hex as Hs. destruct l as [t q now hit| | | | | |]; try done. cbn.
  destruct a as [t' q' now'|t' now'|ev|name| |w]; cbn [System.exec] in Hex; try done.
  - destruct (System.sys_threads s !! t'); [done|]. destruct (Cache.Get _ _ _ _). injection Hex as <- <- <- <-. exact Ha.
  - destruct (System.sys_threads s !! t') as [[]|]; done.
Qed.

Lemma act_step a n n' : action_ok a -> act a n = Some n' -> net_step n n'.
Proof.
  destruct a as [m c|t|a|]; cbn [act]; intros Ha.
  - destruct (Z.eqb_spec (Contract.timestamp m) (w_now (n_world n))); [|done].
    destruct (Contract.exec m c (n_store n)) as [[st evs]| |] eqn:E; [|done..]. intros [= <-]. by apply net_transaction.
  - destruct (Z.leb_spec (w_now (n_world n)) t); [|done]. intros [= <-]. by apply net_time.
  - destruct (System.exec _ _ a (n_sys n)) as [[l s]|] eqn:E; [|done]. cbn. destruct (local l) eqn:El; [|done]. intros [= <-].
    apply (net_local _ l); [done|by eapply exec_label_ok|by eapply System.exec_step].
  - destruct (n_queue n) as [|ev queue] eqn:E; [done|]. intros [= <-]. apply net_deliver; [done|]. by apply (System.exec_step _ _ (System.AEvent ev)).
Qed.

Lemma act_all_reached l n n' : reached n -> Forall action_ok l -> act_all l n = Some n' -> reached n'.
Proof.
  revert n. induction l as [|a l IH]; intros n Hre; cbn [act_all]; [by intros _ [= <-]|].
  intros [Ha Hl]%Forall_cons (n1 & Hn1 & Hrun)%bind_Some. eapply IH; [|done|exact Hrun].
  eapply reached_step; [exact Hre|by eapply act_step].
Qed.
End Coherence.

(** * Concrete networks *)
#[local] Existing Instances Pki.merge_sort_pairs Zk.toy_mimc Zk.toy_groth Authority.toy_keccak Authority.toy_immutables.
Import Authority Deployment.
Definition demo_net : Type := net (L := Handle.demo_lru).
Definition demo_boot (r : Contract.registry) : demo_net :=
  mkNet (System.boot Handle.demo_cache (mkWorld (Contract.mkStore Contract.empty_state r) 1000 zero_address [])) [] [] (fun _ => false).
Definition demo_query : Query.Query := Query.mkQuery (str "alice") (str "A") [].
Definition demo_ttl : Z := 2 ^ 32 - 1.
Definition demo_put (t : Z) (ip : bytes) : action :=
  ATransaction (by_alice t 0) (Contract.SetRecord (str "alice") (str "A") [] [str "address"] [ip] demo_ttl [] zero_hash).
(** A goroutine's query: it looks the cache up, reads the chain and stores. *)
Definition demo_ask (t : nat) (now : Z) : action := ALocal (System.ALookup t demo_query now).
Definition demo_go (t : nat) : action := ALocal (System.AAdvance t 1).
(** Alice registers, publishes, is asked for. *)
Definition demo_published : list action :=
  [ ATransaction (by_alice 1000 0) (Contract.Commit (Contract.makeCommitment (str "alice") alice (str "key") demo_secret));
    ATime 1040;
    ATransaction (by_alice 1040 130) (Contract.Register (str "alice") (str "key") demo_secret);
    ADeliver;
    demo_put 1040 (str "10.0.0.1");
    demo_ask 1 0; ADeliver; demo_go 1; demo_go 1 ].
(** She publishes again while another query misses the cache; the event arrives before
    it reads the chain. *)
Definition demo_updated : list action := demo_published ++ [ATime 1050; demo_put 1050 (str "10.0.0.2"); ADeliver; demo_ask 2 5; demo_go 2; demo_go 2].
(** The event arrives after the query has read the chain and before it stores. *)
Definition demo_race : list action :=
  demo_published ++ [ALocal System.AFlush; demo_ask 2 5; demo_go 2; ATime 1050; demo_put 1050 (str "10.0.0.2"); ADeliver; demo_go 2].
Definition demo_expired : list action := demo_published ++ [ATime (1040 + 365 * 86400 + 1)].

Definition demo_act (l : list action) : option demo_net :=
  match Contract.constructor (by_alice 0 0) with
  | Ret r => act_all (EC := Pki.toy_eth) Handle.demo_artifact l (demo_boot r)
  | _ => None
  end.
Definition demo_end (l : list action) : demo_net := default (demo_boot (Contract.mkRegistry ∅ [])) (demo_act l).
(** What a query is answered from the cache at a time. *)
Definition demo_hit (l : list action) (now : Z) : option ResolveResult :=
  (Cache.Get Contract.keccak256 (Handle.query_key demo_query) now (n_cache (demo_end l))).1.
Definition demo_fresh (l : list action) : ResolveResult :=
  fresh (EC := Pki.toy_eth) Handle.demo_artifact (n_world (demo_end l)) (Handle.query_key demo_query).

Lemma demo_ok : Forall (action_ok (fun _ => True)) (demo_updated ++ demo_race ++ demo_expired).
Proof.
  assert (forall m c, Contract.widths m c -> Contract.sender m <> zero_address -> allowed (fun _ => True) m c) as H by done.
  unfold demo_updated, demo_race, demo_expired, demo_published, demo_put, demo_ask, demo_go. cbn [app].
  repeat (apply Forall_cons; split; [cbn [action_ok]; first [exact I|apply H; [unfold Contract.widths; cbn; repeat split; (lia || done)|done]]|]).
  constructor.
Qed.

Definition demo_runs (l : list action) : bool := match demo_act l with Some _ => true | None => false end.
Lemma demo_all_run : forallb demo_runs [demo_updated; demo_race; demo_expired] = true.
Proof. vm_refl. Qed.

Lemma demo_reached l : l ∈ [demo_updated; demo_race; demo_expired] ->
  reached (EC := Pki.toy_eth) (L := Handle.demo_lru) Handle.demo_artifact (fun _ => True) (demo_end l).
Proof.
  intros Hl. assert (exists n, demo_act l = Some n) as [n Hn].
  { pose proof demo_all_run as H. rewrite forallb_forall in H. specialize (H l (proj1 (list_elem_of_In _ _) Hl)).
    unfold demo_runs in H. destruct (demo_act l) as [n|]; [by exists n|discriminate H]. }
  assert (Forall (action_ok (fun _ => True)) l) as Hok.
  { pose proof demo_ok as [H1 [H2 H3]%Forall_app]%Forall_app. apply elem_of_cons in Hl as [->|[->|[->|Hl%elem_of_nil]%elem_of_cons]%elem_of_cons]; done. }
  unfold demo_end. rewrite Hn. unfold demo_act in Hn. destruct (Contract.constructor (by_alice 0 0)) as [r| |] eqn:Er; [|done..].
  eapply act_all_reached; [|exact Hok|exact Hn]. apply reached_boot.
  exists 8, Handle.demo_cache, (by_alice 0 0), r, (mkWorld (Contract.mkStore Contract.empty_state r) 1000 zero_address []). done.
Qed.

(** The hit of another goroutine after the update. *)
Definition demo_step := System.step (EC := Pki.toy_eth) (CR := reader) (L := Handle.demo_lru) Handle.demo_artifact Contract.keccak256.
Lemma demo_hit_step l now v :
  System.sys_threads (n_sys (demo_end l)) !! 9%nat = None -> demo_hit l now = Some v ->
  exists s, demo_step (n_sys (demo_end l)) (System.LLookup 9 demo_query now (Some v)) s
    /\ System.sys_threads s !! 9%nat = Some (System.Done demo_query (inl (Handle.mkQueryResult v true))).
Proof.
  intros Ht. unfold demo_hit. destruct (Cache.Get _ _ now (n_cache (demo_end l))) as [hit c] eqn:E. cbn. intros ->.
  eexists. split; [by apply System.step_hit with (c := c)|apply lookup_insert_eq].
Qed.

Lemma cache_coherent_witness :
  demo_hit demo_updated 5 = Some (demo_fresh demo_updated) /\ FieldVals (RR_Record (demo_fresh demo_updated)) = [str "10.0.0.2"].
Proof.
  split; [|vm_refl]. assert (exists v, demo_hit demo_updated 5 = Some v) as [v Hv].
  { assert (bool_decide (is_Some (demo_hit demo_updated 5)) = true) as H%bool_decide_eq_true by vm_refl. exact H. }
  rewrite Hv. destruct (demo_hit_step demo_updated 5 v) as (s & Hs & Hd); [vm_refl|exact Hv|]. f_equal.
  destruct (cache_coherent (EC := Pki.toy_eth) (L := Handle.demo_lru) Handle.demo_artifact (fun _ => True)
    (fun a b _ _ => toy_keccak_inj a b) (demo_end demo_updated) demo_query) as [H _].
  - apply demo_reached. left.
  - vm_compute. reflexivity.
  - vm_refl.
  - vm_refl.
  - vm_refl.
  - unfold demo_fresh. exact (H _ s 9%nat (Handle.mkQueryResult v true) Hs eq_refl Hd).
Defined.

(** The race, and what is excluded by the flag: the query that held the old answer
    stores it after the event, and it is served. *)
Theorem raced_answer_served :
  reached (EC := Pki.toy_eth) (L := Handle.demo_lru) Handle.demo_artifact (fun _ => True) (demo_end demo_race)
  /\ n_queue (demo_end demo_race) = [] /\ n_raced (demo_end demo_race) (Handle.query_key demo_query) = true
  /\ FieldVals (RR_Record (demo_fresh demo_race)) = [str "10.0.0.2"]
  /\ option_map (fun v => FieldVals (RR_Record v)) (demo_hit demo_race 10) = Some [str "10.0.0.1"].
Proof. split; [apply demo_reached; right; left|]. split_and!; vm_refl. Qed.

(** The expiry of a name emits no event: a record is served from the cache after it,
    for as long as its TTL, although the contract no longer gives it. *)
Theorem expired_name_served :
  reached (EC := Pki.toy_eth) (L := Handle.demo_lru) Handle.demo_artifact (fun _ => True) (demo_end demo_expired)
  /\ n_queue (demo_end demo_expired) = [] /\ n_raced (demo_end demo_expired) (Handle.query_key demo_query) = false
  /\ Exists (RR_Record (demo_fresh demo_expired)) = false
  /\ option_map (fun v => FieldVals (RR_Record v)) (demo_hit demo_expired (365 * 86400 * 10 ^ 9)) = Some [str "10.0.0.1"].
Proof. split; [apply demo_reached; right; right; left|]. split_and!; vm_refl. Qed.
End Coherence.
