(* ===== verification/ZkGen.v ===== *)
(** cmd/zkgen (src/resolver/cmd/zkgen/main.go): the set-up that compiles the circuit,
    makes the Groth16 keys, writes the artifacts the resolver embeds, the verifier
    contract and a fixture for its test.

    A path is absolute and listed from its last name to the root, so filepath.Dir is
    the tail. A command runs on the files of the disk; gnark's compiler, set-up and
    serializers are the class [TrustedSetup]. *)
From S2P Require Import Prelude GoStrings Encoding Query Chain Pki Zk Contract Authority Deployment.
Import Chain Deployment.

Local Open Scope Z_scope.

Abbreviation path := (list bytes).

(** gnark: the circuit compiled, the set-up with its randomness, the serializers and
    the public part of a witness. *)
Class TrustedSetup (CCS PK VK Wit PubWit : Type) := {
  Compile : option CCS;
  groth16_Setup : bytes -> CCS -> option (PK * VK);
  ccs_WriteTo : CCS -> option bytes;
  pk_WriteTo : PK -> option bytes;
  vk_WriteTo : VK -> option bytes;
  ExportSolidity : VK -> option bytes;
  Wit_Public : Wit -> PubWit;
}.

Module ZkGen.

Inductive zkgen_error :=
| GetwdFailed | GoModNotFound (dir : path) | MkdirFailed (p : path) | WriteFileFailed (p : path)
| CompileFailed | SetupFailed | SerializeFailed | ExportFailed
| PayloadFailed (e : Zk.zk_error) | WitnessFailed | ProveFailed | SelfCheckFailed.

Definition Join (d : path) (names : list bytes) : path := rev names ++ d.
Definition Dir (d : path) : path := tail d.

(** What os.WriteFile does to a file: a failure may leave it as it was or torn. *)
Inductive write_outcome := WriteOk | WriteFails (torn : option bytes).

Section ZkGen.
Context {SP : Pki.SortPairs} {St : Type} {MI : Zk.Mimc St}.
Context {CCS PK VK Wit PubWit : Type} {GR : Zk.Groth16 CCS PK VK Wit PubWit} {TS : TrustedSetup CCS PK VK Wit PubWit}.
Variable cwd : option path.                        (* os.Getwd *)
Variable can_mkdir : path -> bool.                 (* os.MkdirAll succeeds *)
Variable write_to : path -> write_outcome.
Variable MarshalIndent : gmap bytes bytes -> bytes.
Variable entropy : bytes.

(** * Commands over the disk *)
Abbreviation disk := (gmap path bytes).
Definition io (A : Type) : Type := disk -> go zkgen_error A * disk.
#[local] Instance io_ret : MRet io := fun A a s => (Ret a, s).
#[local] Instance io_bind : MBind io := fun A B f m s =>
  match m s with
  | (Ret a, s) => f a s
  | (Err e, s) => (Err e, s)
  | (Panic, s) => (Panic, s)
  end.
Definition fail {A} (e : zkgen_error) : io A := fun s => (Err e, s).
Definition or_fail {A} (e : zkgen_error) (o : option A) : io A := match o with Some a => mret a | None => fail e end.
Definition lift {E A} (f : E -> zkgen_error) (m : go E A) : io A := fun s => (map_err f m, s).

Definition MkdirAll (p : path) : io () := if can_mkdir p then mret () else fail (MkdirFailed p).
Definition WriteFile (p : path) (data : bytes) : io () := fun s =>
  match write_to p with
  | WriteOk => (Ret (), <[p := data]> s)
  | WriteFails torn => (Err (WriteFileFailed p), match torn with Some b => <[p := b]> s | None => s end)
  end.

(** * moduleRoot *)
Fixpoint find_root (s : disk) (d : path) : option path :=
  if bool_decide (is_Some (s !! Join d [str "go.mod"])) then Some d
  else match d with [] => None | _ :: up => find_root s up end.
Definition moduleRoot : io path := fun s =>
  match cwd with
  | None => (Err GetwdFailed, s)
  | Some dir => match find_root s dir with Some d => (Ret d, s) | None => (Err (GoModNotFound dir), s) end
  end.

(** * run *)

(** mustAssign; log.Fatal ends the process as a returned error does. *)
Definition mustAssign (msg : bytes) : go Zk.zk_error Zk.RecordCommitmentCircuit :=
  elements ← Zk.PackMessage msg;
  commitment ← Zk.Commitment msg;
  len ← or_panic (elements !! 0%nat);
  mret (Zk.mkCircuit len (take (Z.to_nat Zk.MaxChunks) (drop 1 elements)) (be_Z commitment)).

(** run's [write] *)
Definition write (artifactsDir : path) (name : bytes) (contents : option bytes) : io () :=
  b ← or_fail SerializeFailed contents; WriteFile (Join artifactsDir [name]) b.

(** run's [assignProof]: a proof of the message, checked against the key. *)
Definition assignProof (ccs : CCS) (pk : PK) (vk : VK) (msg : bytes) : io bytes :=
  c ← lift PayloadFailed (mustAssign msg);
  w ← or_fail WitnessFailed (Zk.NewWitness c);
  proof ← or_fail ProveFailed (Zk.groth16_Prove ccs pk w);
  if negb (Zk.groth16_Verify proof vk (Wit_Public w)) then fail SelfCheckFailed
  else lift PayloadFailed (Zk.SolidityCalldata proof).

(** The record of the fixture. *)
Definition fixture_record : Record :=
  mkRecord (str "A") [] [str "address"] [str "93.184.216.34"] 3600 0 [] zero_hash false.
Definition fixture_name : bytes := str "example".
(** big.Int's String of a 256-bit number, of at most 78 digits. *)
Definition big_String (z : Z) : bytes := dec_digits 78 z.
Definition fixture (msg commitment calldata : bytes) : gmap bytes bytes :=
  {[ str "payloadHex" := str "0x" ++ hex_encode msg;
     str "commitment" := str "0x" ++ hex_encode commitment;
     str "commitmentDec" := big_String (be_Z commitment);
     str "proofCalldata" := str "0x" ++ hex_encode calldata ]}.

Definition artifacts_dir (resolverDir : path) : path := Join resolverDir [str "internal"; str "zk"; str "artifacts"].
Definition verifier_path (resolverDir : path) : path := Join (Dir resolverDir) [str "contracts"; str "contracts"; str "ZKVerifier.sol"].
Definition fixture_dir (resolverDir : path) : path := Join (Dir resolverDir) [str "contracts"; str "test"; str "fixtures"].

Definition run : io () :=
  resolverDir ← moduleRoot;
  _ ← MkdirAll (artifacts_dir resolverDir);
  ccs ← or_fail CompileFailed Compile;
  keys ← or_fail SetupFailed (groth16_Setup entropy ccs);
  let pk := keys.1 in
  let vk := keys.2 in
  _ ← write (artifacts_dir resolverDir) (str "record_v1.ccs") (ccs_WriteTo ccs);
  _ ← write (artifacts_dir resolverDir) (str "record_v1.pk") (pk_WriteTo pk);
  _ ← write (artifacts_dir resolverDir) (str "record_v1.vk") (vk_WriteTo vk);
  sol ← or_fail ExportFailed (ExportSolidity vk);
  _ ← WriteFile (verifier_path resolverDir) sol;
  msg ← lift PayloadFailed (Pki.RecordMessage fixture_name fixture_record);
  commitment ← lift PayloadFailed (Zk.Commitment msg);
  calldata ← assignProof ccs pk vk msg;
  _ ← MkdirAll (fixture_dir resolverDir);
  WriteFile (Join (fixture_dir resolverDir) [str "zkproof.json"]) (MarshalIndent (fixture msg commitment calldata) ++ [x0a]).

(** main: log.Fatal's status. *)
Definition main (s : disk) : Z * disk := let '(r, s) := run s in (if is_ret r then 0 else 1, s).

(** * moduleRoot finds the nearest module *)
Definition is_module (s : disk) (d : path) : Prop := is_Some (s !! Join d [str "go.mod"]).

Lemma suffix_cons_cases {A} (r d : list A) x : r `suffix_of` x :: d -> r = x :: d \/ r `suffix_of` d.
Proof. intros [[|y k] Hk]; [by left|]. injection Hk as -> ->. right. by exists k. Qed.

Lemma find_root_nearest s d :
  match find_root s d with
  | Some r => r `suffix_of` d /\ is_module s r /\ forall r', r' `suffix_of` d -> is_module s r' -> r' `suffix_of` r
  | None => forall r', r' `suffix_of` d -> ~ is_module s r'
  end.
Proof.
  induction d as [|x d IH]; cbn [find_root]; case_bool_decide as Hm.
  - done.
  - intros r' ->%suffix_nil_inv. exact Hm.
  - done.
  - destruct (find_root s d) as [r|].
    + destruct IH as (Hr & Hmr & Hn). split; [by apply suffix_cons_r|]. split; [done|].
      intros r' [->|Hs]%suffix_cons_cases Hm'; [done|by apply Hn].
    + intros r' [->|Hs]%suffix_cons_cases; [done|by apply IH].
Qed.

(** mustAssign is the resolver's own assignment. *)
Lemma mustAssign_assignment msg : mustAssign msg = Zk.assignment msg.
Proof.
  unfold mustAssign, Zk.assignment. destruct (Zk.PackMessage msg) as [els| |] eqn:E; [|done..]. cbn [mbind go_bind].
  destruct (Zk.Commitment msg); [|done..]. cbn [mbind go_bind]. by apply Zk.PackMessage_Ret in E as [_ ->].
Qed.

Lemma io_bind_ret {A B} (m : io A) (f : A -> io B) s b s' :
  (m ≫= f) s = (Ret b, s') <-> exists a s1, m s = (Ret a, s1) /\ f a s1 = (Ret b, s').
Proof. unfold mbind, io_bind. destruct (m s) as [[a| |] s1]; naive_solver. Qed.
Lemma or_fail_ret {A} e (o : option A) s a s' : or_fail e o s = (Ret a, s') <-> o = Some a /\ s' = s.
Proof. unfold or_fail, fail, mret, io_ret. destruct o; naive_solver. Qed.
Lemma lift_ret {E A} (f : E -> zkgen_error) (m : go E A) s a s' : lift f m s = (Ret a, s') <-> m = Ret a /\ s' = s.
Proof. unfold lift. destruct m; cbn [map_err]; naive_solver. Qed.
Lemma MkdirAll_ret p s u s' : MkdirAll p s = (Ret u, s') -> s' = s.
Proof. unfold MkdirAll. destruct (can_mkdir p); [by intros [= _ <-]|done]. Qed.
Lemma WriteFile_ret p b s u s' : WriteFile p b s = (Ret u, s') -> s' = <[p := b]> s.
Proof. unfold WriteFile. destruct (write_to p); [by intros [= _ <-]|done]. Qed.
Lemma write_ret d name o s u s' : write d name o s = (Ret u, s') -> exists b, o = Some b /\ s' = <[Join d [name] := b]> s.
Proof. intros (b & s1 & [-> ->]%or_fail_ret & ->%WriteFile_ret)%io_bind_ret. by exists b. Qed.

(** The files a run writes, the last one first. *)
Definition written (root : path) : list path :=
  [Join (fixture_dir root) [str "zkproof.json"]; verifier_path root; Join (artifacts_dir root) [str "record_v1.vk"];
   Join (artifacts_dir root) [str "record_v1.pk"]; Join (artifacts_dir root) [str "record_v1.ccs"]].

Lemma written_distinct root : NoDup (written root).
Proof. apply (NoDup_fmap_1 head). apply (bool_decide_unpack _). vm_compute. exact I. Qed.

(** A file that is written once holds what was written, and the others are as they
    were. *)
Definition write_all (l : list (path * bytes)) (s : disk) : disk := foldr (fun pb => <[pb.1 := pb.2]>) s l.
Lemma write_all_lookup (l : list (path * bytes)) (s : disk) :
  NoDup l.*1 ->
  (forall p b, (p, b) ∈ l -> write_all l s !! p = Some b) /\ (forall p, p ∉ l.*1 -> write_all l s !! p = s !! p).
Proof.
  unfold write_all. induction l as [|[q c] l IH]; intros Hnd; [split; [by intros ? ? ?%elem_of_nil|done]|].
  apply NoDup_cons in Hnd as [Hq Hnd]. destruct (IH Hnd) as [H1 H2]. cbn [foldr fold_right fst snd fmap list_fmap] in *. split.
  - intros p b [[= -> ->]|Hin]%elem_of_cons; [apply lookup_insert_eq|].
    rewrite lookup_insert_ne; [by apply H1|]. intros ->. apply Hq. apply list_elem_of_fmap. by exists (p, b).
  - intros p Hp. rewrite not_elem_of_cons in Hp. destruct Hp as [Hpq Hp]. rewrite lookup_insert_ne; [by apply H2|done].
Qed.

(** What a successful run did, step by step. *)
Lemma run_ret s s' :
  run s = (Ret (), s') ->
  exists dir root ccs pk vk cb pb vb sol msg com c w proof calldata,
    cwd = Some dir /\ find_root s dir = Some root /\ Compile = Some ccs /\ groth16_Setup entropy ccs = Some (pk, vk)
    /\ ccs_WriteTo ccs = Some cb /\ pk_WriteTo pk = Some pb /\ vk_WriteTo vk = Some vb /\ ExportSolidity vk = Some sol
    /\ Pki.RecordMessage (E := Zk.zk_error) fixture_name fixture_record = Ret msg /\ Zk.Commitment msg = Ret com
    /\ Zk.assignment msg = Ret c /\ Zk.NewWitness c = Some w /\ Zk.groth16_Prove ccs pk w = Some proof
    /\ Zk.groth16_Verify proof vk (Wit_Public w) = true /\ Zk.SolidityCalldata proof = Ret calldata
    /\ s' = write_all (zip (written root) [MarshalIndent (fixture msg com calldata) ++ [x0a]; sol; vb; pb; cb]) s.
Proof.
  intros (root & s1 & Hr & H)%io_bind_ret. unfold moduleRoot in Hr.
  destruct cwd as [dir|]; [|done]. destruct (find_root s dir) as [r|] eqn:Er; [|done]. injection Hr as -> <-.
  apply io_bind_ret in H as ([] & s1 & ->%MkdirAll_ret & H).
  apply io_bind_ret in H as (ccs & s1 & [Hccs ->]%or_fail_ret & H).
  apply io_bind_ret in H as ([pk vk] & s1 & [Hkeys ->]%or_fail_ret & H). cbn [fst snd] in H.
  apply io_bind_ret in H as ([] & s1 & (cb & Hcb & ->)%write_ret & H).
  apply io_bind_ret in H as ([] & s1 & (pb & Hpb & ->)%write_ret & H).
  apply io_bind_ret in H as ([] & s1 & (vb & Hvb & ->)%write_ret & H).
  apply io_bind_ret in H as (sol & s1 & [Hsol ->]%or_fail_ret & H).
  apply io_bind_ret in H as ([] & s1 & ->%WriteFile_ret & H).
  apply io_bind_ret in H as (msg & s1 & [Hmsg ->]%lift_ret & H).
  apply io_bind_ret in H as (com & s1 & [Hcom ->]%lift_ret & H).
  apply io_bind_ret in H as (calldata & s1 & Hproof & H).
  apply io_bind_ret in H as ([] & s2 & ->%MkdirAll_ret & ->%WriteFile_ret).
  apply io_bind_ret in Hproof as (c & s2 & [Hc ->]%lift_ret & H). rewrite mustAssign_assignment in Hc.
  apply io_bind_ret in H as (w & s2 & [Hw ->]%or_fail_ret & H).
  apply io_bind_ret in H as (proof & s2 & [Hpr ->]%or_fail_ret & H).
  destruct (Zk.groth16_Verify proof vk (Wit_Public w)) eqn:Hv; [|done]. apply lift_ret in H as [Hcd ->].
  by exists dir, root, ccs, pk, vk, cb, pb, vb, sol, msg, com, c, w, proof, calldata.
Qed.

(** * The resolver after a set-up *)

(** The files go:embed puts into the resolver that is built next. *)
Definition embedded (s : disk) (root : path) (name : bytes) : option bytes :=
  s !! Join root ([str "internal"; str "zk"] ++ Split name "/").

Lemma embedded_artifact (s : disk) root name :
  embedded s root (str "artifacts/" ++ name) = s !! Join (artifacts_dir root) (Split name "/").
Proof.
  unfold embedded, artifacts_dir, Join. f_equal. rewrite app_assoc, <- rev_app_distr. reflexivity.
Qed.

Section After.
Context {MIL : Zk.MimcLaws St}.
(** What is serialized is read back. *)
Hypothesis ccs_roundtrip : forall x b, ccs_WriteTo x = Some b -> Zk.cs_ReadFrom b = Some x.
Hypothesis pk_roundtrip : forall x b, pk_WriteTo x = Some b -> Zk.pk_ReadFrom b = Some x.
Hypothesis vk_roundtrip : forall x b, vk_WriteTo x = Some b -> Zk.vk_ReadFrom b = Some x.
(** A full witness has the public part that is built from the commitment alone. *)
Hypothesis Wit_Public_public : forall c w,
  Zk.NewWitness c = Some w -> Zk.NewPublicWitness (Zk.C_Commitment c) = Some (Wit_Public w).
Hypothesis NewPublicWitness_total : forall z, is_Some (Zk.NewPublicWitness z).
Variable gadget : list Z -> Z.
Hypothesis gadget_native : forall els h, Zk.write_elements els Zk.mimc_New = Ret h -> gadget els = be_Z (Zk.mimc_Sum h).
(** Groth16 is complete for the keys of a set-up. *)
Hypothesis setup_complete : forall ccs pk vk c w proof,
  Compile = Some ccs -> groth16_Setup entropy ccs = Some (pk, vk) -> Zk.circuit_holds gadget c ->
  Zk.NewWitness c = Some w -> Zk.groth16_Prove ccs pk w = Some proof -> Zk.groth16_Verify proof vk (Wit_Public w) = true.

(** C21. After zkgen has run, the resolver built with the files it wrote loads exactly
    the circuit and the keys of that set-up, next to the verifier contract exported
    from the same key; every proof this resolver makes it also accepts for the
    commitment of its message; the fixture holds a message, its commitment in
    hexadecimal and in decimal, and a proof this resolver accepts; and no file but
    those five has changed. *)
Theorem setup_serves s s' :
  run s = (Ret (), s') ->
  exists dir root, cwd = Some dir /\ find_root s dir = Some root
    /\ let artifact := embedded s' root in
       (exists ccs pk vk, Compile = Some ccs /\ groth16_Setup entropy ccs = Some (pk, vk)
          /\ Zk.loadArtifacts artifact = Ret (ccs, pk, vk) /\ s' !! verifier_path root = ExportSolidity vk)
       /\ (forall msg proof com, Zk.Prove artifact msg = Ret proof -> Zk.Commitment msg = Ret com ->
             Zk.Verify artifact proof com = Ret ())
       /\ (exists msg com proof calldata,
             Pki.RecordMessage (E := ()) fixture_name fixture_record = Ret msg /\ Zk.Commitment msg = Ret com
             /\ Zk.Verify artifact proof com = Ret () /\ Zk.SolidityCalldata proof = Ret calldata
             /\ s' !! Join (fixture_dir root) [str "zkproof.json"] = Some (MarshalIndent (fixture msg com calldata) ++ [x0a])
             /\ parse_digits (big_String (be_Z com)) = be_Z com)
       /\ (forall p, p ∉ written root -> s' !! p = s !! p).
Proof.
  intros (dir & root & ccs & pk & vk & cb & pb & vb & sol & msg & com & c & w & proof & calldata & Hcwd & Hroot & Hccs & Hkeys
    & Hcb & Hpb & Hvb & Hsol & Hmsg & Hcom & Hc & Hw & Hpr & Hver & Hcd & Hs')%run_ret.
  exists dir, root. split; [done|]. split; [done|]. cbv zeta.
  destruct (write_all_lookup (zip (written root) [MarshalIndent (fixture msg com calldata) ++ [x0a]; sol; vb; pb; cb]) s (written_distinct root))
    as [Hat Hframe].
  rewrite <- Hs' in Hat, Hframe. cbn [written zip zip_with] in Hat.
  assert (Zk.loadArtifacts (embedded s' root) = Ret (ccs, pk, vk)) as Hload.
  { unfold Zk.loadArtifacts. change (embedded s' root (str "artifacts/record_v1.ccs")) with (s' !! Join (artifacts_dir root) [str "record_v1.ccs"]).
    change (embedded s' root (str "artifacts/record_v1.pk")) with (s' !! Join (artifacts_dir root) [str "record_v1.pk"]).
    change (embedded s' root (str "artifacts/record_v1.vk")) with (s' !! Join (artifacts_dir root) [str "record_v1.vk"]).
    rewrite (Hat _ cb), (Hat _ pb), (Hat _ vb) by set_solver.
    by rewrite (ccs_roundtrip _ _ Hcb), (pk_roundtrip _ _ Hpb), (vk_roundtrip _ _ Hvb). }
  split; [|split; [|split; [|exact Hframe]]].
  - exists ccs, pk, vk. rewrite (Hat _ sol) by set_solver. done.
  - apply (Zk.Prove_Verify (embedded s' root) gadget gadget_native); [|exact NewPublicWitness_total].
    intros ccs1 pk1 vk1 c1 w1 pw1 pr1 Hl Hh Hw1 Hp1 Hpw1. rewrite Hload in Hl. injection Hl as <- <- <-.
    rewrite (Wit_Public_public _ _ Hw1) in Hpw1. injection Hpw1 as <-. by eapply setup_complete.
  - exists msg, com, proof, calldata. split.
    { destruct (Pki.RecordMessage_Ret (E := Zk.zk_error) fixture_name fixture_record msg) as [Hr _].
      apply Hr in Hmsg as [Hl ->]. by apply Pki.RecordMessage_Ret. }
    split; [done|]. split.
    + unfold Zk.Verify, Zk.publicWitness. rewrite Hload. cbn [mbind go_bind].
      assert (Zk.C_Commitment c = be_Z com) as <-; [|by rewrite (Wit_Public_public _ _ Hw); cbn; rewrite Hver].
      unfold Zk.assignment in Hc. apply go_bind_ret in Hc as (els & _ & Hc). rewrite Hcom in Hc. cbn [mbind go_bind] in Hc.
      destruct els; [done|]. by injection Hc as <-.
    + split; [done|]. split; [by apply Hat; set_solver|]. apply dec_digits_ok; [|lia].
      apply Zk.Commitment_Ret in Hcom as (els & h & _ & _ & ->). pose proof (be_Z_range (Zk.mimc_Sum h)) as Hr.
      rewrite Zk.mimc_Sum_length in Hr. split; [lia|]. eapply Z.lt_trans; [apply Hr|]. done.
Qed.
End After.
End ZkGen.

(** The fixture's message is not that of any record of the contract: it says
    generation zero, and every record is written under a later one. *)
Theorem fixture_not_on_chain {SP : Pki.SortPairs} {SPL : Pki.SortPairsLaws} {K : Contract.Keccak} {IM : Contract.Immutables} P tr w typ sel msg :
  let r := RR_Record (Deployment.answer w fixture_name typ sel) in
  (forall m c, P m c -> Contract.widths m c) -> Contract.reachable P tr (w_store w) -> Z.of_nat (length tr) < 2 ^ 64 ->
  Exists r = true -> Pki.encodable fixture_name r ->
  Pki.RecordMessage (E := ()) fixture_name fixture_record = Ret msg ->
  Pki.RecordMessage (E := ()) fixture_name r <> Ret msg.
Proof.
  intros r HP Hre Hn Hx Henc Hf Hr.
  destruct (Pki.RecordMessage_inj (E := ()) fixture_name fixture_record fixture_name r msg) as (_ & _ & _ & _ & Hg & _); [|done..|].
  { repeat split; repeat constructor; vm_compute; congruence. }
  unfold r in Hg, Hx. rewrite answer_record in Hg, Hx. cbn [fixture_record fromBinding Generation Exists] in Hg, Hx.
  apply Authority.lookup_record_live in Hx as (Ha & Hl & Hlive). rewrite Hl in Hg.
  apply andb_true_iff in Hlive as [_ Hgen%Z.eqb_eq]. apply andb_true_iff in Ha as [Hreg _].
  pose proof (Authority.reachable_generation P tr (w_store w) _ Hre Hn Hreg). congruence || lia.
Qed.

(** * A concrete set-up *)
#[local] Existing Instances Pki.merge_sort_pairs Pki.merge_sort_pairs_laws Zk.toy_mimc Zk.toy_mimc_laws Zk.toy_groth.
Definition toy_setup : TrustedSetup () () () Zk.RecordCommitmentCircuit Z := {|
  Compile := Some (); groth16_Setup _ _ := Some ((), ());
  ccs_WriteTo _ := Some (str "ccs"); pk_WriteTo _ := Some (str "pk"); vk_WriteTo _ := Some (str "vk");
  ExportSolidity _ := Some (str "contract Verifier"); Wit_Public c := Zk.C_Commitment c;
|}.
Definition demo_root : path := [str "resolver"; str "repo"].
Definition demo_cwd : path := [str "zkgen"; str "cmd"] ++ demo_root.
Definition demo_disk : gmap path bytes := {[ Join demo_root [str "go.mod"] := []; Join demo_root [str "README"] := str "hi" ]}.
Definition demo_json (m : gmap bytes bytes) : bytes := default [] (m !! str "commitmentDec").
Definition demo_run (s : gmap path bytes) : go zkgen_error () * gmap path bytes :=
  run (TS := toy_setup) (Some demo_cwd) (fun _ => true) (fun _ => WriteOk) demo_json [] s.
Definition toy_gadget (els : list Z) : Z :=
  match Zk.write_elements els Zk.mimc_New with Ret h => be_Z (Zk.mimc_Sum h) | _ => 0 end.

Lemma demo_runs_through : is_ret (demo_run demo_disk).1 = true.
Proof. vm_refl. Qed.

Lemma demo_finds_root : find_root demo_disk demo_cwd = Some demo_root.
Proof. vm_refl. Qed.
Lemma demo_readme : Join demo_root [str "README"] ∉ written demo_root.
Proof. apply (bool_decide_unpack _). vm_compute. exact I. Qed.

Lemma setup_serves_witness : exists proof com,
  Zk.Verify (embedded (demo_run demo_disk).2 demo_root) proof com = Ret ()
  /\ (demo_run demo_disk).2 !! Join demo_root [str "README"] = demo_disk !! Join demo_root [str "README"].
Proof.
  destruct (is_ret_ex _ demo_runs_through) as [[] Hrun].
  assert (demo_run demo_disk = (Ret (), (demo_run demo_disk).2)) as H by (rewrite <- Hrun; apply surjective_pairing).
  revert H. generalize (demo_run demo_disk).2. intros s' H. unfold demo_run in H.
  eapply (setup_serves (TS := toy_setup)) with (gadget := toy_gadget) in H.
  - destruct H as (dir & root & Hd & Hr & _ & _ & (msg & com & proof & cd & _ & _ & Hv & _) & Hf).
    injection Hd as <-. rewrite demo_finds_root in Hr. injection Hr as <-.
    exists proof, com. split; [exact Hv|]. apply Hf, demo_readme.
  - exact Zk.toy_mimc_laws.
  - intros [] b _. reflexivity.
  - intros [] b _. reflexivity.
  - intros [] b _. reflexivity.
  - intros c w Hw. injection Hw as <-. reflexivity.
  - intros z. by exists z.
  - intros els h Hw. unfold toy_gadget. by rewrite Hw.
  - intros ccs pk vk c w proof _ _ _ Hw Hp. injection Hw as <-. injection Hp as <-. apply Z.eqb_refl.
Defined.
End ZkGen.
