(* ===== verification/Incentives.v ===== *)
(** Payment channels: src/contracts/contracts/ResolverIncentives.sol, the contract the
    vouchers of internal/pay are redeemed at.

    Transactions are functions from their message and the storage to an error, a
    panic of checked arithmetic or the new storage with its events. A transfer fails
    if the recipient refuses it or the balance is short. The ecrecover precompile
    and keccak256 are parameters. A history of transactions is run from the empty
    contract, its reverted ones without effect. *)
From S2P Require Import Prelude GoStrings Chain Pki Pay Contract.
Import Chain.

Local Open Scope Z_scope.

Module Incentives.

Record Channel := mkChannel { client : address; resolver : address; deposit : Z; claimed : Z; expiresAt : Z }.
Record state := mkState { channels : gmap bytes Channel; nonce : Z; balance : Z }.
Inductive error :=
| ZeroResolver | NoDeposit | NoChannel | NotResolver | NotClient | BadVoucher | NothingToClaim | NotExpired | TransferFailed.
Inductive event :=
| ChannelOpened (id : bytes) (client resolver : address) (deposit expiresAt : Z)
| Claimed (id : bytes) (cumulative paid : Z)
| ChannelClosed (id : bytes) (refunded : Z).

Definition MIN_DURATION : Z := 3600.
Definition SETTLEMENT_WINDOW : Z := 3600.
Definition HALF_N : Z := 0x7FFFFFFFFFFFFFFFFFFFFFFFFFFFFFFF5D576E7357A4501DDFE92F46681B20A0.

Definition require (b : bool) (e : error) : go error () := if b then Ret () else Err e.
Definition checked (w a : Z) : go error Z := if (0 <=? a) && (a <? 2 ^ w) then Ret a else Panic.

Section Incentives.
Context {K : Contract.Keccak}.
Variable this : address.                                       (* address(this) *)
Variable ecrecover : bytes -> Z -> bytes -> bytes -> address.  (* digest, v, r, s; zero on failure *)

Definition channel_of (s : state) (id : bytes) : Channel :=
  default (mkChannel zero_address zero_address 0 0 0) (channels s !! id).

(** abi.encode(msg.sender, resolver, nonce) *)
Definition abi_open (sender resolver : address) (n : Z) : bytes :=
  (replicate 12 x00 ++ sender) ++ (replicate 12 x00 ++ resolver) ++ be_bytes 32 n.

Definition openChannel (m : Contract.msg) (resolver : address) (duration : Z) (s : state) : go error (state * list event) :=
  _ ← require (negb (bool_decide (resolver = zero_address))) ZeroResolver;
  _ ← require (negb (Contract.value m =? 0)) NoDeposit;
  let duration := if duration <? MIN_DURATION then MIN_DURATION else duration in
  n ← checked 256 (nonce s + 1);
  let id := Contract.keccak256 (abi_open (Contract.sender m) resolver (nonce s)) in
  expiresAt ← checked 64 (Contract.uint64 (Contract.timestamp m) + duration);
  mret (mkState (<[id := mkChannel (Contract.sender m) resolver (Contract.value m) 0 expiresAt]> (channels s)) n
          (balance s + Contract.value m),
        [ChannelOpened id (Contract.sender m) resolver (Contract.value m) expiresAt]).

(** _recoverVoucher *)
Definition recoverVoucher (id : bytes) (cumulative : Z) (sig : bytes) : go error address :=
  _ ← require (Nat.eqb (length sig) 65) BadVoucher;
  b ← or_panic (sig !! 64%nat);
  let v := if b2z b <? 27 then b2z b + 27 else b2z b in
  _ ← require (negb (HALF_N <? be_Z (take 32 (drop 32 sig)))) BadVoucher;
  let signer := ecrecover (Pay.sol_voucherDigest Contract.keccak256 this id cumulative) v (take 32 sig) (take 32 (drop 32 sig)) in
  _ ← require (negb (bool_decide (signer = zero_address))) BadVoucher;
  mret signer.

(** The call that sends value from the contract. *)
Definition pay_out (m : Contract.msg) (amount : Z) (s : state) : go error state :=
  _ ← require (Contract.call_ok m && (amount <=? balance s)) TransferFailed;
  mret (mkState (channels s) (nonce s) (balance s - amount)).

Definition claim (m : Contract.msg) (id : bytes) (cumulative : Z) (sig : bytes) (s : state) : go error (state * list event) :=
  let ch := channel_of s id in
  _ ← require (negb (bool_decide (client ch = zero_address))) NoChannel;
  _ ← require (bool_decide (Contract.sender m = resolver ch)) NotResolver;
  signer ← recoverVoucher id cumulative sig;
  _ ← require (bool_decide (signer = client ch)) BadVoucher;
  let effective := if deposit ch <? cumulative then deposit ch else cumulative in
  _ ← require (negb (effective <=? claimed ch)) NothingToClaim;
  amount ← checked 256 (effective - claimed ch);
  s ← pay_out m amount
        (mkState (<[id := mkChannel (client ch) (resolver ch) (deposit ch) effective (expiresAt ch)]> (channels s)) (nonce s) (balance s));
  mret (s, [Claimed id effective amount]).

Definition closeChannel (m : Contract.msg) (id : bytes) (s : state) : go error (state * list event) :=
  let ch := channel_of s id in
  _ ← require (negb (bool_decide (client ch = zero_address))) NoChannel;
  _ ← require (bool_decide (Contract.sender m = client ch)) NotClient;
  until ← checked 256 (expiresAt ch + SETTLEMENT_WINDOW);
  _ ← require (negb (Contract.timestamp m <? until)) NotExpired;
  refund ← checked 256 (deposit ch - claimed ch);
  let s := mkState (delete id (channels s)) (nonce s) (balance s) in
  s ← (if 0 <? refund then pay_out m refund s else mret s);
  mret (s, [ChannelClosed id refund]).

Inductive call :=
| OpenChannel (resolver : address) (duration : Z)
| Claim (id : bytes) (cumulative : Z) (sig : bytes)
| CloseChannel (id : bytes).
(** A call with value to a function that is not payable reverts without an error. *)
Definition nonpayable {A} (m : Contract.msg) (k : go error A) : go error A := if Contract.value m =? 0 then k else Panic.
Definition exec (m : Contract.msg) (c : call) (s : state) : go error (state * list event) :=
  match c with
  | OpenChannel resolver duration => openChannel m resolver duration s
  | Claim id cumulative sig => nonpayable m (claim m id cumulative sig s)
  | CloseChannel id => nonpayable m (closeChannel m id s)
  end.
(** The sender is an account and the values have their widths. *)
Definition widths (m : Contract.msg) (c : call) : Prop :=
  length (Contract.sender m) = 20%nat /\ Contract.sender m <> zero_address /\ 0 <= Contract.value m < 2 ^ 256
  /\ 0 <= Contract.timestamp m < 2 ^ 62
  /\ match c with
     | OpenChannel resolver duration => length resolver = 20%nat /\ 0 <= duration < 2 ^ 64
     | Claim _ cumulative _ => 0 <= cumulative < 2 ^ 256
     | CloseChannel _ => True
     end.

(** The storages transactions lead to, with the events, the last one first. *)
Inductive reachable : list event -> state -> Prop :=
| reach_init : reachable [] (mkState ∅ 0 0)
| reach_exec evs s m c s' new :
    reachable evs s -> widths m c -> exec m c s = Ret (s', new) -> reachable (rev new ++ evs) s'.

(** * What a successful transaction did *)

Lemma inc_require_ret b e u : require b e = Ret u <-> b = true.
Proof. unfold require. destruct b, u; naive_solver. Qed.
Lemma checked_ret w a x : checked w a = Ret x <-> 0 <= a < 2 ^ w /\ x = a.
Proof.
  unfold checked. destruct (Z.leb_spec 0 a), (Z.ltb_spec a (2 ^ w)); cbn [andb]; split; try (intros [? ->]; done || lia); try done; try lia.
  by intros [= <-].
Qed.
Lemma recoverVoucher_ret id cum sig a :
  recoverVoucher id cum sig = Ret a ->
  exists v, ecrecover (Pay.sol_voucherDigest Contract.keccak256 this id cum) v (take 32 sig) (take 32 (drop 32 sig)) = a.
Proof.
  unfold recoverVoucher. intros (? & _ & H)%go_bind_ret. apply go_bind_ret in H as (? & _ & H). cbv zeta in H.
  apply go_bind_ret in H as (? & _ & H). apply go_bind_ret in H as (? & _ & [= <-]). by eexists.
Qed.
Lemma nonpayable_ret {A} m (k : go error A) x : nonpayable m k = Ret x <-> Contract.value m = 0 /\ k = Ret x.
Proof. unfold nonpayable. destruct (Z.eqb_spec (Contract.value m) 0); naive_solver. Qed.
Lemma pay_out_ret m amount s s' :
  pay_out m amount s = Ret s' <-> Contract.call_ok m = true /\ amount <= balance s /\ s' = mkState (channels s) (nonce s) (balance s - amount).
Proof.
  unfold pay_out. rewrite go_bind_ret. split.
  - intros ([] & [? ?%Z.leb_le]%inc_require_ret%andb_true_iff & [= <-]). done.
  - intros (Hok & Hb & ->). exists (). rewrite inc_require_ret, andb_true_iff, Z.leb_le. done.
Qed.

Lemma openChannel_ret m r dur s s' evs :
  openChannel m r dur s = Ret (s', evs) ->
  let id := Contract.keccak256 (abi_open (Contract.sender m) r (nonce s)) in
  exists e, r <> zero_address /\ Contract.value m <> 0 /\ 0 <= nonce s + 1 < 2 ^ 256 /\ 0 <= e < 2 ^ 64
    /\ e = Contract.uint64 (Contract.timestamp m) + Z.max dur MIN_DURATION
    /\ s' = mkState (<[id := mkChannel (Contract.sender m) r (Contract.value m) 0 e]> (channels s)) (nonce s + 1) (balance s + Contract.value m)
    /\ evs = [ChannelOpened id (Contract.sender m) r (Contract.value m) e].
Proof.
  intros H. apply go_bind_ret in H as ([] & Hr%inc_require_ret%negb_true_iff%bool_decide_eq_false & H).
  apply go_bind_ret in H as ([] & Hv%inc_require_ret%negb_true_iff%Z.eqb_neq & H). cbv zeta in H.
  apply go_bind_ret in H as (n & [Hn ->]%checked_ret & H). apply go_bind_ret in H as (e & [He ->]%checked_ret & [= <- <-]).
  eexists. split; [done|]. split; [done|]. split; [done|]. split; [exact He|]. split; [|done].
  f_equal. destruct (Z.ltb_spec dur MIN_DURATION); lia.
Qed.

Lemma claim_ret m id cum sig s s' evs :
  claim m id cum sig s = Ret (s', evs) <->
  exists ch, channel_of s id = ch /\ client ch <> zero_address /\ Contract.sender m = resolver ch
    /\ recoverVoucher id cum sig = Ret (client ch)
    /\ let eff := Z.min cum (deposit ch) in
       claimed ch < eff /\ eff - claimed ch < 2 ^ 256 /\ Contract.call_ok m = true /\ eff - claimed ch <= balance s
       /\ s' = mkState (<[id := mkChannel (client ch) (resolver ch) (deposit ch) eff (expiresAt ch)]> (channels s)) (nonce s)
                 (balance s - (eff - claimed ch))
       /\ evs = [Claimed id eff (eff - claimed ch)].
Proof.
  unfold claim. set (ch := channel_of s id).
  assert ((if deposit ch <? cum then deposit ch else cum) = Z.min cum (deposit ch)) as Heff by (destruct (Z.ltb_spec (deposit ch) cum); lia).
  cbv zeta. rewrite Heff. split.
  - intros H. apply go_bind_ret in H as ([] & Hc%inc_require_ret%negb_true_iff%bool_decide_eq_false & H).
    apply go_bind_ret in H as ([] & Hs%inc_require_ret%bool_decide_eq_true & H).
    apply go_bind_ret in H as (signer & Hrec & H). apply go_bind_ret in H as ([] & ->%inc_require_ret%bool_decide_eq_true & H).
    apply go_bind_ret in H as ([] & Hlt%inc_require_ret%negb_true_iff%Z.leb_gt & H).
    apply go_bind_ret in H as (amount & [Ha ->]%checked_ret & H).
    apply go_bind_ret in H as (s1 & (Hok & Hb & ->)%pay_out_ret & [= <- <-]). exists ch. repeat (split; [done || lia|]). done.
  - intros (ch' & <- & Hc & Hs & Hrec & Hlt & Ha & Hok & Hb & -> & ->).
    apply go_bind_ret. exists (). rewrite inc_require_ret, negb_true_iff, bool_decide_eq_false. split; [done|].
    apply go_bind_ret. exists (). rewrite inc_require_ret, bool_decide_eq_true. split; [done|].
    rewrite Hrec. cbn [mbind go_bind]. apply go_bind_ret. exists (). rewrite inc_require_ret, bool_decide_eq_true. split; [done|].
    apply go_bind_ret. exists (). rewrite inc_require_ret, negb_true_iff, Z.leb_gt. split; [done|].
    apply go_bind_ret. eexists. rewrite checked_ret. split; [split; [lia|done]|].
    apply go_bind_ret. eexists. rewrite pay_out_ret. done.
Qed.

Lemma closeChannel_ret m id s s' evs :
  closeChannel m id s = Ret (s', evs) <->
  exists ch, channel_of s id = ch /\ client ch <> zero_address /\ Contract.sender m = client ch
    /\ 0 <= expiresAt ch + SETTLEMENT_WINDOW < 2 ^ 256 /\ expiresAt ch + SETTLEMENT_WINDOW <= Contract.timestamp m
    /\ let refund := deposit ch - claimed ch in
       0 <= refund < 2 ^ 256 /\ (0 < refund -> Contract.call_ok m = true /\ refund <= balance s)
       /\ s' = mkState (delete id (channels s)) (nonce s) (balance s - refund) /\ evs = [ChannelClosed id refund].
Proof.
  unfold closeChannel. set (ch := channel_of s id). cbv zeta. split.
  - intros H. apply go_bind_ret in H as ([] & Hc%inc_require_ret%negb_true_iff%bool_decide_eq_false & H).
    apply go_bind_ret in H as ([] & Hs%inc_require_ret%bool_decide_eq_true & H).
    apply go_bind_ret in H as (until & [Hu ->]%checked_ret & H).
    apply go_bind_ret in H as ([] & Ht%inc_require_ret%negb_true_iff%Z.ltb_ge & H).
    apply go_bind_ret in H as (refund & [Hr ->]%checked_ret & H). apply go_bind_ret in H as (s1 & H1 & [= <- <-]).
    exists ch. repeat (split; [done || lia|]). destruct (Z.ltb_spec 0 (deposit ch - claimed ch)).
    + apply pay_out_ret in H1 as (? & ? & ->). done.
    + injection H1 as <-. split; [lia|]. split; [|done]. f_equal. lia.
  - intros (ch' & <- & Hc & Hs & Hu & Ht & Hr & Hb & -> & ->).
    apply go_bind_ret. exists (). rewrite inc_require_ret, negb_true_iff, bool_decide_eq_false. split; [done|].
    apply go_bind_ret. exists (). rewrite inc_require_ret, bool_decide_eq_true. split; [done|].
    apply go_bind_ret. eexists. rewrite checked_ret. split; [done|].
    apply go_bind_ret. exists (). rewrite inc_require_ret, negb_true_iff, Z.ltb_ge. split; [done|].
    apply go_bind_ret. eexists. rewrite checked_ret. split; [done|].
    apply go_bind_ret. destruct (Z.ltb_spec 0 (deposit ch - claimed ch)).
    + eexists. rewrite pay_out_ret. split; [|done]. destruct Hb; [done|]. done.
    + eexists. split; [reflexivity|]. replace (balance s - (deposit ch - claimed ch)) with (balance s) by lia. done.
Qed.

(** * Accounts *)

Definition remaining (ch : Channel) : Z := deposit ch - claimed ch.
(** What the open channels hold. *)
Definition owed (chs : gmap bytes Channel) : Z := map_fold (fun _ ch acc => remaining ch + acc) 0 chs.

Lemma owed_split (chs : gmap bytes Channel) id :
  owed chs = default 0 (remaining <$> chs !! id) + owed (delete id chs).
Proof.
  destruct (chs !! id) as [ch|] eqn:E; simpl.
  - unfold owed at 1. erewrite map_fold_delete_L; [reflexivity| |exact E]. intros. lia.
  - by rewrite delete_id.
Qed.
Lemma owed_insert chs id ch : owed (<[id := ch]> chs) = remaining ch + owed (delete id chs).
Proof. rewrite (owed_split _ id), lookup_insert_eq, delete_insert_eq. done. Qed.

(** What the events say was deposited to, paid out of and returned from a channel. *)
Definition deposited (id : bytes) (ev : event) : Z :=
  match ev with ChannelOpened i _ _ d _ => if bool_decide (i = id) then d else 0 | _ => 0 end.
Definition paid (id : bytes) (ev : event) : Z :=
  match ev with Claimed i _ p => if bool_decide (i = id) then p else 0 | _ => 0 end.
Definition refunded (id : bytes) (ev : event) : Z :=
  match ev with ChannelClosed i r => if bool_decide (i = id) then r else 0 | _ => 0 end.
Definition total (f : event -> Z) (evs : list event) : Z := fold_right (fun ev acc => f ev + acc) 0 evs.
Definition event_id (ev : event) : bytes :=
  match ev with ChannelOpened i _ _ _ _ | Claimed i _ _ | ChannelClosed i _ => i end.

Lemma total_other (f : bytes -> event -> Z) id evs :
  (forall ev, event_id ev <> id -> f id ev = 0) -> Forall (fun ev => event_id ev <> id) evs -> total (f id) evs = 0.
Proof. intros Hf. induction 1 as [|ev evs He _ IH]; [done|]. cbn [total fold_right]. rewrite Hf by done. exact IH. Qed.

(** The identifiers of the channels opened so far. A keccak256 collision would open
    one twice, so the theorems are about histories in which none was. *)
Definition opened_ids (evs : list event) : list bytes :=
  omap (fun ev => match ev with ChannelOpened i _ _ _ _ => Some i | _ => None end) evs.

Lemma opened_ids_app evs evs' : opened_ids (evs ++ evs') = opened_ids evs ++ opened_ids evs'.
Proof. apply omap_app. Qed.
Lemma opened_ids_elem evs id : id ∈ opened_ids evs <-> exists c r d e, ChannelOpened id c r d e ∈ evs.
Proof.
  unfold opened_ids. rewrite list_elem_of_omap. split.
  - intros ([] & Hin & [= <-]); eauto.
  - intros (c & r & d & e & Hin). by eexists.
Qed.
Lemma distinct_before new evs : NoDup (opened_ids (new ++ evs)) -> NoDup (opened_ids evs).
Proof. rewrite opened_ids_app. intros (_ & _ & H)%NoDup_app. exact H. Qed.

Record accounts (evs : list event) (s : state) : Prop := {
  ac_balance : balance s = owed (channels s);
  ac_channel id ch : channels s !! id = Some ch ->
    id ∈ opened_ids evs /\ 0 <= claimed ch <= deposit ch /\ deposit ch < 2 ^ 256 /\ client ch <> zero_address
    /\ 0 <= expiresAt ch < 2 ^ 64 /\ claimed ch = total (paid id) evs /\ deposit ch = total (deposited id) evs;
  ac_events : Forall (fun ev => event_id ev ∈ opened_ids evs) evs;
  ac_conserved id : total (deposited id) evs = total (paid id) evs + total (refunded id) evs + default 0 (remaining <$> channels s !! id);
}.

Lemma accounts_open evs s m r dur s' new :
  accounts evs s -> widths m (OpenChannel r dur) -> openChannel m r dur s = Ret (s', new) ->
  NoDup (opened_ids (rev new ++ evs)) -> accounts (rev new ++ evs) s'.
Proof.
  intros [Hb Hch Hev Hcon] (_ & Hnz & Hv & _) (e & Hr & Hv0 & _ & He & _ & -> & ->)%openChannel_ret.
  set (id := Contract.keccak256 _) in *. cbn [rev app]. intros [Hfresh _]%NoDup_cons. fold (opened_ids evs) in Hfresh.
  assert (channels s !! id = None) as Hnone.
  { destruct (channels s !! id) as [ch|] eqn:E; [|done]. destruct Hfresh. by apply (Hch _ _ E). }
  assert (Forall (fun ev => event_id ev <> id) evs) as Hother.
  { eapply Forall_impl; [exact Hev|]. intros ev Hm <-. done. }
  assert (forall f, (forall ev, event_id ev <> id -> f id ev = 0) -> total (f id) evs = 0) as Hzero by (intros f Hf; by apply total_other).
  assert (total (paid id) evs = 0) as Hp by (apply Hzero; intros [] Hx; cbn in *; by rewrite ?bool_decide_eq_false_2).
  assert (total (deposited id) evs = 0) as Hd by (apply Hzero; intros [] Hx; cbn in *; by rewrite ?bool_decide_eq_false_2).
  assert (total (refunded id) evs = 0) as Hrf by (apply Hzero; intros [] Hx; cbn in *; by rewrite ?bool_decide_eq_false_2).
  split; cbn [balance channels total fold_right paid deposited refunded].
  - rewrite owed_insert, delete_id by done. unfold remaining. cbn. lia.
  - intros id' ch. rewrite lookup_insert. case_decide as Heq.
    + intros [= <-]. subst id'. cbn. fold (total (paid id) evs) (total (deposited id) evs). rewrite bool_decide_eq_true_2, Hp, Hd by done.
      split; [by left|]. repeat split; try done; lia.
    + intros (Hm & H1 & H2 & H3 & H4 & H5 & H6)%Hch. rewrite bool_decide_eq_false_2 by done.
      fold (total (paid id') evs) (total (deposited id') evs).
      split; [by right|]. split_and!; try done; lia.
  - constructor; [by left|]. eapply Forall_impl; [exact Hev|]. intros ev Hm. by right.
  - intros id'. fold (total (paid id') evs) (total (deposited id') evs) (total (refunded id') evs).
    rewrite lookup_insert. case_decide as Heq.
    + subst id'. rewrite bool_decide_eq_true_2 by done. rewrite Hp, Hd, Hrf. cbn. unfold remaining. cbn. lia.
    + rewrite bool_decide_eq_false_2 by done. apply Hcon.
Qed.

Lemma channel_of_open s id : client (channel_of s id) <> zero_address -> channels s !! id = Some (channel_of s id).
Proof. unfold channel_of. by destruct (channels s !! id). Qed.

Lemma accounts_claim evs s m id cum sig s' new :
  accounts evs s -> claim m id cum sig s = Ret (s', new) -> accounts (rev new ++ evs) s'.
Proof.
  intros [Hb Hch Hev Hcon] (ch & Hc & Hz & _ & _ & Hlt & _ & _ & _ & -> & ->)%claim_ret. rewrite <- Hc in Hz.
  apply channel_of_open in Hz. rewrite Hc in Hz. set (eff := Z.min cum (deposit ch)) in *.
  destruct (Hch _ _ Hz) as (Hm & H1 & H2 & H3 & H4 & H5 & H6).
  split; cbn [rev app nonce balance channels total fold_right paid deposited refunded event_id].
  - rewrite Hb, owed_insert, (owed_split _ id), Hz. unfold remaining. cbn. lia.
  - intros id' ch'. rewrite lookup_insert. case_decide as Heq.
    + intros [= <-]. subst id'. cbn. fold (total (paid id) evs) (total (deposited id) evs). rewrite bool_decide_eq_true_2 by done.
      split_and!; try done; lia.
    + intros (Hm' & G1 & G2 & G3 & G4 & G5 & G6)%Hch. rewrite bool_decide_eq_false_2 by done.
      fold (total (paid id') evs) (total (deposited id') evs). split_and!; try done; lia.
  - by constructor.
  - intros id'. fold (total (paid id') evs) (total (deposited id') evs) (total (refunded id') evs).
    specialize (Hcon id'). rewrite lookup_insert. case_decide as Heq.
    + subst id'. rewrite bool_decide_eq_true_2 by done. rewrite Hz in Hcon. cbn in *. unfold remaining in *. cbn. lia.
    + rewrite bool_decide_eq_false_2 by done. rewrite Hcon. lia.
Qed.

Lemma accounts_close evs s m id s' new :
  accounts evs s -> closeChannel m id s = Ret (s', new) -> accounts (rev new ++ evs) s'.
Proof.
  intros [Hb Hch Hev Hcon] (ch & Hc & Hz & _ & _ & _ & _ & _ & -> & ->)%closeChannel_ret. rewrite <- Hc in Hz.
  apply channel_of_open in Hz. rewrite Hc in Hz.
  destruct (Hch _ _ Hz) as (Hm & _).
  split; cbn [rev app nonce balance channels total fold_right paid deposited refunded event_id].
  - rewrite Hb, (owed_split _ id), Hz. unfold remaining. cbn. lia.
  - intros id' ch' (Hne & Hl)%lookup_delete_Some. apply Hch in Hl as (Hm' & G1 & G2 & G3 & G4 & G5 & G6).
    fold (total (paid id') evs) (total (deposited id') evs). split_and!; try done; lia.
  - by constructor.
  - intros id'. fold (total (paid id') evs) (total (deposited id') evs) (total (refunded id') evs).
    specialize (Hcon id'). rewrite lookup_delete. case_decide as Heq.
    + subst id'. rewrite bool_decide_eq_true_2 by done. rewrite Hz in Hcon. cbn in *. unfold remaining in *. lia.
    + rewrite bool_decide_eq_false_2 by done. rewrite Hcon. lia.
Qed.

Lemma reachable_accounts evs s : reachable evs s -> NoDup (opened_ids evs) -> accounts evs s.
Proof.
  induction 1 as [|evs s m c s' new _ IH Hw Hex]; intros Hd; [by split|]. specialize (IH (distinct_before _ _ Hd)).
  destruct c; [by eapply accounts_open|apply nonpayable_ret in Hex as [_ Hex]; by eapply accounts_claim
    |apply nonpayable_ret in Hex as [_ Hex]; by eapply accounts_close].
Qed.

Lemma owed_nonneg (chs : gmap bytes Channel) : (forall id ch, chs !! id = Some ch -> 0 <= remaining ch) -> 0 <= owed chs.
Proof.
  intros H. unfold owed. apply (map_fold_weak_ind (fun r m => (forall id ch, m !! id = Some ch -> 0 <= remaining ch) -> 0 <= r)); [done| |exact H].
  intros id ch m r Hm IH Hall. pose proof (Hall id ch ltac:(apply lookup_insert_eq)).
  assert (0 <= r) by (apply IH; intros i c Hi; apply (Hall i); rewrite lookup_insert_ne; [done|congruence]). lia.
Qed.

(** The contract can pay out what every open channel holds. *)
Lemma funded evs s id ch : accounts evs s -> channels s !! id = Some ch -> 0 <= remaining ch <= balance s.
Proof.
  intros [Hb Hch _ _] Hl.
  assert (forall i c, channels s !! i = Some c -> 0 <= remaining c) as Hpos.
  { intros i c (_ & ? & _)%Hch. unfold remaining. lia. }
  split; [by eapply Hpos|]. rewrite Hb, (owed_split _ id), Hl. cbn.
  assert (0 <= owed (delete id (channels s))); [|lia]. apply owed_nonneg. intros i c [_ Hi]%lookup_delete_Some. by eapply Hpos.
Qed.

Lemma close_succeeds evs s id ch m :
  accounts evs s -> channels s !! id = Some ch ->
  Contract.sender m = client ch -> Contract.value m = 0 -> expiresAt ch + SETTLEMENT_WINDOW <= Contract.timestamp m -> Contract.call_ok m = true ->
  exec m (CloseChannel id) s
  = Ret (mkState (delete id (channels s)) (nonce s) (balance s - remaining ch), [ChannelClosed id (remaining ch)]).
Proof.
  intros Hac Hl Hs Hv Ht Hok. pose proof (funded _ _ _ _ Hac Hl) as Hf. destruct Hac as [_ Hch _ _].
  destruct (Hch _ _ Hl) as (_ & Hcl & Hdep & Hz & He & _). unfold remaining in *. cbn [exec].
  apply nonpayable_ret. split; [done|]. apply closeChannel_ret. exists ch. unfold channel_of, SETTLEMENT_WINDOW in *. rewrite Hl.
  repeat (split; [done || lia|]). split; [|done]. intros _. split; [done|lia].
Qed.

(** C11. Money is conserved, channel by channel, and never stuck: what was deposited
    into a channel is what its claims have paid, what its closing has returned, and
    what it still holds; the contract's balance is exactly what the open channels
    hold, so no claim or closing fails for lack of funds; nothing is paid past the
    deposit; and once the settlement window is over, the client's closing succeeds
    and returns the remainder. *)
Theorem channels_conserve evs s id :
  reachable evs s -> NoDup (opened_ids evs) ->
  total (deposited id) evs = total (paid id) evs + total (refunded id) evs + default 0 (remaining <$> channels s !! id)
  /\ balance s = owed (channels s)
  /\ (forall ch, channels s !! id = Some ch ->
        0 <= claimed ch <= deposit ch /\ claimed ch = total (paid id) evs /\ remaining ch <= balance s
        /\ forall m, Contract.sender m = client ch -> Contract.value m = 0 ->
             expiresAt ch + SETTLEMENT_WINDOW <= Contract.timestamp m -> Contract.call_ok m = true ->
             exec m (CloseChannel id) s
             = Ret (mkState (delete id (channels s)) (nonce s) (balance s - remaining ch), [ChannelClosed id (remaining ch)])).
Proof.
  intros Hre Hd. pose proof (reachable_accounts _ _ Hre Hd) as Hac. pose proof Hac as [Hb Hch _ Hcon]. split; [apply Hcon|]. split; [exact Hb|].
  intros ch Hl. pose proof (funded _ _ _ _ Hac Hl). destruct (Hch _ _ Hl) as (_ & ? & _ & _ & _ & ? & _). split_and!; try done; try lia.
  intros m ????. by eapply close_succeeds.
Qed.

(** * What a client risks *)

Lemma opened_client evs s id c r d e ch :
  reachable evs s -> NoDup (opened_ids evs) -> ChannelOpened id c r d e ∈ evs -> channels s !! id = Some ch -> client ch = c.
Proof.
  intros Hre. revert ch. induction Hre as [|evs s m cl s' new Hre IH Hw Hex]; intros ch Hd Hin Hl; [by apply elem_of_nil in Hin|].
  specialize (fun ch => IH ch (distinct_before _ _ Hd)). destruct cl as [r' dur|i cum sig|i]; cbn [exec] in Hex;
    [|apply nonpayable_ret in Hex as [_ Hex]..].
  - apply openChannel_ret in Hex as (e' & _ & _ & _ & _ & _ & -> & ->). cbn [rev app channels] in *.
    rewrite lookup_insert in Hl. case_decide as Heq.
    + injection Hl as <-. cbn. apply elem_of_cons in Hin as [[= _ -> _ _ _]|Hin]; [done|]. exfalso.
      apply NoDup_cons in Hd as [Hnew _]. apply Hnew. rewrite Heq. apply (opened_ids_elem evs). by exists c, r, d, e.
    + apply elem_of_cons in Hin as [[= -> _ _ _ _]|Hin]; [done|]. by apply IH.
  - apply claim_ret in Hex as (ch' & Hc & Hz & _ & _ & _ & _ & _ & _ & -> & ->). cbn [rev app channels] in *.
    apply elem_of_cons in Hin as [[=]|Hin]. rewrite <- Hc in Hz. apply channel_of_open in Hz. rewrite Hc in Hz.
    rewrite lookup_insert in Hl. case_decide as Heq; [subst i; injection Hl as <-; cbn|]; by apply IH.
  - apply closeChannel_ret in Hex as (ch' & _ & _ & _ & _ & _ & _ & _ & -> & ->). cbn [rev app channels] in *.
    apply elem_of_cons in Hin as [[=]|Hin]. apply lookup_delete_Some in Hl as [_ Hl]. by apply IH.
Qed.

(** The transactions sent, oldest first; one that reverts changes nothing. *)
Definition history : Type := list (Contract.msg * call).
Definition block (tx : Contract.msg * call) (st : list event * state) : list event * state :=
  match exec tx.1 tx.2 st.2 with Ret (s', new) => (rev new ++ st.1, s') | _ => st end.
Definition run (txs : history) : list event * state := fold_left (fun st tx => block tx st) txs ([], mkState ∅ 0 0).
Definition events_of (txs : history) : list event := (run txs).1.
Definition state_of (txs : history) : state := (run txs).2.
Definition well_formed (txs : history) : Prop := Forall (fun tx => widths tx.1 tx.2) txs.

Lemma channels_run_snoc txs tx : run (txs ++ [tx]) = block tx (run txs).
Proof. unfold run. by rewrite fold_left_app. Qed.
Lemma channels_run_reachable txs : well_formed txs -> reachable (events_of txs) (state_of txs).
Proof.
  unfold events_of, state_of. induction txs as [|tx txs IH] using rev_ind; [constructor|]. intros [Hw [Htx _]%Forall_cons]%Forall_app.
  rewrite channels_run_snoc. unfold block. destruct (exec _ _ _) as [[s' new]|e|] eqn:E; [|by apply IH..]. by eapply reach_exec; [apply IH| |].
Qed.

(** What one transaction adds to the payments of a channel of the victim: nothing,
    unless it is a claim whose voucher recovers to the victim. *)
Lemma paid_step evs s m c s' new victim limit id r d e :
  reachable evs s -> widths m c -> exec m c s = Ret (s', new) -> NoDup (opened_ids (rev new ++ evs)) ->
  (forall cum sig, c = Claim id cum sig -> recoverVoucher id cum sig = Ret victim -> cum <= limit) -> 0 <= limit ->
  (ChannelOpened id victim r d e ∈ evs -> total (paid id) evs <= limit) ->
  ChannelOpened id victim r d e ∈ rev new ++ evs -> total (paid id) (rev new ++ evs) <= limit.
Proof.
  intros Hre Hw Hex Hd Hlim Hpos IH Hin.
  pose proof (distinct_before _ _ Hd) as Hd0. pose proof (reachable_accounts _ _ Hre Hd0) as [_ Hch Hev _].
  destruct c as [r' dur|i cum sig|i]; cbn [exec] in Hex; [|apply nonpayable_ret in Hex as [_ Hex]..].
  - pose proof Hex as (e' & _ & _ & _ & _ & _ & _ & ->)%openChannel_ret. cbn [rev app total fold_right paid] in *.
    fold (total (paid id) evs). apply elem_of_cons in Hin as [[= -> -> -> -> ->]|Hin]; [|by apply IH].
    assert (total (paid (Contract.keccak256 (abi_open (Contract.sender m) r' (nonce s)))) evs = 0) as ->; [|lia].
    apply NoDup_cons in Hd as [Hnew _]. apply total_other; [by intros [] Hx; cbn in *; rewrite ?bool_decide_eq_false_2|].
    eapply Forall_impl; [exact Hev|]. intros ev Hm He. cbv beta in Hm. rewrite He in Hm. contradiction.
  - apply claim_ret in Hex as (ch & Hc & Hz & _ & Hrec & Hlt & _ & _ & _ & -> & ->). cbn [rev app total fold_right paid] in *.
    fold (total (paid id) evs). apply elem_of_cons in Hin as [[=]|Hin]. specialize (IH Hin).
    destruct (decide (i = id)) as [->|Hne]; [rewrite bool_decide_eq_true_2 by done|rewrite bool_decide_eq_false_2 by done; lia].
    rewrite <- Hc in Hz. apply channel_of_open in Hz. rewrite Hc in Hz.
    rewrite (opened_client _ _ _ _ _ _ _ _ Hre Hd0 Hin Hz) in Hrec. apply Hlim in Hrec; [|done].
    destruct (Hch _ _ Hz) as (_ & _ & _ & _ & _ & Hcl & _). lia.
  - apply closeChannel_ret in Hex as (ch & _ & _ & _ & _ & _ & _ & _ & -> & ->). cbn [rev app total fold_right paid] in *.
    apply elem_of_cons in Hin as [[=]|Hin]. by apply IH.
Qed.

(** C12. A resolver never collects more from a channel than its client authorized: over
    any history of transactions, by anyone and in any order, the claims of a channel
    pay at most [limit] in total if every voucher submitted for the channel whose
    signature recovers to the client who opened it is for at most [limit]; vouchers
    of anybody else, and replays, pay nothing more. *)
Theorem never_overpaid txs victim limit id r d e :
  well_formed txs -> NoDup (opened_ids (events_of txs)) -> ChannelOpened id victim r d e ∈ events_of txs -> 0 <= limit ->
  (forall m cum sig, (m, Claim id cum sig) ∈ txs -> recoverVoucher id cum sig = Ret victim -> cum <= limit) ->
  total (paid id) (events_of txs) <= limit.
Proof.
  intros Hw Hd Hin Hpos Hlim. revert Hw Hd Hin Hlim. unfold events_of. induction txs as [|[m c] txs IH] using rev_ind; intros Hw Hd Hin Hlim.
  { by apply elem_of_nil in Hin. }
  apply Forall_app in Hw as [Hw [Hwm _]%Forall_cons]. rewrite channels_run_snoc in *. unfold block in *. cbn [fst snd] in *.
  assert (forall m' cum sig, (m', Claim id cum sig) ∈ txs -> recoverVoucher id cum sig = Ret victim -> cum <= limit) as Hlim0.
  { intros m' cum sig Hin'. apply (Hlim m'). apply elem_of_app. by left. }
  destruct (exec m c (run txs).2) as [[s' new]|err|] eqn:Ex; [|by apply IH..]. cbn [fst] in *.
  eapply (paid_step _ _ m c); [by apply channels_run_reachable|exact Hwm|exact Ex|exact Hd| |exact Hpos| |exact Hin].
  - intros cum sig ->. apply (Hlim m). apply elem_of_app. right. by left.
  - intros Hin0. apply IH; [done|by eapply distinct_before|done|done].
Qed.
End Incentives.

(** * A history: a channel of 1000 wei, a claim of 400 *)
#[local] Instance demo_keccak : Contract.Keccak := Pay.toy_keccak.
Definition demo_this : address := replicate 20 x11.
Definition demo_client : address := be_bytes 20 77.
Definition demo_operator : address := replicate 20 x22.
Definition demo_id : bytes := Contract.keccak256 (abi_open demo_client demo_operator 0).
Definition demo_sig : bytes := be_bytes 32 77 ++ replicate 32 x00 ++ [x1b].
(** The client signed for 400 wei, and nothing else. *)
Definition demo_ecrecover (d : bytes) (v : Z) (r s : bytes) : address :=
  if bool_decide (d = Pay.sol_voucherDigest Contract.keccak256 demo_this demo_id 400) then demo_client else zero_address.
Definition demo_state (claimed_ : Z) : state :=
  mkState {[ demo_id := mkChannel demo_client demo_operator 1000 claimed_ 7600 ]} 1 (1000 - claimed_).
Definition demo_events : list event :=
  [Claimed demo_id 400 400; ChannelOpened demo_id demo_client demo_operator 1000 7600].

Definition demo_open : list event := [ChannelOpened demo_id demo_client demo_operator 1000 7600].
Lemma demo_opened ec : reachable demo_this ec demo_open (demo_state 0).
Proof.
  change demo_open with (rev demo_open ++ []).
  eapply (reach_exec _ _ [] _ (Contract.mkMsg demo_client 1000 4000 true) (OpenChannel demo_operator 60)); [constructor| |vm_refl].
  split_and!; done.
Qed.
Lemma history_reachable : reachable demo_this demo_ecrecover demo_events (demo_state 400).
Proof.
  change demo_events with (rev [Claimed demo_id 400 400] ++ demo_open).
  eapply (reach_exec _ _ _ (demo_state 0) (Contract.mkMsg demo_operator 0 5000 true) (Claim demo_id 400 demo_sig)).
  - apply demo_opened.
  - split_and!; done.
  - vm_refl.
Qed.
Lemma demo_distinct : NoDup (opened_ids demo_events).
Proof. apply NoDup_singleton. Qed.

Lemma channels_conserve_witness :
  exec demo_this demo_ecrecover (Contract.mkMsg demo_client 0 12000 true) (CloseChannel demo_id) (demo_state 400)
  = Ret (mkState (delete demo_id (channels (demo_state 400))) 1 (600 - 600), [ChannelClosed demo_id 600]).
Proof.
  destruct (channels_conserve demo_this demo_ecrecover demo_events (demo_state 400) demo_id history_reachable demo_distinct) as (_ & _ & H).
  destruct (H (mkChannel demo_client demo_operator 1000 400 7600) ltac:(vm_refl)) as (_ & _ & _ & Hclose).
  apply (Hclose (Contract.mkMsg demo_client 0 12000 true)); cbn; [done|done|unfold SETTLEMENT_WINDOW; lia|done].
Defined.

(** An ecrecover that binds the digest: the signer is r minus the digest. Anyone's
    signature exists for every amount; the client has signed for 400 wei. *)
Definition sum_ecrecover (d : bytes) (v : Z) (r s : bytes) : address := be_bytes 20 (be_Z r - be_Z d).
Definition sum_sig (key amount : Z) : bytes :=
  be_bytes 32 (key + be_Z (Pay.sol_voucherDigest Contract.keccak256 demo_this demo_id amount)) ++ replicate 32 x00 ++ [x1b].
(** The operator claims 400 wei, submits the same signature for 900, signs one for 900
    itself, and claims the 400 again. *)
Definition demo_history : history :=
  [(Contract.mkMsg demo_client 1000 4000 true, OpenChannel demo_operator 60);
   (Contract.mkMsg demo_operator 0 5000 true, Claim demo_id 400 (sum_sig 77 400));
   (Contract.mkMsg demo_operator 0 5001 true, Claim demo_id 900 (sum_sig 77 400));
   (Contract.mkMsg demo_operator 0 5002 true, Claim demo_id 900 (sum_sig 5 900));
   (Contract.mkMsg demo_operator 0 5003 true, Claim demo_id 400 (sum_sig 77 400))].
Lemma demo_history_events : events_of demo_this sum_ecrecover demo_history = demo_events.
Proof. vm_refl. Qed.

Lemma demo_vouchers : Forall (fun tx => match tx.2 with
  | Claim id cum sig => recoverVoucher demo_this sum_ecrecover id cum sig = Ret demo_client -> cum <= 400 | _ => True end) demo_history.
Proof.
  repeat (apply Forall_cons; split; [cbn [snd]; first [exact I|by intros _|intros H; exfalso; revert H; vm_compute; discriminate]|]).
  constructor.
Qed.

Lemma never_overpaid_witness : total (paid demo_id) (events_of demo_this sum_ecrecover demo_history) <= 400.
Proof.
  apply (never_overpaid demo_this sum_ecrecover demo_history demo_client 400 demo_id demo_operator 1000 7600).
  - repeat (apply Forall_cons; split; [split_and!; done|]). constructor.
  - rewrite demo_history_events. apply demo_distinct.
  - rewrite demo_history_events. right. left.
  - lia.
  - intros m cum sig Hin. pose proof demo_vouchers as H. rewrite Forall_forall in H. exact (H _ Hin).
Defined.
End Incentives.
