(* ===== verification/Channels.v ===== *)
(** The channel commands of the owner's tool (src/resolver/cmd/ddns/channels.go)
    over the contract of Incentives.v: the client's "ddns voucher" and the
    operator's "ddns channel-claim". *)
From S2P Require Import Prelude GoStrings Encoding Query Chain Pki Pay Zk Cli Contract Incentives Owner.
Import Chain.

Local Open Scope Z_scope.

Module Channels.

(** The contract's storage with the events so far, the time of the next block, and
    the account that sends. *)
Record world := mkWorld { w_state : Incentives.state; w_events : list Incentives.event; w_now : Z; w_account : address }.

Section Channels.
Context {K : Contract.Keccak}.
Variable this : address.
Variable ecrecover : bytes -> Z -> bytes -> bytes -> address.

(** The contract call of a transaction, with its value. *)
Definition call_of (t : tx) : option (Incentives.call * Z) :=
  match t with
  | TxOpenChannel operator seconds value => Some (Incentives.OpenChannel operator seconds, value)
  | TxClaim id wei sig => Some (Incentives.Claim id wei sig, 0)
  | TxCloseChannel id => Some (Incentives.CloseChannel id, 0)
  | _ => None
  end.
Definition Submit_ (t : tx) (w : world) : receipt * world :=
  match call_of t with
  | None => (NotSubmitted, w)
  | Some (c, value) =>
      match Incentives.exec this ecrecover (Contract.mkMsg (w_account w) value (w_now w) true) c (w_state w) with
      | Ret (s, evs) => (Mined, mkWorld s (rev evs ++ w_events w) (w_now w) (w_account w))
      | _ => (Reverted, w)
      end
  end.
(** The commands of channels.go only submit; the reads of the name contract fail. *)
#[local] Instance writer : ChainWriter world := {
  PriceOf _ w := (None, w);
  MakeCommitment _ _ _ _ w := (None, w);
  MINCOMMITMENTAGE w := (None, w);
  GetDomain _ w := (None, w);
  Submit := Submit_;
  RandRead _ w := (None, w);
  SleepSecond w := mkWorld (w_state w) (w_events w) (w_now w + 1) (w_account w);
}.

Context {HX : Hexutil} {HXL : HexutilLaws} {Priv Pub : Type} {EC : Pki.EthCrypto Priv Pub} {ECL : Pki.EthCryptoLaws Priv Pub}.
Variable HexToAddress : bytes -> address.
Variable HexToECDSA : bytes -> option Priv.
Variable LeftPadBytes : bytes -> nat -> bytes.

(** go-ethereum and the machine agree on signatures: a signature that recovers to a
    key in Go recovers to its address in the precompile, whose V is 27 or 28. *)
Hypothesis ecrecover_ok : forall d sig v pub,
  length sig = 65%nat -> sig !! 64%nat = Some v -> Pki.SigToPub d sig = Some pub ->
  ecrecover d (b2z v + 27) (take 32 sig) (take 32 (drop 32 sig)) = Pki.PubkeyToAddress pub.
Hypothesis eth_Sign_low_s : forall d k sig, Pki.eth_Sign d k = Some sig -> be_Z (take 32 (drop 32 sig)) <= Pay.halfN.
Hypothesis keccak256_length : forall d, length (Contract.keccak256 d) = 32%nat.
(** accounts.TextHash is EIP-191 over keccak256. *)
Hypothesis TextHash_ok : forall m, length m = 32%nat ->
  Pki.TextHash m = Contract.keccak256 ([x19] ++ str "Ethereum Signed Message:" ++ [x0a] ++ str "32" ++ m).
Hypothesis LeftPadBytes_ok : forall s l, (length s <= l)%nat -> LeftPadBytes s l = replicate (l - length s) x00 ++ s.

Lemma voucher_recovers key id wei sig :
  length this = 20%nat -> 0 <= wei < 2 ^ 256 -> Pki.PubkeyToAddress (Pki.eth_pub key) <> zero_address ->
  Pay.SignVoucher Contract.keccak256 LeftPadBytes key this id wei = Ret sig ->
  Incentives.recoverVoucher this ecrecover id wei sig = Ret (Pki.PubkeyToAddress (Pki.eth_pub key)).
Proof.
  intros Hthis Hw Hz Hs. unfold Pay.SignVoucher in Hs.
  rewrite (Pay.Digest_abi Contract.keccak256 LeftPadBytes LeftPadBytes_ok) in Hs by done.
  set (d := Pay.sol_voucherDigest _ _ _ _) in *. destruct (Pki.eth_Sign d key) as [raw|] eqn:E; [|done].
  destruct (Pki.eth_Sign_format _ _ _ E) as (Hl & v & Hv & Hle). pose proof (eth_Sign_low_s _ _ _ E) as Hlow.
  pose proof (Pki.eth_Sign_recovers _ _ _ E) as Hrec. unfold Pay.voucher_v in Hs. rewrite Hv in Hs. injection Hs as <-.
  unfold Incentives.recoverVoucher. fold d. rewrite length_insert, Hl. cbn [Nat.eqb Incentives.require mbind go_bind].
  rewrite list_lookup_insert_eq by lia. cbn [or_panic mbind go_bind]. pose proof (b2z_range v).
  rewrite b2z_z2b, Z.mod_small by lia. rewrite (proj2 (Z.ltb_ge _ _)) by lia.
  rewrite drop_insert_ge, !take_insert_ge by lia. change Incentives.HALF_N with Pay.halfN.
  rewrite (proj2 (Z.ltb_ge _ _) Hlow). cbn [negb Incentives.require mbind go_bind].
  rewrite (ecrecover_ok d raw v (Pki.eth_pub key)) by done. rewrite bool_decide_eq_false_2 by done. done.
Qed.

Abbreviation cmdVoucher := (Owner.cmdVoucher (W := world) HexToAddress HexToECDSA Contract.keccak256 LeftPadBytes).
Abbreviation cmdChannelClaim := (Owner.cmdChannelClaim (W := world) HexToAddress HexToECDSA).
Abbreviation dialIncentives := (Owner.dialIncentives (W := world) HexToAddress HexToECDSA).

Lemma mustChannelID_ret text s id s' : Owner.mustChannelID (W := world) text s = (Ret id, s') -> hexutil_Decode text = Some id /\ length id = 32%nat /\ s' = s.
Proof.
  unfold Owner.mustChannelID. destruct (hexutil_Decode text) as [b|]; [|done]. destruct (Nat.eqb_spec (length b) 32); [|done].
  by intros [= -> ->].
Qed.

(** What a printed voucher is. *)
Lemma cmdVoucher_ret co channel amount incFlag envInc s text s' :
  cmdVoucher co channel amount incFlag envInc s = (Ret text, s') ->
  exists id wei key sig, hexutil_Decode channel = Some id /\ length id = 32%nat /\ Owner.mustEth amount = Some wei
    /\ Owner.owner_key HexToECDSA co = Some key
    /\ Pay.SignVoucher Contract.keccak256 LeftPadBytes key
         (Owner.incentivesAddr HexToAddress (Owner.co_deployments co) incFlag (Owner.co_doc co) envInc) id wei = Ret sig
    /\ hexutil_Decode text = Some sig.
Proof.
  intros (id & s1 & (Hid & Hl & ->)%mustChannelID_ret & H)%Owner.cli_bind_ret.
  apply Owner.cli_bind_ret in H as (wei & s1 & [Hwei ->]%Owner.or_fatal_ret & H). cbv zeta in H.
  case_bool_decide; [done|]. apply Owner.cli_bind_ret in H as (key & s1 & [Hkey ->]%Owner.loadKey_ret & H).
  apply Owner.cli_bind_ret in H as (sig & s1 & [Hsig ->]%Owner.go_fatal_ret & [= <- <-]).
  exists id, wei, key, sig. rewrite hexutil_Encode_hex, hexutil_Decode_hex. done.
Qed.

Abbreviation redeem := (fun co channel amount sig inc env w => cmdChannelClaim co channel amount sig inc env (w, [])).

(** A claim with nothing left to pay reverts. *)
Lemma claim_spent w id ch wei sig :
  Incentives.channels (w_state w) !! id = Some ch -> Z.min wei (Incentives.deposit ch) <= Incentives.claimed ch ->
  Submit_ (TxClaim id wei sig) w = (Reverted, w).
Proof.
  intros Hch Hle. unfold Submit_. cbn [call_of Incentives.exec]. unfold Incentives.nonpayable. cbn [Contract.value Z.eqb].
  destruct (Incentives.claim _ _ _ _ _ _ _) as [[s' evs']|e|] eqn:E; [|done..].
  apply Incentives.claim_ret in E as (ch' & Hch' & _ & _ & _ & Hlt & _).
  unfold Incentives.channel_of in Hch'. rewrite Hch in Hch'. cbn in Hch'. subst ch'. lia.
Qed.

(** The claim of a voucher that recovers to the channel's client. *)
Lemma claim_pays evs w id ch wei sig :
  Incentives.accounts evs (w_state w) -> Incentives.channels (w_state w) !! id = Some ch ->
  Incentives.resolver ch = w_account w -> Incentives.recoverVoucher this ecrecover id wei sig = Ret (Incentives.client ch) ->
  let due := Z.min wei (Incentives.deposit ch) in
  let st := Incentives.mkState
    (<[id := Incentives.mkChannel (Incentives.client ch) (Incentives.resolver ch) (Incentives.deposit ch) due (Incentives.expiresAt ch)]>
      (Incentives.channels (w_state w)))
    (Incentives.nonce (w_state w)) (Incentives.balance (w_state w) - (due - Incentives.claimed ch)) in
  Incentives.claimed ch < due ->
  Submit_ (TxClaim id wei sig) w
  = (Mined, mkWorld st (Incentives.Claimed id due (due - Incentives.claimed ch) :: w_events w) (w_now w) (w_account w)).
Proof.
  intros Hac Hch Hres Hrec due st Hlt. pose proof (Incentives.funded _ _ _ _ Hac Hch) as Hf. destruct Hac as [_ Hall _ _].
  destruct (Hall _ _ Hch) as (_ & Hcl & Hdep & Hz & _). unfold Incentives.remaining in Hf.
  unfold Submit_. cbn [call_of Incentives.exec]. unfold Incentives.nonpayable. cbn [Contract.value Z.eqb].
  set (m := Contract.mkMsg _ _ _ _). assert (Incentives.claim this ecrecover m id wei sig (w_state w)
    = Ret (st, [Incentives.Claimed id due (due - Incentives.claimed ch)])) as ->; [|done].
  apply Incentives.claim_ret. exists ch. unfold Incentives.channel_of. rewrite Hch. fold due. subst m. cbn. split_and!; try done; lia.
Qed.

(** C13. A voucher the client prints is money for the resolver's operator: redeeming
    it, at any time before the channel is closed, succeeds and pays the amount the
    client typed, up to the deposit, less what was claimed before; and redeeming it
    again pays nothing. *)
Theorem voucher_redeems co_c co_r key channel amount incC envC incR envR text w wc sc evs ch id wei :
  cmdVoucher co_c channel amount incC envC wc = (Ret text, sc) ->
  Owner.owner_key HexToECDSA co_c = Some key -> hexutil_Decode channel = Some id -> Owner.mustEth amount = Some wei -> wei < 2 ^ 256 ->
  Owner.incentivesAddr HexToAddress (Owner.co_deployments co_c) incC (Owner.co_doc co_c) envC = this -> length this = 20%nat ->
  (forall s, exists inc, dialIncentives co_r incR envR s = (Ret inc, s)) ->
  Incentives.reachable this ecrecover evs (w_state w) -> NoDup (Incentives.opened_ids evs) ->
  Incentives.channels (w_state w) !! id = Some ch ->
  Incentives.client ch = Pki.PubkeyToAddress (Pki.eth_pub key) -> Incentives.resolver ch = w_account w ->
  let due := Z.min wei (Incentives.deposit ch) in
  Incentives.claimed ch < due ->
  exists s', redeem co_r channel amount text incR envR w = (Ret (), s')
    /\ Incentives.channels (w_state s'.1) !! id
       = Some (Incentives.mkChannel (Incentives.client ch) (Incentives.resolver ch) (Incentives.deposit ch) due (Incentives.expiresAt ch))
    /\ Incentives.balance (w_state s'.1) = Incentives.balance (w_state w) - (due - Incentives.claimed ch)
    /\ w_events s'.1 = Incentives.Claimed id due (due - Incentives.claimed ch) :: w_events w
    /\ (redeem co_r channel amount text incR envR s'.1).1 = Err 1 /\ (redeem co_r channel amount text incR envR s'.1).2.1 = s'.1.
Proof.
  intros Hv Hkey Hid Hwei Hmax Hinc Hthis Hdial Hre Hd Hch Hcl Hres due Hlt.
  apply cmdVoucher_ret in Hv as (id' & wei' & key' & sig & Hid' & Hl & Hwei' & Hkey' & Hsig & Htext).
  rewrite Hid in Hid'. rewrite Hwei in Hwei'. rewrite Hkey in Hkey'. injection Hid' as <-. injection Hwei' as <-. injection Hkey' as <-.
  rewrite Hinc in Hsig. pose proof (Incentives.reachable_accounts _ _ _ _ Hre Hd) as Hac.
  destruct (Incentives.ac_channel _ _ Hac _ _ Hch) as (_ & Hcd & Hdep & Hnz & _). rewrite Hcl in Hnz.
  assert (forall w1, redeem co_r channel amount text incR envR w1 = Owner.send (TxClaim id wei sig) (w1, [])) as Hcmd.
  { intros w1. unfold Owner.cmdChannelClaim, Owner.mustChannelID, mbind, Owner.cli_bind. rewrite Hid, Hl, Hwei, Htext. cbn.
    destruct (Hdial (w1, [])) as [inc ->]. reflexivity. }
  assert (Incentives.recoverVoucher this ecrecover id wei sig = Ret (Incentives.client ch)) as Hrec.
  { rewrite Hcl. apply voucher_recovers; try done. lia. }
  pose proof (claim_pays evs w id ch wei sig Hac Hch Hres Hrec) as Hpay. cbv zeta in Hpay. fold due in Hpay.
  rewrite Hcmd. unfold Owner.send at 1. cbn [fst snd Submit writer]. rewrite Hpay by done.
  eexists. split; [reflexivity|]. cbn [fst snd w_state w_events Incentives.channels Incentives.balance].
  split; [apply lookup_insert_eq|]. split; [done|]. split; [done|]. rewrite Hcmd. unfold Owner.send. cbn [fst snd Submit writer].
  erewrite claim_spent; [done|apply lookup_insert_eq|]. cbn. lia.
Qed.
End Channels.

(** * A voucher of 400 wei on the channel of Incentives.v *)
#[local] Existing Instances Incentives.demo_keccak Pay.toy_text_hash.
#[local] Instance toy_text_laws : Pki.EthCryptoLaws Z Z.
Proof.
  refine (Pki.Build_EthCryptoLaws Z Z Pay.toy_text_hash (fun k => k mod 256 ^ 32) _ _).
  - intros d k sig [= <-]. apply Pki.toy_sig_format.
  - intros d k sig [= <-]. exact (f_equal Some (Pki.toy_sig_key k)).
Defined.
Definition demo_common : Owner.common := Owner.mkCommon (str "0x4d") [] (str "0x1") [] None [] [] [] true.
Definition demo_ecrecover (d : bytes) (v : Z) (r s : bytes) : address := be_bytes 20 (be_Z r).
Definition demo_world : world := mkWorld (Incentives.demo_state 0) Incentives.demo_open 5000 Incentives.demo_operator.
Definition demo_channel : bytes := hexutil_Encode Incentives.demo_id.
Definition demo_amount : bytes := str "0.0000000000000004".

Lemma voucher_redeems_witness :
  exists s', Owner.cmdChannelClaim (W := world) (CW := writer Incentives.demo_this demo_ecrecover) (fun _ => Incentives.demo_this) (fun _ => Some 77)
      demo_common demo_channel demo_amount (hexutil_Encode Incentives.demo_sig) (str "0x11") [] (demo_world, []) = (Ret (), s')
    /\ Incentives.balance (w_state s'.1) = 600.
Proof.
  destruct (voucher_redeems (K := Incentives.demo_keccak) (EC := Pay.toy_text_hash) (ECL := toy_text_laws) Incentives.demo_this demo_ecrecover (fun _ => Incentives.demo_this) (fun _ => Some 77) Pay.pad_left
    ltac:(intros d sig v pub _ _ H; cbn in H; injection H as <-; reflexivity)
    ltac:(intros d k sig H; cbn in H; injection H as <-; vm_compute; congruence)
    ltac:(intros d; apply be_bytes_length) ltac:(reflexivity) ltac:(reflexivity)
    demo_common demo_common 77 demo_channel demo_amount (str "0x11") [] (str "0x11") [] (hexutil_Encode Incentives.demo_sig)
    demo_world (demo_world, []) (demo_world, []) Incentives.demo_open (Incentives.mkChannel Incentives.demo_client Incentives.demo_operator 1000 0 7600)
    Incentives.demo_id 400) as (s' & Hr & _ & Hb & _).
  - vm_refl.
  - vm_refl.
  - vm_refl.
  - vm_refl.
  - lia.
  - vm_refl.
  - vm_refl.
  - intros s. exists Incentives.demo_this. reflexivity.
  - apply Incentives.demo_opened.
  - apply NoDup_singleton.
  - vm_refl.
  - vm_refl.
  - vm_refl.
  - cbn. lia.
  - exists s'. split; [exact Hr|]. rewrite Hb. vm_refl.
Defined.
End Channels.
