(* ===== verification/Abi.v ===== *)
(** The interface between the generated contract bindings
    (src/resolver/internal/chain/bindings) and go-ethereum's accounts/abi/bind.

    Values that cross it are ABI values; a Go type that mirrors an ABI type is a
    [gotype]. The bound contract's operations (packing, eth_call, transactions,
    logs, unpacking) are the class [Bound], with the documented behaviour the
    bindings rely on as [BoundLaws]. The generated subscription of WatchX is a state
    machine here; the generated iterator is the one of Events.v. *)
From S2P Require Import Prelude Chain Events.
Import Chain.

Local Open Scope Z_scope.

(** * ABI types and values *)
Inductive ty :=
| TAddress | TBool | TUint (bits : Z) | TBytesN (n : nat) | TBytes | TString
| TSlice (t : ty) | TTuple (ts : list ty).
Inductive value :=
| VAddress (a : bytes) | VBool (b : bool) | VUint (z : Z) | VBytesN (b : bytes) | VBytes (b : bytes) | VString (s : bytes)
| VSlice (vs : list value) | VTuple (vs : list value).

Fixpoint typed (t : ty) (v : value) {struct t} : bool :=
  match t, v with
  | TAddress, VAddress a => Nat.eqb (length a) 20
  | TBool, VBool _ => true
  | TUint w, VUint z => (0 <=? z) && (z <? 2 ^ w)
  | TBytesN n, VBytesN b => Nat.eqb (length b) n
  | TBytes, VBytes _ => true
  | TString, VString _ => true
  | TSlice t, VSlice vs => forallb (typed t) vs
  | TTuple ts, VTuple vs =>
      (fix all ts vs := match ts, vs with
       | [], [] => true
       | t :: ts, v :: vs => typed t v && all ts vs
       | _, _ => false
       end) ts vs
  | _, _ => false
  end.
(** Arguments and results are tuples. *)
Definition typed_all (ts : list ty) (vs : list value) : bool := typed (TTuple ts) (VTuple vs).

Lemma typed_all_cons t ts v vs : typed_all (t :: ts) (v :: vs) = typed t v && typed_all ts vs.
Proof. reflexivity. Qed.
Lemma typed_all_lookup ts vs i t : typed_all ts vs = true -> ts !! i = Some t -> exists v, vs !! i = Some v /\ typed t v = true.
Proof.
  revert vs i. induction ts as [|t0 ts IH]; intros [|v vs] i; try done. rewrite typed_all_cons. intros [Hv Hvs]%andb_true_iff.
  destruct i as [|i]; cbn; [intros [= <-]; eauto|]. by apply IH.
Qed.

(** A contract's ABI, as the MetaData of the bindings holds it: the types of its
    methods' inputs and outputs, and of its events' arguments (whether indexed). *)
Record method := mkMethod { m_inputs : list ty; m_outputs : list ty }.
Record abi := mkAbi { Methods : list (string * method); abi_Events : list (string * list (bool * ty)) }.
Definition method_of (a : abi) (name : string) : option method :=
  snd <$> List.find (fun p => String.eqb p.1 name) (Methods a).
Definition event_of (a : abi) (name : string) : option (list (bool * ty)) :=
  snd <$> List.find (fun p => String.eqb p.1 name) (abi_Events a).
(** Packing succeeds: the method exists and the arguments have its types. *)
Definition packs (a : abi) (name : string) (args : list value) : bool :=
  match method_of a name with Some m => typed_all (m_inputs m) args | None => false end.

(** * Go types *)

(** A Go type that mirrors an ABI type. *)
Record gotype (A : Type) := mkGo {
  g_ty : ty;
  g_value : A -> value;
  g_of : value -> option A;
  g_of_value a : g_of (g_value a) = Some a;
  g_typed v : typed g_ty v = true -> exists a, v = g_value a;
}.
Arguments mkGo {A}.
Arguments g_ty {A}.
Arguments g_value {A}.
Arguments g_of {A}.
Arguments g_of_value {A}.
Arguments g_typed {A}.

Ltac go_value := intros [] H; try discriminate H; eauto.
Definition g_address : gotype address.
Proof. refine (mkGo TAddress VAddress (fun v => match v with VAddress a => Some a | _ => None end) (fun _ => eq_refl) _). go_value. Defined.
Definition g_bool : gotype bool.
Proof. refine (mkGo TBool VBool (fun v => match v with VBool b => Some b | _ => None end) (fun _ => eq_refl) _). go_value. Defined.
Definition g_uint (w : Z) : gotype Z.
Proof. refine (mkGo (TUint w) VUint (fun v => match v with VUint z => Some z | _ => None end) (fun _ => eq_refl) _). go_value. Defined.
Abbreviation g_bigint := (g_uint 256).
Definition g_bytes32 : gotype bytes.
Proof. refine (mkGo (TBytesN 32) VBytesN (fun v => match v with VBytesN b => Some b | _ => None end) (fun _ => eq_refl) _). go_value. Defined.
Definition g_bytes : gotype bytes.
Proof. refine (mkGo TBytes VBytes (fun v => match v with VBytes b => Some b | _ => None end) (fun _ => eq_refl) _). go_value. Defined.
Definition g_string : gotype bytes.
Proof. refine (mkGo TString VString (fun v => match v with VString b => Some b | _ => None end) (fun _ => eq_refl) _). go_value. Defined.

Lemma mapM_of_value {A} (g : gotype A) l : mapM (g_of g) (map (g_value g) l) = Some l.
Proof. induction l as [|a l IH]; [done|]. cbn [map mapM mbind option_bind]. by rewrite g_of_value; cbn; rewrite IH. Qed.
Definition g_slice {A} (g : gotype A) : gotype (list A).
Proof.
  refine (mkGo (TSlice (g_ty g)) (fun l => VSlice (map (g_value g) l))
    (fun v => match v with VSlice vs => mapM (g_of g) vs | _ => None end) (mapM_of_value g) _).
  intros [] H; try discriminate H. cbn in H.
  induction vs as [|v vs IH]; [by exists []|]. cbn in H. apply andb_true_iff in H as [[a ->]%g_typed [l Hl]%IH].
  injection Hl as ->. by exists (a :: l).
Defined.

(** The fields of a struct, and the struct over them. *)
Inductive fields : Type -> Type :=
| FNil : fields ()
| FCons {A B} (g : gotype A) (fs : fields B) : fields (A * B).
Fixpoint f_tys {B} (fs : fields B) : list ty := match fs with FNil => [] | FCons g fs => g_ty g :: f_tys fs end.
Fixpoint f_values {B} (fs : fields B) : B -> list value :=
  match fs with FNil => fun _ => [] | FCons g fs => fun p => g_value g p.1 :: f_values fs p.2 end.
Fixpoint f_of {B} (fs : fields B) : list value -> option B :=
  match fs with
  | FNil => fun vs => match vs with [] => Some () | _ => None end
  | FCons g fs => fun vs => match vs with
      | v :: vs => match g_of g v, f_of fs vs with Some a, Some b => Some (a, b) | _, _ => None end
      | [] => None
      end
  end.
Lemma f_of_values {B} (fs : fields B) b : f_of fs (f_values fs b) = Some b.
Proof.
  induction fs as [|A B g fs IH]; [by destruct b|]. destruct b as [a b]. cbn. by rewrite g_of_value, IH.
Qed.
Lemma f_typed {B} (fs : fields B) vs : typed_all (f_tys fs) vs = true -> exists b, vs = f_values fs b.
Proof.
  revert vs. induction fs as [|A B g fs IH]; intros [|v vs]; try done; [by exists ()|].
  cbn [f_tys]. rewrite typed_all_cons. intros [[a ->]%g_typed [b ->]%IH]%andb_true_iff. by exists (a, b).
Qed.
(** The fields of a struct and their values, the last field closed by unit. *)
Declare Scope abi_scope.
Notation "{{ x ; .. ; y }}" := (FCons x .. (FCons y FNil) ..) : abi_scope.
Notation "<< x ; .. ; y >>" := (pair x .. (pair y tt) ..) : abi_scope.
Definition g_struct {A B} (fs : fields B) (to : A -> B) (from : B -> A) (H : forall a, from (to a) = a) (H' : forall b, to (from b) = b) :
  gotype A.
Proof.
  refine (mkGo (TTuple (f_tys fs)) (fun a => VTuple (f_values fs (to a)))
    (fun v => match v with VTuple vs => from <$> f_of fs vs | _ => None end) _ _).
  - intros a. rewrite f_of_values. cbn. by rewrite H.
  - intros [] Hv; try discriminate Hv. apply f_typed in Hv as [b ->]. exists (from b). by rewrite H'.
Defined.

(** An argument of a call, of its Go type. *)
Definition arg {A} (g : gotype A) (a : A) : value := g_value g a.
Definition wf {A} (g : gotype A) (a : A) : Prop := typed (g_ty g) (g_value g a) = true.

(** * The bound contract *)

(** *bind.BoundContract: an address and an ABI. *)
Record BoundContract := mkBound { bc_address : address; bc_abi : abi }.

(** bind.CallOpts, TransactOpts, FilterOpts (the block range), a transaction, a log,
    and the errors of the library, over the world of the RPC endpoint. *)
Record FilterOpts := mkFilterOpts { Start : Z; End_ : Z }.
Class Bound (W E CO TO Tx Log : Type) := {
  GetAbi : abi -> abi + E;                 (* MetaData.GetAbi *)
  Call : BoundContract -> CO -> string -> list value -> W -> (list value + E) * W;
  Transact : BoundContract -> TO -> string -> list value -> W -> (Tx + E) * W;
  FilterLogs : BoundContract -> FilterOpts -> string -> list (list value) -> W -> (list Log * option E + E) * W;
  WatchLogs : BoundContract -> FilterOpts -> string -> list (list value) -> W -> (() + E) * W;
  UnpackLog : forall {A}, BoundContract -> gotype A -> string -> Log -> A + E;
  ConvertType : forall {A}, gotype A -> value -> go E A;
}.
Class BoundLaws (W E CO TO Tx Log : Type) `{Bound W E CO TO Tx Log} := {
  (** GetAbi parses the metadata, which holds the ABI as it stands here *)
  GetAbi_same a a' : GetAbi a = inl a' -> a' = a;
  (** what Call unpacks has the method's output types *)
  Call_typed c o name args m w out w' :
    method_of (bc_abi c) name = Some m -> typed_all (m_inputs m) args = true ->
    Call c o name args w = (inl out, w') -> typed_all (m_outputs m) out = true;
  (** "ConvertType converts an interface of a runtime type into an interface of the
      given type" *)
  ConvertType_value {A} (g : gotype A) a : ConvertType g (g_value g a) = Ret a;
}.

(** * The subscriptions of WatchX

    The goroutine of event.NewSubscription: it waits for a log, the end of the log
    subscription or its own end, or it holds an event for the sink. *)
Module Watch.
Section Watch.
Context {Log E Ev : Type}.
Variable unpack : Log -> Ev + E.

Inductive input := LogArrived (log : Log) | SubErr (e : option E) | Quit | Taken.
Inductive state := Waiting | Holding (ev : Ev * Log) | Ended (e : option E).

(** A case of one of the two selects: the events the sink receives, and the state
    after it; [None] where the select has no such case. *)
Definition step (s : state) (i : input) : option (list (Ev * Log) * state) :=
  match s, i with
  | Waiting, LogArrived log =>
      match unpack log with
      | inl ev => Some ([], Holding (ev, log))
      | inr e => Some ([], Ended (Some e))
      end
  | Holding ev, Taken => Some ([ev], Waiting)
  | Waiting, SubErr e | Holding _, SubErr e => Some ([], Ended e)
  | Waiting, Quit | Holding _, Quit => Some ([], Ended None)
  | _, _ => None
  end.
Fixpoint run_with (f : state -> input -> option (list (Ev * Log) * state)) (ins : list input) (s : state) :
    option (list (Ev * Log) * state) :=
  match ins with
  | [] => Some ([], s)
  | i :: ins =>
      match f s i with
      | Some (out, s) => match run_with f ins s with Some (out', s) => Some (out ++ out', s) | None => None end
      | None => None
      end
  end.
Abbreviation run := (run_with step).
Definition arrived (ins : list input) : list Log := omap (fun i => match i with LogArrived l => Some l | _ => None end) ins.
(** The event received and not yet handed over. *)
Definition held (s : state) : list (Ev * Log) := match s with Holding ev => [ev] | _ => [] end.

Lemma run_ended ins e out s : run ins (Ended e) = Some (out, s) -> ins = [] /\ out = [] /\ s = Ended e.
Proof. destruct ins as [|[] ins]; [by intros [= <- <-]|done..]. Qed.

(** Whatever the selects choose, the sink receives the events of the logs in order,
    each once and none skipped; a subscription that ends, ends with what the log
    subscription or the unpacking of the last log failed with, or with nil, and
    withholds one event at most. *)
Definition forwarded (ins : list input) (out : list (Ev * Log)) (s : state) : Prop :=
  let '(evs, err) := Events.unpack_all unpack (arrived ins) in
  exists lost, evs = out ++ lost /\ (length lost <= 1)%nat
    /\ match s with
       | Waiting => lost = [] /\ err = None
       | Holding ev => lost = [ev] /\ err = None
       | Ended e => (err = None /\ (e = None \/ SubErr e ∈ ins)) \/ (lost = [] /\ e = err)
       end.

(** The step was the last one. *)
Ltac run_ends :=
  match goal with
  | |- context [run_with step ?ins (Ended ?e)] =>
      let Er := fresh "Er" in
      destruct (run ins (Ended e)) as [[? ?]|] eqn:Er; [|done]; apply run_ended in Er as (-> & -> & ->); intros [= <- <-]
  end.
Lemma forwarded_stop i e : i = Quit /\ e = None \/ i = SubErr e -> forwarded [i] [] (Ended e).
Proof. intros [[-> ->] | ->]; exists []; cbn; split_and!; try lia; auto; left; split; [done|]; right; set_solver. Qed.
Lemma forwarded_stop_holding log ev i e :
  unpack log = inl ev -> i = Quit /\ e = None \/ i = SubErr e -> forwarded [LogArrived log; i] [] (Ended e).
Proof.
  intros Hu Hi. unfold forwarded. destruct Hi as [[-> ->] | ->]; cbn; rewrite Hu; exists [(ev, log)]; cbn; split_and!; try lia; auto.
  left. split; [done|]. right. set_solver.
Qed.
Lemma forwarded_taken log ev ins out s :
  unpack log = inl ev -> forwarded ins out s -> forwarded (LogArrived log :: Taken :: ins) ((ev, log) :: out) s.
Proof.
  unfold forwarded. intros Hu H. cbn [arrived omap list_omap Events.unpack_all]. rewrite Hu. fold (arrived ins).
  destruct (Events.unpack_all unpack (arrived ins)) as [evs err]. destruct H as (lost & -> & Hl & Hs).
  exists lost. split; [done|]. split; [done|]. destruct s; try done. destruct Hs as [(? & [?|?])|?]; [auto|left; set_solver|auto].
Qed.

Lemma run_forwards ins out s : run ins Waiting = Some (out, s) -> forwarded ins out s.
Proof.
  assert (forall n ins out s, (length ins < n)%nat -> run ins Waiting = Some (out, s) -> forwarded ins out s) as H;
    [|by apply (H (Datatypes.S (length ins))); lia].
  clear. induction n as [|n IH]; intros ins out s Hn; [lia|].
  destruct ins as [|i ins]; [intros [= <- <-]; exists []; cbn; auto|]. cbn in Hn. cbn [run_with].
  destruct i as [log|e| |]; cbn [step]; [| | |done].
  2, 3: run_ends; apply forwarded_stop; auto.
  destruct (unpack log) as [ev|e] eqn:Hu.
  2: run_ends; unfold forwarded; cbn; rewrite Hu; exists []; cbn; auto.
  destruct ins as [|i ins]; cbn [run_with]; [intros [= <- <-]; unfold forwarded; cbn; rewrite Hu; exists [(ev, log)]; cbn; auto|].
  destruct i as [log'|e| |]; cbn [step]; [done| | |].
  1, 2: run_ends; eapply forwarded_stop_holding; eauto.
  destruct (run ins Waiting) as [[o s']|] eqn:Er; [|done]. intros [= <- <-]. cbn in Hn.
  apply forwarded_taken; [done|]. apply IH; [lia|done].
Qed.
End Watch.
Arguments input : clear implicits.
Arguments state : clear implicits.
End Watch.

Module Abi.
Section Abi.
Context {W E CO TO Tx Log : Type} {B : Bound W E CO TO Tx Log}.

(** A method of the bindings. *)
Definition M (A : Type) : Type := W -> go E A * W.
#[export] Instance M_ret : MRet M := fun A a w => (Ret a, w).
#[export] Instance M_bind : MBind M := fun A C f m w =>
  match m w with
  | (Ret a, w) => f a w
  | (Err e, w) => (Err e, w)
  | (Panic, w) => (Panic, w)
  end.
Definition of_sum {A} (r : A + E) : go E A := match r with inl a => Ret a | inr e => Err e end.
Definition lift {A} (f : W -> (A + E) * W) : M A := fun w => let '(r, w) := f w in (of_sum r, w).

(** [err := contract.Call(opts, &out, name, args...); if err != nil { return ..., err }] *)
Definition call (c : BoundContract) (opts : CO) (name : string) (args : list value) : M (list value) :=
  lift (Call c opts name args).
(** [*abi.ConvertType(out[i], new(T)).( *T)] *)
Definition convert {A} (g : gotype A) (out : list value) (i : nat) : M A := fun w =>
  (v ← or_panic (out !! i); ConvertType g v, w).
Definition transact (c : BoundContract) (opts : TO) (name : string) (args : list value) : M Tx :=
  lift (Transact c opts name args).
(** [for _, item := range l { rule = append(rule, item) }] *)
Fixpoint rule {A} (g : gotype A) (l : list A) : list value :=
  match l with [] => [] | item :: l => arg g item :: rule g l end.

(** FilterX: the iterator over the logs found. *)
Definition filter {A} (g : gotype A) (c : BoundContract) (opts : FilterOpts) (name : string) (rules : list (list value)) :
    M (Events.Iterator Log E A) :=
  p ← lift (FilterLogs c opts name rules); mret (Events.fresh_it p.1 p.2).
(** ParseX; the event with its raw log *)
Definition parse {A} (c : BoundContract) (g : gotype A) (name : string) (log : Log) : go E (A * Log) :=
  ev ← of_sum (UnpackLog c g name log); mret (ev, log).

(** WatchX: the subscription, as its step. *)
Definition watch {A} (g : gotype A) (c : BoundContract) (opts : FilterOpts) (name : string) (rules : list (list value)) :
    M (Watch.state Log E A -> Watch.input Log E -> option (list (A * Log) * Watch.state Log E A)) :=
  _ ← lift (WatchLogs c opts name rules); mret (Watch.step (UnpackLog c g name)).

(** * Computations that do not panic *)
Definition post {A} (Q : A -> Prop) (m : M A) : Prop :=
  forall w, match (m w).1 with Ret a => Q a | Err _ => True | Panic => False end.

Lemma post_ret {A} (Q : A -> Prop) a : Q a -> post Q (mret a).
Proof. intros H w. exact H. Qed.
Lemma post_bind {A C} (P : A -> Prop) (Q : C -> Prop) m f : post P m -> (forall a, P a -> post Q (f a)) -> post Q (m ≫= f).
Proof.
  intros Hm Hf w. specialize (Hm w). unfold mbind, M_bind. destruct (m w) as [[a|e|] w']; cbn in *; [|done..]. by apply Hf.
Qed.

Context {BL : BoundLaws W E CO TO Tx Log}.

Lemma post_call c opts name args m :
  method_of (bc_abi c) name = Some m -> typed_all (m_inputs m) args = true ->
  post (fun out => typed_all (m_outputs m) out = true) (call c opts name args).
Proof.
  intros Hm Ha w. unfold call, lift. destruct (Call c opts name args w) as [[out|e] w'] eqn:Ec; cbn; [|done].
  by eapply Call_typed.
Qed.
Lemma post_convert {A} (g : gotype A) ts out i :
  typed_all ts out = true -> ts !! i = Some (g_ty g) -> post (wf g) (convert g out i).
Proof.
  intros Ho Hi w. destruct (typed_all_lookup _ _ _ _ Ho Hi) as (v & Hv & Ht). unfold convert. cbn. rewrite Hv. cbn.
  pose proof Ht as [a ->]%g_typed. rewrite ConvertType_value. exact Ht.
Qed.
End Abi.

(** A read: its call packs, and each of its results converts. *)
Ltac reads_typed Hc :=
  intros; eapply post_bind;
  [eapply post_call; [rewrite Hc; reflexivity|];
   cbn [snd m_inputs]; rewrite ?typed_all_cons, ?andb_true_iff; split_and?; first [reflexivity | assumption]
  |cbv beta; cbn [snd m_outputs]; intros;
   repeat (eapply post_bind; [eapply post_convert; [eassumption|reflexivity]|intros]);
   first [eapply post_convert; [eassumption|reflexivity] | apply post_ret; cbv beta iota; split_and!; assumption]].

(** * A contract that answers with zeros *)
Fixpoint zero_value (t : ty) : value :=
  match t with
  | TAddress => VAddress zero_address
  | TBool => VBool false
  | TUint _ => VUint 0
  | TBytesN n => VBytesN (replicate n x00)
  | TBytes => VBytes []
  | TString => VString []
  | TSlice _ => VSlice []
  | TTuple ts => VTuple (map zero_value ts)
  end.
Definition zero_outputs (a : abi) (name : string) (args : list value) : list value + () :=
  match method_of a name with
  | Some m =>
      let out := map zero_value (m_outputs m) in
      if typed_all (m_inputs m) args && typed_all (m_outputs m) out then inl out else inr ()
  | None => inr ()
  end.
Definition unpack_value {A} (g : gotype A) (v : value) : go () A := match g_of g v with Some a => Ret a | None => Panic end.
Definition zero_bound : Bound () () () () () () := {|
  GetAbi a := inl a;
  Call c o name args w := (zero_outputs (bc_abi c) name args, w);
  Transact c o name args w := (if packs (bc_abi c) name args then inl () else inr (), w);
  FilterLogs c o name rules w := (inl ([], None), w);
  WatchLogs c o name rules w := (inl (), w);
  UnpackLog A c g name log := match g_of g (zero_value (g_ty g)) with Some a => inl a | None => inr () end;
  ConvertType := @unpack_value;
|}.
Definition zero_laws : BoundLaws () () () () () () (H := zero_bound).
Proof.
  split.
  - by intros a a' [= ->].
  - intros c o name args m w out w' Hm Ha [= H _]. unfold zero_outputs in H. rewrite Hm, Ha in H. cbv zeta in H.
    destruct (typed_all (m_outputs m) _) eqn:E; [|done]. injection H as <-. exact E.
  - intros A g a. cbn. unfold unpack_value. by rewrite g_of_value.
Defined.
End Abi.
