(* ===== verification/NamespaceDAppBinding.v ===== *)
(** The generated binding of contracts/NamespaceDApp.sol
    (src/resolver/internal/chain/bindings/namespace_dapp.go): its ABI, its structs, and the
    methods of its caller, transactor and filterer over the bound contract of Abi.v.
    The session and raw wrappers, which preset the options, and the deployment are
    left out: nothing in the repository uses them. *)
From S2P Require Import Prelude Chain Events Abi.
Import Chain.

Local Open Scope Z_scope.
Local Open Scope string_scope.
Local Open Scope abi_scope.

Module NamespaceDAppBinding.
Import Abi.

(** NamespaceDAppMetaData.ABI: the methods and the events. *)
Definition NamespaceDAppMetaData : abi := mkAbi
  [("MAX_COMMITMENT_AGE", mkMethod [] [TUint 256]);
   ("MAX_FIELD_NAME_LENGTH", mkMethod [] [TUint 256]);
   ("MAX_FIELD_VALUE_LENGTH", mkMethod [] [TUint 256]);
   ("MAX_RECORD_FIELDS", mkMethod [] [TUint 256]);
   ("MAX_SELECTOR_LENGTH", mkMethod [] [TUint 256]);
   ("MIN_COMMITMENT_AGE", mkMethod [] [TUint 256]);
   ("REGISTRATION_PERIOD", mkMethod [] [TUint 256]);
   ("available", mkMethod [TString] [TBool]);
   ("basePrice", mkMethod [] [TUint 256]);
   ("commit", mkMethod [TBytesN 32] []);
   ("commitments", mkMethod [TBytesN 32] [TUint 256]);
   ("getDomain", mkMethod [TString] [TAddress; TBytes; TUint 64; TUint 64]);
   ("listRecords", mkMethod [TString] [TSlice (TTuple [TString; TString; TSlice (TString); TSlice (TString); TUint 32; TUint 64; TBytes; TBytesN 32; TBool])]);
   ("lookup", mkMethod [TString; TString; TString] [TTuple [TString; TString; TSlice (TString); TSlice (TString); TUint 32; TUint 64; TBytes; TBytesN 32; TBool]]);
   ("makeCommitment", mkMethod [TString; TAddress; TBytes; TBytesN 32] [TBytesN 32]);
   ("ownerOf", mkMethod [TString] [TAddress]);
   ("priceOf", mkMethod [TString] [TUint 256]);
   ("recordKeyOf", mkMethod [TString; TString] [TBytesN 32]);
   ("register", mkMethod [TString; TBytes; TBytesN 32] []);
   ("registry", mkMethod [] [TAddress]);
   ("removeRecord", mkMethod [TString; TString; TString] []);
   ("renew", mkMethod [TString] []);
   ("resolve", mkMethod [TString; TString; TString] [TTuple [TString; TString; TSlice (TString); TSlice (TString); TUint 32; TUint 64; TBytes; TBytesN 32; TBool]; TAddress; TBytes]);
   ("setRecord", mkMethod [TString; TString; TString; TSlice (TString); TSlice (TString); TUint 32; TBytes; TBytesN 32] []);
   ("transfer", mkMethod [TString; TAddress; TBytes] []);
   ("treasurer", mkMethod [] [TAddress]);
   ("withdraw", mkMethod [TAddress] [])]
  [("Committed", [(true, TBytesN 32); (false, TUint 256)]);
   ("RecordRemoved", [(true, TBytesN 32); (false, TString); (true, TBytesN 32); (false, TString); (false, TString)]);
   ("RecordSet", [(true, TBytesN 32); (false, TString); (true, TBytesN 32); (false, TString); (false, TString); (false, TUint 32)]);
   ("Registered", [(true, TBytesN 32); (false, TString); (true, TAddress); (false, TBytes); (false, TUint 64); (false, TUint 64); (false, TUint 256)]);
   ("Renewed", [(true, TBytesN 32); (false, TUint 64); (false, TUint 256)]);
   ("Transferred", [(true, TBytesN 32); (true, TAddress); (true, TAddress); (false, TBytes)]);
   ("Withdrawn", [(true, TAddress); (false, TUint 256)])].

(** The struct of a record is the one of Chain.v. *)
Definition g_NamespaceDAppRecord : gotype NamespaceDAppRecord :=
  g_struct {{ g_string; g_string; (g_slice g_string); (g_slice g_string); (g_uint 32); (g_uint 64); g_bytes; g_bytes32; g_bool }}
    (fun x => << b_RecordType x; b_Selector x; b_FieldNames x; b_FieldValues x; b_Ttl x; b_Generation x; b_OwnerSig x; b_Commitment x; b_Exists x >>)
    (fun x => let '<< x0; x1; x2; x3; x4; x5; x6; x7; x8 >> := x in mkBinding x0 x1 x2 x3 x4 x5 x6 x7 x8)
    ltac:(by intros []) ltac:(by intros (? & ? & ? & ? & ? & ? & ? & ? & ? & [])).

(** The structs of the events; the raw log is kept next to them. *)
Record NamespaceDAppCommitted := mkCommitted {
  Committed_Commitment : bytes; Committed_Timestamp : Z }.
Definition g_Committed : gotype NamespaceDAppCommitted :=
  g_struct {{ g_bytes32; g_bigint }}
    (fun x => << Committed_Commitment x; Committed_Timestamp x >>)
    (fun x => let '<< x0; x1 >> := x in mkCommitted x0 x1)
    ltac:(by intros []) ltac:(by intros (? & ? & [])).

Record NamespaceDAppRecordRemoved := mkRecordRemoved {
  RecordRemoved_NameHash : bytes; RecordRemoved_Name : bytes; RecordRemoved_RecordKey : bytes;
  RecordRemoved_RecordType : bytes; RecordRemoved_Selector : bytes }.
Definition g_RecordRemoved : gotype NamespaceDAppRecordRemoved :=
  g_struct {{ g_bytes32; g_string; g_bytes32; g_string; g_string }}
    (fun x => << RecordRemoved_NameHash x; RecordRemoved_Name x; RecordRemoved_RecordKey x; RecordRemoved_RecordType x; RecordRemoved_Selector x >>)
    (fun x => let '<< x0; x1; x2; x3; x4 >> := x in mkRecordRemoved x0 x1 x2 x3 x4)
    ltac:(by intros []) ltac:(by intros (? & ? & ? & ? & ? & [])).

Record NamespaceDAppRecordSet := mkRecordSet {
  RecordSet_NameHash : bytes; RecordSet_Name : bytes; RecordSet_RecordKey : bytes; RecordSet_RecordType : bytes;
  RecordSet_Selector : bytes; RecordSet_Ttl : Z }.
Definition g_RecordSet : gotype NamespaceDAppRecordSet :=
  g_struct {{ g_bytes32; g_string; g_bytes32; g_string; g_string; (g_uint 32) }}
    (fun x => << RecordSet_NameHash x; RecordSet_Name x; RecordSet_RecordKey x; RecordSet_RecordType x; RecordSet_Selector x; RecordSet_Ttl x >>)
    (fun x => let '<< x0; x1; x2; x3; x4; x5 >> := x in mkRecordSet x0 x1 x2 x3 x4 x5)
    ltac:(by intros []) ltac:(by intros (? & ? & ? & ? & ? & ? & [])).

Record NamespaceDAppRegistered := mkRegistered {
  Registered_NameHash : bytes; Registered_Name : bytes; Registered_Owner : address; Registered_PubKey : bytes;
  Registered_Expiry : Z; Registered_Generation : Z; Registered_FeePaid : Z }.
Definition g_Registered : gotype NamespaceDAppRegistered :=
  g_struct {{ g_bytes32; g_string; g_address; g_bytes; (g_uint 64); (g_uint 64); g_bigint }}
    (fun x => << Registered_NameHash x; Registered_Name x; Registered_Owner x; Registered_PubKey x; Registered_Expiry x; Registered_Generation x; Registered_FeePaid x >>)
    (fun x => let '<< x0; x1; x2; x3; x4; x5; x6 >> := x in mkRegistered x0 x1 x2 x3 x4 x5 x6)
    ltac:(by intros []) ltac:(by intros (? & ? & ? & ? & ? & ? & ? & [])).

Record NamespaceDAppRenewed := mkRenewed {
  Renewed_NameHash : bytes; Renewed_NewExpiry : Z; Renewed_FeePaid : Z }.
Definition g_Renewed : gotype NamespaceDAppRenewed :=
  g_struct {{ g_bytes32; (g_uint 64); g_bigint }}
    (fun x => << Renewed_NameHash x; Renewed_NewExpiry x; Renewed_FeePaid x >>)
    (fun x => let '<< x0; x1; x2 >> := x in mkRenewed x0 x1 x2)
    ltac:(by intros []) ltac:(by intros (? & ? & ? & [])).

Record NamespaceDAppTransferred := mkTransferred {
  Transferred_NameHash : bytes; Transferred_OldOwner : address; Transferred_NewOwner : address;
  Transferred_NewPubKey : bytes }.
Definition g_Transferred : gotype NamespaceDAppTransferred :=
  g_struct {{ g_bytes32; g_address; g_address; g_bytes }}
    (fun x => << Transferred_NameHash x; Transferred_OldOwner x; Transferred_NewOwner x; Transferred_NewPubKey x >>)
    (fun x => let '<< x0; x1; x2; x3 >> := x in mkTransferred x0 x1 x2 x3)
    ltac:(by intros []) ltac:(by intros (? & ? & ? & ? & [])).

Record NamespaceDAppWithdrawn := mkWithdrawn {
  Withdrawn_To : address; Withdrawn_Amount : Z }.
Definition g_Withdrawn : gotype NamespaceDAppWithdrawn :=
  g_struct {{ g_address; g_bigint }}
    (fun x => << Withdrawn_To x; Withdrawn_Amount x >>)
    (fun x => let '<< x0; x1 >> := x in mkWithdrawn x0 x1)
    ltac:(by intros []) ltac:(by intros (? & ? & [])).

(** type NamespaceDApp struct: the three parts over one bound contract *)
Record NamespaceDApp := mkNamespaceDApp { Caller : BoundContract; Transactor : BoundContract; Filterer : BoundContract }.

Section NamespaceDAppBinding.
Context {W E CO TO Tx Log : Type} {B : Bound W E CO TO Tx Log}.

Definition bindNamespaceDApp (addr : address) : go E BoundContract :=
  parsed ← of_sum (GetAbi NamespaceDAppMetaData); mret (mkBound addr parsed).
Definition NewNamespaceDApp (addr : address) : go E NamespaceDApp :=
  contract ← bindNamespaceDApp addr; mret (mkNamespaceDApp contract contract contract).
Definition NewNamespaceDAppCaller (addr : address) : go E BoundContract := contract ← bindNamespaceDApp addr; mret contract.
Definition NewNamespaceDAppTransactor (addr : address) : go E BoundContract := contract ← bindNamespaceDApp addr; mret contract.
Definition NewNamespaceDAppFilterer (addr : address) : go E BoundContract := contract ← bindNamespaceDApp addr; mret contract.

(** ** The caller *)
Definition MAXCOMMITMENTAGE (c : BoundContract) (opts : CO) : M (Z) :=
  out ← call c opts "MAX_COMMITMENT_AGE" [];
  convert g_bigint out 0.
Definition MAXFIELDNAMELENGTH (c : BoundContract) (opts : CO) : M (Z) :=
  out ← call c opts "MAX_FIELD_NAME_LENGTH" [];
  convert g_bigint out 0.
Definition MAXFIELDVALUELENGTH (c : BoundContract) (opts : CO) : M (Z) :=
  out ← call c opts "MAX_FIELD_VALUE_LENGTH" [];
  convert g_bigint out 0.
Definition MAXRECORDFIELDS (c : BoundContract) (opts : CO) : M (Z) :=
  out ← call c opts "MAX_RECORD_FIELDS" [];
  convert g_bigint out 0.
Definition MAXSELECTORLENGTH (c : BoundContract) (opts : CO) : M (Z) :=
  out ← call c opts "MAX_SELECTOR_LENGTH" [];
  convert g_bigint out 0.
Definition MINCOMMITMENTAGE (c : BoundContract) (opts : CO) : M (Z) :=
  out ← call c opts "MIN_COMMITMENT_AGE" [];
  convert g_bigint out 0.
Definition REGISTRATIONPERIOD (c : BoundContract) (opts : CO) : M (Z) :=
  out ← call c opts "REGISTRATION_PERIOD" [];
  convert g_bigint out 0.
Definition Available (c : BoundContract) (opts : CO) (name : bytes) : M (bool) :=
  out ← call c opts "available" [arg g_string name];
  convert g_bool out 0.
Definition BasePrice (c : BoundContract) (opts : CO) : M (Z) :=
  out ← call c opts "basePrice" [];
  convert g_bigint out 0.
Definition Commitments (c : BoundContract) (opts : CO) (arg0 : bytes) : M (Z) :=
  out ← call c opts "commitments" [arg g_bytes32 arg0];
  convert g_bigint out 0.
Definition GetDomain (c : BoundContract) (opts : CO) (name : bytes) : M (address * bytes * Z * Z) :=
  out ← call c opts "getDomain" [arg g_string name];
  Owner ← convert g_address out 0;
  PubKey ← convert g_bytes out 1;
  Expiry ← convert (g_uint 64) out 2;
  Generation ← convert (g_uint 64) out 3;
  mret (Owner, PubKey, Expiry, Generation).
Definition ListRecords (c : BoundContract) (opts : CO) (name : bytes) : M (list NamespaceDAppRecord) :=
  out ← call c opts "listRecords" [arg g_string name];
  convert (g_slice g_NamespaceDAppRecord) out 0.
Definition Lookup (c : BoundContract) (opts : CO) (name : bytes) (recordType : bytes) (selector : bytes) : M (NamespaceDAppRecord) :=
  out ← call c opts "lookup" [arg g_string name; arg g_string recordType; arg g_string selector];
  convert g_NamespaceDAppRecord out 0.
Definition MakeCommitment (c : BoundContract) (opts : CO) (name : bytes) (owner : address) (pubKey : bytes) (secret : bytes) : M (bytes) :=
  out ← call c opts "makeCommitment" [arg g_string name; arg g_address owner; arg g_bytes pubKey; arg g_bytes32 secret];
  convert g_bytes32 out 0.
Definition OwnerOf (c : BoundContract) (opts : CO) (name : bytes) : M (address) :=
  out ← call c opts "ownerOf" [arg g_string name];
  convert g_address out 0.
Definition PriceOf (c : BoundContract) (opts : CO) (name : bytes) : M (Z) :=
  out ← call c opts "priceOf" [arg g_string name];
  convert g_bigint out 0.
Definition RecordKeyOf (c : BoundContract) (opts : CO) (recordType : bytes) (selector : bytes) : M (bytes) :=
  out ← call c opts "recordKeyOf" [arg g_string recordType; arg g_string selector];
  convert g_bytes32 out 0.
Definition Registry (c : BoundContract) (opts : CO) : M (address) :=
  out ← call c opts "registry" [];
  convert g_address out 0.
Definition Resolve (c : BoundContract) (opts : CO) (name : bytes) (recordType : bytes) (selector : bytes) : M (NamespaceDAppRecord * address * bytes) :=
  out ← call c opts "resolve" [arg g_string name; arg g_string recordType; arg g_string selector];
  Record ← convert g_NamespaceDAppRecord out 0;
  Owner ← convert g_address out 1;
  PubKey ← convert g_bytes out 2;
  mret (Record, Owner, PubKey).
Definition Treasurer (c : BoundContract) (opts : CO) : M (address) :=
  out ← call c opts "treasurer" [];
  convert g_address out 0.

(** ** The transactor *)
Definition Commit (c : BoundContract) (opts : TO) (commitment : bytes) : M Tx :=
  transact c opts "commit" [arg g_bytes32 commitment].
Definition Register (c : BoundContract) (opts : TO) (name : bytes) (pubKey : bytes) (secret : bytes) : M Tx :=
  transact c opts "register" [arg g_string name; arg g_bytes pubKey; arg g_bytes32 secret].
Definition RemoveRecord (c : BoundContract) (opts : TO) (name : bytes) (recordType : bytes) (selector : bytes) : M Tx :=
  transact c opts "removeRecord" [arg g_string name; arg g_string recordType; arg g_string selector].
Definition Renew (c : BoundContract) (opts : TO) (name : bytes) : M Tx :=
  transact c opts "renew" [arg g_string name].
Definition SetRecord (c : BoundContract) (opts : TO) (name : bytes) (recordType : bytes) (selector : bytes) (fieldNames : list bytes) (fieldValues : list bytes) (ttl : Z) (ownerSig : bytes) (commitment : bytes) : M Tx :=
  transact c opts "setRecord" [arg g_string name; arg g_string recordType; arg g_string selector; arg (g_slice g_string) fieldNames;
    arg (g_slice g_string) fieldValues; arg (g_uint 32) ttl; arg g_bytes ownerSig; arg g_bytes32 commitment].
Definition Transfer (c : BoundContract) (opts : TO) (name : bytes) (newOwner : address) (newPubKey : bytes) : M Tx :=
  transact c opts "transfer" [arg g_string name; arg g_address newOwner; arg g_bytes newPubKey].
Definition Withdraw (c : BoundContract) (opts : TO) (dest : address) : M Tx :=
  transact c opts "withdraw" [arg g_address dest].

(** ** The filterer *)
Definition CommittedIterator : Type := Events.Iterator Log E NamespaceDAppCommitted.
Definition CommittedIterator_Next (c : BoundContract) : bool -> CommittedIterator -> bool * CommittedIterator :=
  Events.Next (UnpackLog c g_Committed "Committed").
Definition CommittedIterator_Error (it : CommittedIterator) : option E := Events.it_fail it.
Definition FilterCommitted (c : BoundContract) (opts : FilterOpts) (commitment : list bytes) : M CommittedIterator :=
  filter g_Committed c opts "Committed" [rule g_bytes32 commitment].
Definition WatchCommitted (c : BoundContract) (opts : FilterOpts) (commitment : list bytes) :
    M (Watch.state Log E NamespaceDAppCommitted -> Watch.input Log E -> option (list (NamespaceDAppCommitted * Log) * Watch.state Log E NamespaceDAppCommitted)) :=
  watch g_Committed c opts "Committed" [rule g_bytes32 commitment].
Definition ParseCommitted (c : BoundContract) (log : Log) : go E (NamespaceDAppCommitted * Log) := parse c g_Committed "Committed" log.
Definition RecordRemovedIterator : Type := Events.Iterator Log E NamespaceDAppRecordRemoved.
Definition RecordRemovedIterator_Next (c : BoundContract) : bool -> RecordRemovedIterator -> bool * RecordRemovedIterator :=
  Events.Next (UnpackLog c g_RecordRemoved "RecordRemoved").
Definition RecordRemovedIterator_Error (it : RecordRemovedIterator) : option E := Events.it_fail it.
Definition FilterRecordRemoved (c : BoundContract) (opts : FilterOpts) (nameHash : list bytes) (recordKey : list bytes) : M RecordRemovedIterator :=
  filter g_RecordRemoved c opts "RecordRemoved" [rule g_bytes32 nameHash; rule g_bytes32 recordKey].
Definition WatchRecordRemoved (c : BoundContract) (opts : FilterOpts) (nameHash : list bytes) (recordKey : list bytes) :
    M (Watch.state Log E NamespaceDAppRecordRemoved -> Watch.input Log E -> option (list (NamespaceDAppRecordRemoved * Log) * Watch.state Log E NamespaceDAppRecordRemoved)) :=
  watch g_RecordRemoved c opts "RecordRemoved" [rule g_bytes32 nameHash; rule g_bytes32 recordKey].
Definition ParseRecordRemoved (c : BoundContract) (log : Log) : go E (NamespaceDAppRecordRemoved * Log) := parse c g_RecordRemoved "RecordRemoved" log.
Definition RecordSetIterator : Type := Events.Iterator Log E NamespaceDAppRecordSet.
Definition RecordSetIterator_Next (c : BoundContract) : bool -> RecordSetIterator -> bool * RecordSetIterator :=
  Events.Next (UnpackLog c g_RecordSet "RecordSet").
Definition RecordSetIterator_Error (it : RecordSetIterator) : option E := Events.it_fail it.
Definition FilterRecordSet (c : BoundContract) (opts : FilterOpts) (nameHash : list bytes) (recordKey : list bytes) : M RecordSetIterator :=
  filter g_RecordSet c opts "RecordSet" [rule g_bytes32 nameHash; rule g_bytes32 recordKey].
Definition WatchRecordSet (c : BoundContract) (opts : FilterOpts) (nameHash : list bytes) (recordKey : list bytes) :
    M (Watch.state Log E NamespaceDAppRecordSet -> Watch.input Log E -> option (list (NamespaceDAppRecordSet * Log) * Watch.state Log E NamespaceDAppRecordSet)) :=
  watch g_RecordSet c opts "RecordSet" [rule g_bytes32 nameHash; rule g_bytes32 recordKey].
Definition ParseRecordSet (c : BoundContract) (log : Log) : go E (NamespaceDAppRecordSet * Log) := parse c g_RecordSet "RecordSet" log.
Definition RegisteredIterator : Type := Events.Iterator Log E NamespaceDAppRegistered.
Definition RegisteredIterator_Next (c : BoundContract) : bool -> RegisteredIterator -> bool * RegisteredIterator :=
  Events.Next (UnpackLog c g_Registered "Registered").
Definition RegisteredIterator_Error (it : RegisteredIterator) : option E := Events.it_fail it.
Definition FilterRegistered (c : BoundContract) (opts : FilterOpts) (nameHash : list bytes) (owner : list address) : M RegisteredIterator :=
  filter g_Registered c opts "Registered" [rule g_bytes32 nameHash; rule g_address owner].
Definition WatchRegistered (c : BoundContract) (opts : FilterOpts) (nameHash : list bytes) (owner : list address) :
    M (Watch.state Log E NamespaceDAppRegistered -> Watch.input Log E -> option (list (NamespaceDAppRegistered * Log) * Watch.state Log E NamespaceDAppRegistered)) :=
  watch g_Registered c opts "Registered" [rule g_bytes32 nameHash; rule g_address owner].
Definition ParseRegistered (c : BoundContract) (log : Log) : go E (NamespaceDAppRegistered * Log) := parse c g_Registered "Registered" log.
Definition RenewedIterator : Type := Events.Iterator Log E NamespaceDAppRenewed.
Definition RenewedIterator_Next (c : BoundContract) : bool -> RenewedIterator -> bool * RenewedIterator :=
  Events.Next (UnpackLog c g_Renewed "Renewed").
Definition RenewedIterator_Error (it : RenewedIterator) : option E := Events.it_fail it.
Definition FilterRenewed (c : BoundContract) (opts : FilterOpts) (nameHash : list bytes) : M RenewedIterator :=
  filter g_Renewed c opts "Renewed" [rule g_bytes32 nameHash].
Definition WatchRenewed (c : BoundContract) (opts : FilterOpts) (nameHash : list bytes) :
    M (Watch.state Log E NamespaceDAppRenewed -> Watch.input Log E -> option (list (NamespaceDAppRenewed * Log) * Watch.state Log E NamespaceDAppRenewed)) :=
  watch g_Renewed c opts "Renewed" [rule g_bytes32 nameHash].
Definition ParseRenewed (c : BoundContract) (log : Log) : go E (NamespaceDAppRenewed * Log) := parse c g_Renewed "Renewed" log.
Definition TransferredIterator : Type := Events.Iterator Log E NamespaceDAppTransferred.
Definition TransferredIterator_Next (c : BoundContract) : bool -> TransferredIterator -> bool * TransferredIterator :=
  Events.Next (UnpackLog c g_Transferred "Transferred").
Definition TransferredIterator_Error (it : TransferredIterator) : option E := Events.it_fail it.
Definition FilterTransferred (c : BoundContract) (opts : FilterOpts) (nameHash : list bytes) (oldOwner : list address) (newOwner : list address) : M TransferredIterator :=
  filter g_Transferred c opts "Transferred" [rule g_bytes32 nameHash; rule g_address oldOwner; rule g_address newOwner].
Definition WatchTransferred (c : BoundContract) (opts : FilterOpts) (nameHash : list bytes) (oldOwner : list address) (newOwner : list address) :
    M (Watch.state Log E NamespaceDAppTransferred -> Watch.input Log E -> option (list (NamespaceDAppTransferred * Log) * Watch.state Log E NamespaceDAppTransferred)) :=
  watch g_Transferred c opts "Transferred" [rule g_bytes32 nameHash; rule g_address oldOwner; rule g_address newOwner].
Definition ParseTransferred (c : BoundContract) (log : Log) : go E (NamespaceDAppTransferred * Log) := parse c g_Transferred "Transferred" log.
Definition WithdrawnIterator : Type := Events.Iterator Log E NamespaceDAppWithdrawn.
Definition WithdrawnIterator_Next (c : BoundContract) : bool -> WithdrawnIterator -> bool * WithdrawnIterator :=
  Events.Next (UnpackLog c g_Withdrawn "Withdrawn").
Definition WithdrawnIterator_Error (it : WithdrawnIterator) : option E := Events.it_fail it.
Definition FilterWithdrawn (c : BoundContract) (opts : FilterOpts) (dest : list address) : M WithdrawnIterator :=
  filter g_Withdrawn c opts "Withdrawn" [rule g_address dest].
Definition WatchWithdrawn (c : BoundContract) (opts : FilterOpts) (dest : list address) :
    M (Watch.state Log E NamespaceDAppWithdrawn -> Watch.input Log E -> option (list (NamespaceDAppWithdrawn * Log) * Watch.state Log E NamespaceDAppWithdrawn)) :=
  watch g_Withdrawn c opts "Withdrawn" [rule g_address dest].
Definition ParseWithdrawn (c : BoundContract) (log : Log) : go E (NamespaceDAppWithdrawn * Log) := parse c g_Withdrawn "Withdrawn" log.

(** Every read, on arguments of its Go types, ends in an error or in results of
    its Go types: the conversions of its results never panic. *)
Definition reads_typed (c : BoundContract) (opts : CO) : Prop :=
  post (wf g_bigint) (MAXCOMMITMENTAGE c opts)
  /\ post (wf g_bigint) (MAXFIELDNAMELENGTH c opts)
  /\ post (wf g_bigint) (MAXFIELDVALUELENGTH c opts)
  /\ post (wf g_bigint) (MAXRECORDFIELDS c opts)
  /\ post (wf g_bigint) (MAXSELECTORLENGTH c opts)
  /\ post (wf g_bigint) (MINCOMMITMENTAGE c opts)
  /\ post (wf g_bigint) (REGISTRATIONPERIOD c opts)
  /\ (forall name, post (wf g_bool) (Available c opts name))
  /\ post (wf g_bigint) (BasePrice c opts)
  /\ (forall arg0, wf g_bytes32 arg0 -> post (wf g_bigint) (Commitments c opts arg0))
  /\ (forall name, post (fun '(Owner, PubKey, Expiry, Generation) => wf g_address Owner /\ wf g_bytes PubKey /\ wf (g_uint 64) Expiry /\ wf (g_uint 64) Generation) (GetDomain c opts name))
  /\ (forall name, post (wf (g_slice g_NamespaceDAppRecord)) (ListRecords c opts name))
  /\ (forall name recordType selector, post (wf g_NamespaceDAppRecord) (Lookup c opts name recordType selector))
  /\ (forall name owner pubKey secret, wf g_address owner -> wf g_bytes32 secret -> post (wf g_bytes32) (MakeCommitment c opts name owner pubKey secret))
  /\ (forall name, post (wf g_address) (OwnerOf c opts name))
  /\ (forall name, post (wf g_bigint) (PriceOf c opts name))
  /\ (forall recordType selector, post (wf g_bytes32) (RecordKeyOf c opts recordType selector))
  /\ post (wf g_address) (Registry c opts)
  /\ (forall name recordType selector, post (fun '(Record, Owner, PubKey) => wf g_NamespaceDAppRecord Record /\ wf g_address Owner /\ wf g_bytes PubKey) (Resolve c opts name recordType selector))
  /\ post (wf g_address) (Treasurer c opts).
Context {BL : BoundLaws W E CO TO Tx Log}.
Lemma NamespaceDApp_reads_typed c opts : bc_abi c = NamespaceDAppMetaData -> reads_typed c opts.
Proof. intros Hc. unfold reads_typed. split_and!; reads_typed Hc. Qed.
End NamespaceDAppBinding.
End NamespaceDAppBinding.
