(* ===== verification/RecordSchemaRegistryBinding.v ===== *)
(** The generated binding of contracts/RecordSchemaRegistry.sol
    (src/resolver/internal/chain/bindings/record_schema_registry.go): its ABI, its structs, and the
    methods of its caller, transactor and filterer over the bound contract of Abi.v.
    The session and raw wrappers, which preset the options, and the deployment are
    left out: nothing in the repository uses them. *)
From S2P Require Import Prelude Chain Events Abi.
Import Chain.

Local Open Scope Z_scope.
Local Open Scope string_scope.
Local Open Scope abi_scope.

Module RecordSchemaRegistryBinding.
Import Abi.

(** RecordSchemaRegistryMetaData.ABI: the methods and the events. *)
Definition RecordSchemaRegistryMetaData : abi := mkAbi
  [("MAX_FIELDS", mkMethod [] [TUint 256]);
   ("MAX_FIELD_NAME_LENGTH", mkMethod [] [TUint 256]);
   ("MAX_TYPE_NAME_LENGTH", mkMethod [] [TUint 256]);
   ("declareType", mkMethod [TString; TSlice (TString); TSlice (TString)] []);
   ("getSchema", mkMethod [TString] [TSlice (TTuple [TString; TBool])]);
   ("listTypes", mkMethod [] [TSlice (TString)]);
   ("mandatoryFields", mkMethod [TBytesN 32] [TSlice (TString)]);
   ("typeExists", mkMethod [TString] [TBool])]
  [("TypeDeclared", [(true, TBytesN 32); (false, TString); (true, TAddress); (false, TUint 256); (false, TUint 256)])].

Record RecordSchemaRegistryFieldSpec := mkFieldSpec {
  fs_Name : bytes; fs_Mandatory : bool }.
Definition g_FieldSpec : gotype RecordSchemaRegistryFieldSpec :=
  g_struct {{ g_string; g_bool }}
    (fun x => << fs_Name x; fs_Mandatory x >>)
    (fun x => let '<< x0; x1 >> := x in mkFieldSpec x0 x1)
    ltac:(by intros []) ltac:(by intros (? & ? & [])).

(** The structs of the events; the raw log is kept next to them. *)
Record RecordSchemaRegistryTypeDeclared := mkTypeDeclared {
  TypeDeclared_TypeHash : bytes; TypeDeclared_Name : bytes; TypeDeclared_Declarer : address;
  TypeDeclared_MandatoryCount : Z; TypeDeclared_OptionalCount : Z }.
Definition g_TypeDeclared : gotype RecordSchemaRegistryTypeDeclared :=
  g_struct {{ g_bytes32; g_string; g_address; g_bigint; g_bigint }}
    (fun x => << TypeDeclared_TypeHash x; TypeDeclared_Name x; TypeDeclared_Declarer x; TypeDeclared_MandatoryCount x; TypeDeclared_OptionalCount x >>)
    (fun x => let '<< x0; x1; x2; x3; x4 >> := x in mkTypeDeclared x0 x1 x2 x3 x4)
    ltac:(by intros []) ltac:(by intros (? & ? & ? & ? & ? & [])).

(** type RecordSchemaRegistry struct: the three parts over one bound contract *)
Record RecordSchemaRegistry := mkRecordSchemaRegistry { Caller : BoundContract; Transactor : BoundContract; Filterer : BoundContract }.

Section RecordSchemaRegistryBinding.
Context {W E CO TO Tx Log : Type} {B : Bound W E CO TO Tx Log}.

Definition bindRecordSchemaRegistry (addr : address) : go E BoundContract :=
  parsed ← of_sum (GetAbi RecordSchemaRegistryMetaData); mret (mkBound addr parsed).
Definition NewRecordSchemaRegistry (addr : address) : go E RecordSchemaRegistry :=
  contract ← bindRecordSchemaRegistry addr; mret (mkRecordSchemaRegistry contract contract contract).
Definition NewRecordSchemaRegistryCaller (addr : address) : go E BoundContract := contract ← bindRecordSchemaRegistry addr; mret contract.
Definition NewRecordSchemaRegistryTransactor (addr : address) : go E BoundContract := contract ← bindRecordSchemaRegistry addr; mret contract.
Definition NewRecordSchemaRegistryFilterer (addr : address) : go E BoundContract := contract ← bindRecordSchemaRegistry addr; mret contract.

(** ** The caller *)
Definition MAXFIELDS (c : BoundContract) (opts : CO) : M (Z) :=
  out ← call c opts "MAX_FIELDS" [];
  convert g_bigint out 0.
Definition MAXFIELDNAMELENGTH (c : BoundContract) (opts : CO) : M (Z) :=
  out ← call c opts "MAX_FIELD_NAME_LENGTH" [];
  convert g_bigint out 0.
Definition MAXTYPENAMELENGTH (c : BoundContract) (opts : CO) : M (Z) :=
  out ← call c opts "MAX_TYPE_NAME_LENGTH" [];
  convert g_bigint out 0.
Definition GetSchema (c : BoundContract) (opts : CO) (typeName : bytes) : M (list RecordSchemaRegistryFieldSpec) :=
  out ← call c opts "getSchema" [arg g_string typeName];
  convert (g_slice g_FieldSpec) out 0.
Definition ListTypes (c : BoundContract) (opts : CO) : M (list bytes) :=
  out ← call c opts "listTypes" [];
  convert (g_slice g_string) out 0.
Definition MandatoryFields (c : BoundContract) (opts : CO) (typeHash : bytes) : M (list bytes) :=
  out ← call c opts "mandatoryFields" [arg g_bytes32 typeHash];
  convert (g_slice g_string) out 0.
Definition TypeExists (c : BoundContract) (opts : CO) (typeName : bytes) : M (bool) :=
  out ← call c opts "typeExists" [arg g_string typeName];
  convert g_bool out 0.

(** ** The transactor *)
Definition DeclareType (c : BoundContract) (opts : TO) (name : bytes) (mandatory : list bytes) (optional : list bytes) : M Tx :=
  transact c opts "declareType" [arg g_string name; arg (g_slice g_string) mandatory; arg (g_slice g_string) optional].

(** ** The filterer *)
Definition TypeDeclaredIterator : Type := Events.Iterator Log E RecordSchemaRegistryTypeDeclared.
Definition TypeDeclaredIterator_Next (c : BoundContract) : bool -> TypeDeclaredIterator -> bool * TypeDeclaredIterator :=
  Events.Next (UnpackLog c g_TypeDeclared "TypeDeclared").
Definition TypeDeclaredIterator_Error (it : TypeDeclaredIterator) : option E := Events.it_fail it.
Definition FilterTypeDeclared (c : BoundContract) (opts : FilterOpts) (typeHash : list bytes) (declarer : list address) : M TypeDeclaredIterator :=
  filter g_TypeDeclared c opts "TypeDeclared" [rule g_bytes32 typeHash; rule g_address declarer].
Definition WatchTypeDeclared (c : BoundContract) (opts : FilterOpts) (typeHash : list bytes) (declarer : list address) :
    M (Watch.state Log E RecordSchemaRegistryTypeDeclared -> Watch.input Log E -> option (list (RecordSchemaRegistryTypeDeclared * Log) * Watch.state Log E RecordSchemaRegistryTypeDeclared)) :=
  watch g_TypeDeclared c opts "TypeDeclared" [rule g_bytes32 typeHash; rule g_address declarer].
Definition ParseTypeDeclared (c : BoundContract) (log : Log) : go E (RecordSchemaRegistryTypeDeclared * Log) := parse c g_TypeDeclared "TypeDeclared" log.

(** Every read, on arguments of its Go types, ends in an error or in results of
    its Go types: the conversions of its results never panic. *)
Definition reads_typed (c : BoundContract) (opts : CO) : Prop :=
  post (wf g_bigint) (MAXFIELDS c opts)
  /\ post (wf g_bigint) (MAXFIELDNAMELENGTH c opts)
  /\ post (wf g_bigint) (MAXTYPENAMELENGTH c opts)
  /\ (forall typeName, post (wf (g_slice g_FieldSpec)) (GetSchema c opts typeName))
  /\ post (wf (g_slice g_string)) (ListTypes c opts)
  /\ (forall typeHash, wf g_bytes32 typeHash -> post (wf (g_slice g_string)) (MandatoryFields c opts typeHash))
  /\ (forall typeName, post (wf g_bool) (TypeExists c opts typeName)).
Context {BL : BoundLaws W E CO TO Tx Log}.
Lemma RecordSchemaRegistry_reads_typed c opts : bc_abi c = RecordSchemaRegistryMetaData -> reads_typed c opts.
Proof. intros Hc. unfold reads_typed. split_and!; reads_typed Hc. Qed.
End RecordSchemaRegistryBinding.
End RecordSchemaRegistryBinding.
