(* ===== verification/ResolverIncentivesBinding.v ===== *)
(** The generated binding of contracts/ResolverIncentives.sol
    (src/resolver/internal/chain/bindings/resolver_incentives.go): its ABI, its structs, and the
    methods of its caller, transactor and filterer over the bound contract of Abi.v.
    The session and raw wrappers, which preset the options, and the deployment are
    left out: nothing in the repository uses them. *)
From S2P Require Import Prelude Chain Events Abi.
Import Chain.

Local Open Scope Z_scope.
Local Open Scope string_scope.
Local Open Scope abi_scope.

Module ResolverIncentivesBinding.
Import Abi.

(** ResolverIncentivesMetaData.ABI: the methods and the events. *)
Definition ResolverIncentivesMetaData : abi := mkAbi
  [("MIN_DURATION", mkMethod [] [TUint 64]);
   ("SETTLEMENT_WINDOW", mkMethod [] [TUint 64]);
   ("channels", mkMethod [TBytesN 32] [TAddress; TAddress; TUint 256; TUint 256; TUint 64]);
   ("claim", mkMethod [TBytesN 32; TUint 256; TBytes] []);
   ("closeChannel", mkMethod [TBytesN 32] []);
   ("openChannel", mkMethod [TAddress; TUint 64] [TBytesN 32]);
   ("voucherDigest", mkMethod [TBytesN 32; TUint 256] [TBytesN 32])]
  [("ChannelClosed", [(true, TBytesN 32); (false, TUint 256)]);
   ("ChannelOpened", [(true, TBytesN 32); (true, TAddress); (true, TAddress); (false, TUint 256); (false, TUint 64)]);
   ("Claimed", [(true, TBytesN 32); (false, TUint 256); (false, TUint 256)])].

(** The structs of the events; the raw log is kept next to them. *)
Record ResolverIncentivesChannelClosed := mkChannelClosed {
  ChannelClosed_Id : bytes; ChannelClosed_Refunded : Z }.
Definition g_ChannelClosed : gotype ResolverIncentivesChannelClosed :=
  g_struct {{ g_bytes32; g_bigint }}
    (fun x => << ChannelClosed_Id x; ChannelClosed_Refunded x >>)
    (fun x => let '<< x0; x1 >> := x in mkChannelClosed x0 x1)
    ltac:(by intros []) ltac:(by intros (? & ? & [])).

Record ResolverIncentivesChannelOpened := mkChannelOpened {
  ChannelOpened_Id : bytes; ChannelOpened_Client : address; ChannelOpened_Resolver : address;
  ChannelOpened_Deposit : Z; ChannelOpened_ExpiresAt : Z }.
Definition g_ChannelOpened : gotype ResolverIncentivesChannelOpened :=
  g_struct {{ g_bytes32; g_address; g_address; g_bigint; (g_uint 64) }}
    (fun x => << ChannelOpened_Id x; ChannelOpened_Client x; ChannelOpened_Resolver x; ChannelOpened_Deposit x; ChannelOpened_ExpiresAt x >>)
    (fun x => let '<< x0; x1; x2; x3; x4 >> := x in mkChannelOpened x0 x1 x2 x3 x4)
    ltac:(by intros []) ltac:(by intros (? & ? & ? & ? & ? & [])).

Record ResolverIncentivesClaimed := mkClaimed {
  Claimed_Id : bytes; Claimed_Cumulative : Z; Claimed_Paid : Z }.
Definition g_Claimed : gotype ResolverIncentivesClaimed :=
  g_struct {{ g_bytes32; g_bigint; g_bigint }}
    (fun x => << Claimed_Id x; Claimed_Cumulative x; Claimed_Paid x >>)
    (fun x => let '<< x0; x1; x2 >> := x in mkClaimed x0 x1 x2)
    ltac:(by intros []) ltac:(by intros (? & ? & ? & [])).

(** type ResolverIncentives struct: the three parts over one bound contract *)
Record ResolverIncentives := mkResolverIncentives { Caller : BoundContract; Transactor : BoundContract; Filterer : BoundContract }.

Section ResolverIncentivesBinding.
Context {W E CO TO Tx Log : Type} {B : Bound W E CO TO Tx Log}.

Definition bindResolverIncentives (addr : address) : go E BoundContract :=
  parsed ← of_sum (GetAbi ResolverIncentivesMetaData); mret (mkBound addr parsed).
Definition NewResolverIncentives (addr : address) : go E ResolverIncentives :=
  contract ← bindResolverIncentives addr; mret (mkResolverIncentives contract contract contract).
Definition NewResolverIncentivesCaller (addr : address) : go E BoundContract := contract ← bindResolverIncentives addr; mret contract.
Definition NewResolverIncentivesTransactor (addr : address) : go E BoundContract := contract ← bindResolverIncentives addr; mret contract.
Definition NewResolverIncentivesFilterer (addr : address) : go E BoundContract := contract ← bindResolverIncentives addr; mret contract.

(** ** The caller *)
Definition MINDURATION (c : BoundContract) (opts : CO) : M (Z) :=
  out ← call c opts "MIN_DURATION" [];
  convert (g_uint 64) out 0.
Definition SETTLEMENTWINDOW (c : BoundContract) (opts : CO) : M (Z) :=
  out ← call c opts "SETTLEMENT_WINDOW" [];
  convert (g_uint 64) out 0.
Definition Channels (c : BoundContract) (opts : CO) (arg0 : bytes) : M (address * address * Z * Z * Z) :=
  out ← call c opts "channels" [arg g_bytes32 arg0];
  Client ← convert g_address out 0;
  Resolver ← convert g_address out 1;
  Deposit ← convert g_bigint out 2;
  Claimed ← convert g_bigint out 3;
  ExpiresAt ← convert (g_uint 64) out 4;
  mret (Client, Resolver, Deposit, Claimed, ExpiresAt).
Definition VoucherDigest (c : BoundContract) (opts : CO) (id : bytes) (cumulative : Z) : M (bytes) :=
  out ← call c opts "voucherDigest" [arg g_bytes32 id; arg g_bigint cumulative];
  convert g_bytes32 out 0.

(** ** The transactor *)
Definition Claim (c : BoundContract) (opts : TO) (id : bytes) (cumulative : Z) (clientSig : bytes) : M Tx :=
  transact c opts "claim" [arg g_bytes32 id; arg g_bigint cumulative; arg g_bytes clientSig].
Definition CloseChannel (c : BoundContract) (opts : TO) (id : bytes) : M Tx :=
  transact c opts "closeChannel" [arg g_bytes32 id].
Definition OpenChannel (c : BoundContract) (opts : TO) (resolver : address) (duration : Z) : M Tx :=
  transact c opts "openChannel" [arg g_address resolver; arg (g_uint 64) duration].

(** ** The filterer *)
Definition ChannelClosedIterator : Type := Events.Iterator Log E ResolverIncentivesChannelClosed.
Definition ChannelClosedIterator_Next (c : BoundContract) : bool -> ChannelClosedIterator -> bool * ChannelClosedIterator :=
  Events.Next (UnpackLog c g_ChannelClosed "ChannelClosed").
Definition ChannelClosedIterator_Error (it : ChannelClosedIterator) : option E := Events.it_fail it.
Definition FilterChannelClosed (c : BoundContract) (opts : FilterOpts) (id : list bytes) : M ChannelClosedIterator :=
  filter g_ChannelClosed c opts "ChannelClosed" [rule g_bytes32 id].
Definition WatchChannelClosed (c : BoundContract) (opts : FilterOpts) (id : list bytes) :
    M (Watch.state Log E ResolverIncentivesChannelClosed -> Watch.input Log E -> option (list (ResolverIncentivesChannelClosed * Log) * Watch.state Log E ResolverIncentivesChannelClosed)) :=
  watch g_ChannelClosed c opts "ChannelClosed" [rule g_bytes32 id].
Definition ParseChannelClosed (c : BoundContract) (log : Log) : go E (ResolverIncentivesChannelClosed * Log) := parse c g_ChannelClosed "ChannelClosed" log.
Definition ChannelOpenedIterator : Type := Events.Iterator Log E ResolverIncentivesChannelOpened.
Definition ChannelOpenedIterator_Next (c : BoundContract) : bool -> ChannelOpenedIterator -> bool * ChannelOpenedIterator :=
  Events.Next (UnpackLog c g_ChannelOpened "ChannelOpened").
Definition ChannelOpenedIterator_Error (it : ChannelOpenedIterator) : option E := Events.it_fail it.
Definition FilterChannelOpened (c : BoundContract) (opts : FilterOpts) (id : list bytes) (client : list address) (resolver : list address) : M ChannelOpenedIterator :=
  filter g_ChannelOpened c opts "ChannelOpened" [rule g_bytes32 id; rule g_address client; rule g_address resolver].
Definition WatchChannelOpened (c : BoundContract) (opts : FilterOpts) (id : list bytes) (client : list address) (resolver : list address) :
    M (Watch.state Log E ResolverIncentivesChannelOpened -> Watch.input Log E -> option (list (ResolverIncentivesChannelOpened * Log) * Watch.state Log E ResolverIncentivesChannelOpened)) :=
  watch g_ChannelOpened c opts "ChannelOpened" [rule g_bytes32 id; rule g_address client; rule g_address resolver].
Definition ParseChannelOpened (c : BoundContract) (log : Log) : go E (ResolverIncentivesChannelOpened * Log) := parse c g_ChannelOpened "ChannelOpened" log.
Definition ClaimedIterator : Type := Events.Iterator Log E ResolverIncentivesClaimed.
Definition ClaimedIterator_Next (c : BoundContract) : bool -> ClaimedIterator -> bool * ClaimedIterator :=
  Events.Next (UnpackLog c g_Claimed "Claimed").
Definition ClaimedIterator_Error (it : ClaimedIterator) : option E := Events.it_fail it.
Definition FilterClaimed (c : BoundContract) (opts : FilterOpts) (id : list bytes) : M ClaimedIterator :=
  filter g_Claimed c opts "Claimed" [rule g_bytes32 id].
Definition WatchClaimed (c : BoundContract) (opts : FilterOpts) (id : list bytes) :
    M (Watch.state Log E ResolverIncentivesClaimed -> Watch.input Log E -> option (list (ResolverIncentivesClaimed * Log) * Watch.state Log E ResolverIncentivesClaimed)) :=
  watch g_Claimed c opts "Claimed" [rule g_bytes32 id].
Definition ParseClaimed (c : BoundContract) (log : Log) : go E (ResolverIncentivesClaimed * Log) := parse c g_Claimed "Claimed" log.

(** Every read, on arguments of its Go types, ends in an error or in results of
    its Go types: the conversions of its results never panic. *)
Definition reads_typed (c : BoundContract) (opts : CO) : Prop :=
  post (wf (g_uint 64)) (MINDURATION c opts)
  /\ post (wf (g_uint 64)) (SETTLEMENTWINDOW c opts)
  /\ (forall arg0, wf g_bytes32 arg0 -> post (fun '(Client, Resolver, Deposit, Claimed, ExpiresAt) => wf g_address Client /\ wf g_address Resolver /\ wf g_bigint Deposit /\ wf g_bigint Claimed /\ wf (g_uint 64) ExpiresAt) (Channels c opts arg0))
  /\ (forall id cumulative, wf g_bytes32 id -> wf g_bigint cumulative -> post (wf g_bytes32) (VoucherDigest c opts id cumulative)).
Context {BL : BoundLaws W E CO TO Tx Log}.
Lemma ResolverIncentives_reads_typed c opts : bc_abi c = ResolverIncentivesMetaData -> reads_typed c opts.
Proof. intros Hc. unfold reads_typed. split_and!; reads_typed Hc. Qed.
End ResolverIncentivesBinding.
End ResolverIncentivesBinding.
