(* ===== verification/ResolverRegistryBinding.v ===== *)
(** The generated binding of contracts/ResolverRegistry.sol
    (src/resolver/internal/chain/bindings/resolver_registry.go): its ABI, its structs, and the
    methods of its caller, transactor and filterer over the bound contract of Abi.v.
    The session and raw wrappers, which preset the options, and the deployment are
    left out: nothing in the repository uses them. *)
From S2P Require Import Prelude Chain Events Abi.
Import Chain.

Local Open Scope Z_scope.
Local Open Scope string_scope.
Local Open Scope abi_scope.

Module ResolverRegistryBinding.
Import Abi.

(** ResolverRegistryMetaData.ABI: the methods and the events. *)
Definition ResolverRegistryMetaData : abi := mkAbi
  [("MAX_ENDPOINT_LENGTH", mkMethod [] [TUint 256]);
   ("activeResolvers", mkMethod [] [TSlice (TAddress); TSlice (TBytesN 32); TSlice (TString)]);
   ("announce", mkMethod [TBytesN 32; TString] []);
   ("getResolver", mkMethod [TAddress] [TBytesN 32; TString; TUint 64; TBool]);
   ("operatorAt", mkMethod [TUint 256] [TAddress]);
   ("operatorCount", mkMethod [] [TUint 256]);
   ("revoke", mkMethod [] [])]
  [("ResolverAnnounced", [(true, TAddress); (false, TBytesN 32); (false, TString)]);
   ("ResolverRevoked", [(true, TAddress)])].

(** The structs of the events; the raw log is kept next to them. *)
Record ResolverRegistryResolverAnnounced := mkResolverAnnounced {
  ResolverAnnounced_Operator : address; ResolverAnnounced_PubKey : bytes; ResolverAnnounced_Endpoint : bytes }.
Definition g_ResolverAnnounced : gotype ResolverRegistryResolverAnnounced :=
  g_struct {{ g_address; g_bytes32; g_string }}
    (fun x => << ResolverAnnounced_Operator x; ResolverAnnounced_PubKey x; ResolverAnnounced_Endpoint x >>)
    (fun x => let '<< x0; x1; x2 >> := x in mkResolverAnnounced x0 x1 x2)
    ltac:(by intros []) ltac:(by intros (? & ? & ? & [])).

Record ResolverRegistryResolverRevoked := mkResolverRevoked {
  ResolverRevoked_Operator : address }.
Definition g_ResolverRevoked : gotype ResolverRegistryResolverRevoked :=
  g_struct {{ g_address }}
    (fun x => << ResolverRevoked_Operator x >>)
    (fun x => let '<< x0 >> := x in mkResolverRevoked x0)
    ltac:(by intros []) ltac:(by intros (? & [])).

(** type ResolverRegistry struct: the three parts over one bound contract *)
Record ResolverRegistry := mkResolverRegistry { Caller : BoundContract; Transactor : BoundContract; Filterer : BoundContract }.

Section ResolverRegistryBinding.
Context {W E CO TO Tx Log : Type} {B : Bound W E CO TO Tx Log}.

Definition bindResolverRegistry (addr : address) : go E BoundContract :=
  parsed ← of_sum (GetAbi ResolverRegistryMetaData); mret (mkBound addr parsed).
Definition NewResolverRegistry (addr : address) : go E ResolverRegistry :=
  contract ← bindResolverRegistry addr; mret (mkResolverRegistry contract contract contract).
Definition NewResolverRegistryCaller (addr : address) : go E BoundContract := contract ← bindResolverRegistry addr; mret contract.
Definition NewResolverRegistryTransactor (addr : address) : go E BoundContract := contract ← bindResolverRegistry addr; mret contract.
Definition NewResolverRegistryFilterer (addr : address) : go E BoundContract := contract ← bindResolverRegistry addr; mret contract.

(** ** The caller *)
Definition MAXENDPOINTLENGTH (c : BoundContract) (opts : CO) : M (Z) :=
  out ← call c opts "MAX_ENDPOINT_LENGTH" [];
  convert g_bigint out 0.
Definition ActiveResolvers (c : BoundContract) (opts : CO) : M (list address * list bytes * list bytes) :=
  out ← call c opts "activeResolvers" [];
  Operators ← convert (g_slice g_address) out 0;
  PubKeys ← convert (g_slice g_bytes32) out 1;
  Endpoints ← convert (g_slice g_string) out 2;
  mret (Operators, PubKeys, Endpoints).
Definition GetResolver (c : BoundContract) (opts : CO) (operator : address) : M (bytes * bytes * Z * bool) :=
  out ← call c opts "getResolver" [arg g_address operator];
  PubKey ← convert g_bytes32 out 0;
  Endpoint ← convert g_string out 1;
  UpdatedAt ← convert (g_uint 64) out 2;
  Active ← convert g_bool out 3;
  mret (PubKey, Endpoint, UpdatedAt, Active).
Definition OperatorAt (c : BoundContract) (opts : CO) (i : Z) : M (address) :=
  out ← call c opts "operatorAt" [arg g_bigint i];
  convert g_address out 0.
Definition OperatorCount (c : BoundContract) (opts : CO) : M (Z) :=
  out ← call c opts "operatorCount" [];
  convert g_bigint out 0.

(** ** The transactor *)
Definition Announce (c : BoundContract) (opts : TO) (pubKey : bytes) (endpoint : bytes) : M Tx :=
  transact c opts "announce" [arg g_bytes32 pubKey; arg g_string endpoint].
Definition Revoke (c : BoundContract) (opts : TO) : M Tx :=
  transact c opts "revoke" [].

(** ** The filterer *)
Definition ResolverAnnouncedIterator : Type := Events.Iterator Log E ResolverRegistryResolverAnnounced.
Definition ResolverAnnouncedIterator_Next (c : BoundContract) : bool -> ResolverAnnouncedIterator -> bool * ResolverAnnouncedIterator :=
  Events.Next (UnpackLog c g_ResolverAnnounced "ResolverAnnounced").
Definition ResolverAnnouncedIterator_Error (it : ResolverAnnouncedIterator) : option E := Events.it_fail it.
Definition FilterResolverAnnounced (c : BoundContract) (opts : FilterOpts) (operator : list address) : M ResolverAnnouncedIterator :=
  filter g_ResolverAnnounced c opts "ResolverAnnounced" [rule g_address operator].
Definition WatchResolverAnnounced (c : BoundContract) (opts : FilterOpts) (operator : list address) :
    M (Watch.state Log E ResolverRegistryResolverAnnounced -> Watch.input Log E -> option (list (ResolverRegistryResolverAnnounced * Log) * Watch.state Log E ResolverRegistryResolverAnnounced)) :=
  watch g_ResolverAnnounced c opts "ResolverAnnounced" [rule g_address operator].
Definition ParseResolverAnnounced (c : BoundContract) (log : Log) : go E (ResolverRegistryResolverAnnounced * Log) := parse c g_ResolverAnnounced "ResolverAnnounced" log.
Definition ResolverRevokedIterator : Type := Events.Iterator Log E ResolverRegistryResolverRevoked.
Definition ResolverRevokedIterator_Next (c : BoundContract) : bool -> ResolverRevokedIterator -> bool * ResolverRevokedIterator :=
  Events.Next (UnpackLog c g_ResolverRevoked "ResolverRevoked").
Definition ResolverRevokedIterator_Error (it : ResolverRevokedIterator) : option E := Events.it_fail it.
Definition FilterResolverRevoked (c : BoundContract) (opts : FilterOpts) (operator : list address) : M ResolverRevokedIterator :=
  filter g_ResolverRevoked c opts "ResolverRevoked" [rule g_address operator].
Definition WatchResolverRevoked (c : BoundContract) (opts : FilterOpts) (operator : list address) :
    M (Watch.state Log E ResolverRegistryResolverRevoked -> Watch.input Log E -> option (list (ResolverRegistryResolverRevoked * Log) * Watch.state Log E ResolverRegistryResolverRevoked)) :=
  watch g_ResolverRevoked c opts "ResolverRevoked" [rule g_address operator].
Definition ParseResolverRevoked (c : BoundContract) (log : Log) : go E (ResolverRegistryResolverRevoked * Log) := parse c g_ResolverRevoked "ResolverRevoked" log.

(** Every read, on arguments of its Go types, ends in an error or in results of
    its Go types: the conversions of its results never panic. *)
Definition reads_typed (c : BoundContract) (opts : CO) : Prop :=
  post (wf g_bigint) (MAXENDPOINTLENGTH c opts)
  /\ post (fun '(Operators, PubKeys, Endpoints) => wf (g_slice g_address) Operators /\ wf (g_slice g_bytes32) PubKeys /\ wf (g_slice g_string) Endpoints) (ActiveResolvers c opts)
  /\ (forall operator, wf g_address operator -> post (fun '(PubKey, Endpoint, UpdatedAt, Active) => wf g_bytes32 PubKey /\ wf g_string Endpoint /\ wf (g_uint 64) UpdatedAt /\ wf g_bool Active) (GetResolver c opts operator))
  /\ (forall i, wf g_bigint i -> post (wf g_address) (OperatorAt c opts i))
  /\ post (wf g_bigint) (OperatorCount c opts).
Context {BL : BoundLaws W E CO TO Tx Log}.
Lemma ResolverRegistry_reads_typed c opts : bc_abi c = ResolverRegistryMetaData -> reads_typed c opts.
Proof. intros Hc. unfold reads_typed. split_and!; reads_typed Hc. Qed.
End ResolverRegistryBinding.
End ResolverRegistryBinding.
