(* ===== verification/Bindings.v ===== *)
(** What the generated bindings promise their callers, over any bound contract that
    respects its ABI: reads that never panic, and subscriptions that forward events. *)
From S2P Require Import Prelude Chain Events Abi NamespaceDAppBinding RecordSchemaRegistryBinding ResolverIncentivesBinding ResolverRegistryBinding.
Import Chain.

Local Open Scope Z_scope.

Module Bindings.
Section Bindings.
Context {W E CO TO Tx Log : Type} {B : Bound W E CO TO Tx Log}.

(** C19. The watch subscription of RecordSet events forwards every event: whatever its
    selects choose, the sink gets the unpacked events of the logs that arrived, in
    order, each once and none skipped; the subscription ends only when it is told to,
    or with the error of the log subscription or of the log that does not unpack,
    and it then withholds one event at most. *)
Theorem watch_forwards c o nameHash recordKey w step w' ins out s :
  NamespaceDAppBinding.WatchRecordSet c o nameHash recordKey w = (Ret step, w') ->
  Watch.run_with step ins Watch.Waiting = Some (out, s) ->
  let '(evs, err) := Events.unpack_all (UnpackLog c NamespaceDAppBinding.g_RecordSet "RecordSet") (Watch.arrived ins) in
  exists lost, evs = out ++ lost /\ (length lost <= 1)%nat
    /\ match s with
       | Watch.Waiting => lost = [] /\ err = None
       | Watch.Holding ev => lost = [ev] /\ err = None
       | Watch.Ended e => (err = None /\ (e = None \/ Watch.SubErr e ∈ ins)) \/ (lost = [] /\ e = err)
       end.
Proof.
  intros H. apply (f_equal fst) in H. unfold NamespaceDAppBinding.WatchRecordSet, Abi.watch, mbind, Abi.M_bind, Abi.lift in H.
  destruct (WatchLogs _ _ _ _ _) as [[u|e] w1]; cbn in H; [|done]. injection H as <-. apply Watch.run_forwards.
Qed.

Context {BL : BoundLaws W E CO TO Tx Log}.

(** C18. A read through a binding never panics and returns values of its Go types: for
    each of the four contracts, a binding that was made for an address answers every
    call, on arguments of their Go types, with an error or with results that the
    conversions of the generated code accept. *)
Theorem reads_never_panic addr opts ns reg inc dir :
  NamespaceDAppBinding.NewNamespaceDApp addr = Ret ns -> RecordSchemaRegistryBinding.NewRecordSchemaRegistry addr = Ret reg ->
  ResolverIncentivesBinding.NewResolverIncentives addr = Ret inc -> ResolverRegistryBinding.NewResolverRegistry addr = Ret dir ->
  NamespaceDAppBinding.reads_typed (NamespaceDAppBinding.Caller ns) opts
  /\ RecordSchemaRegistryBinding.reads_typed (RecordSchemaRegistryBinding.Caller reg) opts
  /\ ResolverIncentivesBinding.reads_typed (ResolverIncentivesBinding.Caller inc) opts
  /\ ResolverRegistryBinding.reads_typed (ResolverRegistryBinding.Caller dir) opts.
Proof.
  intros Hn Hr Hi Hd.
  assert (forall meta p, Abi.of_sum (GetAbi meta) = Ret p -> p = meta) as H.
  { intros meta p. cbn. destruct (GetAbi meta) eqn:E0; [|done]. apply GetAbi_same in E0. by intros [= <-]. }
  apply go_bind_ret in Hn as (c1 & (p1 & P1%H & [= <-])%go_bind_ret & [= <-]).
  apply go_bind_ret in Hr as (c2 & (p2 & P2%H & [= <-])%go_bind_ret & [= <-]).
  apply go_bind_ret in Hi as (c3 & (p3 & P3%H & [= <-])%go_bind_ret & [= <-]).
  apply go_bind_ret in Hd as (c4 & (p4 & P4%H & [= <-])%go_bind_ret & [= <-]). split_and!.
  - by apply NamespaceDAppBinding.NamespaceDApp_reads_typed.
  - by apply RecordSchemaRegistryBinding.RecordSchemaRegistry_reads_typed.
  - by apply ResolverIncentivesBinding.ResolverIncentives_reads_typed.
  - by apply ResolverRegistryBinding.ResolverRegistry_reads_typed.
Qed.
End Bindings.

Definition demo_contract : BoundContract := mkBound zero_address NamespaceDAppBinding.NamespaceDAppMetaData.
Definition demo_event : NamespaceDAppBinding.NamespaceDAppRecordSet :=
  NamespaceDAppBinding.mkRecordSet (replicate 32 x00) [] (replicate 32 x00) [] [] 0.
Lemma watch_forwards_witness :
  exists lost, [(demo_event, ()); (demo_event, ())] = [(demo_event, ())] ++ lost /\ (length lost <= 1)%nat.
Proof.
  destruct (watch_forwards (B := Abi.zero_bound) demo_contract (mkFilterOpts 0 0) [] [] () _ ()
    [Watch.LogArrived (); Watch.Taken; Watch.LogArrived (); Watch.Quit] [(demo_event, ())] (Watch.Ended None) eq_refl eq_refl)
    as (lost & H & Hl & _). exists lost. split; [exact H|exact Hl].
Defined.

Lemma reads_never_panic_witness :
  Abi.post (wf (g_uint 256)) (NamespaceDAppBinding.PriceOf (B := Abi.zero_bound) demo_contract () (str "alice")).
Proof.
  destruct (reads_never_panic (B := Abi.zero_bound) (BL := Abi.zero_laws) zero_address () _ _ _ _ eq_refl eq_refl eq_refl eq_refl) as [H _].
  apply H.
Defined.
End Bindings.
