(* ===== verification/Registry.v ===== *)
(** The directory of resolvers: src/contracts/contracts/ResolverRegistry.sol, where
    operators announce themselves (cmd/ddns announce-resolver) and clients find them
    (cmd/ddns resolvers, cmd/ddns-lookup --discover).

    Transactions are functions from their message and the storage to an error or the
    new storage with its events; activeResolvers allocates its arrays and fills them
    by index, and an index out of range is a panic. A history of transactions is run
    from the empty directory, its reverted ones without effect. *)
From S2P Require Import Prelude GoStrings Chain Contract.
Import Chain.

Local Open Scope Z_scope.

Module Registry.

Record Resolver := mkResolver { pubKey : bytes; endpoint : bytes; updatedAt : Z; active : bool }.
Record state := mkState { resolvers : gmap bytes Resolver; operators : list address }.
Definition empty_state : state := mkState ∅ [].
Inductive error := EmptyPubKey | EmptyEndpoint | EndpointTooLong | NotRegistered | NotPayable.   (* the last is the compiler's check *)
Inductive event := ResolverAnnounced (operator pubKey endpoint : bytes) | ResolverRevoked (operator : bytes).

Definition MAX_ENDPOINT_LENGTH : Z := 256.
Definition require (b : bool) (e : error) : go error () := if b then Ret () else Err e.
Definition resolver_of (s : state) (a : address) : Resolver := default (mkResolver zero_hash [] 0 false) (resolvers s !! a).

Definition announce (m : Contract.msg) (pk ep : bytes) (s : state) : go error (state * list event) :=
  _ ← require (negb (bool_decide (pk = zero_hash))) EmptyPubKey;
  _ ← require (negb (Contract.len ep =? 0)) EmptyEndpoint;
  _ ← require (negb (MAX_ENDPOINT_LENGTH <? Contract.len ep)) EndpointTooLong;
  let op := Contract.sender m in
  let operators' := if updatedAt (resolver_of s op) =? 0 then operators s ++ [op] else operators s in
  mret (mkState (<[op := mkResolver pk ep (Contract.uint64 (Contract.timestamp m)) true]> (resolvers s)) operators',
        [ResolverAnnounced op pk ep]).

Definition revoke (m : Contract.msg) (s : state) : go error (state * list event) :=
  let op := Contract.sender m in
  let r := resolver_of s op in
  _ ← require (active r) NotRegistered;
  mret (mkState (<[op := mkResolver (pubKey r) (endpoint r) (updatedAt r) false]> (resolvers s)) (operators s), [ResolverRevoked op]).

Definition getResolver (op : address) (s : state) : bytes * bytes * Z * bool :=
  let r := resolver_of s op in (pubKey r, endpoint r, updatedAt r, active r).
Definition operatorCount (s : state) : Z := Z.of_nat (length (operators s)).
Definition operatorAt (i : Z) (s : state) : go error address :=
  if 0 <=? i then or_panic (operators s !! Z.to_nat i) else Panic.

(** activeResolvers: the loop that counts, and the one that fills the three arrays. *)
Fixpoint count_active (s : state) (ops : list address) (n : nat) : nat :=
  match ops with
  | [] => n
  | op :: ops => count_active s ops (if active (resolver_of s op) then S n else n)
  end.
Definition store {A} (l : list A) (j : nat) (x : A) : go error (list A) :=
  if Nat.ltb j (length l) then Ret (<[j := x]> l) else Panic.
Fixpoint fill_active (s : state) (ops : list address) (j : nat) (operators pubKeys endpoints : list bytes) :
    go error (list bytes * list bytes * list bytes) :=
  match ops with
  | [] => Ret (operators, pubKeys, endpoints)
  | op :: ops =>
      let r := resolver_of s op in
      if active r then
        operators ← store operators j op;
        pubKeys ← store pubKeys j (pubKey r);
        endpoints ← store endpoints j (endpoint r);
        fill_active s ops (S j) operators pubKeys endpoints
      else fill_active s ops j operators pubKeys endpoints
  end.
Definition activeResolvers (s : state) : go error (list address * list bytes * list bytes) :=
  let n := count_active s (operators s) 0 in
  fill_active s (operators s) 0 (replicate n zero_address) (replicate n zero_hash) (replicate n []).

Inductive call := Announce (pk ep : bytes) | Revoke.
Definition dispatch (m : Contract.msg) (c : call) (s : state) : go error (state * list event) :=
  match c with Announce pk ep => announce m pk ep s | Revoke => revoke m s end.
(** A transaction; neither function is payable. *)
Definition exec (m : Contract.msg) (c : call) (s : state) : go error (state * list event) :=
  _ ← require (Contract.value m =? 0) NotPayable;
  dispatch m c s.
(** The time of a block, as the contract's uint64 cast reads it, is not zero. *)
Inductive reachable : state -> Prop :=
| reach_init : reachable empty_state
| reach_exec s m c s' evs :
    reachable s -> 0 < Contract.timestamp m < 2 ^ 64 -> exec m c s = Ret (s', evs) -> reachable s'.

(** * What the directory holds *)

Lemma dir_require_ret b e u : require b e = Ret u <-> b = true.
Proof. unfold require. destruct b, u; naive_solver. Qed.

Lemma dir_exec_ret m c s r : exec m c s = Ret r <-> Contract.value m = 0 /\ dispatch m c s = Ret r.
Proof.
  unfold exec. rewrite <- (Z.eqb_eq (Contract.value m) 0). destruct (_ =? 0); cbn; [naive_solver|]. split; [done|by intros []].
Qed.

Lemma dir_exec_free m c s : Contract.value m = 0 -> exec m c s = dispatch m c s.
Proof. intros H. unfold exec. by rewrite H. Qed.

(** An entry announced by its operator. *)
Record listed (r : Resolver) : Prop := {
  ls_key : pubKey r <> zero_hash;
  ls_endpoint : 0 < Contract.len (endpoint r) <= MAX_ENDPOINT_LENGTH;
  ls_time : updatedAt r <> 0;
}.
Record directory (s : state) : Prop := {
  dir_nodup : NoDup (operators s);
  dir_entries op r : resolvers s !! op = Some r -> listed r;
  dir_operators op : op ∈ operators s <-> is_Some (resolvers s !! op);
}.

(** What announce requires of a key and an endpoint. *)
Definition acceptable (pk ep : bytes) : bool :=
  bool_decide (pk <> zero_hash) && (0 <? Contract.len ep) && (Contract.len ep <=? MAX_ENDPOINT_LENGTH).
Lemma acceptable_true pk ep : acceptable pk ep = true <-> pk <> zero_hash /\ 0 < Contract.len ep <= MAX_ENDPOINT_LENGTH.
Proof. unfold acceptable. rewrite !andb_true_iff, bool_decide_eq_true, Z.ltb_lt, Z.leb_le. naive_solver. Qed.

Lemma announce_ret m pk ep s s' evs :
  announce m pk ep s = Ret (s', evs) ->
  acceptable pk ep = true /\ evs = [ResolverAnnounced (Contract.sender m) pk ep]
  /\ s' = mkState (<[Contract.sender m := mkResolver pk ep (Contract.uint64 (Contract.timestamp m)) true]> (resolvers s))
            (if updatedAt (resolver_of s (Contract.sender m)) =? 0 then operators s ++ [Contract.sender m] else operators s).
Proof.
  intros H. apply go_bind_ret in H as ([] & Hk%dir_require_ret%negb_true_iff%bool_decide_eq_false & H).
  apply go_bind_ret in H as ([] & He%dir_require_ret%negb_true_iff%Z.eqb_neq & H).
  apply go_bind_ret in H as ([] & Hl%dir_require_ret%negb_true_iff%Z.ltb_ge & [= <- <-]).
  rewrite acceptable_true. assert (0 <= Contract.len ep) by (unfold Contract.len; lia). split_and!; try done; lia.
Qed.

Lemma announce_succeeds m pk ep s : acceptable pk ep = true -> exists r, announce m pk ep s = Ret r.
Proof.
  intros (Hk & Hl)%acceptable_true. unfold announce. rewrite bool_decide_eq_false_2 by done. cbn [negb require mbind go_bind].
  rewrite (proj2 (Z.eqb_neq (Contract.len ep) 0)), (proj2 (Z.ltb_ge MAX_ENDPOINT_LENGTH (Contract.len ep))) by lia. eauto.
Qed.

Lemma directory_announce m pk ep s s' evs :
  directory s -> 0 < Contract.timestamp m < 2 ^ 64 -> announce m pk ep s = Ret (s', evs) -> directory s'.
Proof.
  intros [Hn He Ho] Ht ((Hk & Hl)%acceptable_true & _ & ->)%announce_ret. set (op := Contract.sender m) in *.
  assert (updatedAt (resolver_of s op) =? 0 = negb (bool_decide (is_Some (resolvers s !! op)))) as ->.
  { unfold resolver_of. destruct (resolvers s !! op) as [r|] eqn:E; cbn; [|done].
    apply Z.eqb_neq. by apply (He _ _ E). }
  split; cbn [operators resolvers].
  - case_bool_decide as Hs; cbn; [done|]. apply NoDup_app. split; [done|]. split; [|apply NoDup_singleton].
    intros x Hx ->%list_elem_of_singleton. by apply Hs, Ho.
  - intros x r. rewrite lookup_insert. case_decide; [|apply He]. intros [= <-]. split; cbn; [done|done|].
    unfold Contract.uint64. rewrite Z.mod_small; lia.
  - intros x. rewrite lookup_insert. case_bool_decide as Hs; cbn; case_decide as Hx; rewrite ?elem_of_app, ?list_elem_of_singleton, ?Ho; naive_solver.
Qed.

Lemma directory_revoke m s s' evs : directory s -> revoke m s = Ret (s', evs) -> directory s'.
Proof.
  intros [Hn He Ho] H. apply go_bind_ret in H as ([] & Ha%dir_require_ret & [= <- <-]). set (op := Contract.sender m) in *.
  unfold resolver_of in *. destruct (resolvers s !! op) as [r|] eqn:E; [|done]. cbn in *. destruct (He _ _ E).
  split; cbn [operators resolvers]; [done| |].
  - intros x r'. rewrite lookup_insert. case_decide; [|apply He]. by intros [= <-].
  - intros x. rewrite lookup_insert, Ho. case_decide; [subst; rewrite E|]; naive_solver.
Qed.

Lemma reachable_directory s : reachable s -> directory s.
Proof.
  induction 1 as [|s m [pk ep|] s' evs _ IH Ht [_ Hex]%dir_exec_ret]; cbn [dispatch] in *.
  - split; cbn; [constructor|done|]. intros op. rewrite lookup_empty. split; [by intros ?%not_elem_of_nil|by intros []].
  - by eapply directory_announce.
  - by eapply directory_revoke.
Qed.

(** * activeResolvers *)

Definition active_operators (s : state) : list address := filter (fun op => active (resolver_of s op) = true) (operators s).

Lemma count_active_ok s ops n : count_active s ops n = (n + length (filter (fun op => active (resolver_of s op) = true) ops))%nat.
Proof.
  revert n. induction ops as [|op ops IH]; intros n; cbn [count_active]; [cbn; lia|]. rewrite IH, filter_cons.
  destruct (active (resolver_of s op)); case_decide; try done; cbn [length]; lia.
Qed.

Lemma store_at {A} (xs : list A) (y x : A) n :
  store (xs ++ replicate (S n) y) (length xs) x = Ret ((xs ++ [x]) ++ replicate n y).
Proof.
  unfold store. rewrite (proj2 (Nat.ltb_lt _ _)) by (rewrite length_app, length_replicate; lia).
  rewrite insert_app_r_alt by lia. rewrite Nat.sub_diag. cbn. by rewrite <- app_assoc.
Qed.

(** Filling from the first free slot writes the rest of the active operators. *)
Lemma fill_active_ok s ops n xs ys zs :
  n = length (filter (fun op => active (resolver_of s op) = true) ops) -> length ys = length xs -> length zs = length xs ->
  let l := filter (fun op => active (resolver_of s op) = true) ops in
  fill_active s ops (length xs) (xs ++ replicate n zero_address) (ys ++ replicate n zero_hash) (zs ++ replicate n [])
  = Ret (xs ++ l, ys ++ map (fun op => pubKey (resolver_of s op)) l, zs ++ map (fun op => endpoint (resolver_of s op)) l).
Proof.
  revert n xs ys zs. induction ops as [|op ops IH]; intros n xs ys zs Hn Hy Hz; cbn [fill_active].
  - cbn in Hn. subst n. done.
  - rewrite filter_cons in Hn |- *. destruct (active (resolver_of s op)); case_decide; try done; [|by apply IH].
    cbn [length] in Hn. subst n. rewrite store_at. cbn [mbind go_bind]. rewrite <- Hy at 1. rewrite store_at. cbn [mbind go_bind].
    rewrite <- Hz at 1. rewrite store_at. cbn [mbind go_bind].
    replace (S (length xs)) with (length (xs ++ [op])) by (rewrite length_app; cbn; lia).
    rewrite IH; [by rewrite <- !app_assoc|done|rewrite !length_app; cbn; lia..].
Qed.

Lemma activeResolvers_ret s :
  activeResolvers s = Ret (active_operators s, map (fun op => pubKey (resolver_of s op)) (active_operators s),
                           map (fun op => endpoint (resolver_of s op)) (active_operators s)).
Proof.
  unfold activeResolvers, active_operators. rewrite count_active_ok. cbn [Nat.add].
  exact (fill_active_ok s (operators s) _ [] [] [] eq_refl eq_refl eq_refl).
Qed.

Lemma active_operators_elem s op : reachable s -> op ∈ active_operators s <-> active (resolver_of s op) = true.
Proof.
  intros [_ _ Ho]%reachable_directory. unfold active_operators. rewrite list_elem_of_filter, Ho. split; [by intros []|]. intros Ha.
  split; [done|]. unfold resolver_of in Ha. destruct (resolvers s !! op); [eauto|done].
Qed.

(** * A history of transactions *)

(** A block with one transaction, which may revert. *)
Definition block (m : Contract.msg) (c : call) (s : state) : state := match exec m c s with Ret p => p.1 | _ => s end.
Lemma block_reachable m c s : reachable s -> 0 < Contract.timestamp m < 2 ^ 64 -> reachable (block m c s).
Proof. intros Hs Ht. unfold block. destruct (exec m c s) as [[s' evs]|e|] eqn:E; [|done..]. by eapply reach_exec. Qed.

(** The transactions sent, oldest first, reverted ones among them. *)
Definition history : Type := list (Contract.msg * call).
Definition run (txs : history) : state := fold_left (fun s tx => block tx.1 tx.2 s) txs empty_state.
Definition timed (txs : history) : Prop := Forall (fun tx => 0 < Contract.timestamp tx.1 < 2 ^ 64) txs.

(** What a history says of an operator, without the contract's storage: the key and
    the endpoint of its last acceptable announcement, unless it has revoked since.
    A transaction that carries value does nothing. *)
Definition standing_after (op : address) (cur : option (bytes * bytes)) (tx : Contract.msg * call) : option (bytes * bytes) :=
  if bool_decide (Contract.sender tx.1 = op) && (Contract.value tx.1 =? 0) then
    match tx.2 with
    | Announce pk ep => if acceptable pk ep then Some (pk, ep) else cur
    | Revoke => None
    end
  else cur.
Definition standing (txs : history) (op : address) : option (bytes * bytes) := fold_left (standing_after op) txs None.

(** What the storage says of it. *)
Definition entry (s : state) (op : address) : option (bytes * bytes) :=
  let r := resolver_of s op in if active r then Some (pubKey r, endpoint r) else None.

Lemma resolver_of_insert op r s ops op' :
  resolver_of (mkState (<[op := r]> (resolvers s)) ops) op' = if decide (op = op') then r else resolver_of s op'.
Proof. unfold resolver_of. cbn. rewrite lookup_insert. by case_decide. Qed.

Lemma block_entry m c s op : entry (block m c s) op = standing_after op (entry s op) (m, c).
Proof.
  unfold block, standing_after, exec. cbn [fst snd]. destruct (Contract.value m =? 0); cbn [require mbind go_bind]; [|by rewrite andb_false_r].
  rewrite andb_true_r. destruct c as [pk ep|]; cbn [dispatch].
  - destruct (announce m pk ep s) as [[s' evs]|e|] eqn:E.
    + apply announce_ret in E as (-> & _ & ->). cbn [fst]. unfold entry. rewrite resolver_of_insert.
      destruct (decide (Contract.sender m = op)); [by rewrite bool_decide_eq_true_2|by rewrite bool_decide_eq_false_2].
    + destruct (acceptable pk ep) eqn:Ha; [|by destruct (bool_decide _)]. apply (announce_succeeds m _ _ s) in Ha as [r Hr]. congruence.
    + destruct (acceptable pk ep) eqn:Ha; [|by destruct (bool_decide _)]. apply (announce_succeeds m _ _ s) in Ha as [r Hr]. congruence.
  - unfold revoke, entry. destruct (active (resolver_of s (Contract.sender m))) eqn:Ha; cbn [require mbind go_bind mret go_ret fst].
    + rewrite resolver_of_insert. case_bool_decide; case_decide; done.
    + case_bool_decide as Hop; [|done]. subst op. by rewrite Ha.
Qed.

Lemma dir_run_snoc txs tx : run (txs ++ [tx]) = block tx.1 tx.2 (run txs).
Proof. unfold run. by rewrite fold_left_app. Qed.
Lemma dir_run_reachable txs : timed txs -> reachable (run txs).
Proof.
  induction txs as [|tx txs IH] using rev_ind; [constructor|]. intros [Ht [Htx _]%Forall_cons]%Forall_app.
  rewrite dir_run_snoc. apply block_reachable; auto.
Qed.
Lemma run_entry txs op : entry (run txs) op = standing txs op.
Proof.
  unfold standing. induction txs as [|[m c] txs IH] using rev_ind; [done|].
  rewrite dir_run_snoc, fold_left_app. cbn [fold_left]. rewrite <- IH. apply block_entry.
Qed.

(** C17. The directory lists exactly the operators whose last word stands: over any
    history of transactions, reverted ones included, activeResolvers returns without
    a panic three lists of one length; an operator is in the first, once, if and only
    if it has made an acceptable announcement and not revoked since, and the key and
    the endpoint beside it are those of its latest acceptable announcement, a
    non-zero key and an endpoint of 1 to 256 bytes. *)
Theorem directory_exact txs :
  timed txs ->
  exists ops keys eps, activeResolvers (run txs) = Ret (ops, keys, eps) /\ NoDup ops /\ length keys = length ops /\ length eps = length ops
    /\ (forall op, op ∈ ops <-> is_Some (standing txs op))
    /\ forall i op, ops !! i = Some op ->
         exists pk ep, standing txs op = Some (pk, ep) /\ keys !! i = Some pk /\ eps !! i = Some ep
           /\ pk <> zero_hash /\ 0 < Contract.len ep <= MAX_ENDPOINT_LENGTH.
Proof.
  intros Ht. pose proof (dir_run_reachable _ Ht) as Hre. pose proof (reachable_directory _ Hre) as [Hn He Ho]. set (s := run txs) in *.
  assert (forall op, standing txs op = entry s op) as Hst by (intros; symmetry; apply run_entry).
  eexists _, _, _. split; [apply activeResolvers_ret|]. split; [by apply NoDup_filter|]. rewrite !length_map. split; [done|]. split; [done|].
  assert (forall op, op ∈ active_operators s <-> active (resolver_of s op) = true) as Hin by (intros op; by apply active_operators_elem).
  split.
  - intros op. rewrite Hin, Hst. unfold entry. destruct (active _); [by split; eauto|]. split; [done|by intros []].
  - intros i op Hi. rewrite !list_lookup_fmap, Hi, Hst.
    assert (active (resolver_of s op) = true) as Ha by (apply Hin; by eapply list_elem_of_lookup_2).
    unfold entry. rewrite Ha. eexists _, _. split; [reflexivity|]. split; [done|]. split; [done|].
    unfold resolver_of in *. destruct (resolvers s !! op) as [r|] eqn:E; [|done]. cbn. by destruct (He _ _ E).
Qed.

(** * Announcements, a revocation and a re-announcement *)
Definition demo_msg (op : address) (t : Z) : Contract.msg := Contract.mkMsg op 0 t true.
Definition demo_history : history :=
  [(demo_msg (be_bytes 20 1) 10, Announce (replicate 32 x01) (str "http://a"));
   (demo_msg (be_bytes 20 2) 11, Announce (replicate 32 x02) (str "http://b"));
   (demo_msg (be_bytes 20 1) 12, Revoke);
   (demo_msg (be_bytes 20 2) 13, Announce (replicate 32 x00) (str "http://c"));
   (demo_msg (be_bytes 20 2) 14, Announce (replicate 32 x03) (str "http://d"))].
Definition demo_state : state := run (take 3 demo_history).
Lemma demo_timed : timed demo_history.
Proof. repeat (apply Forall_cons; split; [cbn; lia|]). constructor. Qed.
Lemma demo_directory : reachable demo_state.
Proof. apply dir_run_reachable, Forall_take, demo_timed. Qed.
Lemma directory_exact_witness :
  exists ops keys eps, activeResolvers (run demo_history) = Ret (ops, keys, eps) /\ be_bytes 20 2 ∈ ops /\ be_bytes 20 1 ∉ ops.
Proof.
  destruct (directory_exact demo_history demo_timed) as (ops & keys & eps & Hr & _ & _ & _ & Hin & _).
  exists ops, keys, eps. split; [exact Hr|]. rewrite !Hin. split.
  - exists (replicate 32 x03, str "http://d"). vm_refl.
  - assert (standing demo_history (be_bytes 20 1) = None) as -> by vm_refl. by intros [].
Defined.
End Registry.
