(* ===== verification/Node.v ===== *)
(** An Ethereum node that runs the contracts, as the generated bindings see it.

    The contracts of Contract.v, Incentives.v and Registry.v live at addresses; a
    call by ABI name and values is dispatched to the view or the transaction of that
    name, and the events of mined transactions are kept as logs. [node_bound] is an
    instance of the interface of Abi.v, and [node_writer] is the owner's tool
    (cmd/ddns/main.go, channels.go) over the bindings: each transaction is the
    binding's, submitted and waited for. *)
From S2P Require Import Prelude GoStrings Net Encoding Query Chain Events Cache Pki Zk Pay Cli Handle Lookup Contract Authority Incentives Registry Owner Channels Deployment Abi NamespaceDAppBinding RecordSchemaRegistryBinding ResolverIncentivesBinding ResolverRegistryBinding.
Import Chain.

Local Open Scope string_scope.
Local Open Scope Z_scope.
Local Open Scope list_scope.

Module Node.
#[local] Existing Instances Abi.M_ret Abi.M_bind.

(** An event of one of the contracts. *)
Inductive event :=
| NsEvent (ev : Contract.event) | IncEvent (ev : Incentives.event) | DirEvent (ev : Registry.event).

(** The world of Deployment.v with the other two contracts, and the events so far, in
    order, each with its block. *)
Record node := mkNode {
  n_world : Deployment.world; n_inc : Incentives.state; n_dir : Registry.state; n_history : list (Z * event) }.

Record log := mkLog { l_block : Z; l_address : address; l_event : string; l_args : list value }.
Record txn := mkTxn { tx_to : address; tx_from : address; tx_value : Z; tx_method : string; tx_args : list value }.
Record opts := mkOpts { From : address; Value : Z }.
Inductive error := PackFailed | ExecutionReverted | UnpackFailed | Panicked.

(** A function of a contract, by its name and arguments. *)
Definition table (R : Type) : Type := list (string * (list value -> option R)).
Definition select {R} (t : table R) (name : string) (args : list value) : option R :=
  match List.find (fun p => String.eqb p.1 name) t with Some p => p.2 args | None => None end.

Section Node.
Context {K : Contract.Keccak} {IM : Contract.Immutables}.
Variable namespace_addr registry_addr incentives_addr directory_addr : address.
Variable ecrecover : bytes -> Z -> bytes -> bytes -> address.

Definition strings (l : list bytes) : value := g_value (g_slice g_string) l.
Definition of_go {E A} (r : go E A) (f : A -> list value) : option (list value) :=
  match r with Ret a => Some (f a) | _ => None end.
Abbreviation record := (g_value NamespaceDAppBinding.g_NamespaceDAppRecord).

(** ** The views *)
Definition constant (z : Z) : list value -> option (list value) :=
  fun args => match args with [] => Some [VUint z] | _ => None end.
Definition ns_views (n : node) : table (list value) :=
  let s := Contract.ns (Deployment.w_store (n_world n)) in
  let now := Deployment.w_now (n_world n) in
  [("MAX_COMMITMENT_AGE", constant Contract.MAX_COMMITMENT_AGE);
   ("MAX_FIELD_NAME_LENGTH", constant Contract.MAX_FIELD_NAME_LENGTH);
   ("MAX_FIELD_VALUE_LENGTH", constant Contract.MAX_FIELD_VALUE_LENGTH);
   ("MAX_RECORD_FIELDS", constant Contract.MAX_RECORD_FIELDS);
   ("MAX_SELECTOR_LENGTH", constant Contract.MAX_SELECTOR_LENGTH);
   ("MIN_COMMITMENT_AGE", constant Contract.MIN_COMMITMENT_AGE);
   ("REGISTRATION_PERIOD", constant Contract.REGISTRATION_PERIOD);
   ("basePrice", constant Contract.basePrice);
   ("treasurer", fun args => match args with [] => Some [VAddress Contract.treasurer] | _ => None end);
   ("registry", fun args => match args with [] => Some [VAddress registry_addr] | _ => None end);
   ("available", fun args => match args with
      [VString name] => Some [VBool (negb (Contract.active now (Contract.getDomain name s)))] | _ => None end);
   ("ownerOf", fun args => match args with
      [VString name] => let d := Contract.getDomain name s in
        Some [VAddress (if Contract.active now d then D_Owner d else zero_address)] | _ => None end);
   ("commitments", fun args => match args with
      [VBytesN c] => Some [VUint (default 0 (Contract.commitments s !! c))] | _ => None end);
   ("getDomain", fun args => match args with
      [VString name] => let d := Contract.getDomain name s in
        Some [VAddress (D_Owner d); VBytes (D_PubKey d); VUint (D_Expiry d); VUint (D_Generation d)] | _ => None end);
   ("priceOf", fun args => match args with [VString name] => of_go (Contract.priceOf name) (fun p => [VUint p]) | _ => None end);
   ("makeCommitment", fun args => match args with
      [VString name; VAddress owner; VBytes pubKey; VBytesN secret] =>
        Some [VBytesN (Contract.makeCommitment name owner pubKey secret)] | _ => None end);
   ("recordKeyOf", fun args => match args with
      [VString typ; VString sel] => Some [VBytesN (Contract.recordKeyOf typ sel)] | _ => None end);
   ("lookup", fun args => match args with
      [VString name; VString typ; VString sel] => Some [record (Contract.lookup_record now name typ sel s)] | _ => None end);
   ("listRecords", fun args => match args with
      [VString name] => Some [VSlice (map record (Contract.listRecords now name s))] | _ => None end);
   ("resolve", fun args => match args with
      [VString name; VString typ; VString sel] =>
        let '(r, owner, pubKey) := Contract.resolve now name typ sel s in
        Some [record r; VAddress owner; VBytes pubKey] | _ => None end)].

(** The registry's limits (the literals of its checks in Contract.v) and its views. *)
Definition field_spec (f : Contract.FieldSpec) : value :=
  g_value RecordSchemaRegistryBinding.g_FieldSpec
    (RecordSchemaRegistryBinding.mkFieldSpec (Contract.fs_name f) (Contract.fs_mandatory f)).
Definition reg_views (n : node) : table (list value) :=
  let r := Contract.reg (Deployment.w_store (n_world n)) in
  [("MAX_FIELDS", constant 16); ("MAX_FIELD_NAME_LENGTH", constant 32); ("MAX_TYPE_NAME_LENGTH", constant 32);
   ("getSchema", fun args => match args with
      [VString name] => of_go (Contract.getSchema r name) (fun l => [VSlice (map field_spec l)]) | _ => None end);
   ("listTypes", fun args => match args with [] => Some [strings (Contract.typeNames r)] | _ => None end);
   ("typeExists", fun args => match args with [VString name] => Some [VBool (Contract.typeExists r name)] | _ => None end);
   ("mandatoryFields", fun args => match args with
      [VBytesN h] => of_go (Contract.mandatoryFields r h) (fun l => [strings l]) | _ => None end)].

Definition inc_views (n : node) : table (list value) :=
  [("MIN_DURATION", constant Incentives.MIN_DURATION);
   ("SETTLEMENT_WINDOW", constant Incentives.SETTLEMENT_WINDOW);
   ("channels", fun args => match args with
      [VBytesN id] => let ch := Incentives.channel_of (n_inc n) id in
        Some [VAddress (Incentives.client ch); VAddress (Incentives.resolver ch); VUint (Incentives.deposit ch);
              VUint (Incentives.claimed ch); VUint (Incentives.expiresAt ch)] | _ => None end);
   ("voucherDigest", fun args => match args with
      [VBytesN id; VUint cumulative] =>
        Some [VBytesN (Pay.sol_voucherDigest Contract.keccak256 incentives_addr id cumulative)] | _ => None end)].

Definition dir_views (n : node) : table (list value) :=
  [("MAX_ENDPOINT_LENGTH", constant Registry.MAX_ENDPOINT_LENGTH);
   ("operatorCount", constant (Registry.operatorCount (n_dir n)));
   ("operatorAt", fun args => match args with
      [VUint i] => of_go (Registry.operatorAt i (n_dir n)) (fun op => [VAddress op]) | _ => None end);
   ("getResolver", fun args => match args with
      [VAddress op] => let '(pk, ep, at_, act) := Registry.getResolver op (n_dir n) in
        Some [VBytesN pk; VString ep; VUint at_; VBool act] | _ => None end);
   ("activeResolvers", fun args => match args with
      [] => of_go (Registry.activeResolvers (n_dir n)) (fun '(ops, keys, eps) =>
        [g_value (g_slice g_address) ops; g_value (g_slice g_bytes32) keys; strings eps]) | _ => None end)].

Definition views (addr : address) (n : node) : table (list value) :=
  if bool_decide (addr = namespace_addr) then ns_views n
  else if bool_decide (addr = registry_addr) then reg_views n
  else if bool_decide (addr = incentives_addr) then inc_views n
  else if bool_decide (addr = directory_addr) then dir_views n
  else [].

(** ** The transactions *)
Inductive call := NsCall (c : Contract.call) | IncCall (c : Incentives.call) | DirCall (c : Registry.call).

(** The strings of a string[]. *)
Definition of_strings (v : value) : option (list bytes) := g_of (g_slice g_string) v.
Definition ns_calls : table call :=
  [("commit", fun args => match args with [VBytesN c] => Some (NsCall (Contract.Commit c)) | _ => None end);
   ("register", fun args => match args with
      [VString name; VBytes pubKey; VBytesN secret] => Some (NsCall (Contract.Register name pubKey secret)) | _ => None end);
   ("renew", fun args => match args with [VString name] => Some (NsCall (Contract.Renew name)) | _ => None end);
   ("transfer", fun args => match args with
      [VString name; VAddress owner; VBytes pubKey] => Some (NsCall (Contract.Transfer name owner pubKey)) | _ => None end);
   ("withdraw", fun args => match args with [VAddress dest] => Some (NsCall (Contract.Withdraw dest)) | _ => None end);
   ("setRecord", fun args => match args with
      [VString name; VString typ; VString sel; names; vals; VUint ttl; VBytes sig; VBytesN com] =>
        match of_strings names, of_strings vals with
        | Some names, Some vals => Some (NsCall (Contract.SetRecord name typ sel names vals ttl sig com))
        | _, _ => None
        end
      | _ => None end);
   ("removeRecord", fun args => match args with
      [VString name; VString typ; VString sel] => Some (NsCall (Contract.RemoveRecord name typ sel)) | _ => None end)].
Definition reg_calls : table call :=
  [("declareType", fun args => match args with
      [VString name; mandatory; optional] =>
        match of_strings mandatory, of_strings optional with
        | Some mandatory, Some optional => Some (NsCall (Contract.DeclareType name mandatory optional))
        | _, _ => None
        end
      | _ => None end)].
Definition inc_calls : table call :=
  [("openChannel", fun args => match args with
      [VAddress operator; VUint duration] => Some (IncCall (Incentives.OpenChannel operator duration)) | _ => None end);
   ("claim", fun args => match args with
      [VBytesN id; VUint cumulative; VBytes sig] => Some (IncCall (Incentives.Claim id cumulative sig)) | _ => None end);
   ("closeChannel", fun args => match args with [VBytesN id] => Some (IncCall (Incentives.CloseChannel id)) | _ => None end)].
Definition dir_calls : table call :=
  [("announce", fun args => match args with [VBytesN pk; VString ep] => Some (DirCall (Registry.Announce pk ep)) | _ => None end);
   ("revoke", fun args => match args with [] => Some (DirCall Registry.Revoke) | _ => None end)].
Definition calls (addr : address) : table call :=
  if bool_decide (addr = namespace_addr) then ns_calls
  else if bool_decide (addr = registry_addr) then reg_calls
  else if bool_decide (addr = incentives_addr) then inc_calls
  else if bool_decide (addr = directory_addr) then dir_calls
  else [].

(** A transaction in the next block; [None] if it reverts. *)
Definition execute (t : txn) (n : node) : option node :=
  let m := Contract.mkMsg (tx_from t) (tx_value t) (Deployment.w_now (n_world n)) true in
  let history evs := n_history n ++ map (pair (Deployment.w_now (n_world n))) evs in
  match select (calls (tx_to t)) (tx_method t) (tx_args t) with
  | Some (NsCall c) =>
      match Contract.exec m c (Deployment.w_store (n_world n)) with
      | Ret (st, evs) => Some (mkNode (Deployment.with_store st (n_world n)) (n_inc n) (n_dir n) (history (map NsEvent evs)))
      | _ => None
      end
  | Some (IncCall c) =>
      match Incentives.exec incentives_addr ecrecover m c (n_inc n) with
      | Ret (s, evs) => Some (mkNode (n_world n) s (n_dir n) (history (map IncEvent evs)))
      | _ => None
      end
  | Some (DirCall c) =>
      match Registry.exec m c (n_dir n) with
      | Ret (s, evs) => Some (mkNode (n_world n) (n_inc n) s (history (map DirEvent evs)))
      | _ => None
      end
  | None => None
  end.

(** ** The logs *)
Definition ns_log (ev : Contract.event) : address * string * list value :=
  match ev with
  | Contract.Committed c at_ => (namespace_addr, "Committed", [VBytesN c; VUint at_])
  | Contract.Registered h name owner pubKey expiry generation fee =>
      (namespace_addr, "Registered", [VBytesN h; VString name; VAddress owner; VBytes pubKey; VUint expiry; VUint generation; VUint fee])
  | Contract.Renewed h expiry fee => (namespace_addr, "Renewed", [VBytesN h; VUint expiry; VUint fee])
  | Contract.Transferred h oldOwner newOwner pubKey =>
      (namespace_addr, "Transferred", [VBytesN h; VAddress oldOwner; VAddress newOwner; VBytes pubKey])
  | Contract.Withdrawn dest amount => (namespace_addr, "Withdrawn", [VAddress dest; VUint amount])
  | Contract.RecordSet h name key typ sel ttl =>
      (namespace_addr, "RecordSet", [VBytesN h; VString name; VBytesN key; VString typ; VString sel; VUint ttl])
  | Contract.RecordRemoved h name key typ sel =>
      (namespace_addr, "RecordRemoved", [VBytesN h; VString name; VBytesN key; VString typ; VString sel])
  | Contract.TypeDeclared h name declarer mandatory optional =>
      (registry_addr, "TypeDeclared", [VBytesN h; VString name; VAddress declarer; VUint mandatory; VUint optional])
  end.
Definition inc_log (ev : Incentives.event) : string * list value :=
  match ev with
  | Incentives.ChannelOpened id client resolver deposit expiresAt =>
      ("ChannelOpened", [VBytesN id; VAddress client; VAddress resolver; VUint deposit; VUint expiresAt])
  | Incentives.Claimed id cumulative paid => ("Claimed", [VBytesN id; VUint cumulative; VUint paid])
  | Incentives.ChannelClosed id refunded => ("ChannelClosed", [VBytesN id; VUint refunded])
  end.
Definition dir_log (ev : Registry.event) : string * list value :=
  match ev with
  | Registry.ResolverAnnounced op pk ep => ("ResolverAnnounced", [VAddress op; VBytesN pk; VString ep])
  | Registry.ResolverRevoked op => ("ResolverRevoked", [VAddress op])
  end.
Definition log_of (p : Z * event) : log :=
  match p.2 with
  | NsEvent ev => let '(a, name, args) := ns_log ev in mkLog p.1 a name args
  | IncEvent ev => let '(name, args) := inc_log ev in mkLog p.1 incentives_addr name args
  | DirEvent ev => let '(name, args) := dir_log ev in mkLog p.1 directory_addr name args
  end.

(** A topic, of an indexed argument; a rule without items matches every topic. *)
Definition topic (v : value) : option bytes := match v with VAddress a => Some a | VBytesN b => Some b | _ => None end.
Definition rule_matches (rule : list value) (arg : value) : bool :=
  match rule with [] => true | _ => existsb (fun r => bool_decide (topic r = topic arg)) rule end.
Definition indexed_args (a : abi) (name : string) (args : list value) : list value :=
  match event_of a name with
  | Some ins => map snd (List.filter (fun p => p.1.1) (zip ins args))
  | None => []
  end.
Definition log_matches (c : BoundContract) (o : FilterOpts) (name : string) (rules : list (list value)) (l : log) : bool :=
  (Start o <=? l_block l) && (l_block l <=? End_ o) && bool_decide (l_address l = bc_address c) && String.eqb (l_event l) name
  && forallb (fun p => rule_matches p.1 p.2) (zip rules (indexed_args (bc_abi c) name (l_args l))).

(** Every method of the four ABIs is a view or a transaction above. *)
Definition dispatched {R} (a : abi) (t : table R) (t' : table call) : bool :=
  forallb (fun m => existsb (String.eqb m.1) (map fst t ++ map fst t')) (Methods a).
Lemma every_method_dispatched n :
  dispatched NamespaceDAppBinding.NamespaceDAppMetaData (ns_views n) ns_calls = true
  /\ dispatched RecordSchemaRegistryBinding.RecordSchemaRegistryMetaData (reg_views n) reg_calls = true
  /\ dispatched ResolverIncentivesBinding.ResolverIncentivesMetaData (inc_views n) inc_calls = true
  /\ dispatched ResolverRegistryBinding.ResolverRegistryMetaData (dir_views n) dir_calls = true.
Proof. repeat split. Qed.

(** ** The bound contract *)
Definition Call_ (c : BoundContract) (o : ()) (name : string) (args : list value) (n : node) : (list value + error) * node :=
  (if packs (bc_abi c) name args then
     match select (views (bc_address c) n) name args with Some out => inl out | None => inr ExecutionReverted end
   else inr PackFailed, n).
Definition Transact_ (c : BoundContract) (o : opts) (name : string) (args : list value) (n : node) : (txn + error) * node :=
  (if packs (bc_abi c) name args then inl (mkTxn (bc_address c) (From o) (Value o) name args) else inr PackFailed, n).
#[export] Instance node_bound : Bound node error () opts txn log := {|
  GetAbi a := inl a;
  Call := Call_;
  Transact := Transact_;
  FilterLogs c o name rules n := (inl (List.filter (log_matches c o name rules) (map log_of (n_history n)), None), n);
  WatchLogs c o name rules n := (inl (), n);
  UnpackLog A c g name l :=
    if String.eqb (l_event l) name then match g_of g (VTuple (l_args l)) with Some a => inl a | None => inr UnpackFailed end
    else inr UnpackFailed;
  ConvertType A g v := match g_of g v with Some a => Ret a | None => Panic end;
|}.
Definition WaitMined (t : txn) (n : node) : receipt * node :=
  match execute t n with Some n' => (Mined, n') | None => (Reverted, n) end.

(** ** The client and the tool over the bindings *)
Definition ns_contract : BoundContract := mkBound namespace_addr NamespaceDAppBinding.NamespaceDAppMetaData.
Definition reg_contract : BoundContract := mkBound registry_addr RecordSchemaRegistryBinding.RecordSchemaRegistryMetaData.
Definition inc_contract : BoundContract := mkBound incentives_addr ResolverIncentivesBinding.ResolverIncentivesMetaData.
Definition dir_contract : BoundContract := mkBound directory_addr ResolverRegistryBinding.ResolverRegistryMetaData.

(** The outcome of a read, as the chain client and the tool take it. *)
Definition sum {A} (m : Abi.M (W := node) (E := error) A) (n : node) : (A + error) * node :=
  match m n with (Ret a, n) => (inl a, n) | (Err e, n) => (inr e, n) | (Panic, n) => (inr Panicked, n) end.
Definition result {A} (m : Abi.M (W := node) (E := error) A) (n : node) : option A * node :=
  match m n with (Ret a, n) => (Some a, n) | (_, n) => (None, n) end.

(** The chain client (client.go) over the bindings. *)
#[local] Instance node_reader : ChainReader node (retry_error error Empty_set) :=
  Client (fun name typ sel => sum (NamespaceDAppBinding.Resolve ns_contract () name typ sel))
    (fun name => sum (NamespaceDAppBinding.GetDomain ns_contract () name))
    (fun name => sum (NamespaceDAppBinding.ListRecords ns_contract () name))
    (sum (RecordSchemaRegistryBinding.ListTypes reg_contract ()))
    (fun n => (inl (Deployment.w_now (n_world n)), n)) (fun _ n => (true, n)) (fun _ => None).

(** The transaction of each command, made by the binding with the tool's options. *)
Definition transaction (from : address) (t : tx) : Abi.M (W := node) (E := error) txn :=
  match t with
  | TxCommit commitment => NamespaceDAppBinding.Commit ns_contract (mkOpts from 0) commitment
  | TxRegister name pubKey secret value => NamespaceDAppBinding.Register ns_contract (mkOpts from value) name pubKey secret
  | TxSetRecord name typ sel names vals ttl sig commitment =>
      NamespaceDAppBinding.SetRecord ns_contract (mkOpts from 0) name typ sel names vals ttl sig commitment
  | TxRemoveRecord name typ sel => NamespaceDAppBinding.RemoveRecord ns_contract (mkOpts from 0) name typ sel
  | TxTransfer name newOwner newPub => NamespaceDAppBinding.Transfer ns_contract (mkOpts from 0) name newOwner newPub
  | TxRenew name value => NamespaceDAppBinding.Renew ns_contract (mkOpts from value) name
  | TxDeclareType name mandatory optional =>
      RecordSchemaRegistryBinding.DeclareType reg_contract (mkOpts from 0) name mandatory optional
  | TxWithdraw dest => NamespaceDAppBinding.Withdraw ns_contract (mkOpts from 0) dest
  | TxAnnounce pk endpoint => ResolverRegistryBinding.Announce dir_contract (mkOpts from 0) pk endpoint
  | TxOpenChannel operator seconds value =>
      ResolverIncentivesBinding.OpenChannel inc_contract (mkOpts from value) operator seconds
  | TxClaim id wei sig => ResolverIncentivesBinding.Claim inc_contract (mkOpts from 0) id wei sig
  | TxCloseChannel id => ResolverIncentivesBinding.CloseChannel inc_contract (mkOpts from 0) id
  end.
(** send: the binding's transaction, waited for. *)
Definition Submit_ (t : tx) (n : node) : receipt * node :=
  match transaction (Deployment.w_account (n_world n)) t n with
  | (Ret tx, n) => WaitMined tx n
  | (_, n) => (NotSubmitted, n)
  end.

(** What other accounts do to the contracts in a second. *)
Variable others : Z -> Contract.store -> Contract.store.
Definition with_world (n : node) (w : Deployment.world) : node := mkNode w (n_inc n) (n_dir n) (n_history n).
#[local] Instance node_writer : ChainWriter node := {
  PriceOf name := result (NamespaceDAppBinding.PriceOf ns_contract () name);
  MakeCommitment name from pub secret := result (NamespaceDAppBinding.MakeCommitment ns_contract () name from pub secret);
  MINCOMMITMENTAGE := result (NamespaceDAppBinding.MINCOMMITMENTAGE ns_contract ());
  GetDomain name n :=
    let '(r, n) := result (NamespaceDAppBinding.GetDomain ns_contract () name) n in
    ((fun '(owner, pubKey, expiry, generation) => mkDomain owner pubKey expiry generation) <$> r, n);
  Submit := Submit_;
  RandRead k n := let '(r, w) := RandRead (ChainWriter := Deployment.writer others) k (n_world n) in (r, with_world n w);
  SleepSecond n := with_world n (SleepSecond (ChainWriter := Deployment.writer others) (n_world n));
}.

(** The widths Go gives the arguments of a transaction. *)
Definition tx_typed (t : tx) : Prop :=
  match t with
  | TxCommit commitment => length commitment = 32%nat
  | TxRegister _ _ secret _ => length secret = 32%nat
  | TxSetRecord _ _ _ _ _ ttl _ commitment => 0 <= ttl < 2 ^ 32 /\ length commitment = 32%nat
  | TxTransfer _ newOwner _ => length newOwner = 20%nat
  | TxWithdraw dest => length dest = 20%nat
  | TxAnnounce pk _ => length pk = 32%nat
  | TxOpenChannel operator seconds _ => length operator = 20%nat /\ 0 <= seconds < 2 ^ 64
  | TxClaim id wei _ => length id = 32%nat /\ 0 <= wei < 2 ^ 256
  | TxCloseChannel id => length id = 32%nat
  | _ => True
  end.

Hypothesis addresses_distinct : NoDup [namespace_addr; registry_addr; incentives_addr; directory_addr].

Lemma views_at n : views namespace_addr n = ns_views n /\ views registry_addr n = reg_views n
  /\ views incentives_addr n = inc_views n /\ views directory_addr n = dir_views n.
Proof.
  pose proof addresses_distinct as H. clear addresses_distinct ecrecover. rewrite !NoDup_cons, !not_elem_of_cons in H. unfold views.
  repeat case_bool_decide; naive_solver.
Qed.
Lemma calls_at : calls namespace_addr = ns_calls /\ calls registry_addr = reg_calls
  /\ calls incentives_addr = inc_calls /\ calls directory_addr = dir_calls.
Proof.
  pose proof addresses_distinct as H. clear addresses_distinct ecrecover. rewrite !NoDup_cons, !not_elem_of_cons in H. unfold calls.
  repeat case_bool_decide; naive_solver.
Qed.

Lemma strings_typed l : typed (TSlice TString) (strings l) = true.
Proof. cbn. induction l; done. Qed.
Lemma of_strings_strings l : of_strings (strings l) = Some l.
Proof. apply (g_of_value (g_slice g_string)). Qed.

(** A read of the bindings is the view's answer. *)
Lemma call_view c name args n out :
  packs (bc_abi c) name args = true -> select (views (bc_address c) n) name args = Some out ->
  Abi.call c () name args n = (Ret out, n).
Proof. intros Hp Hs. unfold Abi.call, Abi.lift. cbn. unfold Call_. by rewrite Hp, Hs. Qed.
Lemma convert_at {A} (g : gotype A) out i a n : out !! i = Some (g_value g a) -> Abi.convert g out i n = (Ret a, n).
Proof. intros Hi. unfold Abi.convert. rewrite Hi. cbn. by rewrite g_of_value. Qed.
Lemma call_bind {A} c name args (f : list value -> Abi.M A) n out :
  packs (bc_abi c) name args = true -> select (views (bc_address c) n) name args = Some out ->
  (Abi.call c () name args ≫= f) n = f out n.
Proof. intros Hp Hs. unfold mbind, Abi.M_bind. by rewrite (call_view _ _ _ _ _ Hp Hs). Qed.
Lemma convert_bind {A C} (g : gotype A) out i a (f : A -> Abi.M C) n :
  out !! i = Some (g_value g a) -> (Abi.convert g out i ≫= f) n = f a n.
Proof. intros Hi. unfold mbind, Abi.M_bind. by rewrite (convert_at _ _ _ _ _ Hi). Qed.

(** [f] on a node is [g] on the part [part] of it. *)
Definition simulates {W A} (part : node -> W) (f : node -> A * node) (g : W -> A * W) : Prop :=
  forall n, (f n).1 = (g (part n)).1 /\ part (f n).2 = (g (part n)).2.

Ltac at_address := cbn [bc_address bc_abi ns_contract reg_contract inc_contract dir_contract];
  rewrite ?(proj1 (views_at _)), ?(proj1 (proj2 (views_at _))), ?(proj1 (proj2 (proj2 (views_at _)))), ?(proj2 (proj2 (proj2 (views_at _)))).
(** A read: its call is packed and dispatched, then its results are converted. *)
Ltac read_view := erewrite call_bind; [|reflexivity|at_address; reflexivity].
Ltac read_out := erewrite convert_bind by reflexivity.

Lemma node_Resolve name typ sel n :
  NamespaceDAppBinding.Resolve ns_contract () name typ sel n
  = (Ret (Contract.resolve (Deployment.w_now (n_world n)) name typ sel (Contract.ns (Deployment.w_store (n_world n)))), n).
Proof.
  unfold NamespaceDAppBinding.Resolve. set (r := Contract.resolve _ _ _ _ _). destruct r as [[rec owner] pubKey] eqn:E.
  erewrite call_bind; [|reflexivity|at_address; cbn; subst r; rewrite E; reflexivity]. do 3 read_out. done.
Qed.
Lemma node_GetDomain name n :
  let d := Contract.getDomain name (Contract.ns (Deployment.w_store (n_world n))) in
  NamespaceDAppBinding.GetDomain ns_contract () name n = (Ret (D_Owner d, D_PubKey d, D_Expiry d, D_Generation d), n).
Proof. intros d. unfold NamespaceDAppBinding.GetDomain. read_view. do 4 read_out. done. Qed.
Lemma node_ListRecords name n :
  NamespaceDAppBinding.ListRecords ns_contract () name n
  = (Ret (Contract.listRecords (Deployment.w_now (n_world n)) name (Contract.ns (Deployment.w_store (n_world n)))), n).
Proof.
  unfold NamespaceDAppBinding.ListRecords. read_view. apply (convert_at (g_slice NamespaceDAppBinding.g_NamespaceDAppRecord)). reflexivity.
Qed.
Lemma node_ListTypes n :
  RecordSchemaRegistryBinding.ListTypes reg_contract () n = (Ret (Contract.typeNames (Contract.reg (Deployment.w_store (n_world n)))), n).
Proof. unfold RecordSchemaRegistryBinding.ListTypes. read_view. apply (convert_at (g_slice g_string)). reflexivity. Qed.
Lemma node_ActiveResolvers n :
  ResolverRegistryBinding.ActiveResolvers dir_contract () n
  = match Registry.activeResolvers (n_dir n) with Ret r => (Ret r, n) | _ => (Err ExecutionReverted, n) end.
Proof.
  unfold ResolverRegistryBinding.ActiveResolvers. rewrite Registry.activeResolvers_ret.
  erewrite call_bind; [|reflexivity|at_address; cbn; rewrite Registry.activeResolvers_ret; reflexivity].
  erewrite (convert_bind (g_slice g_address)) by reflexivity. erewrite (convert_bind (g_slice g_bytes32)) by reflexivity.
  erewrite (convert_bind (g_slice g_string)) by reflexivity. done.
Qed.
Lemma node_PriceOf name n :
  result (NamespaceDAppBinding.PriceOf ns_contract () name) n = (match Contract.priceOf name with Ret p => Some p | _ => None end, n).
Proof.
  unfold result, NamespaceDAppBinding.PriceOf. destruct (Contract.priceOf name) as [p|e|] eqn:E.
  1: erewrite call_bind; [|reflexivity|at_address; cbn; rewrite E; reflexivity]; by erewrite (convert_at g_bigint).
  all: unfold mbind, Abi.M_bind, Abi.call, Abi.lift; cbn [Call node_bound]; unfold Call_; at_address; cbn; by rewrite E.
Qed.
Lemma node_MakeCommitment name owner pubKey secret n :
  length owner = 20%nat -> length secret = 32%nat ->
  NamespaceDAppBinding.MakeCommitment ns_contract () name owner pubKey secret n
  = (Ret (Contract.makeCommitment name owner pubKey secret), n).
Proof.
  intros Ho Hs. unfold NamespaceDAppBinding.MakeCommitment. erewrite call_bind; [|unfold packs; cbn; by rewrite Ho, Hs|at_address; reflexivity].
  by erewrite (convert_at g_bytes32).
Qed.
Lemma node_MINCOMMITMENTAGE n : NamespaceDAppBinding.MINCOMMITMENTAGE ns_contract () n = (Ret Contract.MIN_COMMITMENT_AGE, n).
Proof. unfold NamespaceDAppBinding.MINCOMMITMENTAGE. read_view. by erewrite (convert_at g_bigint). Qed.

(** ** Transactions *)

Lemma transact_packs c o name args n :
  packs (bc_abi c) name args = true -> Abi.transact c o name args n = (Ret (mkTxn (bc_address c) (From o) (Value o) name args), n).
Proof. intros Hp. unfold Abi.transact, Abi.lift. cbn. unfold Transact_. by rewrite Hp. Qed.

(** The transaction a call of the tool becomes, and what the node dispatches it to. *)
Definition target (t : tx) : address :=
  match t with
  | TxDeclareType _ _ _ => registry_addr
  | TxAnnounce _ _ => directory_addr
  | TxOpenChannel _ _ _ | TxClaim _ _ _ | TxCloseChannel _ => incentives_addr
  | _ => namespace_addr
  end.
Definition value_of (t : tx) : Z :=
  match t with TxRegister _ _ _ value | TxRenew _ value | TxOpenChannel _ _ value => value | _ => 0 end.
Definition node_call (t : tx) : call :=
  match t with
  | TxCommit commitment => NsCall (Contract.Commit commitment)
  | TxRegister name pubKey secret _ => NsCall (Contract.Register name pubKey secret)
  | TxSetRecord name typ sel names vals ttl sig commitment =>
      NsCall (Contract.SetRecord name typ sel names vals ttl sig commitment)
  | TxRemoveRecord name typ sel => NsCall (Contract.RemoveRecord name typ sel)
  | TxTransfer name newOwner newPub => NsCall (Contract.Transfer name newOwner newPub)
  | TxRenew name _ => NsCall (Contract.Renew name)
  | TxDeclareType name mandatory optional => NsCall (Contract.DeclareType name mandatory optional)
  | TxWithdraw dest => NsCall (Contract.Withdraw dest)
  | TxAnnounce pk endpoint => DirCall (Registry.Announce pk endpoint)
  | TxOpenChannel operator seconds _ => IncCall (Incentives.OpenChannel operator seconds)
  | TxClaim id wei sig => IncCall (Incentives.Claim id wei sig)
  | TxCloseChannel id => IncCall (Incentives.CloseChannel id)
  end.

Ltac at_calls := cbn [tx_to tx_method tx_args bc_address bc_abi ns_contract reg_contract inc_contract dir_contract];
  rewrite ?(proj1 calls_at), ?(proj1 (proj2 calls_at)), ?(proj1 (proj2 (proj2 calls_at))), ?(proj2 (proj2 (proj2 calls_at))).
(** The arguments of a transaction have the types of the ABI. *)
Ltac packed := unfold packs; cbn [method_of Methods List.find fst snd m_inputs String.eqb Ascii.eqb Bool.eqb andb fmap option_fmap option_map
    NamespaceDAppBinding.NamespaceDAppMetaData RecordSchemaRegistryBinding.RecordSchemaRegistryMetaData
    ResolverIncentivesBinding.ResolverIncentivesMetaData ResolverRegistryBinding.ResolverRegistryMetaData];
  rewrite ?typed_all_cons, ?strings_typed; cbn [arg g_value typed g_address g_bytes32 g_bytes g_string g_uint];
  repeat match goal with H : length _ = _ |- _ => rewrite H end;
  rewrite ?(proj2 (Z.leb_le _ _)), ?(proj2 (Z.ltb_lt _ _)) by lia; reflexivity.

Lemma transaction_ok from t n :
  tx_typed t -> exists tx, transaction from t n = (Ret tx, n) /\ tx_to tx = target t /\ tx_from tx = from /\ tx_value tx = value_of t
    /\ select (calls (tx_to tx)) (tx_method tx) (tx_args tx) = Some (node_call t).
Proof.
  intros Ht. destruct t; cbn [transaction tx_typed] in *; destruct_and?;
  (eexists; split; [apply transact_packs; cbn [bc_abi ns_contract reg_contract inc_contract dir_contract]; packed|];
   split; [reflexivity|]; split; [reflexivity|]; split; [reflexivity|]; at_calls).
  all: try reflexivity.
  all: unfold select; cbn [List.find fst snd ns_calls reg_calls String.eqb Ascii.eqb Bool.eqb andb]; fold strings.
  all: cbn [arg g_value g_string g_bytes g_bytes32 g_uint].
  all: change (g_value (g_slice g_string)) with strings;  by rewrite !of_strings_strings.
Qed.

(** Submitting a transaction executes the call it names. *)
Lemma Submit_executes t n :
  tx_typed t ->
  exists tx, tx_from tx = Deployment.w_account (n_world n) /\ tx_value tx = value_of t
    /\ select (calls (tx_to tx)) (tx_method tx) (tx_args tx) = Some (node_call t) /\ Submit_ t n = WaitMined tx n.
Proof.
  intros Ht. destruct (transaction_ok (Deployment.w_account (n_world n)) t n Ht) as (tx & Htx & _ & Hf & Hv & Hs).
  exists tx. unfold Submit_. by rewrite Htx.
Qed.

Lemma Submit_name_contract t : tx_typed t -> is_Some (Deployment.call_of t) -> simulates n_world (Submit_ t) (Deployment.Submit_ t).
Proof.
  intros Ht Hc n. destruct (Submit_executes t n Ht) as (tx & Hf & Hv & Hs & ->).
  assert (exists c, node_call t = NsCall c /\ Deployment.call_of t = Some (c, value_of t)) as (c & Hnc & Hcall).
  { destruct t; cbn in *; try (by destruct Hc); eauto. }
  unfold WaitMined, execute, Deployment.Submit_. rewrite Hs, Hnc, Hcall, Hf, Hv.
  by destruct (Contract.exec _ c _) as [[st evs]|e|].
Qed.

(** The channels' part of a node. *)
Definition inc_events (h : list (Z * event)) : list Incentives.event :=
  omap (fun p => match p.2 with IncEvent ev => Some ev | _ => None end) h.
Definition channels_of (n : node) : Channels.world :=
  Channels.mkWorld (n_inc n) (rev (inc_events (n_history n))) (Deployment.w_now (n_world n)) (Deployment.w_account (n_world n)).
Lemma inc_events_mined b evs : inc_events (map (pair b) (map IncEvent evs)) = evs.
Proof. unfold inc_events. induction evs as [|ev evs IH]; cbn; [done|]. by rewrite IH. Qed.

Lemma Submit_channels t :
  tx_typed t -> is_Some (Channels.call_of t) -> simulates channels_of (Submit_ t) (Channels.Submit_ incentives_addr ecrecover t).
Proof.
  intros Ht Hc n. destruct (Submit_executes t n Ht) as (tx & Hf & Hv & Hs & ->).
  assert (exists c, node_call t = IncCall c /\ Channels.call_of t = Some (c, value_of t)) as (c & Hnc & Hcall).
  { destruct t; cbn in *; try (by destruct Hc); eauto. }
  unfold WaitMined, execute, Channels.Submit_. rewrite Hs, Hnc, Hcall, Hf, Hv. cbn [channels_of Channels.w_account Channels.w_now Channels.w_state].
  destruct (Incentives.exec _ _ _ c _) as [[st evs]|e|]; [|done..]. split; [done|]. cbn. unfold channels_of. cbn.
  unfold inc_events at 1. rewrite omap_app. fold (inc_events (n_history n)).
  rewrite rev_app_distr. f_equal. f_equal. f_equal. apply inc_events_mined.
Qed.

(** C14. The bindings are faithful: the chain client over the generated bindings reads
    from a node what it reads from the contracts, and the owner's tool over them
    does to the contracts what its commands ask for. Calls and transactions are
    packed by the ABI of the bindings' metadata and dispatched by name; every result
    converts to its Go type. *)
Theorem bindings_refine :
  (forall name typ sel n, cr_Resolve name typ sel n = (inl (Deployment.answer (n_world n) name typ sel), n))
  /\ (forall name n, cr_GetDomain name n = (inl (Contract.getDomain name (Contract.ns (Deployment.w_store (n_world n)))), n))
  /\ (forall name n, cr_ListRecords name n
        = (inl (map fromBinding (Contract.listRecords (Deployment.w_now (n_world n)) name (Contract.ns (Deployment.w_store (n_world n))))), n))
  /\ (forall n, cr_ListTypes n = (inl (Contract.typeNames (Contract.reg (Deployment.w_store (n_world n)))), n))
  /\ (forall name, simulates n_world (PriceOf name) (PriceOf (ChainWriter := Deployment.writer others) name))
  /\ (forall name owner pub secret, length owner = 20%nat -> length secret = 32%nat ->
        simulates n_world (MakeCommitment name owner pub secret) (MakeCommitment (ChainWriter := Deployment.writer others) name owner pub secret))
  /\ simulates n_world MINCOMMITMENTAGE (MINCOMMITMENTAGE (ChainWriter := Deployment.writer others))
  /\ (forall name, simulates n_world (GetDomain name) (GetDomain (ChainWriter := Deployment.writer others) name))
  /\ (forall t, tx_typed t -> is_Some (Deployment.call_of t) -> simulates n_world (Submit t) (Submit (ChainWriter := Deployment.writer others) t))
  /\ (forall t, tx_typed t -> is_Some (Channels.call_of t) ->
        simulates channels_of (Submit t) (Channels.Submit_ incentives_addr ecrecover t)).
Proof.
  split_and!.
  - intros name typ sel n. cbn. unfold Client_Resolve, retry, convert, Deployment.answer. cbn. unfold sum. rewrite node_Resolve. cbn.
    by destruct (Contract.resolve _ _ _ _ _) as [[rec owner] pubKey].
  - intros name n. cbn. unfold Client_GetDomain, retry, convert. cbn. unfold sum. rewrite node_GetDomain. cbn. by destruct (Contract.getDomain _ _).
  - intros name n. cbn. unfold Client_ListRecords, retry, convert. cbn. unfold sum. by rewrite node_ListRecords.
  - intros n. cbn. unfold Client_ListTypes, retry. cbn. unfold sum. by rewrite node_ListTypes.
  - intros name n. cbn. by rewrite node_PriceOf.
  - intros name owner pub secret Ho Hs n. cbn. unfold result. by rewrite node_MakeCommitment.
  - intros n. cbn. unfold result. by rewrite node_MINCOMMITMENTAGE.
  - intros name n. cbn. unfold result. rewrite node_GetDomain. cbn. by destruct (Contract.getDomain _ _).
  - intros t Ht Hc. by apply Submit_name_contract.
  - intros t Ht Hc. by apply Submit_channels.
Qed.
End Node.

(** * A node with one record *)
#[local] Existing Instances Authority.toy_keccak Authority.toy_immutables.
Definition demo_addr (n : Z) : address := be_bytes 20 (1000 + n).
Lemma demo_addresses : NoDup [demo_addr 0; demo_addr 1; demo_addr 2; demo_addr 3].
Proof. apply (bool_decide_unpack (NoDup [demo_addr 0; demo_addr 1; demo_addr 2; demo_addr 3])). vm_compute. exact I. Qed.
Definition demo_key : bytes := Contract.recordKeyOf (str "A") [].
Definition demo_history : list (Z * event) :=
  [(1000, NsEvent (Contract.Committed (replicate 32 x01) 1000));
   (1050, NsEvent (Contract.RecordSet (Contract.keccak256 (str "alice")) (str "alice") demo_key (str "A") [] 300));
   (1060, DirEvent (Registry.ResolverRevoked (be_bytes 20 1)))].
Definition demo_node : node :=
  mkNode (Deployment.mkWorld (Authority.demo_after 4) 1065 (be_bytes 20 2) (be_bytes 32 5)) (Incentives.mkState ∅ 0 0) Registry.empty_state demo_history.
Definition demo_recover (d : bytes) (v : Z) (r s : bytes) : address := zero_address.

Lemma bindings_refine_witness :
  cr_Resolve (ChainReader := node_reader (demo_addr 0) (demo_addr 1) (demo_addr 2) (demo_addr 3)) (str "alice") (str "A") [] demo_node
  = (inl (Deployment.answer (n_world demo_node) (str "alice") (str "A") []), demo_node)
  /\ (Submit (ChainWriter := node_writer (demo_addr 0) (demo_addr 1) (demo_addr 2) (demo_addr 3) demo_recover Deployment.quiet)
        (TxCommit (replicate 32 x07)) demo_node).1 = Mined.
Proof.
  destruct (bindings_refine (demo_addr 0) (demo_addr 1) (demo_addr 2) (demo_addr 3) demo_recover Deployment.quiet demo_addresses)
    as (Hr & _ & _ & _ & _ & _ & _ & _ & Hs & _).
  split; [apply Hr|]. destruct (Hs (TxCommit (replicate 32 x07)) eq_refl (ex_intro _ _ eq_refl) demo_node) as [-> _]. reflexivity.
Defined.
End Node.
