(* ===== verification/Watcher.v ===== *)
(** The event watcher (src/resolver/internal/chain/events.go) over the generated
    filters of the bindings, on a node: what the handler gets from a window of
    blocks is what the contracts emitted in it. *)
From S2P Require Import Prelude Chain Events Cache Contract Authority Abi NamespaceDAppBinding Node.
Import Chain.

Local Open Scope string_scope.
Local Open Scope Z_scope.
Local Open Scope list_scope.

Module Watcher.
Import Node.

Section Watcher.
Context {K : Contract.Keccak} {IM : Contract.Immutables} {S : Type}.
Variable namespace_addr registry_addr incentives_addr directory_addr : address.
Variable ecrecover : bytes -> Z -> bytes -> bytes -> address.
Variable pick : nat -> bool.
Variable handler : RecordEvent -> S -> S.

#[local] Instance bound : Bound node error () opts txn log := Node.node_bound namespace_addr registry_addr incentives_addr directory_addr.
Abbreviation contract := (Node.ns_contract namespace_addr).
Abbreviation log_of := (Node.log_of namespace_addr registry_addr incentives_addr directory_addr).

(** The filter of each kind of event, as collectEvents calls it, without rules. *)
Definition kind_name (k : EventKind) : string :=
  match k with
  | EventRecordSet => "RecordSet" | EventRecordRemoved => "RecordRemoved"
  | EventTransferred => "Transferred" | EventRegistered => "Registered"
  end.
Definition kind_rules (k : EventKind) : list (list value) := match k with EventTransferred => [[]; []; []] | _ => [[]; []] end.
Definition filter_kind (k : EventKind) (start stop : Z) (n : node) : (list log * option error + error) * node :=
  FilterLogs contract (mkFilterOpts start stop) (kind_name k) (kind_rules k) n.

(** The fields the watcher reads of the unpacked structs. *)
Definition unpack {A Ev} (g : gotype A) (name : string) (f : A -> Ev) (l : log) : Ev + error :=
  match UnpackLog contract g name l with inl a => inl (f a) | inr e => inr e end.
Definition unpack_set : log -> Events.NamespaceDAppRecordEvent + error :=
  unpack NamespaceDAppBinding.g_RecordSet "RecordSet" (fun e => Events.mkRecEv (NamespaceDAppBinding.RecordSet_NameHash e)
    (NamespaceDAppBinding.RecordSet_Name e) (NamespaceDAppBinding.RecordSet_RecordType e) (NamespaceDAppBinding.RecordSet_Selector e)).
Definition unpack_removed : log -> Events.NamespaceDAppRecordEvent + error :=
  unpack NamespaceDAppBinding.g_RecordRemoved "RecordRemoved" (fun e => Events.mkRecEv (NamespaceDAppBinding.RecordRemoved_NameHash e)
    (NamespaceDAppBinding.RecordRemoved_Name e) (NamespaceDAppBinding.RecordRemoved_RecordType e) (NamespaceDAppBinding.RecordRemoved_Selector e)).
Definition unpack_transferred : log -> Events.NamespaceDAppTransferred + error :=
  unpack NamespaceDAppBinding.g_Transferred "Transferred" (fun e => Events.mkXferEv (NamespaceDAppBinding.Transferred_NameHash e)
    (NamespaceDAppBinding.Transferred_OldOwner e) (NamespaceDAppBinding.Transferred_NewOwner e)).
Definition unpack_registered : log -> Events.NamespaceDAppRegistered + error :=
  unpack NamespaceDAppBinding.g_Registered "Registered" (fun e => Events.mkRegEv (NamespaceDAppBinding.Registered_NameHash e)
    (NamespaceDAppBinding.Registered_Name e) (NamespaceDAppBinding.Registered_Owner e)).

(** The filters of the bindings are the ones above. *)
Definition fresh {A} (k : EventKind) (start stop : Z) (n : node) : go error (Events.Iterator log error A) * node :=
  let '(r, n) := filter_kind k start stop n in
  (match r with inl p => Ret (Events.fresh_it p.1 p.2) | inr e => Err e end, n).
Lemma filters_of_bindings start stop n :
  let o := mkFilterOpts start stop in
  NamespaceDAppBinding.FilterRecordSet contract o [] [] n = fresh EventRecordSet start stop n
  /\ NamespaceDAppBinding.FilterRecordRemoved contract o [] [] n = fresh EventRecordRemoved start stop n
  /\ NamespaceDAppBinding.FilterTransferred contract o [] [] [] n = fresh EventTransferred start stop n
  /\ NamespaceDAppBinding.FilterRegistered contract o [] [] n = fresh EventRegistered start stop n.
Proof. done. Qed.

Abbreviation collectEvents := (Events.collectEvents filter_kind unpack_set unpack_removed unpack_transferred unpack_registered l_block pick handler).

(** What the watcher reports of an event, and its kind. *)
Definition report (p : Z * event) : option RecordEvent := match p.2 with NsEvent ev => Authority.announced p.1 ev | _ => None end.
Definition report_kind (k : EventKind) (p : Z * event) : option RecordEvent :=
  match report p with Some e => if bool_decide (Kind e = k) then Some e else None | None => None end.
Definition in_window (start stop : Z) (p : Z * event) : bool := (start <=? p.1) && (p.1 <=? stop).
(** The events a window holds, in order. *)
Definition window_events (start stop : Z) (n : node) : list (Z * event) := List.filter (in_window start stop) (n_history n).

(** The logs of a kind unpack to its reports. *)
Definition kind_unpacks {Ev} (k : EventKind) (f : log -> Ev + error) (mk : Ev -> log -> RecordEvent) : Prop :=
  forall start stop h,
    let logs := List.filter (log_matches contract (mkFilterOpts start stop) (kind_name k) (kind_rules k)) (map log_of h) in
    (Events.unpack_all f logs).2 = None
    /\ map (fun p => mk p.1 p.2) (Events.unpack_all f logs).1 = omap (report_kind k) (List.filter (in_window start stop) h).

Hypothesis addresses_distinct : NoDup [namespace_addr; registry_addr; incentives_addr; directory_addr].

(** An event matches the filter of a kind exactly when it is reported with it. *)
Lemma unpack_events {Ev} k (f : log -> Ev + error) mk :
  (forall start stop p, log_matches contract (mkFilterOpts start stop) (kind_name k) (kind_rules k) (log_of p)
     = in_window start stop p && bool_decide (is_Some (report_kind k p))) ->
  (forall p re, report_kind k p = Some re -> exists ev, f (log_of p) = inl ev /\ mk ev (log_of p) = re) ->
  kind_unpacks k f mk.
Proof.
  intros Hm Hf start stop h. induction h as [|p h [IH1 IH2]]; [done|]. cbn [map List.filter]. rewrite Hm.
  destruct (in_window start stop p) eqn:Ew; cbn [andb]; [|done].
  cbn [omap list_omap]. destruct (report_kind k p) as [re|] eqn:Er; [|by rewrite bool_decide_eq_false_2 by (by intros [])].
  rewrite bool_decide_eq_true_2 by eauto. destruct (Hf p re Er) as (ev & He & Hmk). cbn [Events.unpack_all]. rewrite He.
  destruct (Events.unpack_all f _) as [evs o]. cbn in *. by rewrite IH2, Hmk, IH1.
Qed.

Lemma other_address : registry_addr <> namespace_addr /\ incentives_addr <> namespace_addr /\ directory_addr <> namespace_addr.
Proof. pose proof addresses_distinct as H. clear addresses_distinct ecrecover. rewrite !NoDup_cons, !not_elem_of_cons in H. naive_solver. Qed.

Lemma kind_matches k start stop p :
  log_matches contract (mkFilterOpts start stop) (kind_name k) (kind_rules k) (log_of p)
  = in_window start stop p && bool_decide (is_Some (report_kind k p)).
Proof.
  destruct other_address as (Hr & Hi & Hd). destruct p as [b ev]. unfold log_matches, in_window. cbn [Start End_ fst snd].
  destruct ev as [ev|ev|ev].
  - destruct ev, k; cbn; rewrite ?(bool_decide_eq_true_2 (namespace_addr = namespace_addr)), ?(bool_decide_eq_false_2 (registry_addr = namespace_addr)) by done;
      rewrite ?andb_true_r, ?andb_false_r; reflexivity.
  - destruct ev; cbn; rewrite (bool_decide_eq_false_2 (incentives_addr = namespace_addr)) by done; by rewrite !andb_false_r.
  - destruct ev; cbn; rewrite (bool_decide_eq_false_2 (directory_addr = namespace_addr)) by done; by rewrite !andb_false_r.
Qed.

Lemma kinds_unpack :
  kind_unpacks EventRecordSet unpack_set (Events.set_event l_block)
  /\ kind_unpacks EventRecordRemoved unpack_removed (Events.removed_event l_block)
  /\ kind_unpacks EventTransferred unpack_transferred (Events.transferred_event l_block)
  /\ kind_unpacks EventRegistered unpack_registered (Events.registered_event l_block).
Proof.
  split_and!; (apply unpack_events; [apply kind_matches|]); intros [b ev] re H; unfold report_kind, report in H; cbn [snd fst] in H;
    destruct ev as [[]| |]; cbn in H; try discriminate H; injection H as <-; eexists; (split; [reflexivity|reflexivity]).
Qed.

Lemma collect_kind_node {Ev} k (f : log -> Ev + error) mk start stop n s :
  kind_unpacks k f mk ->
  Events.collect_kind filter_kind pick handler k f mk start stop (n, s)
  = (None, (n, fold_left (fun s e => handler e s) (omap (report_kind k) (window_events start stop n)) s)).
Proof.
  intros Hk. destruct (Hk start stop (n_history n)) as [Hn He]. unfold Events.collect_kind, filter_kind. cbn [FilterLogs bound node_bound].
  set (logs := List.filter _ _) in *. destruct (Events.drain_ok f (fun ev l => handler (mk ev l)) pick logs s) as (it & Hd & Hfail).
  rewrite Hd, Hfail, Hn. unfold window_events. rewrite <- He.
  pose proof (Events.deliver_all_delivers handler mk (Events.unpack_all f logs).1 s) as Hdel. unfold Events.delivers in Hdel.
  by rewrite Hdel.
Qed.

Lemma kinds_partition h :
  omap report h ≡ₚ omap (report_kind EventRecordSet) h ++ omap (report_kind EventRecordRemoved) h
    ++ omap (report_kind EventTransferred) h ++ omap (report_kind EventRegistered) h.
Proof.
  induction h as [|p h IH]; [done|].
  assert (forall k, omap (report_kind k) (p :: h)
    = match report p with Some e => if bool_decide (Kind e = k) then [e] else [] | None => [] end ++ omap (report_kind k) h) as H.
  { intros k. cbn [omap list_omap]. unfold report_kind at 1. destruct (report p); [|done]. by case_bool_decide. }
  rewrite !H. cbn [omap list_omap]. destruct (report p) as [e|]; [|exact IH]. rewrite IH. destruct (Kind e); cbn; solve_Permutation.
Qed.

(** C15. A window of blocks is collected completely, whatever the selects choose: on a
    node, collectEvents over the generated filters ends without an error, and the
    handler gets exactly the record events the contracts emitted in the window, each
    once, with its name, type, selector and block. *)
Theorem window_collected start stop n s :
  exists evs, collectEvents start stop (n, s) = (None, (n, fold_left (fun s e => handler e s) evs s))
    /\ evs ≡ₚ omap report (window_events start stop n).
Proof.
  destruct kinds_unpack as (H1 & H2 & H3 & H4). eexists. split; [|symmetry; apply kinds_partition].
  unfold Events.collectEvents. rewrite (collect_kind_node _ _ _ _ _ _ _ H1), (collect_kind_node _ _ _ _ _ _ _ H2),
    (collect_kind_node _ _ _ _ _ _ _ H3), (collect_kind_node _ _ _ _ _ _ _ H4).
  by rewrite !fold_left_app.
Qed.
End Watcher.

#[local] Existing Instances Authority.toy_keccak Authority.toy_immutables.
Lemma window_collected_witness :
  (Events.collectEvents (filter_kind (Node.demo_addr 0) (Node.demo_addr 1) (Node.demo_addr 2) (Node.demo_addr 3))
    (unpack_set (Node.demo_addr 0) (Node.demo_addr 1) (Node.demo_addr 2) (Node.demo_addr 3))
    (unpack_removed (Node.demo_addr 0) (Node.demo_addr 1) (Node.demo_addr 2) (Node.demo_addr 3))
    (unpack_transferred (Node.demo_addr 0) (Node.demo_addr 1) (Node.demo_addr 2) (Node.demo_addr 3))
    (unpack_registered (Node.demo_addr 0) (Node.demo_addr 1) (Node.demo_addr 2) (Node.demo_addr 3))
    Node.l_block (fun _ => true) cons 1001 1060 (Node.demo_node, [])).2.2
  = [mkRecordEvent EventRecordSet (str "alice") (Contract.keccak256 (str "alice")) (str "A") [] 1050].
Proof.
  destruct (window_collected (Node.demo_addr 0) (Node.demo_addr 1) (Node.demo_addr 2) (Node.demo_addr 3) (fun _ => true) cons
    Node.demo_addresses 1001 1060 Node.demo_node []) as (evs & -> & Hp).
  assert (omap report (window_events 1001 1060 Node.demo_node)
    = [mkRecordEvent EventRecordSet (str "alice") (Contract.keccak256 (str "alice")) (str "A") [] 1050]) as E by vm_refl.
  rewrite E in Hp. apply Permutation_singleton_r in Hp as ->. reflexivity.
Defined.
End Watcher.
