(* ===== verification/Discovery.v ===== *)
(** Resolver discovery end to end: an operator's announce-resolver (cmd/ddns), the
    directory of Registry.v behind the bindings, and the clients that read it
    (cmd/ddns resolvers, cmd/ddns-lookup --discover). *)
From S2P Require Import Prelude GoStrings Encoding Query Chain Pki Zk Cli Lookup Contract Authority Registry Owner Abi ResolverRegistryBinding Deployment Node.
Import Chain.

Local Open Scope Z_scope.

Module Discovery.
Import Node.

Section Discovery.
Context {K : Contract.Keccak} {IM : Contract.Immutables} {HX : Hexutil} {HXL : HexutilLaws} {Priv : Type}.
Variable namespace_addr registry_addr incentives_addr directory_addr : address.
Variable ecrecover : bytes -> Z -> bytes -> bytes -> address.
Variable others : Z -> Contract.store -> Contract.store.
Variable HexToAddress : bytes -> address.
Variable HexToECDSA : bytes -> option Priv.
Hypothesis addresses_distinct : NoDup [namespace_addr; registry_addr; incentives_addr; directory_addr].

#[local] Instance bound : Bound node error () opts txn log := Node.node_bound namespace_addr registry_addr incentives_addr directory_addr.
#[local] Instance writer : ChainWriter node :=
  Node.node_writer namespace_addr registry_addr incentives_addr directory_addr ecrecover others.
Abbreviation cmdAnnounceResolver := (Owner.cmdAnnounceResolver (W := node) HexToAddress HexToECDSA).
Abbreviation cmdResolvers := (Owner.cmdResolvers (W := node) HexToAddress).

(** rc.ActiveResolvers, as the two clients use it: operators, endpoints and keys. *)
Definition active (n : node) : option (list address * list bytes * list bytes) :=
  match (ResolverRegistryBinding.ActiveResolvers (Node.dir_contract directory_addr) () n).1 with
  | Ret (Operators, PubKeys, Endpoints) => Some (Operators, Endpoints, PubKeys)
  | _ => None
  end.

Lemma active_ok n :
  let ops := Registry.active_operators (n_dir n) in
  active n = Some (ops, map (fun op => Registry.endpoint (Registry.resolver_of (n_dir n) op)) ops,
                   map (fun op => Registry.pubKey (Registry.resolver_of (n_dir n) op)) ops).
Proof.
  cbv zeta. unfold active. change bound with (Node.node_bound namespace_addr registry_addr incentives_addr directory_addr).
  rewrite (Node.node_ActiveResolvers _ _ _ _ addresses_distinct). by rewrite Registry.activeResolvers_ret.
Qed.

(** What both clients show of an operator. *)
Definition entry (s : Registry.state) (op : address) : bytes * bytes * address :=
  (Registry.endpoint (Registry.resolver_of s op), hexutil_Encode (Registry.pubKey (Registry.resolver_of s op)), op).
Lemma list_resolvers_ok s ops :
  Owner.list_resolvers ops (map (fun op => Registry.endpoint (Registry.resolver_of s op)) ops)
    (map (fun op => Registry.pubKey (Registry.resolver_of s op)) ops) = Ret (map (entry s) ops).
Proof. induction ops as [|op ops IH]; [done|]. cbn. by rewrite IH. Qed.

Lemma cmdAnnounceResolver_ret co endpoint pubFlag rrFlag stats envRR n s' :
  cmdAnnounceResolver co endpoint pubFlag rrFlag stats envRR (n, []) = (Ret (), s') ->
  exists pubHex pk, hexutil_Decode pubHex = Some pk /\ length pk = 32%nat /\ (pubFlag <> [] -> pubHex = pubFlag)
    /\ Submit (TxAnnounce pk endpoint) n = (Mined, s'.1).
Proof.
  unfold Owner.cmdAnnounceResolver. case_bool_decide; [intros H0; discriminate H0|]. intros (pubHex & s1 & Hp & H1)%Owner.cli_bind_ret.
  assert (s1 = (n, []) /\ (pubFlag <> [] -> pubHex = pubFlag)) as [-> Hflag].
  { clear H1. case_bool_decide; [destruct stats as [[|b p]|]; try discriminate Hp|]; injection Hp as <- <-; split; naive_solver. }
  apply Owner.cli_bind_ret in H1 as (pk & s1 & [Hd ->]%Owner.or_fatal_ret & H2).
  destruct (Nat.eqb_spec (length pk) 32) as [Hl|]; cbn [negb] in H2; [|discriminate H2].
  clear Hp. case_bool_decide; [discriminate H2|].
  apply Owner.cli_bind_ret in H2 as (key & s1 & [_ ->]%Owner.loadKey_ret & H3). destruct (Owner.co_eth_ok co); cbn [negb] in H3; [|discriminate H3].
  exists pubHex, pk. split; [done|]. split; [done|]. split; [done|]. unfold Owner.send in H3. cbn [fst snd] in H3.
  destruct (Submit (TxAnnounce pk endpoint) n) as [[] w]; try done. by injection H3 as <-.
Qed.

Lemma announce_mined pk endpoint n n' :
  length pk = 32%nat -> Submit (TxAnnounce pk endpoint) n = (Mined, n') ->
  exists evs, Registry.announce (Contract.mkMsg (Deployment.w_account (n_world n)) 0 (Deployment.w_now (n_world n)) true) pk endpoint (n_dir n)
    = Ret (n_dir n', evs).
Proof.
  intros Hl. cbn [Submit writer Node.node_writer].
  destruct (Node.Submit_executes namespace_addr registry_addr incentives_addr directory_addr ecrecover addresses_distinct
    (TxAnnounce pk endpoint) n Hl) as (tx & Hf & Hv & Hs & ->).
  unfold Node.WaitMined, Node.execute. rewrite Hs, Hf, Hv. cbn [Node.node_call Node.value_of].
  rewrite Registry.dir_exec_free by done. cbn [Registry.dispatch].
  destruct (Registry.announce _ pk endpoint (n_dir n)) as [[s evs]|e|]; [|done..]. intros [= <-]. by exists evs.
Qed.

(** C16. An announced resolver is found: once announce-resolver has succeeded, "ddns
    resolvers" lists the endpoint with the key, under the operator's account, next
    to every other active resolver; and a discovering lookup does not crash, and
    dials an active resolver with the key its operator announced. *)
Theorem announced_resolver_found co endpoint pubFlag rrFlag stats envRR n s' co' rrFlag' envRR' rr :
  Registry.reachable (n_dir n) -> 0 < Deployment.w_now (n_world n) < 2 ^ 64 ->
  cmdAnnounceResolver co endpoint pubFlag rrFlag stats envRR (n, []) = (Ret (), s') ->
  Cli.resolverRegistryAddr HexToAddress (Owner.co_deployments co') rrFlag' (Owner.co_doc co') envRR' <> zero_address -> rr <> zero_address ->
  exists pubHex pk listing, hexutil_Decode pubHex = Some pk /\ (pubFlag <> [] -> pubHex = pubFlag)
    /\ cmdResolvers co' rrFlag' envRR' (active s'.1) (s'.1, []) = (Ret listing, (s'.1, []))
    /\ (endpoint, hexutil_Encode pk, Deployment.w_account (n_world n)) ∈ listing /\ NoDup (map snd listing)
    /\ (forall op, Registry.active (Registry.resolver_of (n_dir s'.1) op) = true <-> entry (n_dir s'.1) op ∈ listing)
    /\ exists op, Registry.active (Registry.resolver_of (n_dir s'.1) op) = true
        /\ Lookup.discoverResolver rr (active s'.1) = Ret (entry (n_dir s'.1) op).1.
Proof.
  intros Hre Ht (pubHex & pk & Hd & Hl & Hflag & Hsub)%cmdAnnounceResolver_ret Hrr Hrr'. destruct s' as [n' txs]. cbn [fst] in *.
  destruct (announce_mined _ _ _ _ Hl Hsub) as [evs Hann].
  assert (Registry.reachable (n_dir n')) as Hre'.
  { eapply (Registry.reach_exec (n_dir n) _ (Registry.Announce pk endpoint)); [exact Hre| |by rewrite Registry.dir_exec_free]. exact Ht. }
  pose proof Hann as (_ & _ & Hs)%Registry.announce_ret. cbn [Contract.sender] in Hs.
  set (acct := Deployment.w_account (n_world n)) in *.
  assert (Registry.resolver_of (n_dir n') acct = Registry.mkResolver pk endpoint (Contract.uint64 (Deployment.w_now (n_world n))) true) as Hacct.
  { rewrite Hs. unfold Registry.resolver_of. cbn. by rewrite lookup_insert_eq. }
  assert (forall op, op ∈ Registry.active_operators (n_dir n') <-> Registry.active (Registry.resolver_of (n_dir n') op) = true) as Hin.
  { intros op. by apply Registry.active_operators_elem. }
  assert (acct ∈ Registry.active_operators (n_dir n')) as Ha by (apply Hin; by rewrite Hacct).
  exists pubHex, pk, (map (entry (n_dir n')) (Registry.active_operators (n_dir n'))). rewrite active_ok. cbv zeta. split_and!; try done.
  - unfold Owner.cmdResolvers. rewrite bool_decide_eq_false_2 by done. unfold mbind, Owner.cli_bind. cbn [Owner.or_fatal].
    unfold Owner.lift_go. cbn [fst snd mret Owner.cli_ret]. by rewrite list_resolvers_ok.
  - apply list_elem_of_fmap. exists acct. unfold entry. by rewrite Hacct.
  - rewrite map_map. cbn. rewrite map_id. apply NoDup_filter, (Registry.reachable_directory _ Hre').
  - intros op. rewrite <- Hin, list_elem_of_fmap. split; [by exists op|]. intros (op' & [= _ _ ->] & Ho). exact Ho.
  - destruct (Registry.active_operators (n_dir n')) as [|op ops] eqn:E; [by apply elem_of_nil in Ha|]. exists op.
    split; [apply Hin; left|]. unfold Lookup.discoverResolver. by rewrite bool_decide_eq_false_2.
Qed.
End Discovery.

#[local] Existing Instances Authority.toy_keccak Authority.toy_immutables.
Definition demo_announce : go Z () * Owner.state (W := node) :=
  Owner.cmdAnnounceResolver (CW := writer (Node.demo_addr 0) (Node.demo_addr 1) (Node.demo_addr 2) (Node.demo_addr 3) Node.demo_recover Deployment.quiet)
    (fun a => a) (fun _ => Some 77) Owner.demo_common (str "http://r") (hexutil_Encode (replicate 32 x09)) (str "0x1") None [] (Node.demo_node, []).
Lemma announced_resolver_found_witness :
  exists listing, Owner.cmdResolvers (W := node) (fun a => a) Owner.demo_common (str "0x1") []
      (active (Node.demo_addr 0) (Node.demo_addr 1) (Node.demo_addr 2) (Node.demo_addr 3) demo_announce.2.1) (demo_announce.2.1, [])
    = (Ret listing, (demo_announce.2.1, [])) /\ (str "http://r", hexutil_Encode (replicate 32 x09), be_bytes 20 2) ∈ listing.
Proof.
  destruct (announced_resolver_found (Node.demo_addr 0) (Node.demo_addr 1) (Node.demo_addr 2) (Node.demo_addr 3) Node.demo_recover Deployment.quiet
    (fun a => a) (fun _ => Some 77) Node.demo_addresses Owner.demo_common (str "http://r") (hexutil_Encode (replicate 32 x09)) (str "0x1") None []
    Node.demo_node demo_announce.2 Owner.demo_common (str "0x1") [] (be_bytes 20 1003))
    as (pubHex & pk & listing & Hd & Hflag & Hl & Hin & _).
  - constructor.
  - cbn. lia.
  - vm_refl.
  - discriminate.
  - intros H. vm_compute in H. discriminate H.
  - rewrite (Hflag ltac:(discriminate)) in Hd. assert (hexutil_Decode (hexutil_Encode (replicate 32 x09)) = Some (replicate 32 x09)) as E by vm_refl.
    rewrite E in Hd. injection Hd as <-. exists listing. split; [exact Hl|exact Hin].
Defined.
End Discovery.
