(* ===== verification/Clients.v ===== *)
(** The command lines of the two clients (main of src/resolver/cmd/ddns-lookup and
    cmd/ddns-fetch): their flags, the environment, and the runs of Lookup.v and
    Fetch.v on what was parsed. ddns-lookup reads the chain through the generated
    bindings on a node of Node.v. *)
From S2P Require Import Prelude GoStrings Net Encoding Query Chain Pki Zk Handle Cli Flags Lookup Fetch Owner Ddns Contract Authority Deployment Registry Incentives Abi NamespaceDAppBinding RecordSchemaRegistryBinding ResolverRegistryBinding Node.
Import Chain.

Local Open Scope string_scope.
Local Open Scope Z_scope.
Local Open Scope list_scope.

Module Clients.
Import Node.

(** What surrounds a run: the environment, the deployment file (read and parsed), the
    node behind an RPC URL, the resolver behind a URL with a timeout, and whether a
    file can be written. *)
Record surroundings := mkSurroundings {
  getenv : bytes -> bytes;
  deployment : bytes -> option Cli.contracts;
  dial : bytes -> option node;
  get_resolve : bytes -> Z -> Query.Query -> option bytes;
  get_resource : bytes -> Z -> Query.Query -> list bytes -> option Fetch.answer;
  writable : bytes -> bool;
}.

Definition seconds (n : Z) : Z := n * 10 ^ 9.
Definition default_resolver (s : surroundings) : bytes := Cli.envOr (getenv s (str "DDNS_RESOLVER")) (str "http://127.0.0.1:8080").

Definition lookup_flags : list Flags.flag :=
  Ddns.strings ["resolver"; "selector"] ++ [Flags.mkFlag (str "timeout") Flags.KDuration; Flags.mkFlag (str "discover") Flags.KBool]
  ++ Ddns.strings ["rpc"; "deployments"; "resolver-registry"; "namespace"].
Definition lookup_switches : list bytes := [str "discover"].
Definition fetch_flags : list Flags.flag :=
  Ddns.strings ["resolver"; "selector"; "o"] ++ [Flags.mkFlag (str "timeout") Flags.KDuration] ++ Ddns.strings ["peer"].

(** multiFlag: every value of a repeatable flag, in order. *)
Definition multiFlag (name : bytes) (vs : list (bytes * bytes)) : list bytes :=
  map snd (List.filter (fun p => bool_decide (p.1 = name)) vs).

Section Clients.
Context {K : Contract.Keccak} {IM : Contract.Immutables} {UC : UnicodeCase} {HX : Hexutil}.
Context {SP : Pki.SortPairs} {Priv Pub : Type} {EC : Pki.EthCrypto Priv Pub} {EdPriv : Type} {ED : Pki.Ed25519 EdPriv}.
Context {St : Type} {MI : Zk.Mimc St} {CCS PK VK Wit PubWit : Type} {GR : Zk.Groth16 CCS PK VK Wit PubWit}.
Variable namespace_addr registry_addr incentives_addr directory_addr : address.
Variable artifact : bytes -> option bytes.
Variable HexToAddress : bytes -> address.
Variable ParseDuration : bytes -> option Z.
Variable unmarshal_envelope : bytes -> option Pki.Envelope.
Variable unmarshal_response : bytes -> option Lookup.resolveResponse.
Variable Sum256 : bytes -> bytes.
Variable DetectContentType : bytes -> bytes.
Variable ParseMediaType : bytes -> option bytes.
Variable s : surroundings.

#[local] Instance bound : Bound node error () opts txn log := Node.node_bound namespace_addr registry_addr incentives_addr directory_addr.

Definition timeout_of (def : Z) (vs : list (bytes * bytes)) : Z := Ddns.number ParseDuration (str "timeout") def vs.

(** ** cmd/ddns-lookup *)

(** The client that chain.Dial makes for the contract at [ns]. *)
Definition client_at (ns : address) : ChainReader node (retry_error error Empty_set) :=
  let dapp := mkBound ns NamespaceDAppBinding.NamespaceDAppMetaData in
  Client (fun name typ sel => Node.sum (NamespaceDAppBinding.Resolve dapp () name typ sel))
    (fun name => Node.sum (NamespaceDAppBinding.GetDomain dapp () name))
    (fun name => Node.sum (NamespaceDAppBinding.ListRecords dapp () name))
    (Node.sum (RecordSchemaRegistryBinding.ListTypes (mkBound zero_address RecordSchemaRegistryBinding.RecordSchemaRegistryMetaData) ()))
    (fun n => (inl (Deployment.w_now (n_world n)), n)) (fun _ n => (true, n)) (fun _ => None).

(** discoverResolver's read of the directory at [rr]: operators, endpoints and keys. *)
Definition active_at (rr : address) (n : node) : option (list address * list bytes * list bytes) :=
  match ResolverRegistryBinding.NewResolverRegistry rr with
  | Ret rc =>
      match (ResolverRegistryBinding.ActiveResolvers (ResolverRegistryBinding.Caller rc) () n).1 with
      | Ret (Operators, PubKeys, Endpoints) => Some (Operators, Endpoints, PubKeys)
      | _ => None
      end
  | _ => None
  end.

Definition lookup_env (vs : list (bytes * bytes)) (pos : list bytes) : Lookup.env node :=
  let rpc := Ddns.text (str "rpc") (Cli.envOr (getenv s (str "RPC_URL")) (str "http://127.0.0.1:8545")) vs in
  let deployments := Ddns.text (str "deployments")
    (Cli.envOr (getenv s (str "DDNS_DEPLOYMENTS")) (str "contracts/deployments/localhost.json")) vs in
  let doc := deployment s deployments in
  let rr := Cli.resolverRegistryAddr HexToAddress deployments (Ddns.text (str "resolver-registry") [] vs) doc
    (getenv s (str "RESOLVER_REGISTRY_ADDRESS")) in
  let ns := Cli.namespaceAddr HexToAddress deployments (Ddns.text (str "namespace") [] vs) doc (getenv s (str "CONTRACT_ADDRESS")) in
  Lookup.mkEnv (Ddns.switch (str "discover") vs) (Ddns.text (str "resolver") (default_resolver s) vs) pos
    (Ddns.text (str "selector") [] vs) rr (n ← dial s rpc; active_at rr n)
    (fun resolver => get_resolve s resolver (timeout_of (seconds 10) vs)) ns (dial s rpc).

Definition run_lookup (vs : list (bytes * bytes)) (pos : list bytes) : Lookup.run :=
  let e := lookup_env vs pos in
  Lookup.lookup (CR := client_at (Lookup.ns_addr e)) artifact HexToAddress unmarshal_envelope unmarshal_response e.
Definition lookup_main (argv : list bytes) : Lookup.run :=
  match argv with
  | [] => Lookup.crash
  | _ :: args =>
      match Flags.parse_line ParseDuration lookup_flags lookup_switches args with
      | Ret (vs, pos) => run_lookup vs pos
      | Err e => Lookup.exit (Flags.exit_status e)
      | Panic => Lookup.crash
      end
  end.

(** ** cmd/ddns-fetch *)
Definition run_fetch (vs : list (bytes * bytes)) (pos : list bytes) : Fetch.outcome :=
  let out := Ddns.text (str "o") [] vs in
  Fetch.fetch Sum256 DetectContentType ParseMediaType pos (Ddns.text (str "selector") [] vs) (multiFlag (str "peer") vs) out (writable s out)
    (get_resource s (Ddns.text (str "resolver") (default_resolver s) vs) (timeout_of (seconds 90) vs)).
Definition fetch_main (argv : list bytes) : option Fetch.outcome :=
  match argv with
  | [] => None
  | _ :: args =>
      match Flags.parse_line ParseDuration fetch_flags [] args with
      | Ret (vs, pos) => Some (run_fetch vs pos)
      | Err e => Some (Fetch.mkOutcome (Flags.exit_status e) None false)
      | Panic => None
      end
  end.

(** ** Flags anywhere *)
Lemma client_flags_anywhere prog items rest :
  let pos := concat (map Flags.positional items) ++ default [] rest in
  let line := concat (map Flags.render items) ++ match rest with Some e => str "--" :: e | None => [] end in
  match pos with a :: _ => Cli.is_flag a = false | [] => True end ->
  (Forall (Flags.item_ok ParseDuration lookup_flags) items ->
     lookup_main (prog :: line) = run_lookup (concat (map Flags.assignment items)) pos)
  /\ (Forall (Flags.item_ok ParseDuration fetch_flags) items ->
     fetch_main (prog :: line) = Some (run_fetch (concat (map Flags.assignment items)) pos)).
Proof.
  intros pos line Hpos. unfold line, pos in *. split; intros Hok; cbn [lookup_main fetch_main].
  - by rewrite (Flags.parse_line_items ParseDuration _ _ _ _ (Ddns.switches_ok_dec lookup_flags lookup_switches eq_refl) Hok Hpos).
  - by rewrite (Flags.parse_line_items ParseDuration _ _ _ _ (Ddns.switches_ok_dec fetch_flags [] eq_refl) Hok Hpos).
Qed.

(** ** A discovering lookup *)
Hypothesis addresses_distinct : NoDup [namespace_addr; registry_addr; incentives_addr; directory_addr].

(** Only the name contract has a method resolve, and only the directory a method
    activeResolvers. *)
Lemma resolve_elsewhere ns n args : ns <> namespace_addr -> Node.select (Node.views namespace_addr registry_addr incentives_addr directory_addr ns n) "resolve" args = None.
Proof. intros Hns. unfold Node.views. rewrite bool_decide_eq_false_2 by done. by repeat case_bool_decide. Qed.
Lemma activeResolvers_elsewhere rr n args :
  rr <> directory_addr -> Node.select (Node.views namespace_addr registry_addr incentives_addr directory_addr rr n) "activeResolvers" args = None.
Proof. intros Hrr. unfold Node.views. do 3 (case_bool_decide; [done|]). by rewrite bool_decide_eq_false_2. Qed.

Lemma resolve_at ns name typ sel n on :
  (cr_Resolve (ChainReader := client_at ns) name typ sel n).1 = inl on -> on = Deployment.answer (n_world n) name typ sel.
Proof.
  destruct (decide (ns = namespace_addr)) as [->|Hns].
  - cbn. unfold Client_Resolve, retry, convert, Deployment.answer. cbn. unfold Node.sum.
    change bound with (Node.node_bound namespace_addr registry_addr incentives_addr directory_addr).
    change (mkBound namespace_addr NamespaceDAppBinding.NamespaceDAppMetaData) with (Node.ns_contract namespace_addr).
    rewrite (Node.node_Resolve _ _ _ _ addresses_distinct). cbn.
    destruct (Contract.resolve _ _ _ _ _) as [[rec owner] pubKey]. by intros [= <-].
  - intros H. destruct (cr_Resolve _ _ _ n) as [r w'] eqn:E. cbn in H. subst r.
    apply Client_Resolve_fresh in E as (_ & _ & w0 & b & E & _). exfalso. revert E.
    unfold Node.sum, NamespaceDAppBinding.Resolve, mbind, Abi.M_bind, Abi.call, Abi.lift. cbn. unfold Node.Call_. cbn.
    by rewrite resolve_elsewhere.
Qed.

Lemma active_at_directory rr n ops eps keys :
  active_at rr n = Some (ops, eps, keys) ->
  ops = Registry.active_operators (n_dir n) /\ keys = map (fun op => Registry.pubKey (Registry.resolver_of (n_dir n) op)) ops
  /\ eps = map (fun op => Registry.endpoint (Registry.resolver_of (n_dir n) op)) ops.
Proof.
  unfold active_at. cbn. destruct (decide (rr = directory_addr)) as [->|Hrr].
  - change (mkBound directory_addr ResolverRegistryBinding.ResolverRegistryMetaData) with (Node.dir_contract directory_addr).
    change bound with (Node.node_bound namespace_addr registry_addr incentives_addr directory_addr).
    rewrite (Node.node_ActiveResolvers _ _ _ _ addresses_distinct), Registry.activeResolvers_ret. cbn. by intros [= <- <- <-].
  - unfold ResolverRegistryBinding.ActiveResolvers, mbind, Abi.M_bind, Abi.call, Abi.lift. cbn. unfold Node.Call_. cbn.
    by rewrite activeResolvers_elsewhere.
Qed.

Context {SPL : Pki.SortPairsLaws} {HXL : HexutilLaws}.
Hypothesis unmarshal_wf : forall data r, unmarshal_response data = Some r -> Lookup.response_wf r.

(** C1. A discovering lookup is anchored to the contracts, from the command line to
    their storage: whatever flags, files and variables named the addresses, and
    whatever the resolver sent, a run with --discover that exits with status 0 was
    answered under the key of an operator who is active in the directory, and what
    it printed is what the name contract answers for the query: the record and its
    owner, with the owner's signature verified, or no record. *)
Theorem discovering_lookup_anchored P tr n prog args vs pos :
  (forall m c, P m c -> Contract.widths m c) -> Contract.reachable P tr (Deployment.w_store (n_world n)) -> Registry.reachable (n_dir n) ->
  (forall name typ sel sc, Contract.schemas (Contract.reg (Deployment.w_store (n_world n)))
       !! Contract.keccak256 (Type_ (RR_Record (Deployment.answer (n_world n) name typ sel))) = Some sc ->
     Contract.sc_name sc = Type_ (RR_Record (Deployment.answer (n_world n) name typ sel))) ->
  (forall rpc n', dial s rpc = Some n' -> n' = n) ->
  Flags.parse_line ParseDuration lookup_flags lookup_switches args = Ret (vs, pos) -> Ddns.switch (str "discover") vs = true ->
  (lookup_main (prog :: args)).2 = Some 0 ->
  exists op q envl, pos = [Query.Name q; Query.Type_ q]
    /\ Registry.active (Registry.resolver_of (n_dir n) op) = true
    /\ Pki.VerifyEnvelope envl = Ret () /\ Lookup.LResolver (Pki.Resolver envl) ∈ (lookup_main (prog :: args)).1
    /\ Net.EqualFold (Pki.Resolver envl) (hexutil_Encode (Registry.pubKey (Registry.resolver_of (n_dir n) op))) = true
    /\ Lookup.answer_shown artifact HexToAddress q
         (Deployment.answer (n_world n) (Query.Name q) (Query.Type_ q) (Query.Selector q)) (lookup_main (prog :: args)).1.
Proof.
  intros HP Hre Hdir Hcol Hdial Hparse Hsw. cbn [lookup_main]. rewrite Hparse. unfold run_lookup. set (e := lookup_env vs pos). intros Hok.
  destruct (Lookup.lookup_checked (CR := client_at (Lookup.ns_addr e)) artifact HexToAddress unmarshal_envelope unmarshal_response
    unmarshal_wf e Hsw) as (endpoint & key & q & w & envl & Hdisc & Hargs & Hw & Hv & Hin & Hkey & on & Hon & Hshown); [|exact Hok|].
  - intros q Hname w on Hw Hon Hx. apply resolve_at in Hon. apply Hdial in Hw. subst w on.
    eapply Deployment.answer_bounded; [exact HP|exact Hre|apply Hcol|by apply Query.ValidateName_length|exact Hx].
  - apply resolve_at in Hon. apply Hdial in Hw. subst w on.
    assert (exists op, Registry.active (Registry.resolver_of (n_dir n) op) = true
      /\ key = hexutil_Encode (Registry.pubKey (Registry.resolver_of (n_dir n) op))) as (op & Hop & ->).
    { unfold Lookup.discoverResolver in Hdisc. case_bool_decide; [done|].
      destruct (Lookup.active e) as [[[ops eps] keys]|] eqn:Ea; [|done].
      assert (exists rr, active_at rr n = Some (ops, eps, keys)) as (rr & (Hops & -> & ->)%active_at_directory).
      { unfold e, lookup_env in Ea. cbn [Lookup.active] in Ea. destruct (dial s _) eqn:Ed; [|done]. apply Hdial in Ed as ->.
        eexists. exact Ea. }
      destruct ops as [|op ops]; [done|]. injection Hdisc as _ <-. exists op. split; [|done].
      apply (Registry.active_operators_elem _ _ Hdir). rewrite <- Hops. left. }
    exists op, q, envl. split_and!; try done.
Qed.
End Clients.

(** * A run against four contracts

    Alice has registered her name and set a record that she signed; an operator has
    announced a resolver, which answers honestly. *)
#[local] Existing Instances Query.ascii_case Pki.merge_sort_pairs Pki.merge_sort_pairs_laws Zk.toy_mimc Zk.toy_groth
  Pki.toy_ed Pki.toy_ed_laws Encoding.std_hexutil_laws Authority.toy_keccak Authority.toy_immutables.
Definition demo_pub : bytes := be_bytes 65 77.
Definition demo_sig : bytes := be_bytes 32 77 ++ replicate 32 x00 ++ [x1b].
Definition demo_calls : list (Contract.msg * Contract.call) :=
  [(Authority.by_alice 1000 0, Contract.Commit (Contract.makeCommitment (str "alice") Authority.alice demo_pub Authority.demo_secret));
   (Authority.by_alice 1040 130, Contract.Register (str "alice") demo_pub Authority.demo_secret);
   (Authority.by_alice 1050 0, Contract.SetRecord (str "alice") (str "A") [] [str "address"] [str "10.0.0.1"] 300 demo_sig zero_hash)].
Definition demo_deployed : go Contract.sol_error Contract.store :=
  r ← Contract.constructor (Authority.by_alice 0 0); Authority.transact demo_calls (Contract.mkStore Contract.empty_state r).
Definition demo_store : Contract.store :=
  match demo_deployed with Ret st => st | _ => Contract.mkStore Contract.empty_state (Contract.mkRegistry ∅ []) end.
Lemma demo_store_reachable : Contract.reachable Contract.widths (rev demo_calls) demo_store.
Proof.
  assert (demo_deployed = Ret demo_store) as (r & Hr & Hrun)%go_bind_ret.
  { unfold demo_store. assert (is_ret demo_deployed = true) as H by vm_refl. by destruct demo_deployed. }
  rewrite <- (app_nil_r (rev _)). eapply Authority.transact_reachable; [by eapply Contract.reach_init| |exact Hrun].
  repeat (apply Forall_cons; split; [unfold Contract.widths; cbn; repeat split; (lia || done)|]). constructor.
Qed.

Definition demo_dir : Registry.state :=
  Registry.block (Registry.demo_msg (be_bytes 20 9) 10) (Registry.Announce (Pki.PublicKey Lookup.demo_id) (str "http://r")) Registry.empty_state.
Definition client_node : node :=
  mkNode (Deployment.mkWorld demo_store 1065 Authority.alice []) (Incentives.mkState ∅ 0 0) demo_dir [].
Definition demo_answer : ResolveResult :=
  let a := Deployment.answer (n_world client_node) (str "alice") (str "A") [] in mkResolveResult (RR_Record a) (Chain.Owner a) (PubKey a) true [].
Definition demo_response : Handle.resolveResponse_t :=
  Handle.build_response (fun a => a) Handle.demo_query (Handle.mkQueryResult demo_answer false).
Definition demo_envelope : option Pki.Envelope :=
  match Pki.SealEnvelope (fun _ => Ret (E := ()) (str "{}")) Lookup.demo_id demo_response with Ret e => Some e | _ => None end.
Definition demo_surroundings : surroundings :=
  mkSurroundings (fun _ => [])
    (fun _ => Some (Cli.mkContracts (Node.demo_addr 0) (Node.demo_addr 1) (Node.demo_addr 3) (Node.demo_addr 2)))
    (fun _ => Some client_node) (fun _ _ _ => Some []) (fun _ _ _ _ => None) (fun _ => true).
Definition demo_lookup_main : list bytes -> Lookup.run :=
  lookup_main (EC := Pki.toy_eth) (Node.demo_addr 0) (Node.demo_addr 1) (Node.demo_addr 2) (Node.demo_addr 3) Handle.demo_artifact (fun a => a)
    (fun _ => None) (fun _ => demo_envelope) (fun _ => Some (Lookup.client_view demo_response)) demo_surroundings.
Definition demo_args : list bytes := [str "alice"; str "--discover"; str "A"].

Lemma demo_response_wf (data : bytes) r : Some (Lookup.client_view demo_response) = Some r -> Lookup.response_wf r.
Proof.
  intros [= <-] rj Hrj.
  assert (match Lookup.rp_Record (Lookup.client_view demo_response) with
    | Some rj => (0 <=? Handle.rj_TTL rj) && (Handle.rj_TTL rj <? 2 ^ 32) && (0 <=? Handle.rj_Generation rj) && (Handle.rj_Generation rj <? 2 ^ 64)
    | None => true end = true) as H by vm_refl.
  rewrite Hrj in H. lia.
Qed.

Lemma discovering_lookup_anchored_witness :
  Exists (RR_Record (Deployment.answer (n_world client_node) (str "alice") (str "A") [])) = true
  /\ exists q, Lookup.answer_shown (EC := Pki.toy_eth) Handle.demo_artifact (fun a => a) q
       (Deployment.answer (n_world client_node) (Query.Name q) (Query.Type_ q) (Query.Selector q)) (demo_lookup_main (str "ddns-lookup" :: demo_args)).1.
Proof.
  split; [vm_refl|].
  destruct (discovering_lookup_anchored (EC := Pki.toy_eth) (Node.demo_addr 0) (Node.demo_addr 1) (Node.demo_addr 2) (Node.demo_addr 3)
    Handle.demo_artifact (fun a => a) (fun _ => None) (fun _ => demo_envelope) (fun _ => Some (Lookup.client_view demo_response)) demo_surroundings
    Node.demo_addresses demo_response_wf
    Contract.widths (rev demo_calls) client_node (str "ddns-lookup") demo_args [(str "discover", str "true")] [str "alice"; str "A"])
    as (op & q & envl & _ & _ & _ & _ & _ & H).
  - intros m c H. exact H.
  - exact demo_store_reachable.
  - apply Registry.block_reachable; [constructor|cbn; lia].
  - intros name typ sel sc Hsc. pose proof (Authority.reachable_schemas _ _ _ _ _ demo_store_reachable Hsc) as [_ [Hn _] _ _ _].
    by apply Authority.toy_keccak_inj in Hn.
  - intros rpc n' [= <-]. reflexivity.
  - reflexivity.
  - reflexivity.
  - vm_refl.
  - exists q. exact H.
Defined.
End Clients.
